(** * ComputerGraphics: image buffer, PPM codec, point operations, histogram
    transforms, spatial filters, binarization, 2D geometry and Bezier curves.

    Shallow embedding of the Python sources under [src/]:
    - Python [int] is [Z]; Python [float] is IEEE-754 binary64, embedded as
      the primitive [float] of the kernel, so every float operation below
      computes bit-for-bit what CPython computes;
    - a [bytearray] is a [list Z] whose stores check the byte range;
    - exceptions are the [Err] branch of the [result] monad;
    - [for] loops are monadic folds over the index list of their [range];
    - the interpreter is CPython 3.11 on a 64-bit platform with its default
      settings: [sys.maxsize] is [2^63 - 1], conversions between [int] and
      [str] stop at 4300 digits, and the built-in [sum] adds from left to
      right.  Running out of memory is not modelled. *)

From Stdlib Require Import ZArith Lia Zify ZifyNat Floats Uint63.
From Stdlib Require DecimalPos.
From Stdlib Require Import Ring.
From stdpp Require Import list sorting.

Local Open Scope Z_scope.

(** [lia] also decides goals with division and remainder by a constant. *)
Ltac Zify.zify_post_hook ::= Z.to_euclidean_division_equations.

(** ** Exceptions and the result monad *)

Inductive exn : Set :=
| ValueError | IndexError | ZeroDivisionError | OverflowError
| UnicodeDecodeError | PPMFormatError.

Inductive result (A : Type) : Type :=
| Ok (a : A)
| Err (e : exn).
Arguments Ok {A} a.
Arguments Err {A} e.

#[global] Instance result_ret : MRet result := fun A a => Ok a.
#[global] Instance result_bind : MBind result :=
  fun A B f m => match m with Ok a => f a | Err e => Err e end.

Definition is_ok {A} (r : result A) : bool :=
  match r with Ok _ => true | Err _ => false end.

(** [for x in xs: body] without [break]. *)
Fixpoint forM {A S : Type} (xs : list A) (body : A -> S -> result S) (s : S)
  : result S :=
  match xs with
  | [] => Ok s
  | x :: rest => s' ← body x s; forM rest body s'
  end.

(** Loops that may [break]: the body says whether the loop goes on. *)
Inductive ctl (S : Type) : Type :=
| Next (s : S)
| Break (s : S).
Arguments Next {S} s.
Arguments Break {S} s.

Fixpoint for_break {A S : Type} (xs : list A) (body : A -> S -> result (ctl S))
  (s : S) : result S :=
  match xs with
  | [] => Ok s
  | x :: rest =>
      c ← body x s;
      match c with
      | Next s' => for_break rest body s'
      | Break s' => Ok s'
      end
  end.

(** [range(n)] and [range(start, stop, step)] for a positive step. *)
Definition range (n : Z) : list Z :=
  (fun k => Z.of_nat k) <$> seq 0 (Z.to_nat n).

Definition range_from (start stop : Z) : list Z :=
  (fun k => start + Z.of_nat k) <$> seq 0 (Z.to_nat (stop - start)).

Definition range_step (start stop step : Z) : list Z :=
  (fun k => start + step * Z.of_nat k)
    <$> seq 0 (Z.to_nat ((stop - start + step - 1) / step)).

(** ** Python numbers *)

Module Py.

(** [float(z)] for an [int]: correctly rounded (ties to even).  Both
    branches compute the same rounding; the first one is the fast path. *)
Definition Z2F (z : Z) : float :=
  if Z.abs z <? 2 ^ 62 then
    if z <? 0 then (- of_uint63 (of_Z (- z)))%float else of_uint63 (of_Z z)
  else SF2Prim (binary_normalize prec emax z 0 false).

Definition float_of_int (z : Z) : result float :=
  let f := Z2F z in
  if is_infinity f then Err OverflowError else Ok f.

(** [int(x)] for a float: truncation toward zero. *)
Definition sf_trunc (s : spec_float) : result Z :=
  match s with
  | S754_zero _ => Ok 0
  | S754_finite sg m e =>
      let a := if 0 <=? e then Z.pos m * 2 ^ e else Z.pos m / 2 ^ (- e) in
      Ok (if sg then - a else a)
  | S754_infinity _ => Err OverflowError
  | S754_nan => Err ValueError
  end.

Definition int_of_float (x : float) : result Z := sf_trunc (Prim2SF x).

(** [round(x)] for a float: nearest integer, ties to even. *)
Definition sf_round (s : spec_float) : result Z :=
  match s with
  | S754_zero _ => Ok 0
  | S754_finite sg m e =>
      let a :=
        if 0 <=? e then Z.pos m * 2 ^ e
        else
          let d := 2 ^ (- e) in
          let q := Z.pos m / d in
          let r := Z.pos m mod d in
          match 2 * r ?= d with
          | Lt => q
          | Gt => q + 1
          | Eq => if Z.even q then q else q + 1
          end in
      Ok (if sg then - a else a)
  | S754_infinity _ => Err OverflowError
  | S754_nan => Err ValueError
  end.

Definition round_float (x : float) : result Z := sf_round (Prim2SF x).

(** [a / b] for two [int]s: the correctly rounded quotient.  Operands below
    2^53 convert exactly, so the hardware quotient is the answer; larger
    ones go through a quotient with a sticky bit. *)
Definition int_truediv (a b : Z) : result float :=
  if b =? 0 then Err ZeroDivisionError
  else if (Z.abs a <? 2 ^ 53) && (Z.abs b <? 2 ^ 53) then Ok (Z2F a / Z2F b)%float
  else
    let neg := xorb (a <? 0) (b <? 0) in
    if a =? 0 then Ok (if neg then neg_zero else zero)
    else
      let s := Z.max 0 (Z.log2 (Z.abs b) - Z.log2 (Z.abs a) + 56) in
      let q := (Z.abs a * 2 ^ s) / Z.abs b in
      let r := (Z.abs a * 2 ^ s) mod Z.abs b in
      let m := 2 * q + (if r =? 0 then 0 else 1) in
      let f := SF2Prim (binary_normalize prec emax (if neg then - m else m)
                          (- s - 1) false) in
      if is_infinity f then Err OverflowError else Ok f.

(** A number is an [int] or a [float]; arithmetic promotes to [float] as
    soon as one operand is a [float]. *)
Inductive num : Set :=
| Int (z : Z)
| Flt (f : float).

Definition to_float (n : num) : result float :=
  match n with
  | Int z => float_of_int z
  | Flt f => Ok f
  end.

Definition add (a b : num) : result num :=
  match a, b with
  | Int x, Int y => Ok (Int (x + y))
  | _, _ => x ← to_float a; y ← to_float b; Ok (Flt (x + y)%float)
  end.

Definition sub (a b : num) : result num :=
  match a, b with
  | Int x, Int y => Ok (Int (x - y))
  | _, _ => x ← to_float a; y ← to_float b; Ok (Flt (x - y)%float)
  end.

Definition mul (a b : num) : result num :=
  match a, b with
  | Int x, Int y => Ok (Int (x * y))
  | _, _ => x ← to_float a; y ← to_float b; Ok (Flt (x * y)%float)
  end.

Definition truediv (a b : num) : result num :=
  match a, b with
  | Int x, Int y => f ← int_truediv x y; Ok (Flt f)
  | _, _ =>
      x ← to_float a; y ← to_float b;
      if (y =? 0)%float then Err ZeroDivisionError else Ok (Flt (x / y)%float)
  end.

Definition neg (a : num) : num :=
  match a with
  | Int x => Int (- x)
  | Flt f => Flt (- f)%float
  end.

(** [a == 0], [a <= b], [a < b]; mixed comparisons are exact in Python, and
    every mixed comparison of the sources has a small [int] on one side. *)
Definition is_zero (a : num) : bool :=
  match a with
  | Int x => x =? 0
  | Flt f => (f =? 0)%float
  end.

Definition leb (a b : num) : bool :=
  match a, b with
  | Int x, Int y => x <=? y
  | Int x, Flt g => (Z2F x <=? g)%float
  | Flt f, Int y => (f <=? Z2F y)%float
  | Flt f, Flt g => (f <=? g)%float
  end.

Definition ltb (a b : num) : bool :=
  match a, b with
  | Int x, Int y => x <? y
  | Int x, Flt g => (Z2F x <? g)%float
  | Flt f, Int y => (f <? Z2F y)%float
  | Flt f, Flt g => (f <? g)%float
  end.

(** Truth value of a number: false for [0], [0.0] and [-0.0]. *)
Definition truthy (a : num) : bool := negb (is_zero a).

(** [int(x)] and [round(x)]. *)
Definition to_int (a : num) : result Z :=
  match a with
  | Int x => Ok x
  | Flt f => int_of_float f
  end.

Definition round (a : num) : result Z :=
  match a with
  | Int x => Ok x
  | Flt f => round_float f
  end.

End Py.

Example Z2F_3 : Py.Z2F 3 = 3%float.
Proof. reflexivity. Qed.
Example int_of_float_ex : Py.int_of_float (-2.75)%float = Ok (-2).
Proof. vm_compute. reflexivity. Qed.
Example round_half_even_ex :
  (Py.round_float 0.5, Py.round_float 1.5, Py.round_float 2.5, Py.round_float (-63.75))
  = (Ok 0, Ok 2, Ok 2, Ok (-64)).
Proof. vm_compute. reflexivity. Qed.
Example int_truediv_ex : Py.int_truediv 2 3 = Ok (0x1.5555555555555p-1)%float.
Proof. vm_compute. reflexivity. Qed.

(** ** Lists and bytearrays with Python indexing *)

(** An index [i] of a sequence of length [len]: negative indices count from
    the end, anything else out of range raises [IndexError]. *)
Definition norm_index (len : nat) (i : Z) : result nat :=
  if (0 <=? i) && (i <? Z.of_nat len) then Ok (Z.to_nat i)
  else if (- Z.of_nat len <=? i) && (i <? 0) then Ok (Z.to_nat (Z.of_nat len + i))
  else Err IndexError.

Definition lget {A} (l : list A) (i : Z) : result A :=
  k ← norm_index (length l) i;
  match l !! k with
  | Some v => Ok v
  | None => Err IndexError
  end.

Definition lset {A} (l : list A) (i : Z) (v : A) : result (list A) :=
  k ← norm_index (length l) i; Ok (<[k := v]> l).

(** [d[i] = v] on a bytearray: the index is checked first, then the value
    must be a byte. *)
Definition bset (d : list Z) (i : Z) (v : Z) : result (list Z) :=
  k ← norm_index (length d) i;
  if (0 <=? v) && (v <? 256) then Ok (<[k := v]> d) else Err ValueError.

(** [bytearray(n)]. *)
Definition zeros (n : nat) : list Z := replicate n 0.

Definition len {A} (l : list A) : Z := Z.of_nat (length l).

(** ** image_buffer.py *)

Record ImageBuffer : Set := mkImage {
  width : Z;
  height : Z;
  max_value : Z;
  data : list Z
}.

Definition Pixel : Set := Z * Z * Z.

Definition copy (self : ImageBuffer) : ImageBuffer :=
  mkImage (width self) (height self) (max_value self) (data self).

(** [max(0, min(self.max_value, int(round(value))))]. *)
Definition clamp (self : ImageBuffer) (value : Py.num) : result Z :=
  r ← Py.round value; Ok (Z.max 0 (Z.min (max_value self) r)).


Definition validate_coordinates (self : ImageBuffer) (x y : Z) : result unit :=
  if (0 <=? x) && (x <? width self) && (0 <=? y) && (y <? height self)
  then Ok tt else Err IndexError.

Definition offset (self : ImageBuffer) (x y : Z) : Z := (y * width self + x) * 3.

Definition get_pixel (self : ImageBuffer) (x y : Z) : result Pixel :=
  _ ← validate_coordinates self x y;
  let idx := offset self x y in
  r ← lget (data self) idx; g ← lget (data self) (idx + 1);
  b ← lget (data self) (idx + 2);
  Ok (r, g, b).

Definition apply_point_operation (self : ImageBuffer)
  (func : Z -> Z -> Z -> result (Py.num * Py.num * Py.num)) : result ImageBuffer :=
  new_data ← forM (range_step 0 (len (data self)) 3)
    (fun i nd =>
       r0 ← lget (data self) i; g0 ← lget (data self) (i + 1);
       b0 ← lget (data self) (i + 2);
       '(r, g, b) ← func r0 g0 b0;
       cr ← clamp self r; nd ← bset nd i cr;
       cg ← clamp self g; nd ← bset nd (i + 1) cg;
       cb ← clamp self b; bset nd (i + 2) cb)
    (zeros (length (data self)));
  Ok (mkImage (width self) (height self) (max_value self) new_data).

(** The luminance of a pixel, [int(0.2126 * r + 0.7152 * g + 0.0722 * b)].
    The three literals are the doubles nearest to the decimal constants. *)
Definition w_r : float := 0x1.b367a0f9096bcp-3.
Definition w_g : float := 0x1.6e2eb1c432ca5p-1.
Definition w_b : float := 0x1.27bb2fec56d5dp-4.

Definition luminance_float (r g b : Z) : float :=
  (w_r * Py.Z2F r + w_g * Py.Z2F g + w_b * Py.Z2F b)%float.

Definition luminance (r g b : Z) : result Z :=
  Py.int_of_float (luminance_float r g b).

(** ** operations.py *)

Definition _scalar_point_op (image : ImageBuffer) (func : Z -> result Py.num)
  : result ImageBuffer :=
  new_data ← forM (imap (fun i v => (Z.of_nat i, v)) (data image))
    (fun '(i, value) nd =>
       fv ← func value; c ← clamp image fv; bset nd i c)
    (zeros (length (data image)));
  Ok (mkImage (width image) (height image) (max_value image) new_data).

Definition add_constant (image : ImageBuffer) (value : Py.num) :=
  _scalar_point_op image (fun channel => Py.add (Py.Int channel) value).

Definition subtract_constant (image : ImageBuffer) (value : Py.num) :=
  _scalar_point_op image (fun channel => Py.sub (Py.Int channel) value).

Definition multiply (image : ImageBuffer) (factor : Py.num) :=
  _scalar_point_op image (fun channel => Py.mul (Py.Int channel) factor).

Definition divide (image : ImageBuffer) (divisor : Py.num) :=
  if Py.is_zero divisor then Err ZeroDivisionError
  else _scalar_point_op image (fun channel => Py.truediv (Py.Int channel) divisor).

Definition change_brightness (image : ImageBuffer) (delta : Py.num) :=
  add_constant image delta.

Definition linear_color_scale (image : ImageBuffer) (scale_r scale_g scale_b : Py.num)
  : result ImageBuffer :=
  new_data ← forM (range_step 0 (len (data image)) 3)
    (fun i nd =>
       r ← lget (data image) i; vr ← Py.mul (Py.Int r) scale_r;
       cr ← clamp image vr; nd ← bset nd i cr;
       g ← lget (data image) (i + 1); vg ← Py.mul (Py.Int g) scale_g;
       cg ← clamp image vg; nd ← bset nd (i + 1) cg;
       b ← lget (data image) (i + 2); vb ← Py.mul (Py.Int b) scale_b;
       cb ← clamp image vb; bset nd (i + 2) cb)
    (zeros (length (data image)));
  Ok (mkImage (width image) (height image) (max_value image) new_data).

Definition grayscale_average (image : ImageBuffer) : result ImageBuffer :=
  apply_point_operation image
    (fun r g b =>
       q ← Py.int_truediv (r + g + b) 3; v ← Py.int_of_float q;
       Ok (Py.Int v, Py.Int v, Py.Int v)).

Definition grayscale_luminance (image : ImageBuffer) : result ImageBuffer :=
  apply_point_operation image
    (fun r g b => v ← luminance r g b; Ok (Py.Int v, Py.Int v, Py.Int v)).

(** ** histogram.py *)

Definition compute_histogram (image : ImageBuffer) (channel : Z) : result (list Z) :=
  forM (range_step channel (len (data image)) 3)
    (fun i hist =>
       v ← lget (data image) i; c ← lget hist v; lset hist v (c + 1))
    (replicate 256 0).

Definition compute_histogram_grayscale (image : ImageBuffer) : result (list Z) :=
  forM (range_step 0 (len (data image)) 3)
    (fun i hist =>
       r ← lget (data image) i; g ← lget (data image) (i + 1);
       b ← lget (data image) (i + 2);
       gray ← luminance r g b;
       c ← lget hist gray; lset hist gray (c + 1))
    (replicate 256 0).

(** [range(255, -1, -1)]. *)
Definition range_down_255 : list Z := reverse (range 256).

(** The two searches of [_stretch_single_channel]: the first index, in the
    order given, whose count is positive, or the preset value. *)
Definition first_occupied (hist : list Z) (order : list Z) (preset : Z) : result Z :=
  for_break order
    (fun i acc => c ← lget hist i; if 0 <? c then Ok (Break i) else Ok (Next acc))
    preset.

(** The other two channels are copied, [for ch in range(3): if ch != channel]. *)
Definition copy_other_channels (image : ImageBuffer) (channel : Z) (nd : list Z)
  : result (list Z) :=
  forM (range 3)
    (fun ch nd =>
       if ch =? channel then Ok nd
       else forM (range_step ch (len (data image)) 3)
              (fun i nd => v ← lget (data image) i; bset nd i v) nd)
    nd.

Definition _stretch_single_channel (image : ImageBuffer) (channel : Z)
  : result ImageBuffer :=
  hist ← compute_histogram image channel;
  min_val ← first_occupied hist (range 256) 0;
  max_val ← first_occupied hist range_down_255 255;
  if max_val <=? min_val then Ok (copy image)
  else
    scale ← Py.int_truediv 255 (max_val - min_val);
    nd ← forM (range_step channel (len (data image)) 3)
      (fun i nd =>
         old_val ← lget (data image) i;
         new_val ← Py.int_of_float (Py.Z2F (old_val - min_val) * scale)%float;
         c ← clamp image (Py.Int new_val); bset nd i c)
      (zeros (length (data image)));
    nd ← copy_other_channels image channel nd;
    Ok (mkImage (width image) (height image) (max_value image) nd).

(** [channel in (0, 1, 2)], for [channel: int | None]. *)
Definition is_rgb_channel (channel : option Z) : option Z :=
  match channel with
  | Some c => if (c =? 0) || (c =? 1) || (c =? 2) then Some c else None
  | None => None
  end.

Definition histogram_stretch (image : ImageBuffer) (channel : option Z)
  : result ImageBuffer :=
  match is_rgb_channel channel with
  | Some c => _stretch_single_channel image c
  | None => forM (range 3) (fun ch r => _stretch_single_channel r ch) (copy image)
  end.

(** The cumulative histogram: [cdf[0] = hist[0]], [cdf[i] = cdf[i-1] + hist[i]]. *)
Definition cumulative (hist : list Z) : result (list Z) :=
  h0 ← lget hist 0;
  cdf ← lset (replicate 256 0) 0 h0;
  forM (range_from 1 256)
    (fun i cdf => p ← lget cdf (i - 1); h ← lget hist i; lset cdf i (p + h)) cdf.

(** [min(cdf[i] for i in range(256) if hist[i] > 0)]; [min] of an empty
    sequence raises [ValueError]. *)
Definition cdf_min_of (hist cdf : list Z) : result Z :=
  m ← forM (range 256)
    (fun i (m : option Z) =>
       h ← lget hist i;
       if 0 <? h then
         c ← lget cdf i;
         Ok (Some (match m with Some m0 => if c <? m0 then c else m0 | None => c end))
       else Ok m)
    None;
  match m with
  | Some v => Ok v
  | None => Err ValueError
  end.

Definition _equalize_single_channel (image : ImageBuffer) (channel : Z)
  : result ImageBuffer :=
  hist ← compute_histogram image channel;
  let total_pixels := width image * height image in
  if total_pixels =? 0 then Ok (copy image)
  else
    cdf ← cumulative hist;
    cdf_min ← cdf_min_of hist cdf;
    if total_pixels <=? cdf_min then Ok (copy image)
    else
      scale ← Py.int_truediv 255 (total_pixels - cdf_min);
      lut ← forM (range 256)
        (fun i lut =>
           c ← lget cdf i;
           s ← Py.float_of_int (c - cdf_min);
           v ← Py.int_of_float (s * scale)%float;
           lset lut i v)
        (replicate 256 0);
      nd ← forM (range_step channel (len (data image)) 3)
        (fun i nd =>
           old_val ← lget (data image) i;
           l ← lget lut old_val;
           c ← clamp image (Py.Int l); bset nd i c)
        (zeros (length (data image)));
      nd ← copy_other_channels image channel nd;
      Ok (mkImage (width image) (height image) (max_value image) nd).

Definition histogram_equalization (image : ImageBuffer) (channel : option Z)
  : result ImageBuffer :=
  match is_rgb_channel channel with
  | Some c => _equalize_single_channel image c
  | None => forM (range 3) (fun ch r => _equalize_single_channel r ch) (copy image)
  end.

(** ** filters.py *)

Definition _clamp (value lower upper : Z) : Z := Z.max lower (Z.min upper value).

(** [sum(xs)]: the additions start from the [int] 0. *)
Definition py_sum (xs : list Py.num) : result Py.num :=
  forM xs (fun x acc => Py.add acc x) (Py.Int 0).

(** [acc[c] += weight * src[base + c]] for the three channels. *)
Definition accumulate (src : list Z) (weight : Py.num) (base : Z)
  (acc : Py.num * Py.num * Py.num) : result (Py.num * Py.num * Py.num) :=
  let '(a0, a1, a2) := acc in
  v0 ← lget src base; p0 ← Py.mul weight (Py.Int v0); a0 ← Py.add a0 p0;
  v1 ← lget src (base + 1); p1 ← Py.mul weight (Py.Int v1); a1 ← Py.add a1 p1;
  v2 ← lget src (base + 2); p2 ← Py.mul weight (Py.Int v2); a2 ← Py.add a2 p2;
  Ok (a0, a1, a2).

Definition acc0 : Py.num * Py.num * Py.num := (Py.Flt 0, Py.Flt 0, Py.Flt 0).

Definition _convolve (image : ImageBuffer) (kernel : list (list Py.num))
  (divisor : option Py.num) (offset : Py.num) : result ImageBuffer :=
  let size := len kernel in
  if (size mod 2 =? 0) || existsb (fun row => negb (len row =? size)) kernel
  then Err ValueError
  else
    let radius := size / 2 in
    divisor ← match divisor with
              | Some d => if Py.truthy d then Ok d
                          else rows ← mapM py_sum kernel; py_sum rows
              | None => rows ← mapM py_sum kernel; py_sum rows
              end;
    let divisor := if Py.is_zero divisor then Py.Int 1 else divisor in
    let w := width image in
    let h := height image in
    let src := data image in
    new_data ← forM (range h)
      (fun y nd =>
         forM (range w)
           (fun x nd =>
              acc ← forM (range size)
                (fun ky acc =>
                   forM (range size)
                     (fun kx acc =>
                        let nx := _clamp (x + kx - radius) 0 (w - 1) in
                        let ny := _clamp (y + ky - radius) 0 (h - 1) in
                        row ← lget kernel ky; weight ← lget row kx;
                        accumulate src weight ((ny * w + nx) * 3) acc)
                     acc)
                acc0;
              let '(a0, a1, a2) := acc in
              let idx := (y * w + x) * 3 in
              q0 ← Py.truediv a0 divisor; v0 ← Py.add q0 offset;
              c0 ← clamp image v0; nd ← bset nd idx c0;
              q1 ← Py.truediv a1 divisor; v1 ← Py.add q1 offset;
              c1 ← clamp image v1; nd ← bset nd (idx + 1) c1;
              q2 ← Py.truediv a2 divisor; v2 ← Py.add q2 offset;
              c2 ← clamp image v2; bset nd (idx + 2) c2)
           nd)
      (zeros (length src));
    Ok (mkImage w h (max_value image) new_data).

Definition mean_filter (image : ImageBuffer) (size : Z) : result ImageBuffer :=
  let kernel := (fun _ => (fun _ => Py.Flt 1) <$> range size) <$> range size in
  _convolve image kernel (Some (Py.Int (size * size))) (Py.Flt 0).

Definition high_pass_kernel : list (list Py.num) :=
  (fun row : list Z => Py.Int <$> row)
    <$> ([[0; -1; 0]; [-1; 5; -1]; [0; -1; 0]] : list (list Z)).

Definition high_pass_sharpen (image : ImageBuffer) : result ImageBuffer :=
  _convolve image high_pass_kernel None (Py.Flt 0).

Definition custom_convolution (image : ImageBuffer) (kernel : list (list Py.num))
  (divisor : option Py.num) (offset : Py.num) : result ImageBuffer :=
  _convolve image kernel divisor offset.

(** [list.sort()] on integers: the sorted permutation. *)
Definition py_sort (l : list Z) : list Z := merge_sort Z.le l.

Definition median_filter (image : ImageBuffer) (size : Z) : result ImageBuffer :=
  let radius := size / 2 in
  let w := width image in
  let h := height image in
  let src := data image in
  new_data ← forM (range h)
    (fun y nd =>
       forM (range w)
         (fun x nd =>
            '(nr, ng, nb) ← forM (range_from (- radius) (radius + 1))
              (fun ky ns =>
                 forM (range_from (- radius) (radius + 1))
                   (fun kx '(nr, ng, nb) =>
                      let nx := _clamp (x + kx) 0 (w - 1) in
                      let ny := _clamp (y + ky) 0 (h - 1) in
                      let idx := (ny * w + nx) * 3 in
                      r ← lget src idx; g ← lget src (idx + 1);
                      b ← lget src (idx + 2);
                      Ok (nr ++ [r], ng ++ [g], nb ++ [b]))
                   ns)
              ([], [], []);
            let nr := py_sort nr in
            let ng := py_sort ng in
            let nb := py_sort nb in
            let idx := len nr / 2 in
            let idx_data := (y * w + x) * 3 in
            r ← lget nr idx; nd ← bset nd idx_data r;
            g ← lget ng idx; nd ← bset nd (idx_data + 1) g;
            b ← lget nb idx; bset nd (idx_data + 2) b)
         nd)
    (zeros (length src));
  Ok (mkImage w h (max_value image) new_data).

(** [math.sqrt]: a negative argument is a domain error. *)
Definition math_sqrt (x : float) : result float :=
  if (x <? 0)%float then Err ValueError else Ok (PrimFloat.sqrt x).

Definition _apply_separable (image : ImageBuffer) (kernel : list float)
  (axis_x : bool) : result ImageBuffer :=
  let radius := len kernel / 2 in
  let w := width image in
  let h := height image in
  let src := data image in
  new_data ← forM (range h)
    (fun y nd =>
       forM (range w)
         (fun x nd =>
            acc ← forM (imap (fun k wt => (Z.of_nat k, wt)) kernel)
              (fun '(k, weight) acc =>
                 let off := k - radius in
                 let nx := if axis_x then _clamp (x + off) 0 (w - 1) else x in
                 let ny := if axis_x then y else _clamp (y + off) 0 (h - 1) in
                 accumulate src (Py.Flt weight) ((ny * w + nx) * 3) acc)
              acc0;
            let '(a0, a1, a2) := acc in
            let idx := (y * w + x) * 3 in
            c0 ← clamp image a0; nd ← bset nd idx c0;
            c1 ← clamp image a1; nd ← bset nd (idx + 1) c1;
            c2 ← clamp image a2; bset nd (idx + 2) c2)
         nd)
    (zeros (length src));
  Ok (mkImage w h (max_value image) new_data).

Section Libm.
(** The C library behind [x ** y] on floats and [math.exp]; both may raise
    [OverflowError] or [ValueError]. *)
Variable float_pow : float -> float -> result float.
Variable math_exp : float -> result float.

(** [x ** 2]: an [int] stays an [int]. *)
Definition square (x : Py.num) : result Py.num :=
  match x with
  | Py.Int z => Ok (Py.Int (z * z))
  | Py.Flt f => r ← float_pow f 2; Ok (Py.Flt r)
  end.

(** [math.sqrt(gx ** 2 + gy ** 2)]. *)
Definition magnitude (gx gy : Py.num) : result Py.num :=
  sx ← square gx; sy ← square gy; s ← Py.add sx sy;
  f ← Py.to_float s; r ← math_sqrt f; Ok (Py.Flt r).

Definition gx_kernel : list (list Z) := [[-1; 0; 1]; [-2; 0; 2]; [-1; 0; 1]].
Definition gy_kernel : list (list Z) := [[-1; -2; -1]; [0; 0; 0]; [1; 2; 1]].

Definition sobel_edge (image : ImageBuffer) : result ImageBuffer :=
  let radius := 1 in
  let w := width image in
  let h := height image in
  let src := data image in
  new_data ← forM (range h)
    (fun y nd =>
       forM (range w)
         (fun x nd =>
            '(ax, ay) ← forM (range_from (- radius) (radius + 1))
              (fun ky accs =>
                 forM (range_from (- radius) (radius + 1))
                   (fun kx '(ax, ay) =>
                      let nx := _clamp (x + kx) 0 (w - 1) in
                      let ny := _clamp (y + ky) 0 (h - 1) in
                      rx ← lget gx_kernel (ky + radius);
                      weight_x ← lget rx (kx + radius);
                      ry ← lget gy_kernel (ky + radius);
                      weight_y ← lget ry (kx + radius);
                      let base := (ny * w + nx) * 3 in
                      ax ← accumulate src (Py.Int weight_x) base ax;
                      ay ← accumulate src (Py.Int weight_y) base ay;
                      Ok (ax, ay))
                   accs)
              (acc0, acc0);
            let '(xr, xg, xb) := ax in
            let '(yr, yg, yb) := ay in
            m0 ← magnitude xr yr; m1 ← magnitude xg yg; m2 ← magnitude xb yb;
            let idx := (y * w + x) * 3 in
            c0 ← clamp image m0; nd ← bset nd idx c0;
            c1 ← clamp image m1; nd ← bset nd (idx + 1) c1;
            c2 ← clamp image m2; bset nd (idx + 2) c2)
         nd)
    (zeros (length src));
  Ok (mkImage w h (max_value image) new_data).

Definition _gaussian_kernel (radius : Z) (sigma : Py.num) : result (list float) :=
  '(kernel, total) ← forM (range_from (- radius) (radius + 1))
    (fun i '(kernel, total) =>
       s2 ← square sigma; den ← Py.mul (Py.Int 2) s2;
       q ← Py.truediv (Py.Int (- (i * i))) den; qf ← Py.to_float q;
       weight ← math_exp qf;
       Ok (kernel ++ [weight], (total + weight)%float))
    ([], 0%float);
  mapM (fun wt => if (total =? 0)%float then Err ZeroDivisionError
                  else Ok (wt / total)%float) kernel.

Definition gaussian_blur (image : ImageBuffer) (sigma : Py.num)
  : result ImageBuffer :=
  if Py.leb sigma (Py.Int 0) then Err ValueError
  else
    s3 ← Py.mul (Py.Int 3) sigma; r ← Py.to_int s3;
    let radius := Z.max 1 r in
    kernel ← _gaussian_kernel radius sigma;
    temp ← _apply_separable image kernel true;
    _apply_separable temp kernel false.
End Libm.

(** ** binarization.py *)

Definition threshold_manual (image : ImageBuffer) (threshold : Z)
  : result ImageBuffer :=
  if negb ((0 <=? threshold) && (threshold <=? 255)) then Err ValueError
  else
    new_data ← forM (range_step 0 (len (data image)) 3)
      (fun i nd =>
         r ← lget (data image) i; g ← lget (data image) (i + 1);
         b ← lget (data image) (i + 2);
         gray ← luminance r g b;
         let value := if threshold <=? gray then 255 else 0 in
         nd ← bset nd i value; nd ← bset nd (i + 1) value; bset nd (i + 2) value)
      (zeros (length (data image)));
    Ok (mkImage (width image) (height image) (max_value image) new_data).

(** The cumulative scan of [threshold_percent_black]; the state is
    [(cumulative, threshold)]. *)
Definition percent_black_threshold (hist : list Z) (target_black : Z) : result Z :=
  st ← for_break (range 256)
    (fun i '(cumulative, threshold) =>
       h ← lget hist i;
       let cumulative := cumulative + h in
       if target_black <=? cumulative then Ok (Break (cumulative, i))
       else Ok (Next (cumulative, threshold)))
    (0, 0);
  Ok (snd st).

Definition threshold_percent_black (image : ImageBuffer) (percent : Py.num)
  : result ImageBuffer :=
  if negb (Py.leb (Py.Flt 0) percent && Py.leb percent (Py.Flt 100))
  then Err ValueError
  else
    hist ← compute_histogram_grayscale image;
    let total_pixels := width image * height image in
    p ← Py.mul (Py.Int total_pixels) percent;
    q ← Py.truediv p (Py.Flt 100);
    target_black ← Py.to_int q;
    threshold ← percent_black_threshold hist target_black;
    threshold_manual image threshold.

(** [sum(i * hist[i] for i in range(a, b))] and [sum(hist[i] for ...)]. *)
Definition weighted_sum (hist : list Z) (a b : Z) : result Z :=
  forM (range_from a b) (fun i acc => h ← lget hist i; Ok (acc + i * h)) 0.

Definition count_sum (hist : list Z) (a b : Z) : result Z :=
  forM (range_from a b) (fun i acc => h ← lget hist i; Ok (acc + h)) 0.

(** One pass of the loop of [threshold_mean_iterative]. *)
Definition mean_iterative_body (hist : list Z) (threshold : Z) : result (ctl Z) :=
  sum_below ← weighted_sum hist 0 threshold;
  count_below ← count_sum hist 0 threshold;
  sum_above ← weighted_sum hist threshold 256;
  count_above ← count_sum hist threshold 256;
  if (count_below =? 0) || (count_above =? 0) then Ok (Break threshold)
  else
    mean_below ← Py.int_truediv sum_below count_below;
    mean_above ← Py.int_truediv sum_above count_above;
    new_threshold ← Py.int_of_float ((mean_below + mean_above) / 2)%float;
    if new_threshold =? threshold then Ok (Break threshold)
    else Ok (Next new_threshold).

Definition threshold_mean_iterative (image : ImageBuffer) (max_iterations : Z)
  : result ImageBuffer :=
  hist ← compute_histogram_grayscale image;
  total_sum ← weighted_sum hist 0 256;
  let total_pixels := width image * height image in
  if total_pixels =? 0 then threshold_manual image 128
  else
    m ← Py.int_truediv total_sum total_pixels;
    threshold ← Py.int_of_float m;
    threshold ← for_break (range max_iterations)
                  (fun _ threshold => mean_iterative_body hist threshold) threshold;
    threshold_manual image threshold.

Section Thresholds.
(** The C library behind [x ** y] on floats, [math.log2] and [math.log];
    they may raise [OverflowError] or [ValueError]. *)
Variable float_pow : float -> float -> result float.
Variables math_log2 math_log : float -> result float.

(** [sum(prob[i] for i in range(a, b))]. *)
Definition prob_sum (prob : list Py.num) (a b : Z) : result Py.num :=
  forM (range_from a b) (fun i acc => p ← lget prob i; Py.add acc p) (Py.Int 0).

(** One side of the entropy: over [range(a, b)], the intensities of
    positive probability give [entropy -= p_i * math.log2(p_i)] with
    [p_i = prob[i] / p_side]. *)
Definition entropy_side (prob : list Py.num) (p_side : Py.num) (a b : Z)
  : result Py.num :=
  forM (range_from a b)
    (fun i entropy =>
       p ← lget prob i;
       if Py.ltb (Py.Int 0) p then
         p ← lget prob i;
         p_i ← Py.truediv p p_side;
         x ← Py.to_float p_i; l ← math_log2 x;
         term ← Py.mul p_i (Py.Flt l);
         Py.sub entropy term
       else Ok entropy)
    (Py.Flt 0).

(** One pass of the loop of [threshold_entropy]; the state is
    [(max_entropy, best_threshold)]. *)
Definition entropy_step (prob : list Py.num) (t : Z) (st : Py.num * Z)
  : result (Py.num * Z) :=
  let '(max_entropy, best_threshold) := st in
  p_bg ← prob_sum prob 0 t;
  p_fg ← prob_sum prob t 256;
  if Py.is_zero p_bg || Py.is_zero p_fg then Ok st
  else
    entropy_bg ← entropy_side prob p_bg 0 t;
    entropy_fg ← entropy_side prob p_fg t 256;
    total_entropy ← Py.add entropy_bg entropy_fg;
    if Py.ltb max_entropy total_entropy then Ok (total_entropy, t) else Ok st.

Definition threshold_entropy (image : ImageBuffer) : result ImageBuffer :=
  hist ← compute_histogram_grayscale image;
  let total_pixels := width image * height image in
  if total_pixels =? 0 then threshold_manual image 128
  else
    prob ← mapM (fun h => Py.truediv (Py.Int h) (Py.Int total_pixels)) hist;
    st ← forM (range_from 1 255) (entropy_step prob) (Py.Flt neg_infinity, 128);
    threshold_manual image (snd st).

(** [sum((i - mean) ** 2 * hist[i] for i in range(a, b))]. *)
Definition squares_sum (hist : list Z) (mean : Py.num) (a b : Z) : result Py.num :=
  forM (range_from a b)
    (fun i acc =>
       d ← Py.sub (Py.Int i) mean; sq ← square float_pow d;
       h ← lget hist i; term ← Py.mul sq (Py.Int h);
       Py.add acc term)
    (Py.Int 0).

(** [sum((i - mean) ** 2 * hist[i] for i in range(a, b)) / count
     if count > 0 else 0]. *)
Definition variance_of (hist : list Z) (mean : Py.num) (a b count : Z)
  : result Py.num :=
  if 0 <? count then s ← squares_sum hist mean a b; Py.truediv s (Py.Int count)
  else Ok (Py.Int 0).

(** [math.log(x)]; the arguments that reach it are floats. *)
Definition log_num (x : Py.num) : result Py.num :=
  f ← Py.to_float x; l ← math_log f; Ok (Py.Flt l).

(** The error of [threshold_minimum_error]:
    [p_bg * log(variance_bg) + p_fg * log(variance_fg)
     - 2 * (p_bg * log(p_bg) + p_fg * log(p_fg))
     if p_bg > 0 and p_fg > 0 else float("inf")]. *)
Definition minimum_error_value (p_bg p_fg variance_bg variance_fg : Py.num)
  : result Py.num :=
  if Py.ltb (Py.Int 0) p_bg && Py.ltb (Py.Int 0) p_fg then
    l ← log_num variance_bg; a ← Py.mul p_bg l;
    l ← log_num variance_fg; b ← Py.mul p_fg l;
    ab ← Py.add a b;
    l ← log_num p_bg; c ← Py.mul p_bg l;
    l ← log_num p_fg; d ← Py.mul p_fg l;
    cd ← Py.add c d; twice ← Py.mul (Py.Int 2) cd;
    Py.sub ab twice
  else Ok (Py.Flt infinity).

(** One pass of the loop of [threshold_minimum_error]; the state is
    [(min_error, best_threshold)]. *)
Definition minimum_error_step (hist : list Z) (total_pixels t : Z)
  (st : Py.num * Z) : result (Py.num * Z) :=
  let '(min_error, best_threshold) := st in
  count_bg ← count_sum hist 0 t;
  if count_bg =? 0 then Ok st
  else
    s ← weighted_sum hist 0 t;
    mean_bg ← Py.truediv (Py.Int s) (Py.Int count_bg);
    variance_bg ← variance_of hist mean_bg 0 t count_bg;
    count_fg ← count_sum hist t 256;
    if count_fg =? 0 then Ok st
    else
      s ← weighted_sum hist t 256;
      mean_fg ← Py.truediv (Py.Int s) (Py.Int count_fg);
      variance_fg ← variance_of hist mean_fg t 256 count_fg;
      if Py.leb variance_bg (Py.Int 0) || Py.leb variance_fg (Py.Int 0) then Ok st
      else
        p_bg ← Py.truediv (Py.Int count_bg) (Py.Int total_pixels);
        p_fg ← Py.truediv (Py.Int count_fg) (Py.Int total_pixels);
        error ← minimum_error_value p_bg p_fg variance_bg variance_fg;
        if Py.ltb error min_error then Ok (error, t) else Ok st.

Definition threshold_minimum_error (image : ImageBuffer) : result ImageBuffer :=
  hist ← compute_histogram_grayscale image;
  let total_pixels := width image * height image in
  if total_pixels =? 0 then threshold_manual image 128
  else
    s ← weighted_sum hist 0 256;
    mean_all ← Py.truediv (Py.Int s) (Py.Int total_pixels);
    sq ← squares_sum hist mean_all 0 256;
    variance_all ← Py.truediv sq (Py.Int total_pixels);
    st ← forM (range_from 1 255) (minimum_error_step hist total_pixels)
           (Py.Flt infinity, 128);
    threshold_manual image (snd st).

(** The memberships of the intensity [i] for the threshold [t]:
    [1.0 - (i / t) if t > 0 else 1.0] below the threshold and
    [(i - t) / (255 - t) if t < 255 else 1.0] from it on. *)
Definition mu_bg_at (i t : Z) : result Py.num :=
  if 0 <? t then q ← Py.truediv (Py.Int i) (Py.Int t); Py.sub (Py.Flt 1) q
  else Ok (Py.Flt 1).

Definition mu_fg_at (i t : Z) : result Py.num :=
  if t <? 255 then Py.truediv (Py.Int (i - t)) (Py.Int (255 - t))
  else Ok (Py.Flt 1).

(** The first inner loop of [threshold_fuzzy_minimum_error]; the state is
    [(sum_bg, sum_fg, weighted_sum_bg, weighted_sum_fg)]. *)
Definition fuzzy_sums (hist : list Z) (t : Z)
  : result (Py.num * Py.num * Py.num * Py.num) :=
  forM (range 256)
    (fun i '(sum_bg, sum_fg, weighted_sum_bg, weighted_sum_fg) =>
       '(mu_bg, mu_fg) ← (if i <? t then mu ← mu_bg_at i t; Ok (mu, Py.Flt 0)
                           else mu ← mu_fg_at i t; Ok (Py.Flt 0, mu));
       count ← lget hist i;
       a ← Py.mul mu_bg (Py.Int count); sum_bg ← Py.add sum_bg a;
       a ← Py.mul mu_fg (Py.Int count); sum_fg ← Py.add sum_fg a;
       a ← Py.mul mu_bg (Py.Int i); a ← Py.mul a (Py.Int count);
       weighted_sum_bg ← Py.add weighted_sum_bg a;
       a ← Py.mul mu_fg (Py.Int i); a ← Py.mul a (Py.Int count);
       weighted_sum_fg ← Py.add weighted_sum_fg a;
       Ok (sum_bg, sum_fg, weighted_sum_bg, weighted_sum_fg))
    (Py.Flt 0, Py.Flt 0, Py.Flt 0, Py.Flt 0).

(** The second inner loop: [error += mu * (i - mean) ** 2 * hist[i]]. *)
Definition fuzzy_error (hist : list Z) (t : Z) (mean_bg mean_fg : Py.num)
  : result Py.num :=
  forM (range 256)
    (fun i error =>
       '(mu, mean) ← (if i <? t then mu ← mu_bg_at i t; Ok (mu, mean_bg)
                       else mu ← mu_fg_at i t; Ok (mu, mean_fg));
       d ← Py.sub (Py.Int i) mean; sq ← square float_pow d;
       a ← Py.mul mu sq;
       h ← lget hist i; a ← Py.mul a (Py.Int h);
       Py.add error a)
    (Py.Flt 0).

(** One pass of the loop of [threshold_fuzzy_minimum_error]; the state is
    [(min_error, best_threshold)]. *)
Definition fuzzy_step (hist : list Z) (total_pixels t : Z) (st : Py.num * Z)
  : result (Py.num * Z) :=
  let '(min_error, best_threshold) := st in
  '(sum_bg, sum_fg, weighted_sum_bg, weighted_sum_fg) ← fuzzy_sums hist t;
  if Py.is_zero sum_bg || Py.is_zero sum_fg then Ok st
  else
    mean_bg ← Py.truediv weighted_sum_bg sum_bg;
    mean_fg ← Py.truediv weighted_sum_fg sum_fg;
    error ← fuzzy_error hist t mean_bg mean_fg;
    error ← Py.truediv error (Py.Int total_pixels);
    if Py.ltb error min_error then Ok (error, t) else Ok st.

Definition threshold_fuzzy_minimum_error (image : ImageBuffer)
  : result ImageBuffer :=
  hist ← compute_histogram_grayscale image;
  let total_pixels := width image * height image in
  if total_pixels =? 0 then threshold_manual image 128
  else
    st ← forM (range_from 1 255) (fuzzy_step hist total_pixels)
           (Py.Flt infinity, 128);
    threshold_manual image (snd st).
End Thresholds.

(** ** ppm.py

    A file is the list of its bytes; a stream is the list of the bytes not
    read yet.  Decoded text keeps its bytes (ASCII). *)

Definition Bytes : Set := list Z.

(** The decimal digits of a number, in ASCII. *)
Fixpoint bytes_of_uint (d : Decimal.uint) : Bytes :=
  match d with
  | Decimal.Nil => []
  | Decimal.D0 r => 48 :: bytes_of_uint r
  | Decimal.D1 r => 49 :: bytes_of_uint r
  | Decimal.D2 r => 50 :: bytes_of_uint r
  | Decimal.D3 r => 51 :: bytes_of_uint r
  | Decimal.D4 r => 52 :: bytes_of_uint r
  | Decimal.D5 r => 53 :: bytes_of_uint r
  | Decimal.D6 r => 54 :: bytes_of_uint r
  | Decimal.D7 r => 55 :: bytes_of_uint r
  | Decimal.D8 r => 56 :: bytes_of_uint r
  | Decimal.D9 r => 57 :: bytes_of_uint r
  end.

(** The decimal text of an [int]: a minus sign when it is negative, then
    its digits. *)
Definition int_text (n : Z) : Bytes :=
  match Z.to_int n with
  | Decimal.Pos d => bytes_of_uint d
  | Decimal.Neg d => 45 :: bytes_of_uint d
  end.

Definition is_digit (c : Z) : bool := (48 <=? c) && (c <=? 57).

(** CPython converts between [int] and [str] only up to
    [sys.get_int_max_str_digits()] decimal digits, 4300 by default; the
    sign is not counted. *)
Definition max_str_digits : Z := 4300.

Definition digit_count (text : Bytes) : Z := len (List.filter is_digit text).

(** [str(n)] of an [int], also [f"{n}"]: a [ValueError] when [n] has more
    than [max_str_digits] digits. *)
Definition str_int (n : Z) : result Bytes :=
  let text := int_text n in
  if max_str_digits <? digit_count text then Err ValueError else Ok text.

(** [bytes.decode("ascii")]. *)
Definition decode_ascii (b : Bytes) : result Bytes :=
  if forallb (fun c => c <? 128) b then Ok b else Err UnicodeDecodeError.

(** [str.isspace()] on one character of the Latin-1 range. *)
Definition isspace (c : Z) : bool :=
  ((9 <=? c) && (c <=? 13)) || ((28 <=? c) && (c <=? 32))
  || (c =? 133) || (c =? 160).

(** The white space of C, [" \t\n\v\f\r"]: what [int(text)] skips around
    an ASCII [text]. *)
Definition c_isspace (c : Z) : bool := (c =? 32) || ((9 <=? c) && (c <=? 13)).

(** [int(text)] for an ASCII [text]: the C white space around it is skipped;
    what is left is an optional sign and decimal digits, where single
    underscores may separate digits, and has at most [max_str_digits] digits.
    Every failure is a [ValueError]. *)
Fixpoint parse_digits (bs : Bytes) (acc : Z) (after_digit : bool) : result Z :=
  match bs with
  | [] => if after_digit then Ok acc else Err ValueError
  | b :: rest =>
      if is_digit b then parse_digits rest (10 * acc + (b - 48)) true
      else if (b =? 95) && after_digit then parse_digits rest acc false
      else Err ValueError
  end.

Fixpoint lstrip (bs : Bytes) : Bytes :=
  match bs with
  | b :: rest => if c_isspace b then lstrip rest else bs
  | [] => []
  end.

Definition strip (bs : Bytes) : Bytes := reverse (lstrip (reverse (lstrip bs))).

Definition int_of_str (text : Bytes) : result Z :=
  let body := strip text in
  if max_str_digits <? digit_count body then Err ValueError
  else
    match body with
    | 45 :: rest => v ← parse_digits rest 0 false; Ok (- v)
    | 43 :: rest => parse_digits rest 0 false
    | bs => parse_digits bs 0 false
    end.

(** [ch in b" \t\r\n\v\f"]. *)
Definition is_header_space (ch : Z) : bool :=
  (ch =? 32) || ((9 <=? ch) && (ch <=? 13)).

Definition is_eol (ch : Z) : bool := (ch =? 10) || (ch =? 13).

(** [_read_tokens]: the tokens yielded and the stream left behind.  The
    stream is read one byte at a time while [required] is not zero. *)
Fixpoint _read_tokens (stream : Bytes) (token : Bytes) (comment : bool)
  (required : Z) : result (list Bytes * Bytes) :=
  if required =? 0 then Ok ([], stream)
  else
    match stream with
    | [] =>
        if negb (bool_decide (token = [])) && (0 <? required)
        then t ← decode_ascii token; Ok ([t], [])
        else Ok ([], [])
    | ch :: rest =>
        if comment then _read_tokens rest token (negb (is_eol ch)) required
        else if ch =? 35 then _read_tokens rest token true required
        else if is_header_space ch then
          if bool_decide (token = []) then _read_tokens rest token false required
          else
            t ← decode_ascii token;
            '(ts, remaining) ← _read_tokens rest [] false (required - 1);
            Ok (t :: ts, remaining)
        else _read_tokens rest (token ++ [ch]) false required
    end.

Definition magic_P3 : Bytes := [80; 51].
Definition magic_P6 : Bytes := [80; 54].

Definition _read_header (stream : Bytes) : result (Bytes * Z * Z * Z * Bytes) :=
  magic ← decode_ascii (take 2 stream);
  let stream := drop 2 stream in
  if negb (bool_decide (magic = magic_P3) || bool_decide (magic = magic_P6))
  then Err PPMFormatError
  else
    '(tokens, stream) ← _read_tokens stream [] false 3;
    match tokens with
    | [t1; t2; t3] =>
        w ← int_of_str t1; h ← int_of_str t2; m ← int_of_str t3;
        Ok (magic, w, h, m, stream)
    | _ => Err PPMFormatError
    end.

Definition _normalize_value (value max_value : Z) : result Z :=
  if max_value =? 255 then Ok value
  else
    q ← Py.int_truediv value max_value;
    Py.round_float (q * 255)%float.

(** The consumer side of [_read_ascii_pixels] for one yielded token:
    [Break] when [idx >= total_values]. *)
Definition store_value (token : Bytes) (total_values max_value : Z)
  (st : list Z * Z) : result (ctl (list Z * Z)) :=
  let '(data, idx) := st in
  if total_values <=? idx then Ok (Break st)
  else
    value ← int_of_str token;
    v ← _normalize_value value max_value;
    data ← bset data idx v;
    Ok (Next (data, idx + 1)).

(** [_ascii_value_generator] driven by the loop of [_read_ascii_pixels]. *)
Fixpoint ascii_values (stream : Bytes) (token : Bytes) (comment : bool)
  (total_values max_value : Z) (st : list Z * Z) : result (list Z * Z) :=
  match stream with
  | [] =>
      if bool_decide (token = []) then Ok st
      else
        t ← decode_ascii token;
        c ← store_value t total_values max_value st;
        Ok (match c with Next s => s | Break s => s end)
  | ch :: rest =>
      if comment then
        ascii_values rest token (negb (is_eol ch)) total_values max_value st
      else if ch =? 35 then ascii_values rest token true total_values max_value st
      else if isspace ch then
        if bool_decide (token = []) then
          ascii_values rest token false total_values max_value st
        else
          t ← decode_ascii token;
          c ← store_value t total_values max_value st;
          match c with
          | Next s => ascii_values rest [] false total_values max_value s
          | Break s => Ok s
          end
      else ascii_values rest (token ++ [ch]) false total_values max_value st
  end.

(** [sys.maxsize] of a 64-bit build, the largest [Py_ssize_t]. *)
Definition sys_maxsize : Z := 9223372036854775807.

(** An [int] argument that CPython converts to a [Py_ssize_t]: a size or a
    count.  One that does not fit is an [OverflowError]. *)
Definition as_ssize_t (n : Z) : result Z :=
  if (n <? - sys_maxsize - 1) || (sys_maxsize <? n) then Err OverflowError
  else Ok n.

(** [bytearray(n)]: [n] zero bytes.  Running out of memory is not part of
    the model: an array whose size fits a [Py_ssize_t] is allocated. *)
Definition bytearray_of_size (n : Z) : result (list Z) :=
  n ← as_ssize_t n;
  if n <? 0 then Err ValueError else Ok (zeros (Z.to_nat n)).

Definition _read_ascii_pixels (stream : Bytes) (total_values max_value : Z)
  : result (list Z) :=
  data ← bytearray_of_size total_values;
  '(data, idx) ← ascii_values stream [] false total_values max_value (data, 0);
  if idx =? total_values then Ok data else Err PPMFormatError.

(** [stream.read(n)] on a file opened for reading bytes: [n = -1] reads to
    the end, a smaller [n] is an error, and so is an [n] that does not fit a
    [Py_ssize_t]. *)
Definition stream_read (stream : Bytes) (n : Z) : result Bytes :=
  n ← as_ssize_t n;
  if n =? -1 then Ok stream
  else if n <? 0 then Err ValueError
  else Ok (take (Z.to_nat n) stream).

Definition _read_binary_pixels (stream : Bytes) (total_values max_value : Z)
  : result (list Z) :=
  raw ← stream_read stream total_values;
  if negb (len raw =? total_values) then Err PPMFormatError
  else if max_value =? 255 then Ok raw
  else
    scale ← Py.int_truediv 255 max_value;
    mapM (fun b =>
            v ← Py.round_float (Py.Z2F b * scale)%float;
            if (0 <=? v) && (v <? 256) then Ok v else Err ValueError) raw.

Definition read_ppm (file : Bytes) : result ImageBuffer :=
  '(magic, w, h, maxv, stream) ← _read_header file;
  let total_values := w * h * 3 in
  data ← (if bool_decide (magic = magic_P3)
          then _read_ascii_pixels stream total_values maxv
          else _read_binary_pixels stream total_values maxv);
  Ok (mkImage w h (Z.min maxv 255) data).

(** [" ".join(parts)]. *)
Fixpoint join_space (parts : list Bytes) : Bytes :=
  match parts with
  | [] => []
  | [p] => p
  | p :: rest => p ++ 32 :: join_space rest
  end.

Definition _write_ascii_pixels (image : ImageBuffer) : result Bytes :=
  let row_length := width image * 3 in
  forM (range (height image))
    (fun y out =>
       let off := y * row_length in
       row_values ← forM (range_step 0 row_length 3)
         (fun x row_values =>
            r ← lget (data image) (off + x);
            g ← lget (data image) (off + x + 1);
            b ← lget (data image) (off + x + 2);
            tr ← str_int r; tg ← str_int g; tb ← str_int b;
            Ok (row_values ++ [tr ++ 32 :: tg ++ 32 :: tb]))
         [];
       Ok (out ++ join_space row_values ++ [10]))
    [].

Definition write_ppm (image : ImageBuffer) (binary : bool) : result Bytes :=
  let magic := if binary then magic_P6 else magic_P3 in
  w ← str_int (width image);
  h ← str_int (height image);
  m ← str_int (max_value image);
  let header := magic ++ 10 :: w ++ 32 :: h ++ 10 :: m ++ [10] in
  if binary then Ok (header ++ data image)
  else body ← _write_ascii_pixels image; Ok (header ++ body).

Example write_ppm_ex :
  write_ppm (mkImage 2 1 255 [1; 2; 3; 40; 50; 60]) false
  = Ok [80; 51; 10; 50; 32; 49; 10; 50; 53; 53; 10;
        49; 32; 50; 32; 51; 32; 52; 48; 32; 53; 48; 32; 54; 48; 10].
Proof. vm_compute. reflexivity. Qed.

Example read_ppm_ascii_ex :
  read_ppm [80; 51; 10; 35; 99; 10; 49; 32; 49; 10; 50; 53; 53; 10;
            55; 32; 56; 10; 57]
  = Ok (mkImage 1 1 255 [7; 8; 9]).
Proof. vm_compute. reflexivity. Qed.

(** ** geometry2d.py

    The matrix code only adds, multiplies, negates, divides and tests
    [abs(w) < 1e-12]; it is written once over these operations, which the
    program takes on binary64 floats ([float_scalar]). *)

Class Scalar (T : Type) : Type := {
  s0 : T;
  s1 : T;
  sadd : T -> T -> T;
  smul : T -> T -> T;
  sneg : T -> T;
  sdiv : T -> T -> T;
  tiny : T -> bool
}.

Section Geometry.
Context {T : Type} `{Scalar T}.

Definition Vec2 : Type := T * T.
Definition Row3 : Type := T * T * T.
Definition Mat3 : Type := Row3 * Row3 * Row3.

#[local] Infix "+" := sadd.
#[local] Infix "*" := smul.

Definition mat3_identity : Mat3 :=
  ((s1, s0, s0), (s0, s1, s0), (s0, s0, s1)).

Definition mat3_mul (a b : Mat3) : Mat3 :=
  let '((a00, a01, a02), (a10, a11, a12), (a20, a21, a22)) := a in
  let '((b00, b01, b02), (b10, b11, b12), (b20, b21, b22)) := b in
  ((a00 * b00 + a01 * b10 + a02 * b20,
    a00 * b01 + a01 * b11 + a02 * b21,
    a00 * b02 + a01 * b12 + a02 * b22),
   (a10 * b00 + a11 * b10 + a12 * b20,
    a10 * b01 + a11 * b11 + a12 * b21,
    a10 * b02 + a11 * b12 + a12 * b22),
   (a20 * b00 + a21 * b10 + a22 * b20,
    a20 * b01 + a21 * b11 + a22 * b21,
    a20 * b02 + a21 * b12 + a22 * b22)).

Definition mat3_apply_to_point (m : Mat3) (p : Vec2) : Vec2 :=
  let '((m00, m01, m02), (m10, m11, m12), (m20, m21, m22)) := m in
  let '(x, y) := p in
  let hx := m00 * x + m01 * y + m02 * s1 in
  let hy := m10 * x + m11 * y + m12 * s1 in
  let hw := m20 * x + m21 * y + m22 * s1 in
  if tiny hw then (hx, hy) else (sdiv hx hw, sdiv hy hw).

Definition mat3_translate (dx dy : T) : Mat3 :=
  ((s1, s0, dx), (s0, s1, dy), (s0, s0, s1)).

(** [mat3_rotate_degrees] once [c = cos(radians(angle))] and
    [s = sin(radians(angle))] have been computed. *)
Definition mat3_rotate_cs (c s : T) : Mat3 :=
  ((c, sneg s, s0), (s, c, s0), (s0, s0, s1)).

Definition mat3_scale (sx sy : T) : Mat3 :=
  ((sx, s0, s0), (s0, sy, s0), (s0, s0, s1)).

Definition around_point (point : Vec2) (transform : Mat3) : Mat3 :=
  let '(px, py) := point in
  mat3_mul (mat3_translate px py)
    (mat3_mul transform (mat3_translate (sneg px) (sneg py))).
End Geometry.

#[global] Instance float_scalar : Scalar float := {
  s0 := 0%float;
  s1 := 1%float;
  sadd := PrimFloat.add;
  smul := PrimFloat.mul;
  sneg := PrimFloat.opp;
  sdiv := PrimFloat.div;
  tiny := fun w => (abs w <? 0x1.19799812dea11p-40)%float
}.

Section Trig.
(** [math.cos], [math.sin] and [math.radians] of the C library. *)
Variables math_cos math_sin math_radians : float -> float.

Definition mat3_rotate_degrees (angle_deg : float) : Mat3 :=
  let a := math_radians angle_deg in
  mat3_rotate_cs (math_cos a) (math_sin a).
End Trig.

(** ** bezier.py *)

Definition binomial_coefficient (n k : Z) : Z :=
  if (k <? 0) || (n <? k) then 0
  else if (k =? 0) || (k =? n) then 1
  else
    let k := Z.min k (n - k) in
    fold_left (fun result i => result * (n - i) / (i + 1)) (range k) 1.

Example binomial_5_2 : binomial_coefficient 5 2 = 10.
Proof. reflexivity. Qed.

Section Bezier.
(** [t ** i] for a float [t] and an [int] [i]. *)
Variable float_pow_int : float -> Z -> result float.

Definition bernstein_polynomial (n i : Z) (t : float) : result float :=
  if (t <? 0)%float || (1 <? t)%float then Ok 0%float
  else
    c ← Py.float_of_int (binomial_coefficient n i);
    p ← float_pow_int t i;
    q ← float_pow_int (1 - t)%float (n - i);
    Ok (c * p * q)%float.

Definition Point : Set := float * float.

Definition bezier_curve_point (control_points : list Point) (t : float)
  : result Point :=
  match control_points with
  | [] => Ok (0, 0)%float
  | _ =>
      let n := len control_points - 1 in
      forM (imap (fun i p => (Z.of_nat i, p)) control_points)
        (fun '(i, (px, py)) '(x, y) =>
           b ← bernstein_polynomial n i t;
           Ok (x + b * px, y + b * py)%float)
        (0, 0)%float
  end.

Definition rational_bezier_curve_point (control_points : list Point)
  (weights : list float) (t : float) : result Point :=
  if bool_decide (control_points = [])
     || negb (len control_points =? len weights)
  then Ok (0, 0)%float
  else
    let n := len control_points - 1 in
    '(nx, ny, den) ← forM
      (imap (fun i pw => (Z.of_nat i, pw)) (zip control_points weights))
      (fun '(i, ((px, py), w)) '(nx, ny, den) =>
         b ← bernstein_polynomial n i t;
         let wb := (w * b)%float in
         Ok (nx + wb * px, ny + wb * py, den + wb)%float)
      (0, 0, 0)%float;
    if (abs den <? 0x1.b7cdfd9d7bdbbp-34)%float then Ok (0, 0)%float
    else Ok (nx / den, ny / den)%float.

Definition generate_bezier_curve (control_points : list Point)
  (num_samples : Z) (weights : option (list float)) : result (list Point) :=
  if len control_points <? 2 then Ok control_points
  else
    let is_rational :=
      match weights with
      | Some ws => len ws =? len control_points
      | None => false
      end in
    forM (range (num_samples + 1))
      (fun i curve_points =>
         t ← Py.int_truediv i num_samples;
         point ← (if is_rational
                  then rational_bezier_curve_point control_points
                         (default [] weights) t
                  else bezier_curve_point control_points t);
         Ok (curve_points ++ [point]))
      [].
End Bezier.

(** * Reasoning toolkit *)

(** ** The result monad *)

Lemma bind_Ok_l {A B} (a : A) (f : A -> result B) : (Ok a ≫= f) = f a.
Proof. reflexivity. Qed.

Lemma bind_Err_l {A B} (e : exn) (f : A -> result B) : (Err e ≫= f) = Err e.
Proof. reflexivity. Qed.

Lemma bind_Ok_inv {A B} (m : result A) (f : A -> result B) (b : B) :
  (m ≫= f) = Ok b -> exists a, m = Ok a /\ f a = Ok b.
Proof. destruct m as [a|e]; [eauto | discriminate]. Qed.

(** Splits the first bind of a hypothesis [(x ← m; k) = Ok r]. *)
Ltac bind_inv H :=
  let a := fresh "v" in
  let E := fresh "E" in
  apply bind_Ok_inv in H; destruct H as (a & E & H).

(** Runs the binds whose first computation is a known [Ok] or [Err]. *)
Ltac mstep := cbn [mbind result_bind].
Tactic Notation "mstep" "in" hyp(H) := cbn [mbind result_bind] in H.

Ltac binds_inv H :=
  repeat (first [ progress (cbn beta iota in H) | idtac ];
          match type of H with
          | (_ ≫= _) = Ok _ => bind_inv H
          end).

(** ** Loops *)

Lemma forM_inv {A S} (P : S -> Prop) (xs : list A) (body : A -> S -> result S) :
  (forall x s s', x ∈ xs -> P s -> body x s = Ok s' -> P s') ->
  forall s r, P s -> forM xs body s = Ok r -> P r.
Proof.
  induction xs as [|x xs IH]; intros Hb s r Hs Hr; cbn in Hr.
  - congruence.
  - bind_inv Hr. eapply IH; [ | | exact Hr ].
    + intros y t t' Hy. apply Hb. by right.
    + eapply Hb; [ by left | exact Hs | exact E ].
Qed.

Lemma forM_app {A S} (xs ys : list A) (body : A -> S -> result S) s :
  forM (xs ++ ys) body s = (s' ← forM xs body s; forM ys body s').
Proof.
  revert s. induction xs as [|x xs IH]; intros s; cbn; [done|].
  destruct (body x s) as [s'|e]; cbn; [apply IH | done].
Qed.

Lemma forM_ext {A S} (xs : list A) (f g : A -> S -> result S) s :
  (forall x t, x ∈ xs -> f x t = g x t) -> forM xs f s = forM xs g s.
Proof.
  revert s. induction xs as [|x xs IH]; intros s Hfg; cbn; [done|].
  rewrite Hfg by (by left). destruct (g x s); cbn; [|done].
  apply IH. intros y t Hy. apply Hfg. by right.
Qed.

Lemma for_break_inv {A S} (P : S -> Prop) (xs : list A)
  (body : A -> S -> result (ctl S)) :
  (forall x s s', x ∈ xs -> P s -> body x s = Ok (Next s') -> P s') ->
  (forall x s s', x ∈ xs -> P s -> body x s = Ok (Break s') -> P s') ->
  forall s r, P s -> for_break xs body s = Ok r -> P r.
Proof.
  induction xs as [|x xs IH]; intros Hn Hb s r Hs Hr; cbn in Hr.
  - congruence.
  - bind_inv Hr. destruct v as [s'|s'].
    + eapply IH; [ | | | exact Hr ].
      * intros y t t' Hy. apply Hn. by right.
      * intros y t t' Hy. apply Hb. by right.
      * eapply Hn; [ by left | exact Hs | exact E ].
    + injection Hr as <-. eapply Hb; [ by left | exact Hs | exact E ].
Qed.

(** ** Ranges *)

Lemma elem_of_range n i : i ∈ range n <-> 0 <= i < n.
Proof.
  unfold range. rewrite list_elem_of_fmap. split.
  - intros (k & -> & Hk). apply elem_of_seq in Hk. lia.
  - intros Hi. exists (Z.to_nat i). split; [lia|]. apply elem_of_seq. lia.
Qed.

Lemma elem_of_range_from a b i : i ∈ range_from a b <-> a <= i < b.
Proof.
  unfold range_from. rewrite list_elem_of_fmap. split.
  - intros (k & -> & Hk). apply elem_of_seq in Hk. lia.
  - intros Hi. exists (Z.to_nat (i - a)). split; [lia|]. apply elem_of_seq. lia.
Qed.

Lemma elem_of_range_step3 a b i :
  i ∈ range_step a b 3 <-> a <= i < b /\ (i - a) mod 3 = 0.
Proof.
  unfold range_step. rewrite list_elem_of_fmap. split.
  - intros (k & -> & Hk). apply elem_of_seq in Hk.
    replace (a + 3 * Z.of_nat k - a) with (Z.of_nat k * 3) by lia.
    rewrite Z.mod_mul by lia. split; [|done].
    destruct (Z_lt_le_dec a b) as [Hab|Hab].
    + assert (Z.of_nat k < (b - a + 3 - 1) / 3) as Hlt by lia.
      assert (3 * ((b - a + 3 - 1) / 3) <= b - a + 3 - 1)
        by (apply Z.mul_div_le; lia).
      lia.
    + assert ((b - a + 3 - 1) / 3 <= 0) as Hle.
      { apply Z.lt_succ_r. apply Z.div_lt_upper_bound; lia. }
      lia.
  - intros [Hi Hm]. exists (Z.to_nat ((i - a) / 3)).
    assert (i - a = 3 * ((i - a) / 3)) as Hq.
    { rewrite (Z.div_mod (i - a) 3) at 1 by lia. lia. }
    assert (0 <= (i - a) / 3) by (apply Z.div_pos; lia).
    split; [lia|]. apply elem_of_seq.
    assert ((i - a) / 3 < (b - a + 3 - 1) / 3); [|lia].
    apply Z.div_lt_upper_bound; [lia|].
    assert (b - a + 3 - 1 < 3 * ((b - a + 3 - 1) / 3) + 3); [|lia].
    pose proof (Z.mod_pos_bound (b - a + 3 - 1) 3 ltac:(lia)).
    rewrite (Z.div_mod (b - a + 3 - 1) 3) at 1 by lia. lia.
Qed.

(** ** Lists with Python indexing *)

Lemma norm_index_Ok n i k : norm_index n i = Ok k -> (k < n)%nat.
Proof.
  unfold norm_index. repeat case_match; intros [= <-] || intros [=]; lia.
Qed.

Lemma norm_index_nonneg n i : 0 <= i < Z.of_nat n -> norm_index n i = Ok (Z.to_nat i).
Proof.
  intros Hi. unfold norm_index.
  destruct (0 <=? i) eqn:E1; [|lia]. destruct (i <? Z.of_nat n) eqn:E2; [done|lia].
Qed.

Lemma lget_Ok {A} (l : list A) i v : lget l i = Ok v -> v ∈ l.
Proof.
  unfold lget. intros H. bind_inv H. destruct (l !! v0) eqn:El; [|done].
  injection H as ->. by eapply list_elem_of_lookup_2.
Qed.

Lemma lget_nonneg {A} (l : list A) i :
  0 <= i < len l -> lget l i = match l !! Z.to_nat i with
                              | Some v => Ok v
                              | None => Err IndexError
                              end.
Proof. intros Hi. unfold lget. by rewrite norm_index_nonneg. Qed.

Lemma lget_lookup {A} (l : list A) (k : nat) v :
  l !! k = Some v -> lget l (Z.of_nat k) = Ok v.
Proof.
  intros Hl. pose proof (lookup_lt_Some _ _ _ Hl).
  rewrite lget_nonneg by (unfold len; lia). by rewrite Nat2Z.id, Hl.
Qed.

Lemma lset_length {A} (l l' : list A) i v : lset l i v = Ok l' -> length l' = length l.
Proof.
  unfold lset. intros H. bind_inv H. injection H as <-. apply length_insert.
Qed.

Lemma bset_length d i v d' : bset d i v = Ok d' -> length d' = length d.
Proof.
  unfold bset. intros H. bind_inv H. case_match; [|done].
  injection H as <-. apply length_insert.
Qed.

Lemma bset_Forall (Q : Z -> Prop) d i v d' :
  bset d i v = Ok d' -> Forall Q d -> Q v -> Forall Q d'.
Proof.
  unfold bset. intros H Hd Hv. bind_inv H. case_match; [|done].
  injection H as <-. by apply Forall_insert.
Qed.

Lemma bset_byte d i v d' : bset d i v = Ok d' -> 0 <= v < 256.
Proof.
  unfold bset. intros H. bind_inv H. case_match; [lia|done].
Qed.

Lemma bset_nonneg d i v :
  0 <= i < len d -> 0 <= v < 256 -> bset d i v = Ok (<[Z.to_nat i := v]> d).
Proof.
  intros Hi Hv. unfold bset. rewrite norm_index_nonneg by done. cbn.
  destruct (0 <=? v) eqn:E1; [|lia]. destruct (v <? 256) eqn:E2; [done|lia].
Qed.

Lemma zeros_length n : length (zeros n) = n.
Proof. apply length_replicate. Qed.

Lemma zeros_Forall (Q : Z -> Prop) n : Q 0 -> Forall Q (zeros n).
Proof. intros. by apply Forall_replicate. Qed.

(** ** Floats: truncation of a float in [0, 256) *)

Lemma digits2_pos_bound (m : positive) : Z.pos m < 2 ^ Z.pos (digits2_pos m).
Proof.
  induction m as [m IH|m IH|]; cbn [digits2_pos].
  - rewrite Pos2Z.inj_succ, Z.pow_succ_r by lia. lia.
  - rewrite Pos2Z.inj_succ, Z.pow_succ_r by lia. lia.
  - done.
Qed.

Lemma valid_mantissa_bound (m : positive) (e : Z) :
  valid_binary (S754_finite false m e) = true -> Z.pos m < 2 ^ 53.
Proof.
  cbn. unfold bounded, canonical_mantissa, fexp, SpecFloat.emin, prec, emax.
  intros Hv. apply andb_prop in Hv as [Hc _]. apply Z.eqb_eq in Hc.
  pose proof (digits2_pos_bound m) as Hm.
  assert (Z.pos (digits2_pos m) <= 53) as Hd by lia.
  eapply Z.lt_le_trans; [exact Hm|]. apply Z.pow_le_mono_r; lia.
Qed.

Lemma mantissa_lt_2_52 (m : positive) :
  Pos.compare_cont Eq m 4503599627370496 = Lt -> Z.pos m < 4503599627370496.
Proof. intros Hm. apply Pos2Z.pos_lt_pos. exact Hm. Qed.

Lemma int_of_float_byte (x : float) :
  (0 <=? x)%float = true -> (x <? 256)%float = true ->
  exists z, Py.int_of_float x = Ok z /\ 0 <= z <= 255.
Proof.
  intros H0 H256. rewrite FloatAxioms.leb_spec in H0.
  rewrite FloatAxioms.ltb_spec in H256.
  pose proof (Prim2SF_valid x) as Hv. unfold Py.int_of_float.
  change (Prim2SF 0) with (S754_zero false) in H0.
  change (Prim2SF 256) with (S754_finite false 4503599627370496 (-44)) in H256.
  unfold SFleb, SFltb, SFcompare in H0, H256.
  destruct (Prim2SF x) as [s|s| |s m e]; cbn [Py.sf_trunc]; try discriminate.
  - exists 0. split; [done|lia].
  - destruct s; discriminate.
  - destruct s; [discriminate|].
    pose proof (valid_mantissa_bound m e Hv) as Hm.
    assert (e <= -45 \/ (e = -44 /\ Z.pos m < 2 ^ 52)) as He.
    { destruct (e ?= -44) eqn:Ec.
      - apply Z.compare_eq in Ec. right. split; [done|].
        destruct (Pos.compare_cont Eq m 4503599627370496) eqn:Em; try discriminate.
        apply mantissa_lt_2_52 in Em. lia.
      - rewrite Z.compare_lt_iff in Ec. left. lia.
      - discriminate. }
    destruct (0 <=? e) eqn:E0; [lia|].
    eexists. split; [reflexivity|]. split.
    + apply Z.div_pos; [lia|]. apply Z.pow_pos_nonneg; lia.
    + apply Z.lt_succ_r. apply Z.div_lt_upper_bound.
      { apply Z.pow_pos_nonneg; lia. }
      destruct He as [He|[-> Hm52]].
      * assert (2 ^ 45 <= 2 ^ (- e)) by (apply Z.pow_le_mono_r; lia). lia.
      * change (- -44) with 44. lia.
Qed.

(** The floats of the 256 byte values, and the exhaustive check that the
    weighted sum of any three of them lies in [0, 256). *)
Definition byte_floats : list float := (fun n => Py.Z2F (Z.of_nat n)) <$> seq 0 256.

Definition lum_in_range (fr fg fb : float) : bool :=
  let x := (w_r * fr + w_g * fg + w_b * fb)%float in
  (0 <=? x)%float && (x <? 256)%float.

Definition forallb3 {A} (P : A -> A -> A -> bool) (l : list A) : bool :=
  forallb (fun x => forallb (fun y => forallb (fun z => P x y z) l) l) l.

Lemma forallb3_spec {A} (P : A -> A -> A -> bool) (l : list A) :
  forallb3 P l = true ->
  forall x y z, In x l -> In y l -> In z l -> P x y z = true.
Proof.
  unfold forallb3. intros Hl x y z Hx Hy Hz.
  rewrite forallb_forall in Hl. specialize (Hl x Hx).
  rewrite forallb_forall in Hl. specialize (Hl y Hy).
  rewrite forallb_forall in Hl. exact (Hl z Hz).
Qed.

Lemma lum_table_ok : forallb3 lum_in_range byte_floats = true.
Proof. vm_compute. reflexivity. Qed.

Definition is_byte (v : Z) : Prop := 0 <= v < 256.

Lemma byte_float_In (v : Z) : is_byte v -> In (Py.Z2F v) byte_floats.
Proof.
  intros Hv. unfold is_byte in Hv. unfold byte_floats.
  apply list_elem_of_In, list_elem_of_fmap.
  exists (Z.to_nat v). split; [f_equal; lia|]. apply elem_of_seq. lia.
Qed.

Lemma luminance_byte (r g b : Z) :
  is_byte r -> is_byte g -> is_byte b ->
  exists z, luminance r g b = Ok z /\ 0 <= z <= 255.
Proof.
  intros Hr Hg Hb.
  pose proof (forallb3_spec _ _ lum_table_ok _ _ _
                (byte_float_In r Hr) (byte_float_In g Hg) (byte_float_In b Hb)) as Ht.
  unfold lum_in_range in Ht. apply andb_prop in Ht as [H0 H1].
  unfold luminance, luminance_float. by apply int_of_float_byte.
Qed.

(** ** Indexed loop invariants *)

Lemma forM_seq_total {A St} (P : nat -> St -> Prop) (f : nat -> A)
  (body : A -> St -> result St) (a n : nat) (s : St) :
  P a s ->
  (forall k t, (a <= k < a + n)%nat -> P k t ->
               exists t', body (f k) t = Ok t' /\ P (S k) t') ->
  exists r, forM (f <$> seq a n) body s = Ok r /\ P (a + n)%nat r.
Proof.
  revert a s. induction n as [|n IH]; intros a s Hs Hstep; cbn.
  - exists s. by rewrite Nat.add_0_r.
  - destruct (Hstep a s ltac:(lia) Hs) as (t' & -> & Ht'). cbn.
    destruct (IH (S a) t' Ht') as (r & Hr & HP).
    { intros k t Hk. apply Hstep. lia. }
    exists r. split; [done|]. by replace (a + S n)%nat with (S a + n)%nat by lia.
Qed.

Lemma forM_seq_partial {A St} (P : nat -> St -> Prop) (f : nat -> A)
  (body : A -> St -> result St) (a n : nat) (s r : St) :
  P a s ->
  (forall k t t', (a <= k < a + n)%nat -> P k t -> body (f k) t = Ok t' -> P (S k) t') ->
  forM (f <$> seq a n) body s = Ok r -> P (a + n)%nat r.
Proof.
  revert a s. induction n as [|n IH]; intros a s Hs Hstep Hr; cbn in Hr.
  - injection Hr as <-. by rewrite Nat.add_0_r.
  - bind_inv Hr. replace (a + S n)%nat with (S a + n)%nat by lia.
    eapply IH; [ | | exact Hr ].
    + eapply Hstep; [ | exact Hs | exact E ]. lia.
    + intros k t t' Hk. apply Hstep. lia.
Qed.

Lemma range_step3_pixels (n : Z) :
  range_step 0 (n * 3) 3 = (fun k => 0 + 3 * Z.of_nat k) <$> seq 0 (Z.to_nat n).
Proof.
  unfold range_step. do 3 f_equal.
  replace (n * 3 - 0 + 3 - 1) with (2 + n * 3) by lia.
  rewrite Z.div_add by lia. change (2 / 3) with 0. lia.
Qed.

(** ** Reading and writing one pixel *)

Lemma lget_at {A} (l : list A) (k : nat) (i : Z) v :
  l !! k = Some v -> i = Z.of_nat k -> lget l i = Ok v.
Proof. intros Hl ->. by apply lget_lookup. Qed.

Lemma bset_at (d : list Z) (k : nat) (i v : Z) :
  (k < length d)%nat -> i = Z.of_nat k -> is_byte v ->
  bset d i v = Ok (<[k := v]> d).
Proof.
  intros Hk -> Hv. unfold is_byte in Hv. rewrite bset_nonneg by (unfold len; lia).
  by rewrite Nat2Z.id.
Qed.

Lemma bset3 (d : list Z) (k : nat) (i a b c : Z) :
  (3 * k + 2 < length d)%nat -> i = 3 * Z.of_nat k ->
  is_byte a -> is_byte b -> is_byte c ->
  (d ← bset d i a; d ← bset d (i + 1) b; bset d (i + 2) c)
  = Ok (<[(3 * k + 2)%nat := c]> (<[(3 * k + 1)%nat := b]> (<[(3 * k)%nat := a]> d))).
Proof.
  intros Hk -> Ha Hb Hc.
  rewrite (bset_at d (3 * k)) by (done || lia). cbn.
  rewrite (bset_at _ (3 * k + 1)) by (rewrite ?length_insert; done || lia). cbn.
  by rewrite (bset_at _ (3 * k + 2)) by (rewrite ?length_insert; done || lia).
Qed.

Lemma pixel_lookup (d : list Z) (k : nat) :
  Forall is_byte d -> (3 * k + 2 < length d)%nat ->
  exists r g b, d !! (3 * k)%nat = Some r /\ d !! (3 * k + 1)%nat = Some g
                /\ d !! (3 * k + 2)%nat = Some b
                /\ is_byte r /\ is_byte g /\ is_byte b.
Proof.
  intros Hd Hk. rewrite Forall_lookup in Hd.
  destruct (lookup_lt_is_Some_2 d (3 * k)) as [r Hr]; [lia|].
  destruct (lookup_lt_is_Some_2 d (3 * k + 1)) as [g Hg]; [lia|].
  destruct (lookup_lt_is_Some_2 d (3 * k + 2)) as [b Hb]; [lia|].
  exists r, g, b. eauto 10.
Qed.

(** A well-formed buffer: three bytes per pixel, [width * height] pixels. *)
Definition well_formed (img : ImageBuffer) : Prop :=
  len (data img) = width img * height img * 3 /\ Forall is_byte (data img).

Lemma well_formed_pixels img :
  well_formed img ->
  0 <= width img * height img
  /\ length (data img) = (3 * Z.to_nat (width img * height img))%nat.
Proof. intros [Hl _]. unfold len in Hl. lia. Qed.

(** * Binarization *)

Lemma threshold_manual_out_of_range img t :
  t < 0 \/ 255 < t -> threshold_manual img t = Err ValueError.
Proof.
  intros Ht. unfold threshold_manual.
  destruct (0 <=? t) eqn:E0; destruct (t <=? 255) eqn:E1; cbn; try done. lia.
Qed.

(** The loop of [threshold_manual] on a well-formed buffer: it returns, and
    the three channels of pixel [k] hold 255 or 0 as the luminance decides. *)
Definition binarized_pixel (t : Z) (img : ImageBuffer) (j : nat) : option Z :=
  match data img !! (3 * (j / 3))%nat, data img !! (3 * (j / 3) + 1)%nat,
        data img !! (3 * (j / 3) + 2)%nat with
  | Some r, Some g, Some b =>
      match luminance r g b with
      | Ok gray => Some (if t <=? gray then 255 else 0)
      | Err _ => None
      end
  | _, _, _ => None
  end.

Lemma threshold_manual_spec img t :
  well_formed img -> 0 <= t <= 255 ->
  exists d, threshold_manual img t
            = Ok (mkImage (width img) (height img) (max_value img) d)
            /\ length d = length (data img)
            /\ forall j, (j < length d)%nat -> d !! j = binarized_pixel t img j.
Proof.
  intros Hwf Ht. destruct (well_formed_pixels img Hwf) as [Hn HL].
  destruct Hwf as [Hlen Hbytes]. unfold threshold_manual.
  destruct (0 <=? t) eqn:E0; [|lia]. destruct (t <=? 255) eqn:E1; [|lia]. cbn.
  rewrite Hlen, range_step3_pixels.
  set (n := Z.to_nat (width img * height img)) in *.
  set (body := fun i nd => _).
  destruct (forM_seq_total
    (fun k nd => length nd = length (data img)
                 /\ forall j, (j < 3 * k)%nat -> nd !! j = binarized_pixel t img j)
    (fun k => 0 + 3 * Z.of_nat k) body 0 n (zeros (length (data img))))
    as (r & Hr & HPl & HPv).
  - split; [apply zeros_length | intros j Hj; lia].
  - intros k nd Hk [Hnd Hpre].
    destruct (pixel_lookup (data img) k Hbytes ltac:(lia))
      as (r & g & b & Hr & Hg & Hb & Br & Bg & Bb).
    destruct (luminance_byte r g b Br Bg Bb) as (gray & Hgray & Hrange).
    unfold body.
    rewrite (lget_at _ (3 * k) (0 + 3 * Z.of_nat k) r Hr) by lia. cbn.
    rewrite (lget_at _ (3 * k + 1) (0 + 3 * Z.of_nat k + 1) g Hg) by lia. cbn.
    rewrite (lget_at _ (3 * k + 2) (0 + 3 * Z.of_nat k + 2) b Hb) by lia. cbn.
    rewrite Hgray. cbn.
    set (value := if t <=? gray then 255 else 0).
    assert (is_byte value) as Bv by (unfold value, is_byte; case_match; lia).
    rewrite (bset3 nd k) by (done || lia).
    eexists. split; [reflexivity|]. split; [by rewrite !length_insert|].
    intros j Hj.
    assert (binarized_pixel t img (3 * k) = Some value
            /\ binarized_pixel t img (3 * k + 1) = Some value
            /\ binarized_pixel t img (3 * k + 2) = Some value) as (B0 & B1 & B2).
    { unfold binarized_pixel.
      replace ((3 * k) / 3)%nat with k by (apply Nat.div_unique with 0%nat; lia).
      replace ((3 * k + 1) / 3)%nat with k by (apply Nat.div_unique with 1%nat; lia).
      replace ((3 * k + 2) / 3)%nat with k by (apply Nat.div_unique with 2%nat; lia).
      by rewrite Hr, Hg, Hb, Hgray. }
    destruct (decide (j = 3 * k + 2)%nat) as [->|N2].
    { rewrite list_lookup_insert_eq by (rewrite !length_insert; lia). done. }
    rewrite list_lookup_insert_ne by done.
    destruct (decide (j = 3 * k + 1)%nat) as [->|N1].
    { rewrite list_lookup_insert_eq by (rewrite !length_insert; lia). done. }
    rewrite list_lookup_insert_ne by done.
    destruct (decide (j = 3 * k)%nat) as [->|N0].
    { rewrite list_lookup_insert_eq by lia. done. }
    rewrite list_lookup_insert_ne by done. apply Hpre. lia.
  - rewrite Hr. cbn. exists r. split; [done|]. split; [done|].
    intros j Hj. apply HPv. lia.
Qed.

Lemma binarized_pixel_zero img j :
  well_formed img -> (j < length (data img))%nat ->
  binarized_pixel 0 img j = Some 255.
Proof.
  intros Hwf Hj. destruct (well_formed_pixels img Hwf) as [_ HL].
  destruct Hwf as [_ Hbytes].
  assert (j / 3 < Z.to_nat (width img * height img))%nat as Hq.
  { apply Nat.Div0.div_lt_upper_bound. lia. }
  destruct (pixel_lookup (data img) (j / 3) Hbytes ltac:(lia))
    as (r & g & b & Hr & Hg & Hb & Br & Bg & Bb).
  destruct (luminance_byte r g b Br Bg Bb) as (gray & Hgray & Hrange).
  unfold binarized_pixel. rewrite Hr, Hg, Hb, Hgray.
  destruct (0 <=? gray) eqn:E; [done|lia].
Qed.

(** C7: on every well-formed buffer [threshold_manual] with threshold 0
    returns the all-white image of the same dimensions, and with any
    threshold outside [0, 255] (256, say) it raises [ValueError], the
    spec's ValueRangeError, and returns no buffer. *)
Theorem threshold_manual_zero_white_out_of_range_error (img : ImageBuffer) :
  well_formed img ->
  threshold_manual img 0
  = Ok (mkImage (width img) (height img) (max_value img)
          (replicate (length (data img)) 255))
  /\ forall t, t < 0 \/ 255 < t -> threshold_manual img t = Err ValueError.
Proof.
  intros Hwf. split; [|apply threshold_manual_out_of_range].
  destruct (threshold_manual_spec img 0 Hwf ltac:(lia)) as (d & -> & Hlen & Hd).
  do 2 f_equal. symmetry. apply replicate_as_Forall. split; [done|].
  apply Forall_lookup. intros j v Hv.
  pose proof (lookup_lt_Some _ _ _ Hv) as Hj.
  rewrite Hd in Hv by done.
  rewrite binarized_pixel_zero in Hv by (done || lia). congruence.
Qed.

(** The 2-by-1 image of the spec's example. *)
Definition two_pixels : ImageBuffer := mkImage 2 1 255 [10; 10; 10; 200; 200; 200].

Lemma two_pixels_well_formed : well_formed two_pixels.
Proof.
  split; [reflexivity|]. unfold two_pixels, is_byte; cbn [data].
  repeat constructor; lia.
Defined.

Lemma threshold_manual_zero_white_out_of_range_error_witness :
  well_formed two_pixels
  /\ threshold_manual two_pixels 0 = Ok (mkImage 2 1 255 [255; 255; 255; 255; 255; 255])
  /\ threshold_manual two_pixels 256 = Err ValueError.
Proof.
  split; [exact two_pixels_well_formed|].
  destruct (threshold_manual_zero_white_out_of_range_error two_pixels
              two_pixels_well_formed) as [Hw He].
  split; [exact Hw | apply He; right; reflexivity].
Defined.

(** The luminances of the two pixels: the float sum for (10,10,10) falls
    just below 10. *)
Example two_pixels_luminances :
  luminance 10 10 10 = Ok 9 /\ luminance 200 200 200 = Ok 200.
Proof. split; vm_compute; reflexivity. Qed.

Example two_pixels_histogram_threshold :
  (hist ← compute_histogram_grayscale two_pixels; percent_black_threshold hist 1)
  = Ok 9.
Proof. vm_compute. reflexivity. Qed.

(** C3, on the code: [percentBlack(50)] on the 2-by-1 image picks the
    luminance of the darker pixel itself as threshold (9, not a value
    strictly between 9 and 200), and since a pixel at the threshold is
    white, the output is all white instead of [0,0,0, 255,255,255]. *)
Theorem percent_black_two_pixels_all_white :
  threshold_percent_black two_pixels (Py.Int 50)
  = Ok (mkImage 2 1 255 [255; 255; 255; 255; 255; 255])
  /\ threshold_percent_black two_pixels (Py.Flt 50)
     = Ok (mkImage 2 1 255 [255; 255; 255; 255; 255; 255]).
Proof. split; vm_compute; reflexivity. Qed.

(** * Bezier curves *)

Lemma generate_bezier_curve_empty_range pow cps ws n :
  2 <= len cps -> n < 0 -> generate_bezier_curve pow cps n ws = Ok [].
Proof.
  intros Hc Hn. unfold generate_bezier_curve.
  destruct (len cps <? 2) eqn:E; [lia|].
  unfold range. by replace (Z.to_nat (n + 1)) with 0%nat by lia.
Qed.

(** C10, amended: with at least two control points and [samples = 0] the
    first sample divides 0 by 0 and the call raises [ZeroDivisionError];
    with negative [samples] the loop body never runs and the call returns
    the empty list; so a call that returns had [samples <> 0], and the curve
    it returns has [max(0, samples + 1)] points.  With fewer than two control
    points the control points come back verbatim, whatever [samples] is. *)
Theorem generate_curve_zero_samples_fails
  (pow : float -> Z -> result float) (cps : list Point) (ws : option (list float)) :
  (2 <= len cps -> generate_bezier_curve pow cps 0 ws = Err ZeroDivisionError)
  /\ (2 <= len cps ->
      forall n, n < 0 -> generate_bezier_curve pow cps n ws = Ok [])
  /\ (2 <= len cps ->
      forall n pts, generate_bezier_curve pow cps n ws = Ok pts ->
        n <> 0 /\ len pts = Z.max 0 (n + 1))
  /\ (len cps < 2 -> forall n, generate_bezier_curve pow cps n ws = Ok cps).
Proof.
  assert (2 <= len cps -> generate_bezier_curve pow cps 0 ws = Err ZeroDivisionError)
    as Hzero.
  { intros Hc. unfold generate_bezier_curve.
    destruct (len cps <? 2) eqn:E; [lia|]. reflexivity. }
  split; [exact Hzero|]. split; [|split].
  - intros Hc n Hn. by apply generate_bezier_curve_empty_range.
  - intros Hc n pts Hr. split.
    + intros ->. rewrite Hzero in Hr by done. discriminate.
    + unfold generate_bezier_curve in Hr.
      destruct (len cps <? 2) eqn:E; [lia|]. cbv zeta in Hr. unfold range in Hr.
      apply (forM_seq_partial (fun k (t : list Point) => length t = k)) in Hr.
      * unfold len. lia.
      * done.
      * intros k t t' _ Ht Hb. do 2 bind_inv Hb. injection Hb as <-.
        rewrite length_app. cbn [length]. lia.
  - intros Hc n. unfold generate_bezier_curve.
    destruct (len cps <? 2) eqn:E; [done|lia].
Qed.

Lemma generate_curve_zero_samples_fails_witness :
  generate_bezier_curve (fun _ _ => Ok 1%float) [(0, 0); (10, 0); (10, 10)]%float 0 None
  = Err ZeroDivisionError
  /\ generate_bezier_curve (fun _ _ => Ok 1%float) [(0, 0); (10, 0); (10, 10)]%float
       (-3) None
     = Ok []
  /\ generate_bezier_curve (fun _ _ => Ok 1%float) [(3, 4)]%float 0 None
     = Ok [(3, 4)]%float.
Proof.
  split; [|split].
  - apply (generate_curve_zero_samples_fails (fun _ _ => Ok 1%float)
             [(0, 0); (10, 0); (10, 10)]%float None).
    unfold len; cbn [length]. lia.
  - apply (generate_curve_zero_samples_fails (fun _ _ => Ok 1%float)
             [(0, 0); (10, 0); (10, 10)]%float None).
    + unfold len; cbn [length]. lia.
    + lia.
  - apply (generate_curve_zero_samples_fails (fun _ _ => Ok 1%float)
             [(3, 4)]%float None).
    unfold len; cbn [length]. lia.
Defined.

(** C10 as stated makes [samples >= 1] the condition under which the call
    returns; a call with two control points and [samples = -1] returns too,
    with no point at all. *)
Lemma generate_curve_negative_samples_returns :
  ~ (forall (pow : float -> Z -> result float) (cps : list Point) (n : Z)
       (ws : option (list float)),
       2 <= len cps -> is_ok (generate_bezier_curve pow cps n ws) = true -> 1 <= n).
Proof.
  intros Hall.
  specialize (Hall (fun _ _ => Ok 1%float) [(0, 0); (1, 1)]%float (-1) None).
  assert (generate_bezier_curve (fun _ _ => Ok 1%float) [(0, 0); (1, 1)]%float (-1) None
          = Ok []) as Hr by reflexivity.
  rewrite Hr in Hall. cbn [is_ok] in Hall.
  specialize (Hall ltac:(unfold len; cbn [length]; lia) eq_refl). lia.
Qed.

(** * Geometry: a transform about a pivot *)

(** The doubles that [cos(radians(60.0))] and [sin(radians(60.0))] return
    (0.5000000000000001 and 0.8660254037844386), and [radians(60.0)]. *)
Definition cos_60 : float := 0x1.0000000000001p-1.
Definition sin_60 : float := 0x1.bb67ae8584caap-1.
Definition radians_60 : float := 0x1.0c152382d7365p+0.

(** In binary64 the pivot (1, 1) is moved by the rotation of 60 degrees
    about itself: the x coordinate comes back as 0.9999999999999999. *)
Lemma around_point_rotate_moves_pivot_float :
  let p := (1, 1)%float in
  let m := around_point p
             (mat3_rotate_degrees (fun _ => cos_60) (fun _ => sin_60)
                (fun _ => radians_60) 60%float) in
  mat3_apply_to_point m p = (0x1.fffffffffffffp-1, 1)%float
  /\ (fst (mat3_apply_to_point m p) =? fst p)%float = false
  /\ mat3_apply_to_point m p <> p.
Proof.
  cbv zeta. split; [vm_compute; reflexivity|]. split; [vm_compute; reflexivity|].
  intros Heq. apply (f_equal (fun q => (fst q =? 1)%float)) in Heq.
  vm_compute in Heq. discriminate.
Qed.

(** * Histograms *)

(** The samples of one channel of a well-formed buffer, in buffer order. *)
Definition channel_samples (d : list Z) (ch : Z) : list Z :=
  (fun k => d !!! Z.to_nat (ch + 3 * Z.of_nat k)) <$> seq 0 (length d / 3).

(** How many times [v] occurs in [l]. *)
Definition occ (v : Z) (l : list Z) : Z :=
  Z.of_nat (length (filter (fun x => x = v) l)).

Lemma occ_nil v : occ v [] = 0.
Proof. reflexivity. Qed.

Lemma occ_snoc v l x : occ v (l ++ [x]) = occ v l + (if decide (x = v) then 1 else 0).
Proof.
  unfold occ. rewrite filter_app, length_app.
  rewrite filter_cons, filter_nil. destruct (decide (x = v)); cbn; lia.
Qed.

Lemma occ_nonneg v l : 0 <= occ v l.
Proof. unfold occ. lia. Qed.

Lemma occ_pos_iff v l : 0 < occ v l <-> v ∈ l.
Proof.
  unfold occ. split.
  - intros Hpos. destruct (filter (fun x => x = v) l) as [|y t] eqn:Ef; [cbn in Hpos; lia|].
    assert (y ∈ filter (fun x => x = v) l) as Hy by (rewrite Ef; left).
    apply list_elem_of_filter in Hy as [-> Hy]. done.
  - intros Hv. assert (v ∈ filter (fun x => x = v) l) as Hf
      by (apply list_elem_of_filter; done).
    destruct (filter (fun x => x = v) l); [by apply elem_of_nil in Hf | cbn; lia].
Qed.

Lemma range_step3_channel (ch n : Z) :
  0 <= ch < 3 -> 0 <= n ->
  range_step ch (n * 3) 3 = (fun k => ch + 3 * Z.of_nat k) <$> seq 0 (Z.to_nat n).
Proof.
  intros Hch Hn. unfold range_step. do 3 f_equal.
  replace (n * 3 - ch + 3 - 1) with ((2 - ch) + n * 3) by lia.
  rewrite Z.div_add by lia. rewrite Z.div_small by lia. lia.
Qed.

Lemma well_formed_div3 img :
  well_formed img -> (length (data img) / 3)%nat = Z.to_nat (width img * height img).
Proof.
  intros Hwf. destruct (well_formed_pixels img Hwf) as [_ ->].
  rewrite Nat.mul_comm. apply Nat.div_mul. lia.
Qed.

Lemma sample_lookup (d : list Z) (ch : Z) (k : nat) :
  0 <= ch < 3 -> Forall is_byte d -> (3 * k + 2 < length d)%nat ->
  exists v, d !! Z.to_nat (ch + 3 * Z.of_nat k) = Some v /\ is_byte v
            /\ channel_samples d ch !! k = Some v.
Proof.
  intros Hch Hd Hk.
  destruct (lookup_lt_is_Some_2 d (Z.to_nat (ch + 3 * Z.of_nat k))) as [v Hv]; [lia|].
  exists v. split; [done|]. split.
  - rewrite Forall_lookup in Hd. by eapply Hd.
  - unfold channel_samples. rewrite list_lookup_fmap.
    rewrite lookup_seq_lt.
    + cbn. f_equal. by apply list_lookup_total_correct.
    + apply Nat.div_le_lower_bound; lia.
Qed.

Lemma channel_samples_length d ch : length (channel_samples d ch) = (length d / 3)%nat.
Proof. unfold channel_samples. by rewrite length_fmap, length_seq. Qed.

Lemma channel_samples_bytes d ch :
  0 <= ch < 3 -> Forall is_byte d -> (length d mod 3 = 0)%nat ->
  Forall is_byte (channel_samples d ch).
Proof.
  intros Hch Hd Hm. apply Forall_lookup. intros k v Hk.
  pose proof (lookup_lt_Some _ _ _ Hk) as Hlt. rewrite channel_samples_length in Hlt.
  assert (3 * k + 2 < length d)%nat as Hb.
  { pose proof (Nat.div_mod_eq (length d) 3). lia. }
  destruct (sample_lookup d ch k Hch Hd Hb) as (w & _ & Bw & Hw). congruence.
Qed.

(** [compute_histogram] counts the samples of the channel. *)
Definition is_histogram_of (samples hist : list Z) : Prop :=
  length hist = 256%nat
  /\ forall v : nat, (v < 256)%nat -> hist !! v = Some (occ (Z.of_nat v) samples).

Lemma compute_histogram_spec img ch :
  well_formed img -> 0 <= ch < 3 ->
  exists hist, compute_histogram img ch = Ok hist
               /\ is_histogram_of (channel_samples (data img) ch) hist.
Proof.
  intros Hwf Hch. destruct (well_formed_pixels img Hwf) as [Hn HL].
  pose proof (well_formed_div3 img Hwf) as Hdiv.
  destruct Hwf as [Hlen Hbytes]. unfold compute_histogram.
  rewrite Hlen, range_step3_channel by done.
  set (n := Z.to_nat (width img * height img)) in *.
  set (samples := channel_samples (data img) ch).
  destruct (forM_seq_total
    (fun k hist => is_histogram_of (take k samples) hist)
    (fun k => ch + 3 * Z.of_nat k)
    (fun i hist => v ← lget (data img) i; c ← lget hist v; lset hist v (c + 1))
    0 n (replicate 256 0)) as (hist & Hh & HP).
  - split; [apply length_replicate|]. intros v Hv. rewrite take_0, occ_nil.
    by apply lookup_replicate_2.
  - intros k hist Hk [Hl Hc].
    destruct (sample_lookup (data img) ch k Hch Hbytes ltac:(lia))
      as (v & Hv & Bv & Hs). unfold is_byte in Bv.
    rewrite lget_nonneg by (unfold len; lia). rewrite Hv. mstep.
    rewrite lget_nonneg by (unfold len; lia).
    rewrite (Hc (Z.to_nat v)) by lia. mstep.
    unfold lset. rewrite norm_index_nonneg by lia. mstep.
    eexists. split; [reflexivity|]. split; [by rewrite length_insert|].
    intros u Hu. rewrite (take_S_r samples k v Hs), occ_snoc.
    destruct (decide (u = Z.to_nat v)) as [->|Hne].
    + rewrite list_lookup_insert_eq by lia. rewrite Z2Nat.id by lia.
      by rewrite decide_True.
    + rewrite list_lookup_insert_ne by done. rewrite Hc by done.
      rewrite decide_False by lia. f_equal. lia.
  - exists hist. split; [done|].
    rewrite take_ge in HP; [done|]. subst samples.
    rewrite channel_samples_length. lia.
Qed.

Lemma lget_total (l : list Z) (i : Z) :
  0 <= i < len l -> lget l i = Ok (l !!! Z.to_nat i).
Proof.
  intros Hi. rewrite lget_nonneg by done.
  destruct (lookup_lt_is_Some_2 l (Z.to_nat i)) as [v Hv]; [unfold len in Hi; lia|].
  rewrite Hv. f_equal. symmetry. by apply list_lookup_total_correct.
Qed.

Lemma histogram_total samples hist (v : Z) :
  is_histogram_of samples hist -> 0 <= v < 256 ->
  hist !!! Z.to_nat v = occ v samples.
Proof.
  intros [_ Hh] Hv. apply list_lookup_total_correct.
  rewrite Hh by lia. f_equal. f_equal. lia.
Qed.

(** ** The searches for the lowest and the highest occupied intensity *)

Lemma first_occupied_spec (hist order : list Z) (preset : Z) :
  length hist = 256%nat -> (forall i, i ∈ order -> 0 <= i < 256) ->
  (first_occupied hist order preset = Ok preset
   /\ forall i, i ∈ order -> hist !!! Z.to_nat i <= 0)
  \/ (exists l1 m l2, order = l1 ++ m :: l2
        /\ first_occupied hist order preset = Ok m
        /\ 0 < hist !!! Z.to_nat m
        /\ forall i, i ∈ l1 -> hist !!! Z.to_nat i <= 0).
Proof.
  intros Hl. unfold first_occupied.
  induction order as [|i order IH]; intros Hor.
  - left. split; [done|]. intros i Hi. by apply elem_of_nil in Hi.
  - cbn [for_break]. rewrite lget_total by (unfold len; specialize (Hor i ltac:(left)); lia).
    mstep. destruct (0 <? hist !!! Z.to_nat i) eqn:Ei; mstep.
    + right. exists [], i, order. split; [done|]. split; [done|]. split; [lia|].
      intros j Hj. by apply elem_of_nil in Hj.
    + destruct IH as [[Hr Hall]|(l1 & m & l2 & -> & Hr & Hm & Hl1)].
      { intros j Hj. apply Hor. by right. }
      * left. split; [done|]. intros j Hj. apply elem_of_cons in Hj as [->|Hj]; [lia|auto].
      * right. exists (i :: l1), m, l2. split; [done|]. split; [done|]. split; [done|].
        intros j Hj. apply elem_of_cons in Hj as [->|Hj]; [lia|auto].
Qed.

Lemma range_split (n : Z) (l1 l2 : list Z) (m : Z) :
  range n = l1 ++ m :: l2 ->
  0 <= m < n /\ (forall i, 0 <= i < m -> i ∈ l1) /\ (forall i, m < i < n -> i ∈ l2).
Proof.
  intros Hr.
  assert (m ∈ range n) as Hm by (rewrite Hr; apply elem_of_app; right; left).
  apply elem_of_range in Hm.
  assert (m = Z.of_nat (length l1)) as Hk.
  { assert (range n !! length l1 = Some m) as Hlk
      by (rewrite Hr; apply list_lookup_middle; done).
    unfold range in Hlk. rewrite list_lookup_fmap in Hlk.
    destruct (seq 0 (Z.to_nat n) !! length l1) as [k|] eqn:Es; [|done].
    apply lookup_seq in Es as [-> _]. cbn in Hlk. congruence. }
  split; [done|]. split.
  - intros i Hi.
    assert (range n !! Z.to_nat i = Some i) as Hlk.
    { unfold range. rewrite list_lookup_fmap, lookup_seq_lt by lia. cbn. f_equal. lia. }
    rewrite Hr, lookup_app_l in Hlk by lia. by eapply list_elem_of_lookup_2.
  - intros i Hi.
    assert (range n !! Z.to_nat i = Some i) as Hlk.
    { unfold range. rewrite list_lookup_fmap, lookup_seq_lt by lia. cbn. f_equal. lia. }
    rewrite Hr, lookup_app_r in Hlk by lia.
    destruct (Z.to_nat i - length l1)%nat as [|k] eqn:Ek; [lia|].
    cbn in Hlk. by eapply list_elem_of_lookup_2.
Qed.

(** The lowest (highest) value of a list of samples, or the preset value of
    the search when there is no sample. *)
Definition lowest_of (samples : list Z) (preset mn : Z) : Prop :=
  (samples = [] /\ mn = preset)
  \/ (mn ∈ samples /\ forall v, v ∈ samples -> mn <= v).

Definition highest_of (samples : list Z) (preset mx : Z) : Prop :=
  (samples = [] /\ mx = preset)
  \/ (mx ∈ samples /\ forall v, v ∈ samples -> v <= mx).

Lemma no_sample samples hist :
  is_histogram_of samples hist -> Forall is_byte samples ->
  (forall i, 0 <= i < 256 -> hist !!! Z.to_nat i <= 0) -> samples = [].
Proof.
  intros Hh Hb Hall. destruct samples as [|v t]; [done|]. exfalso.
  assert (is_byte v) as Bv by (by inversion Hb).
  specialize (Hall v Bv). rewrite (histogram_total _ _ _ Hh Bv) in Hall.
  assert (0 < occ v (v :: t)) by (apply occ_pos_iff; left). lia.
Qed.

Lemma lowest_occupied samples hist :
  is_histogram_of samples hist -> Forall is_byte samples ->
  exists mn, first_occupied hist (range 256) 0 = Ok mn /\ lowest_of samples 0 mn
             /\ 0 <= mn < 256.
Proof.
  intros Hh Hb. pose proof Hh as [Hl _].
  destruct (first_occupied_spec hist (range 256) 0 Hl) as
    [[Hr Hall]|(l1 & m & l2 & Hsplit & Hr & Hm & Hl1)].
  { intros i. apply elem_of_range. }
  - exists 0. split; [done|]. split; [|lia]. left. split; [|done].
    apply (no_sample _ _ Hh Hb). intros i Hi. apply Hall. by apply elem_of_range.
  - destruct (range_split _ _ _ _ Hsplit) as (Hmr & Hlow & _).
    exists m. split; [done|]. split; [|done]. right.
    rewrite (histogram_total _ _ _ Hh Hmr) in Hm. split; [by apply occ_pos_iff|].
    intros v Hv. destruct (Z_lt_le_dec v m) as [Hlt|]; [|done]. exfalso.
    assert (is_byte v) as Bv by (rewrite Forall_forall in Hb; auto).
    unfold is_byte in Bv. specialize (Hl1 v (Hlow v ltac:(lia))).
    rewrite (histogram_total _ _ _ Hh Bv) in Hl1.
    apply occ_pos_iff in Hv. lia.
Qed.

Lemma highest_occupied samples hist :
  is_histogram_of samples hist -> Forall is_byte samples ->
  exists mx, first_occupied hist range_down_255 255 = Ok mx
             /\ highest_of samples 255 mx /\ 0 <= mx < 256.
Proof.
  intros Hh Hb. pose proof Hh as [Hl _].
  destruct (first_occupied_spec hist range_down_255 255 Hl) as
    [[Hr Hall]|(l1 & m & l2 & Hsplit & Hr & Hm & Hl1)].
  { intros i Hi. unfold range_down_255 in Hi. rewrite elem_of_reverse in Hi.
    by apply elem_of_range. }
  - exists 255. split; [done|]. split; [|lia]. left. split; [|done].
    apply (no_sample _ _ Hh Hb). intros i Hi. apply Hall.
    unfold range_down_255. rewrite elem_of_reverse. by apply elem_of_range.
  - assert (range 256 = reverse l2 ++ m :: reverse l1) as Hsplit'.
    { apply (f_equal reverse) in Hsplit. unfold range_down_255 in Hsplit.
      rewrite reverse_involutive, reverse_app, reverse_cons in Hsplit.
      by rewrite <- app_assoc in Hsplit. }
    destruct (range_split _ _ _ _ Hsplit') as (Hmr & _ & Hhigh).
    exists m. split; [done|]. split; [|done]. right.
    rewrite (histogram_total _ _ _ Hh Hmr) in Hm. split; [by apply occ_pos_iff|].
    intros v Hv. destruct (Z_lt_le_dec m v) as [Hlt|]; [|done]. exfalso.
    assert (is_byte v) as Bv by (rewrite Forall_forall in Hb; auto).
    unfold is_byte in Bv.
    specialize (Hhigh v ltac:(lia)). rewrite elem_of_reverse in Hhigh.
    specialize (Hl1 v Hhigh). rewrite (histogram_total _ _ _ Hh Bv) in Hl1.
    apply occ_pos_iff in Hv. lia.
Qed.

(** ** Writing one channel *)

(** A loop over the indices of channel [ch] whose body stores [val k] at
    the [k]-th of them writes exactly that channel. *)
Lemma forM_write_channel (body : Z -> list Z -> result (list Z))
  (val : nat -> Z) (ch : Z) (n : nat) (nd : list Z) :
  0 <= ch < 3 -> length nd = (3 * n)%nat ->
  (forall k d, (k < n)%nat -> length d = length nd ->
     body (ch + 3 * Z.of_nat k) d = bset d (ch + 3 * Z.of_nat k) (val k)) ->
  (forall k, (k < n)%nat -> is_byte (val k)) ->
  exists nd', forM ((fun k => ch + 3 * Z.of_nat k) <$> seq 0 n) body nd = Ok nd'
    /\ length nd' = length nd
    /\ forall j, (j < length nd)%nat ->
         nd' !! j = if decide (Z.of_nat j mod 3 = ch) then Some (val (j / 3)%nat)
                    else nd !! j.
Proof.
  intros Hch Hlen Hbody Hval.
  destruct (forM_seq_total
    (fun k d => length d = length nd
       /\ forall j, (j < length nd)%nat ->
            d !! j = if decide (Z.of_nat j mod 3 = ch /\ (j / 3 < k)%nat)
                     then Some (val (j / 3)%nat) else nd !! j)
    (fun k => ch + 3 * Z.of_nat k) body 0 n nd) as (r & Hr & Hrl & Hrv).
  - split; [done|]. intros j Hj. rewrite decide_False by lia. done.
  - intros k d Hk [Hd Hpre]. rewrite Hbody by (done || lia).
    rewrite (bset_at d (Z.to_nat ch + 3 * k)) by (auto with lia).
    eexists. split; [reflexivity|]. split; [by rewrite length_insert|].
    intros j Hj. destruct (decide (j = Z.to_nat ch + 3 * k)%nat) as [->|Hne].
    + rewrite list_lookup_insert_eq by lia. rewrite decide_True by lia.
      do 2 f_equal. lia.
    + rewrite list_lookup_insert_ne by done. rewrite Hpre by done.
      destruct (decide (Z.of_nat j mod 3 = ch /\ (j / 3 < k)%nat)) as [Hc|Hc].
      * rewrite decide_True by lia. done.
      * rewrite decide_False by lia. done.
  - exists r. split; [done|]. split; [done|]. intros j Hj. rewrite Hrv by done.
    destruct (decide (Z.of_nat j mod 3 = ch)) as [Hc|Hc].
    + rewrite decide_True by lia. done.
    + rewrite decide_False by tauto. done.
Qed.

Lemma copy_channel (d nd : list Z) (c : Z) (n : nat) :
  0 <= c < 3 -> Forall is_byte d -> length d = (3 * n)%nat -> length nd = length d ->
  exists nd', forM ((fun k => c + 3 * Z.of_nat k) <$> seq 0 n)
                (fun i nd => v ← lget d i; bset nd i v) nd = Ok nd'
    /\ length nd' = length nd
    /\ forall j, (j < length nd)%nat ->
         nd' !! j = if decide (Z.of_nat j mod 3 = c) then d !! j else nd !! j.
Proof.
  intros Hc Hd Hl Hnd.
  destruct (forM_write_channel (fun i nd => v ← lget d i; bset nd i v)
              (fun k => d !!! Z.to_nat (c + 3 * Z.of_nat k)) c n nd Hc ltac:(lia))
    as (r & Hr & Hrl & Hrv).
  - intros k t Hk Ht. rewrite lget_total by (unfold len; lia). done.
  - intros k Hk. rewrite Forall_lookup in Hd.
    destruct (lookup_lt_is_Some_2 d (Z.to_nat (c + 3 * Z.of_nat k))) as [v Hv]; [lia|].
    rewrite (list_lookup_total_correct _ _ _ Hv). by eapply Hd.
  - exists r. split; [done|]. split; [done|]. intros j Hj. rewrite Hrv by done.
    destruct (decide (Z.of_nat j mod 3 = c)) as [Hm|]; [|done].
    destruct (lookup_lt_is_Some_2 d j) as [v Hv]; [lia|]. rewrite Hv. f_equal.
    apply list_lookup_total_correct.
    replace (Z.to_nat (c + 3 * Z.of_nat (j / 3))) with j by lia. done.
Qed.

(** [copy_other_channels] fills in the two channels the transform left at
    zero and keeps the transformed one. *)
Lemma copy_other_channels_spec img ch nd :
  well_formed img -> 0 <= ch < 3 -> length nd = length (data img) ->
  exists nd', copy_other_channels img ch nd = Ok nd'
    /\ length nd' = length nd
    /\ forall j, (j < length nd)%nat ->
         nd' !! j = if decide (Z.of_nat j mod 3 = ch) then nd !! j else data img !! j.
Proof.
  intros Hwf Hch Hnd. destruct (well_formed_pixels img Hwf) as [Hn HL].
  destruct Hwf as [Hlen Hbytes]. unfold copy_other_channels.
  change (range 3) with [0; 1; 2]. cbn [forM]. rewrite Hlen.
  rewrite !range_step3_channel by lia.
  set (n := Z.to_nat (width img * height img)) in *.
  assert (forall c d, 0 <= c < 3 -> length d = length (data img) ->
            exists d', forM ((fun k => c + 3 * Z.of_nat k) <$> seq 0 n)
                         (fun i nd0 => v ← lget (data img) i; bset nd0 i v) d = Ok d'
              /\ length d' = length d
              /\ forall j, (j < length d)%nat ->
                   d' !! j = if decide (Z.of_nat j mod 3 = c) then data img !! j
                             else d !! j) as Hcp.
  { intros c d Hc Hd. apply copy_channel; done. }
  assert (ch = 0 \/ ch = 1 \/ ch = 2) as Hcases by lia.
  destruct Hcases as [ -> | [ -> | -> ] ].
  - change (0 =? 0) with true. change (1 =? 0) with false. change (2 =? 0) with false.
    mstep. destruct (Hcp 1 nd ltac:(lia) Hnd) as (d1 & -> & L1 & V1). mstep.
    destruct (Hcp 2 d1 ltac:(lia) ltac:(lia)) as (d2 & -> & L2 & V2).
    exists d2. split; [done|]. split; [lia|]. intros j Hj.
    rewrite V2, V1 by lia. repeat case_decide; done || lia.
  - change (0 =? 1) with false. change (1 =? 1) with true. change (2 =? 1) with false.
    mstep. destruct (Hcp 0 nd ltac:(lia) Hnd) as (d1 & -> & L1 & V1). mstep.
    destruct (Hcp 2 d1 ltac:(lia) ltac:(lia)) as (d2 & -> & L2 & V2).
    exists d2. split; [done|]. split; [lia|]. intros j Hj.
    rewrite V2, V1 by lia. repeat case_decide; done || lia.
  - change (0 =? 2) with false. change (1 =? 2) with false. change (2 =? 2) with true.
    mstep. destruct (Hcp 0 nd ltac:(lia) Hnd) as (d1 & -> & L1 & V1). mstep.
    destruct (Hcp 1 d1 ltac:(lia) ltac:(lia)) as (d2 & -> & L2 & V2). mstep.
    exists d2. split; [done|]. split; [lia|]. intros j Hj.
    rewrite V2, V1 by lia. repeat case_decide; done || lia.
Qed.

(** ** Histogram stretch *)

Lemma int_truediv_small (a b : Z) :
  b <> 0 -> Z.abs a < 2 ^ 53 -> Z.abs b < 2 ^ 53 ->
  Py.int_truediv a b = Ok (Py.Z2F a / Py.Z2F b)%float.
Proof.
  intros Hb Ha Hb'. unfold Py.int_truediv.
  destruct (Z.eqb_spec b 0) as [|_]; [done|].
  destruct (Z.ltb_spec (Z.abs a) (2 ^ 53)) as [_|]; [|lia].
  destruct (Z.ltb_spec (Z.abs b) (2 ^ 53)) as [_|]; [|lia]. done.
Qed.

(** The float the stretch truncates: [(old - min) * (255.0 / (max - min))]. *)
Definition stretch_float (k d : Z) : float :=
  (Py.Z2F k * (Py.Z2F 255 / Py.Z2F d))%float.

Definition float_in_byte_range (x : float) : bool :=
  (0 <=? x)%float && (x <? 256)%float.

Lemma forallb_dep_spec {A} (P : A -> A -> bool) (l : list A) (f : A -> list A) :
  forallb (fun x => forallb (P x) (f x)) l = true ->
  forall x y, In x l -> In y (f x) -> P x y = true.
Proof.
  intros Hl x y Hx Hy. rewrite forallb_forall in Hl. specialize (Hl x Hx).
  rewrite forallb_forall in Hl. exact (Hl y Hy).
Qed.

Lemma stretch_table_ok :
  forallb (fun d => forallb
             (fun k => float_in_byte_range (stretch_float (Z.of_nat k) (Z.of_nat d)))
             (seq 0 (S d)))
    (seq 1 255) = true.
Proof. vm_compute. reflexivity. Qed.

Lemma stretch_level_byte (k d : Z) :
  1 <= d <= 255 -> 0 <= k <= d ->
  exists v, Py.int_of_float (stretch_float k d) = Ok v /\ 0 <= v <= 255.
Proof.
  intros Hd Hk.
  pose proof (forallb_dep_spec
    (fun d k => float_in_byte_range (stretch_float (Z.of_nat k) (Z.of_nat d)))
    (seq 1 255) (fun d => seq 0 (S d)) stretch_table_ok
    (Z.to_nat d) (Z.to_nat k)) as Ht.
  cbv beta in Ht. rewrite !Z2Nat.id in Ht by lia.
  unfold float_in_byte_range in Ht.
  destruct (andb_prop _ _ (Ht ltac:(apply in_seq; lia) ltac:(apply in_seq; lia)))
    as [H0 H1].
  by apply int_of_float_byte.
Qed.

(** The largest sample of a channel whose values span 25 levels is sent to
    254, not 255: [25 * (255.0 / 25)] is 254.99999999999997 in binary64. *)
Example stretch_level_25 : Py.int_of_float (stretch_float 25 25) = Ok 254.
Proof. vm_compute. reflexivity. Qed.

Lemma channel_sample_elem (d : list Z) (ch : Z) (j : nat) (v : Z) :
  0 <= ch < 3 -> (length d mod 3 = 0)%nat ->
  d !! j = Some v -> Z.of_nat j mod 3 = ch -> v ∈ channel_samples d ch.
Proof.
  intros Hch Hm Hv Hj. pose proof (lookup_lt_Some _ _ _ Hv) as Hlt.
  unfold channel_samples. apply list_elem_of_fmap. exists (j / 3)%nat. split.
  - symmetry. apply list_lookup_total_correct.
    replace (Z.to_nat (ch + 3 * Z.of_nat (j / 3))) with j by lia. done.
  - apply elem_of_seq. lia.
Qed.


(** A 3-by-1 image whose red samples are 0, 1 and 4. *)
Definition red_0_1_4 : ImageBuffer := mkImage 3 1 255 [0; 0; 0; 1; 0; 0; 4; 0; 0].

Lemma red_0_1_4_well_formed : well_formed red_0_1_4.
Proof.
  split; [reflexivity|]. unfold red_0_1_4, is_byte; cbn [data].
  repeat constructor; lia.
Defined.








(** * Mean iterative selection *)

(** The luminances of the pixels of a buffer, in buffer order. *)
Definition luminance_or_0 (r g b : Z) : Z :=
  match luminance r g b with Ok v => v | Err _ => 0 end.

Definition pixel_luminances (d : list Z) : list Z :=
  (fun k => luminance_or_0 (d !!! (3 * k)%nat) (d !!! (3 * k + 1)%nat)
              (d !!! (3 * k + 2)%nat))
    <$> seq 0 (length d / 3).

Definition zsum (l : list Z) : Z := foldr Z.add 0 l.

(** The algorithm on the list of luminances, with the conversion from float
    to int left open: [int] in the code, [round] in the spec's words. *)
Definition mean_step (conv : float -> result Z) (lums : list Z) (t : Z)
  : result (ctl Z) :=
  let below := filter (fun l => l < t) lums in
  let above := filter (fun l => t <= l) lums in
  if (len below =? 0) || (len above =? 0) then Ok (Break t)
  else
    mean_below ← Py.int_truediv (zsum below) (len below);
    mean_above ← Py.int_truediv (zsum above) (len above);
    new_t ← conv ((mean_below + mean_above) / 2)%float;
    if new_t =? t then Ok (Break t) else Ok (Next new_t).

Definition mean_iterative_with (conv : float -> result Z) (img : ImageBuffer)
  (max_iterations : Z) : result ImageBuffer :=
  let lums := pixel_luminances (data img) in
  m ← Py.int_truediv (zsum lums) (len lums);
  t0 ← conv m;
  t ← for_break (range max_iterations) (fun _ t => mean_step conv lums t) t0;
  threshold_manual img t.

(** Two runs have the same outcome when they return the same value or both
    raise. *)
Definition same_outcome {A} (code spec : result A) : Prop :=
  match code, spec with
  | Ok a, Ok b => a = b
  | Err _, Err _ => True
  | _, _ => False
  end.

Lemma pixel_luminances_length d : length (pixel_luminances d) = (length d / 3)%nat.
Proof. unfold pixel_luminances. by rewrite length_fmap, length_seq. Qed.

Lemma pixel_luminance_lookup (d : list Z) (k : nat) :
  Forall is_byte d -> (3 * k + 2 < length d)%nat ->
  exists r g b gray,
    d !! (3 * k)%nat = Some r /\ d !! (3 * k + 1)%nat = Some g
    /\ d !! (3 * k + 2)%nat = Some b
    /\ luminance r g b = Ok gray /\ 0 <= gray <= 255
    /\ pixel_luminances d !! k = Some gray.
Proof.
  intros Hd Hk.
  destruct (pixel_lookup d k Hd Hk) as (r & g & b & Hr & Hg & Hb & Br & Bg & Bb).
  destruct (luminance_byte r g b Br Bg Bb) as (gray & Hgray & Hrange).
  exists r, g, b, gray. repeat split; try done; try lia.
  unfold pixel_luminances. rewrite list_lookup_fmap, lookup_seq_lt by lia.
  cbn [fmap option_fmap option_map]. f_equal.
  rewrite (list_lookup_total_correct _ _ _ Hr), (list_lookup_total_correct _ _ _ Hg),
    (list_lookup_total_correct _ _ _ Hb).
  unfold luminance_or_0. by rewrite Hgray.
Qed.

Lemma pixel_luminances_bytes d :
  Forall is_byte d -> (length d mod 3 = 0)%nat -> Forall is_byte (pixel_luminances d).
Proof.
  intros Hd Hm. apply Forall_lookup. intros k v Hk.
  pose proof (lookup_lt_Some _ _ _ Hk) as Hlt. rewrite pixel_luminances_length in Hlt.
  destruct (pixel_luminance_lookup d k Hd ltac:(lia))
    as (r & g & b & gray & _ & _ & _ & _ & Hr & Hl).
  unfold is_byte. assert (v = gray) by congruence. lia.
Qed.

Lemma compute_histogram_grayscale_spec img :
  well_formed img ->
  exists hist, compute_histogram_grayscale img = Ok hist
               /\ is_histogram_of (pixel_luminances (data img)) hist.
Proof.
  intros Hwf. destruct (well_formed_pixels img Hwf) as [Hn HL].
  destruct Hwf as [Hlen Hbytes]. unfold compute_histogram_grayscale.
  rewrite Hlen, range_step3_pixels.
  set (n := Z.to_nat (width img * height img)) in *.
  set (lums := pixel_luminances (data img)).
  destruct (forM_seq_total
    (fun k hist => is_histogram_of (take k lums) hist)
    (fun k => 0 + 3 * Z.of_nat k)
    (fun i hist =>
       r ← lget (data img) i; g ← lget (data img) (i + 1);
       b ← lget (data img) (i + 2);
       gray ← luminance r g b;
       c ← lget hist gray; lset hist gray (c + 1))
    0 n (replicate 256 0)) as (hist & Hh & HP).
  - split; [apply length_replicate|]. intros v Hv. rewrite take_0, occ_nil.
    by apply lookup_replicate_2.
  - intros k hist Hk [Hl Hc].
    destruct (pixel_luminance_lookup (data img) k Hbytes ltac:(lia))
      as (r & g & b & gray & Hr & Hg & Hb & Hgray & Brange & Hs).
    rewrite (lget_at _ (3 * k) (0 + 3 * Z.of_nat k) r Hr) by lia. mstep.
    rewrite (lget_at _ (3 * k + 1) (0 + 3 * Z.of_nat k + 1) g Hg) by lia. mstep.
    rewrite (lget_at _ (3 * k + 2) (0 + 3 * Z.of_nat k + 2) b Hb) by lia. mstep.
    rewrite Hgray. mstep.
    rewrite lget_nonneg by (unfold len; lia).
    rewrite (Hc (Z.to_nat gray)) by lia. mstep.
    unfold lset. rewrite norm_index_nonneg by lia. mstep.
    eexists. split; [reflexivity|]. split; [by rewrite length_insert|].
    intros u Hu. rewrite (take_S_r lums k gray Hs), occ_snoc.
    destruct (decide (u = Z.to_nat gray)) as [->|Hne].
    + rewrite list_lookup_insert_eq by lia. rewrite Z2Nat.id by lia.
      by rewrite decide_True.
    + rewrite list_lookup_insert_ne by done. rewrite Hc by done.
      rewrite decide_False by lia. f_equal. lia.
  - exists hist. split; [done|].
    rewrite take_ge in HP; [done|]. subst lums.
    rewrite pixel_luminances_length. lia.
Qed.

(** ** Sums over a slice of the histogram *)

Lemma zsum_slice_step (lums : list Z) (a c : Z) :
  a <= c ->
  zsum (filter (fun l => a <= l < c + 1) lums)
  = zsum (filter (fun l => a <= l < c) lums) + c * occ c lums.
Proof.
  intros Hac. induction lums as [|x lums IH].
  { unfold occ, zsum. rewrite !filter_nil. cbn. lia. }
  replace (x :: lums) with ([x] ++ lums) by done.
  rewrite !filter_app. unfold occ, zsum in *.
  rewrite filter_app, length_app, !foldr_app.
  rewrite !filter_cons, !filter_nil.
  destruct (decide (a <= x < c + 1)), (decide (a <= x < c)), (decide (x = c));
    cbn; try lia.
Qed.

Lemma len_slice_step (lums : list Z) (a c : Z) :
  a <= c ->
  len (filter (fun l => a <= l < c + 1) lums)
  = len (filter (fun l => a <= l < c) lums) + occ c lums.
Proof.
  intros Hac. induction lums as [|x lums IH].
  { unfold occ, len. rewrite !filter_nil. cbn. lia. }
  replace (x :: lums) with ([x] ++ lums) by done. unfold occ, len in *.
  rewrite !filter_app, !length_app, !filter_cons, !filter_nil.
  destruct (decide (a <= x < c + 1)), (decide (a <= x < c)), (decide (x = c));
    cbn; lia.
Qed.

Lemma filter_slice_empty (lums : list Z) (a b : Z) :
  b <= a -> filter (fun l => a <= l < b) lums = [].
Proof.
  intros Hba. induction lums as [|x lums IH]; [done|].
  rewrite filter_cons. destruct (decide (a <= x < b)); [lia|done].
Qed.

Lemma weighted_sum_spec lums hist (a b : Z) :
  is_histogram_of lums hist -> 0 <= a -> b <= 256 ->
  weighted_sum hist a b = Ok (zsum (filter (fun l => a <= l < b) lums)).
Proof.
  intros Hh Ha Hb. unfold weighted_sum, range_from.
  destruct (forM_seq_total
    (fun k acc => acc = zsum (filter (fun l => a <= l < a + Z.of_nat k) lums))
    (fun k => a + Z.of_nat k)
    (fun i acc => h ← lget hist i; Ok (acc + i * h))
    0 (Z.to_nat (b - a)) 0) as (r & Hr & HP).
  - replace (a + Z.of_nat 0) with a by lia. by rewrite filter_slice_empty by lia.
  - intros k acc Hk ->. pose proof Hh as [Hl _].
    rewrite lget_total by (unfold len; lia). mstep.
    rewrite (histogram_total _ _ _ Hh) by lia.
    eexists. split; [reflexivity|].
    replace (a + Z.of_nat (S k)) with (a + Z.of_nat k + 1) by lia.
    rewrite zsum_slice_step by lia. done.
  - rewrite Hr, HP. do 2 f_equal. destruct (Z_le_gt_dec a b).
    + by replace (a + Z.of_nat (0 + Z.to_nat (b - a))) with b by lia.
    + replace (a + Z.of_nat (0 + Z.to_nat (b - a))) with a by lia.
      by rewrite !filter_slice_empty by lia.
Qed.

Lemma count_sum_spec lums hist (a b : Z) :
  is_histogram_of lums hist -> 0 <= a -> b <= 256 ->
  count_sum hist a b = Ok (len (filter (fun l => a <= l < b) lums)).
Proof.
  intros Hh Ha Hb. unfold count_sum, range_from.
  destruct (forM_seq_total
    (fun k acc => acc = len (filter (fun l => a <= l < a + Z.of_nat k) lums))
    (fun k => a + Z.of_nat k)
    (fun i acc => h ← lget hist i; Ok (acc + h))
    0 (Z.to_nat (b - a)) 0) as (r & Hr & HP).
  - replace (a + Z.of_nat 0) with a by lia. by rewrite filter_slice_empty by lia.
  - intros k acc Hk ->. pose proof Hh as [Hl _].
    rewrite lget_total by (unfold len; lia). mstep.
    rewrite (histogram_total _ _ _ Hh) by lia.
    eexists. split; [reflexivity|].
    replace (a + Z.of_nat (S k)) with (a + Z.of_nat k + 1) by lia.
    rewrite len_slice_step by lia. done.
  - rewrite Hr, HP. do 2 f_equal. destruct (Z_le_gt_dec a b).
    + by replace (a + Z.of_nat (0 + Z.to_nat (b - a))) with b by lia.
    + replace (a + Z.of_nat (0 + Z.to_nat (b - a))) with a by lia.
      by rewrite !filter_slice_empty by lia.
Qed.

Lemma filter_bytes_below (lums : list Z) (t : Z) :
  Forall is_byte lums ->
  filter (fun l => 0 <= l < t) lums = filter (fun l => l < t) lums.
Proof.
  unfold is_byte. induction 1 as [|x lums Hx _ IH]; [done|].
  rewrite !filter_cons, IH.
  destruct (decide (0 <= x < t)), (decide (x < t)); done || lia.
Qed.

Lemma filter_bytes_above (lums : list Z) (t : Z) :
  Forall is_byte lums ->
  filter (fun l => t <= l < 256) lums = filter (fun l => t <= l) lums.
Proof.
  unfold is_byte. induction 1 as [|x lums Hx _ IH]; [done|].
  rewrite !filter_cons, IH.
  destruct (decide (t <= x < 256)), (decide (t <= x)); done || lia.
Qed.

(** ** The loop body on the histogram and on the luminances *)

Lemma filter_all_bytes (lums : list Z) :
  Forall is_byte lums -> filter (fun l => 0 <= l < 256) lums = lums.
Proof.
  unfold is_byte. induction 1 as [|x lums Hx _ IH]; [done|].
  rewrite filter_cons, IH. destruct (decide (0 <= x < 256)); done || lia.
Qed.

Lemma filter_none_below (lums : list Z) (t : Z) :
  Forall is_byte lums -> t <= 0 -> filter (fun l => l < t) lums = [].
Proof.
  unfold is_byte. induction 1 as [|x lums Hx _ IH]; intros Ht; [done|].
  rewrite filter_cons, IH by done. destruct (decide (x < t)); done || lia.
Qed.

Lemma filter_none_above (lums : list Z) (t : Z) :
  Forall is_byte lums -> 256 <= t -> filter (fun l => t <= l) lums = [].
Proof.
  unfold is_byte. induction 1 as [|x lums Hx _ IH]; intros Ht; [done|].
  rewrite filter_cons, IH by done. destruct (decide (t <= x)); done || lia.
Qed.

Lemma mean_body_in_range lums hist (t : Z) :
  is_histogram_of lums hist -> Forall is_byte lums -> 0 <= t <= 256 ->
  mean_iterative_body hist t = mean_step Py.int_of_float lums t.
Proof.
  intros Hh Hb Ht. unfold mean_iterative_body, mean_step.
  rewrite (weighted_sum_spec lums), (count_sum_spec lums) by (done || lia). mstep.
  rewrite (weighted_sum_spec lums), (count_sum_spec lums) by (done || lia). mstep.
  by rewrite filter_bytes_below, filter_bytes_above.
Qed.

Lemma weighted_sum_past_end lums hist (t : Z) :
  is_histogram_of lums hist -> 256 < t -> weighted_sum hist 0 t = Err IndexError.
Proof.
  intros Hh Ht. pose proof (weighted_sum_spec lums hist 0 256 Hh) as H256.
  pose proof Hh as [Hl _]. unfold weighted_sum, range_from in *.
  replace (Z.to_nat (t - 0)) with (Z.to_nat (256 - 0) + S (Z.to_nat (t - 257)))%nat
    by lia.
  rewrite seq_app, fmap_app, forM_app. rewrite H256 by lia. mstep.
  cbn [seq fmap list_fmap forM]. unfold lget, norm_index. rewrite Hl. done.
Qed.

Lemma mean_body_out_of_range lums hist (t : Z) :
  is_histogram_of lums hist -> t < 0 \/ 256 < t ->
  match mean_iterative_body hist t with
  | Ok (Break t') => t' = t
  | Ok (Next _) => False
  | Err _ => True
  end.
Proof.
  intros Hh [Ht|Ht]; unfold mean_iterative_body.
  - assert (weighted_sum hist 0 t = Ok 0) as ->.
    { unfold weighted_sum, range_from. by replace (Z.to_nat (t - 0)) with 0%nat by lia. }
    assert (count_sum hist 0 t = Ok 0) as ->.
    { unfold count_sum, range_from. by replace (Z.to_nat (t - 0)) with 0%nat by lia. }
    mstep. destruct (weighted_sum hist t 256); mstep; [|done].
    destruct (count_sum hist t 256); mstep; done.
  - by rewrite (weighted_sum_past_end lums).
Qed.

Lemma mean_step_out_of_range conv lums (t : Z) :
  Forall is_byte lums -> t < 0 \/ 256 < t -> mean_step conv lums t = Ok (Break t).
Proof.
  intros Hb [Ht|Ht]; unfold mean_step.
  - rewrite filter_none_below by (done || lia). done.
  - rewrite (filter_none_above lums t) by (done || lia).
    by rewrite orb_true_r.
Qed.

Lemma mean_loop_agree lums hist (iters : list Z) (t : Z) :
  is_histogram_of lums hist -> Forall is_byte lums ->
  match for_break iters (fun _ t => mean_iterative_body hist t) t,
        for_break iters (fun _ t => mean_step Py.int_of_float lums t) t with
  | Ok a, Ok b => a = b
  | Err _, Ok b => b < 0 \/ 255 < b
  | Err _, Err _ => True
  | Ok _, Err _ => False
  end.
Proof.
  intros Hh Hb. revert t. induction iters as [|x iters IH]; intros t; [done|].
  cbn [for_break]. destruct (decide (0 <= t <= 256)) as [Hin|Hout].
  - rewrite (mean_body_in_range lums hist t Hh Hb Hin).
    destruct (mean_step Py.int_of_float lums t) as [[t'|t']|e]; mstep; [apply IH|done|done].
  - rewrite (mean_step_out_of_range _ lums t Hb) by lia. mstep.
    pose proof (mean_body_out_of_range lums hist t Hh ltac:(lia)) as Hc.
    destruct (mean_iterative_body hist t) as [[t'|t']|e]; mstep; [done|done|lia].
Qed.

Lemma same_outcome_refl {A} (r : result A) : same_outcome r r.
Proof. by destruct r. Qed.

(** C6, as the code has it: on a well-formed buffer with at least one pixel
    [threshold_mean_iterative] has the outcome of the algorithm on the pixel
    luminances in which every conversion to an integer is [int], truncation
    toward zero (not [round]): the initial threshold is
    [int(totalLuminanceSum / totalPixels)]; each iteration takes the mean
    luminance strictly below and the mean at or above the threshold, stops
    if either side has no pixel, sets the new threshold to
    [int((meanBelow + meanAbove) / 2)] and stops when it did not change or
    when [max_iterations] passes are done; the result binarizes at that
    threshold. *)
Theorem mean_iterative_truncates (img : ImageBuffer) (max_iterations : Z) :
  well_formed img -> 1 <= width img * height img ->
  same_outcome (threshold_mean_iterative img max_iterations)
    (mean_iterative_with Py.int_of_float img max_iterations).
Proof.
  intros Hwf Hpix. destruct (well_formed_pixels img Hwf) as [Hn HL].
  pose proof (well_formed_div3 img Hwf) as Hdiv.
  destruct (compute_histogram_grayscale_spec img Hwf) as (hist & Hhist & Hh).
  pose proof Hwf as [Hlen Hbytes].
  assert (Forall is_byte (pixel_luminances (data img))) as Hlb
    by (apply pixel_luminances_bytes; [done|lia]).
  assert (len (pixel_luminances (data img)) = width img * height img) as Hcount.
  { unfold len. rewrite pixel_luminances_length. lia. }
  unfold threshold_mean_iterative, mean_iterative_with. rewrite Hhist. mstep.
  rewrite (weighted_sum_spec _ _ 0 256 Hh) by lia. mstep.
  rewrite filter_all_bytes by done. rewrite Hcount.
  destruct (Z.eqb_spec (width img * height img) 0) as [|_]; [lia|].
  destruct (Py.int_truediv _ _) as [m|e]; mstep; [|done].
  destruct (Py.int_of_float m) as [t0|e]; mstep; [|done].
  pose proof (mean_loop_agree (pixel_luminances (data img)) hist
                (range max_iterations) t0 Hh Hlb) as Hloop.
  destruct (for_break _ (fun _ t => mean_iterative_body hist t) t0) as [a|e1];
    destruct (for_break _ (fun _ t => mean_step Py.int_of_float _ t) t0) as [b|e2];
    mstep; try done.
  - subst b. apply same_outcome_refl.
  - rewrite threshold_manual_out_of_range by done. done.
Qed.

(** A 3-by-1 gray image with luminances 0, 1 and 4. *)
Definition gray_0_1_4 : ImageBuffer := mkImage 3 1 255 [0; 0; 0; 1; 1; 1; 4; 4; 4].

Lemma gray_0_1_4_well_formed : well_formed gray_0_1_4.
Proof.
  split; [reflexivity|]. unfold gray_0_1_4, is_byte; cbn [data].
  repeat constructor; lia.
Defined.

Lemma mean_iterative_truncates_witness :
  well_formed gray_0_1_4 /\ 1 <= width gray_0_1_4 * height gray_0_1_4
  /\ same_outcome (threshold_mean_iterative gray_0_1_4 100)
       (mean_iterative_with Py.int_of_float gray_0_1_4 100).
Proof.
  split; [exact gray_0_1_4_well_formed|]. split; [cbn; lia|].
  apply mean_iterative_truncates; [exact gray_0_1_4_well_formed | cbn; lia].
Defined.

(** With [round], as the spec words it, the thresholds are 2 and 2 (mean
    5/3, then (0.5 + 4)/2 = 2.25); the code truncates to 1 and stays at 1
    ((0 + 2.5)/2 = 1.25).  The pixel of luminance 1 is white in the code's
    output and black under the spec's rule. *)
Lemma mean_iterative_does_not_round :
  threshold_mean_iterative gray_0_1_4 100
  = Ok (mkImage 3 1 255 [0; 0; 0; 255; 255; 255; 255; 255; 255])
  /\ mean_iterative_with Py.round_float gray_0_1_4 100
     = Ok (mkImage 3 1 255 [0; 0; 0; 0; 0; 0; 255; 255; 255])
  /\ ~ same_outcome (threshold_mean_iterative gray_0_1_4 100)
        (mean_iterative_with Py.round_float gray_0_1_4 100).
Proof.
  assert (threshold_mean_iterative gray_0_1_4 100
          = Ok (mkImage 3 1 255 [0; 0; 0; 255; 255; 255; 255; 255; 255])) as Hc
    by (vm_compute; reflexivity).
  assert (mean_iterative_with Py.round_float gray_0_1_4 100
          = Ok (mkImage 3 1 255 [0; 0; 0; 0; 0; 0; 255; 255; 255])) as Hs
    by (vm_compute; reflexivity).
  split; [exact Hc|]. split; [exact Hs|]. rewrite Hc, Hs. cbn. discriminate.
Qed.

(** * The PPM codec *)

(** ** Decimal text of an integer *)

Definition is_digit_byte (c : Z) : Prop := 48 <= c <= 57.

Lemma bytes_of_uint_digits (d : Decimal.uint) : Forall is_digit_byte (bytes_of_uint d).
Proof.
  unfold is_digit_byte. induction d; cbn [bytes_of_uint]; constructor; auto; lia.
Qed.

(** The value of a digit string read left to right from [acc]. *)
Fixpoint uint_value (d : Decimal.uint) (acc : Z) : Z :=
  match d with
  | Decimal.Nil => acc
  | Decimal.D0 r => uint_value r (10 * acc)
  | Decimal.D1 r => uint_value r (10 * acc + 1)
  | Decimal.D2 r => uint_value r (10 * acc + 2)
  | Decimal.D3 r => uint_value r (10 * acc + 3)
  | Decimal.D4 r => uint_value r (10 * acc + 4)
  | Decimal.D5 r => uint_value r (10 * acc + 5)
  | Decimal.D6 r => uint_value r (10 * acc + 6)
  | Decimal.D7 r => uint_value r (10 * acc + 7)
  | Decimal.D8 r => uint_value r (10 * acc + 8)
  | Decimal.D9 r => uint_value r (10 * acc + 9)
  end.

Lemma parse_digits_uint (d : Decimal.uint) (acc : Z) (b : bool) :
  d <> Decimal.Nil \/ b = true ->
  parse_digits (bytes_of_uint d) acc b = Ok (uint_value d acc).
Proof.
  revert acc b. induction d as [|d IH|d IH|d IH|d IH|d IH|d IH|d IH|d IH|d IH|d IH];
    intros acc b Hd; cbn [bytes_of_uint uint_value parse_digits].
  1: { destruct Hd as [Hd| ->]; done. }
  all: change (is_digit _) with true; cbv iota; rewrite IH by (by right);
       f_equal; f_equal; lia.
Qed.

Lemma uint_value_pos (d : Decimal.uint) (p : positive) :
  uint_value d (Z.pos p) = Z.pos (Pos.of_uint_acc d p).
Proof.
  revert p. induction d; intros p; cbn [uint_value Pos.of_uint_acc]; [done|..];
    rewrite <- IHd; f_equal; lia.
Qed.

Lemma uint_value_0 (d : Decimal.uint) : uint_value d 0 = Z.of_N (Pos.of_uint d).
Proof.
  induction d; cbn [uint_value Pos.of_uint]; [done|exact IHd|..];
    match goal with
    | |- uint_value _ ?a = _ => change a with (Z.pos (Z.to_pos a))
    end; rewrite uint_value_pos; done.
Qed.

Lemma isspace_digit c : is_digit_byte c \/ c = 45 -> isspace c = false.
Proof. unfold is_digit_byte, isspace. intros Hc. lia. Qed.

Lemma c_isspace_digit c : is_digit_byte c \/ c = 45 -> c_isspace c = false.
Proof. unfold is_digit_byte, c_isspace. intros Hc. lia. Qed.

Lemma lstrip_id (bs : Bytes) :
  match bs with c :: _ => c_isspace c = false | [] => True end -> lstrip bs = bs.
Proof. destruct bs as [|c r]; cbn [lstrip]; [done|]. by intros ->. Qed.

Lemma strip_id (bs : Bytes) :
  Forall (fun c => c_isspace c = false) bs -> strip bs = bs.
Proof.
  intros Hb. unfold strip. rewrite (lstrip_id bs) by (destruct Hb; done).
  rewrite lstrip_id; [apply reverse_involutive|].
  assert (Forall (fun c => c_isspace c = false) (reverse bs)) as Hr
    by (by apply Forall_reverse).
  destruct Hr; done.
Qed.

(** An [int] that [str] and [int] convert: at most [max_str_digits] digits. *)
Definition fits_str_digits (n : Z) : bool :=
  digit_count (int_text n) <=? max_str_digits.

Lemma str_int_fits (n : Z) : fits_str_digits n = true -> str_int n = Ok (int_text n).
Proof.
  unfold fits_str_digits, str_int. intros Hn. cbv zeta.
  destruct (Z.ltb_spec max_str_digits (digit_count (int_text n))); [lia|done].
Qed.

Lemma str_int_long (n : Z) : fits_str_digits n = false -> str_int n = Err ValueError.
Proof.
  unfold fits_str_digits, str_int. intros Hn. cbv zeta.
  destruct (Z.ltb_spec max_str_digits (digit_count (int_text n))); [done|lia].
Qed.

Lemma str_int_Ok (n : Z) (t : Bytes) :
  str_int n = Ok t -> t = int_text n /\ fits_str_digits n = true.
Proof.
  destruct (fits_str_digits n) eqn:Hn.
  - rewrite str_int_fits by done. by intros [= <-].
  - by rewrite str_int_long.
Qed.

Lemma byte_digits_table :
  forallb (fun v => fits_str_digits (Z.of_nat v)) (seq 0 256) = true.
Proof. vm_compute. reflexivity. Qed.

Lemma byte_fits (v : Z) : 0 <= v < 256 -> fits_str_digits v = true.
Proof.
  intros Hv. pose proof byte_digits_table as Ht. rewrite forallb_forall in Ht.
  specialize (Ht (Z.to_nat v) ltac:(apply in_seq; lia)).
  by rewrite Z2Nat.id in Ht by lia.
Qed.

Lemma int_text_no_space (n : Z) : Forall (fun c => c_isspace c = false) (int_text n).
Proof.
  assert (forall d, Forall (fun c => c_isspace c = false) (bytes_of_uint d)) as Hsp.
  { intros d. eapply Forall_impl; [apply bytes_of_uint_digits|].
    intros c Hc. apply c_isspace_digit. by left. }
  unfold int_text. destruct (Z.to_int n); [apply Hsp|]. constructor; [done|apply Hsp].
Qed.

Lemma int_of_str_int_text (n : Z) :
  fits_str_digits n = true -> int_of_str (int_text n) = Ok n.
Proof.
  intros Hn. unfold int_of_str. rewrite strip_id by apply int_text_no_space.
  cbv zeta. unfold fits_str_digits in Hn.
  destruct (Z.ltb_spec max_str_digits (digit_count (int_text n))) as [|_]; [lia|].
  clear Hn. unfold int_text. destruct n as [|p|p]; cbn [Z.to_int].
  - reflexivity.
  - pose proof (DecimalPos.Unsigned.to_uint_nonnil p) as Hnn.
    pose proof (parse_digits_uint (Pos.to_uint p) 0 false (or_introl Hnn)) as Hp.
    rewrite uint_value_0, DecimalPos.Unsigned.of_to in Hp.
    destruct (Pos.to_uint p); try done; exact Hp.
  - pose proof (DecimalPos.Unsigned.to_uint_nonnil p) as Hnn.
    rewrite (parse_digits_uint (Pos.to_uint p) 0 false (or_introl Hnn)).
    rewrite uint_value_0, DecimalPos.Unsigned.of_to. done.
Qed.

(** ** Sizes *)

Definition fits_ssize_t (n : Z) : bool :=
  (- sys_maxsize - 1 <=? n) && (n <=? sys_maxsize).

Lemma as_ssize_t_fits (n : Z) : fits_ssize_t n = true -> as_ssize_t n = Ok n.
Proof.
  unfold fits_ssize_t, as_ssize_t. intros Hn.
  destruct (Z.ltb_spec n (- sys_maxsize - 1)), (Z.ltb_spec sys_maxsize n); cbn [orb];
    try done; lia.
Qed.

Lemma as_ssize_t_Ok (n m : Z) : as_ssize_t n = Ok m -> m = n /\ fits_ssize_t n = true.
Proof.
  unfold fits_ssize_t, as_ssize_t.
  destruct (Z.ltb_spec n (- sys_maxsize - 1)), (Z.ltb_spec sys_maxsize n); cbn [orb];
    try done. intros [= <-]. split; [done|lia].
Qed.

Lemma as_ssize_t_large (n : Z) : sys_maxsize < n -> as_ssize_t n = Err OverflowError.
Proof.
  unfold as_ssize_t. intros Hn.
  destruct (Z.ltb_spec sys_maxsize n); [by rewrite orb_true_r|lia].
Qed.

Lemma size_fits (n : Z) : 0 <= n <= sys_maxsize -> fits_ssize_t n = true.
Proof. unfold fits_ssize_t, sys_maxsize. lia. Qed.

(** ** Reading back a written header *)

(** A byte that belongs to a token: no separator, no comment mark, ASCII. *)
Definition token_byte (c : Z) : Prop :=
  is_header_space c = false /\ (c =? 35) = false /\ (c <? 128) = true.

Lemma int_text_token_bytes (n : Z) : Forall token_byte (int_text n).
Proof.
  assert (forall c, is_digit_byte c \/ c = 45 -> token_byte c) as Htb.
  { unfold is_digit_byte, token_byte, is_header_space. intros c Hc. lia. }
  unfold int_text. destruct (Z.to_int n) as [d|d].
  - eapply Forall_impl; [apply bytes_of_uint_digits|]. intros c Hc. apply Htb. by left.
  - constructor; [apply Htb; by right|].
    eapply Forall_impl; [apply bytes_of_uint_digits|]. intros c Hc. apply Htb. by left.
Qed.

Lemma int_text_nonempty (n : Z) : int_text n <> [].
Proof.
  unfold int_text. destruct n as [|p|p]; cbn [Z.to_int]; [done| |done].
  pose proof (DecimalPos.Unsigned.to_uint_nonnil p). by destruct (Pos.to_uint p).
Qed.

Lemma decode_ascii_token (tok : Bytes) : Forall token_byte tok -> decode_ascii tok = Ok tok.
Proof.
  intros Ht. unfold decode_ascii.
  assert (forallb (fun c => c <? 128) tok = true) as ->; [|done].
  apply forallb_forall. intros c Hc. apply list_elem_of_In in Hc.
  rewrite Forall_forall in Ht. by destruct (Ht c Hc) as (_ & _ & ?).
Qed.

(** A token followed by a separator is yielded whole. *)
Lemma read_tokens_token (tok : Bytes) :
  forall (acc rest : Bytes) (required sep : Z),
    Forall token_byte tok -> Forall token_byte acc -> acc ++ tok <> [] ->
    is_header_space sep = true -> required <> 0 ->
    _read_tokens (tok ++ sep :: rest) acc false required
    = ('(ts, remaining) ← _read_tokens rest [] false (required - 1);
       Ok ((acc ++ tok) :: ts, remaining)).
Proof.
  induction tok as [|c tok IH]; intros acc rest required sep Htok Hacc Hne Hsep Hreq.
  - rewrite app_nil_r in *. cbn [app _read_tokens].
    destruct (Z.eqb_spec required 0) as [|_]; [done|].
    assert ((sep =? 35) = false) as ->.
    { unfold is_header_space in Hsep. lia. }
    rewrite Hsep. rewrite bool_decide_eq_false_2 by done.
    rewrite decode_ascii_token by done. done.
  - inversion Htok as [|? ? (Hsp & Hhash & Hascii) Htok']; subst.
    cbn [app _read_tokens].
    destruct (Z.eqb_spec required 0) as [|_]; [done|].
    rewrite Hhash, Hsp. rewrite IH; [ | done | | | done | done ].
    + by rewrite <- app_assoc.
    + apply Forall_app. split; [done|]. by repeat constructor.
    + rewrite <- app_assoc. cbn. by destruct acc.
Qed.

(** The three numbers of a written header come back as tokens. *)
Lemma read_tokens_written (w h m : Z) (body : Bytes) :
  _read_tokens (10 :: int_text w ++ 32 :: int_text h ++ 10 :: int_text m
                  ++ 10 :: body) [] false 3
  = Ok ([int_text w; int_text h; int_text m], body).
Proof.
  cbn [_read_tokens]. change (3 =? 0) with false. change (10 =? 35) with false.
  change (is_header_space 10) with true.
  cbv iota. rewrite bool_decide_eq_true_2 by done.
  rewrite (read_tokens_token (int_text w) [] _ 3 32);
    [ | apply int_text_token_bytes | constructor | apply int_text_nonempty | done | done ].
  rewrite (read_tokens_token (int_text h) [] _ (3 - 1) 10);
    [ | apply int_text_token_bytes | constructor | apply int_text_nonempty | done | done ].
  rewrite (read_tokens_token (int_text m) [] _ (3 - 1 - 1) 10);
    [ | apply int_text_token_bytes | constructor | apply int_text_nonempty | done | done ].
  change (3 - 1 - 1 - 1) with 0. destruct body; reflexivity.
Qed.

Lemma read_header_written (w h m : Z) (body : Bytes) :
  fits_str_digits w = true -> fits_str_digits h = true -> fits_str_digits m = true ->
  _read_header (magic_P6 ++ 10 :: int_text w ++ 32 :: int_text h ++ 10 :: int_text m
                  ++ 10 :: body)
  = Ok (magic_P6, w, h, m, body).
Proof.
  intros Hw Hh Hm. unfold _read_header, magic_P6. cbn [app take drop].
  change (decode_ascii [80; 54]) with (Ok [80; 54] : result Bytes). mstep.
  rewrite (bool_decide_eq_true_2 ([80; 54] = [80; 54])) by done.
  rewrite orb_true_r. cbn [negb]. rewrite read_tokens_written.
  mstep. rewrite !int_of_str_int_text by done. done.
Qed.

(** The header that [write_ppm] writes. *)
Lemma write_ppm_header (img : ImageBuffer) (binary : bool) :
  fits_str_digits (width img) = true -> fits_str_digits (height img) = true ->
  fits_str_digits (max_value img) = true ->
  write_ppm img binary
  = (let header := (if binary then magic_P6 else magic_P3)
                     ++ 10 :: int_text (width img) ++ 32 :: int_text (height img)
                     ++ 10 :: int_text (max_value img) ++ [10] in
     if binary then Ok (header ++ data img)
     else body ← _write_ascii_pixels img; Ok (header ++ body)).
Proof.
  intros Hw Hh Hm. unfold write_ppm. cbv zeta.
  rewrite !str_int_fits by done. done.
Qed.

(** C2, amended: a well-formed buffer with [max_value = 255] whose width and
    height have at most [max_str_digits] decimal digits (and whose data, as
    that of every bytearray, has at most [sys_maxsize] bytes), written in
    binary mode and read back, comes back with the same width, height,
    [max_value] 255 and the same bytes. *)
Theorem ppm_binary_round_trip (img : ImageBuffer) :
  well_formed img -> max_value img = 255 ->
  fits_str_digits (width img) = true -> fits_str_digits (height img) = true ->
  len (data img) <= sys_maxsize ->
  exists file, write_ppm img true = Ok file /\ read_ppm file = Ok img.
Proof.
  intros [Hlen Hbytes] Hmax Hw Hh Hsize.
  rewrite write_ppm_header by (done || by rewrite Hmax). cbv zeta.
  eexists. split; [reflexivity|].
  unfold read_ppm. do 4 (rewrite <- ?app_assoc; cbn [app]).
  rewrite read_header_written by (done || by rewrite Hmax). mstep.
  rewrite (bool_decide_eq_false_2 (magic_P6 = magic_P3)) by done.
  unfold _read_binary_pixels, stream_read. rewrite <- Hlen, Hmax.
  rewrite as_ssize_t_fits by (apply size_fits; unfold len in *; lia). mstep.
  destruct (Z.eqb_spec (len (data img)) (-1)) as [Hm|_]; [unfold len in Hm; lia|].
  destruct (Z.ltb_spec (len (data img)) 0) as [Hm|_]; [unfold len in Hm; lia|].
  mstep. rewrite take_ge by (unfold len; lia). rewrite Z.eqb_refl. cbn [negb].
  change (255 =? 255) with true. mstep. destruct img as [w h m d]. cbn in *. by subst m.
Qed.

Lemma ppm_binary_round_trip_witness :
  well_formed two_pixels /\ max_value two_pixels = 255
  /\ fits_str_digits (width two_pixels) = true
  /\ fits_str_digits (height two_pixels) = true
  /\ len (data two_pixels) <= sys_maxsize
  /\ exists file, write_ppm two_pixels true = Ok file /\ read_ppm file = Ok two_pixels.
Proof.
  assert (len (data two_pixels) <= sys_maxsize) as Hsize by (vm_compute; discriminate).
  split; [exact two_pixels_well_formed|]. split; [reflexivity|].
  split; [reflexivity|]. split; [reflexivity|]. split; [exact Hsize|].
  apply ppm_binary_round_trip;
    [exact two_pixels_well_formed | reflexivity | reflexivity | reflexivity | exact Hsize].
Defined.

(** An empty buffer that is [10 ^ 4300] pixels wide: the width has 4301
    digits. *)
Definition too_wide : ImageBuffer := mkImage (10 ^ 4300) 0 255 [].

(** C2 as stated fails: the header of a buffer whose width has more than
    [max_str_digits] digits cannot be formatted, and nothing is written. *)
Lemma write_ppm_refuses_long_width :
  well_formed too_wide /\ max_value too_wide = 255
  /\ write_ppm too_wide true = Err ValueError
  /\ ~ (exists file, write_ppm too_wide true = Ok file /\ read_ppm file = Ok too_wide).
Proof.
  assert (write_ppm too_wide true = Err ValueError) as Hw by (vm_compute; reflexivity).
  split; [split; [vm_compute; reflexivity|constructor]|].
  split; [reflexivity|]. split; [exact Hw|].
  intros (file & Hf & _). rewrite Hw in Hf. discriminate Hf.
Qed.

Example ppm_binary_written :
  write_ppm two_pixels true
  = Ok [80; 54; 10; 50; 32; 49; 10; 50; 53; 53; 10; 10; 10; 10; 200; 200; 200].
Proof. vm_compute. reflexivity. Qed.

(** * Histogram equalization *)

(** How many samples are at most [v]: the cumulative histogram. *)
Definition cnt_le (v : Z) (l : list Z) : Z := len (filter (fun x => x <= v) l).

Lemma cnt_le_step (l : list Z) (c : Z) :
  cnt_le (c + 1) l = cnt_le c l + occ (c + 1) l.
Proof.
  unfold cnt_le, occ, len. induction l as [|x l IH].
  { rewrite !filter_nil. cbn. lia. }
  rewrite !filter_cons.
  destruct (decide (x <= c + 1)), (decide (x <= c)), (decide (x = c + 1));
    cbn [length]; lia.
Qed.

Lemma cnt_le_0 (l : list Z) : Forall is_byte l -> cnt_le 0 l = occ 0 l.
Proof.
  unfold cnt_le, occ, len, is_byte. induction 1 as [|x l Hx _ IH].
  { by rewrite !filter_nil. }
  rewrite !filter_cons.
  destruct (decide (x <= 0)), (decide (x = 0)); cbn [length]; lia.
Qed.

Lemma cnt_le_mono (l : list Z) (u v : Z) : u <= v -> cnt_le u l <= cnt_le v l.
Proof.
  intros Huv. unfold cnt_le, len. induction l as [|x l IH].
  { by rewrite !filter_nil. }
  rewrite !filter_cons.
  destruct (decide (x <= u)), (decide (x <= v)); cbn [length]; lia.
Qed.

Lemma cnt_le_all (l : list Z) (v : Z) :
  (forall x, x ∈ l -> x <= v) -> cnt_le v l = len l.
Proof.
  unfold cnt_le, len. induction l as [|x l IH]; intros Hall.
  { by rewrite filter_nil. }
  rewrite filter_cons. rewrite decide_True by (apply Hall; left).
  cbn [length]. rewrite !Nat2Z.inj_succ, IH; [done|].
  intros y Hy. apply Hall. by right.
Qed.

Lemma cnt_le_none (l : list Z) (v : Z) :
  (forall x, x ∈ l -> v < x) -> cnt_le v l = 0.
Proof.
  unfold cnt_le, len. induction l as [|x l IH]; intros Hall.
  { by rewrite filter_nil. }
  rewrite filter_cons. rewrite decide_False by (specialize (Hall x ltac:(left)); lia).
  apply IH. intros y Hy. apply Hall. by right.
Qed.

Lemma cnt_le_lowest (l : list Z) (mn : Z) :
  mn ∈ l -> (forall x, x ∈ l -> mn <= x) -> cnt_le mn l = occ mn l /\ 0 < cnt_le mn l.
Proof.
  intros Hin Hlow.
  assert (cnt_le mn l = occ mn l) as Heq.
  { clear Hin. unfold cnt_le, occ, len. induction l as [|x l IH].
    { by rewrite !filter_nil. }
    rewrite !filter_cons. specialize (Hlow x ltac:(left)) as Hx.
    specialize (IH ltac:(intros y Hy; apply Hlow; by right)).
    destruct (decide (x <= mn)), (decide (x = mn)); cbn [length]; lia. }
  split; [done|]. rewrite Heq. by apply occ_pos_iff.
Qed.

Definition is_cdf_of (samples cdf : list Z) : Prop :=
  length cdf = 256%nat
  /\ forall v : nat, (v < 256)%nat -> cdf !! v = Some (cnt_le (Z.of_nat v) samples).

Lemma cumulative_spec samples hist :
  is_histogram_of samples hist -> Forall is_byte samples ->
  exists cdf, cumulative hist = Ok cdf /\ is_cdf_of samples cdf.
Proof.
  intros Hh Hb. pose proof Hh as [Hl Hv]. unfold cumulative.
  rewrite lget_total by (unfold len; lia). mstep.
  unfold lset. rewrite norm_index_nonneg by (rewrite length_replicate; lia). mstep.
  unfold range_from.
  destruct (forM_seq_total
    (fun k cdf => length cdf = 256%nat
       /\ forall v : nat, (v <= k)%nat -> cdf !! v = Some (cnt_le (Z.of_nat v) samples))
    (fun k => 1 + Z.of_nat k)
    (fun i cdf => p ← lget cdf (i - 1); h ← lget hist i; lset cdf i (p + h))
    0 (Z.to_nat (256 - 1)) (<[Z.to_nat 0 := hist !!! Z.to_nat 0]> (replicate 256 0)))
    as (cdf & Hcdf & Hcl & Hcv).
  - split; [by rewrite length_insert, length_replicate|].
    intros v Hv0. assert (v = 0%nat) as -> by lia.
    rewrite list_lookup_insert_eq by (rewrite length_replicate; lia).
    rewrite (histogram_total _ _ 0 Hh) by lia. by rewrite cnt_le_0.
  - intros k cdf Hk [Hcl Hcv].
    rewrite (lget_at cdf k (1 + Z.of_nat k - 1) _ (Hcv k ltac:(lia))) by lia. mstep.
    rewrite lget_total by (unfold len; lia). mstep.
    rewrite (histogram_total _ _ _ Hh) by lia.
    unfold lset. rewrite norm_index_nonneg by lia. mstep.
    eexists. split; [reflexivity|]. split; [by rewrite length_insert|].
    intros v Hvk. destruct (decide (v = S k)) as [->|Hne].
    + replace (Z.to_nat (1 + Z.of_nat k)) with (S k) by lia.
      rewrite list_lookup_insert_eq by lia. f_equal.
      replace (Z.of_nat (S k)) with (Z.of_nat k + 1) by lia.
      rewrite cnt_le_step. do 2 f_equal. lia.
    + rewrite list_lookup_insert_ne by lia. apply Hcv. lia.
  - exists cdf. split; [done|]. split; [done|]. intros v Hv'. apply Hcv. lia.
Qed.

Lemma cdf_total samples cdf (v : Z) :
  is_cdf_of samples cdf -> 0 <= v < 256 -> cdf !!! Z.to_nat v = cnt_le v samples.
Proof.
  intros [_ Hc] Hv. apply list_lookup_total_correct.
  rewrite Hc by lia. do 2 f_equal. lia.
Qed.

Lemma cdf_min_of_spec samples hist cdf (mn : Z) :
  is_histogram_of samples hist -> is_cdf_of samples cdf -> Forall is_byte samples ->
  mn ∈ samples -> (forall x, x ∈ samples -> mn <= x) ->
  cdf_min_of hist cdf = Ok (cnt_le mn samples).
Proof.
  intros Hh Hc Hb Hin Hlow. pose proof Hh as [Hhl _]. pose proof Hc as [Hcl _].
  assert (is_byte mn) as Bmn by (rewrite Forall_forall in Hb; auto).
  unfold is_byte in Bmn. unfold cdf_min_of, range.
  destruct (forM_seq_total
    (fun k (m : option Z) =>
       if decide (Z.of_nat k <= mn) then m = None else m = Some (cnt_le mn samples))
    (fun k => Z.of_nat k)
    (fun i (m : option Z) =>
       h ← lget hist i;
       if 0 <? h then
         c ← lget cdf i;
         Ok (Some (match m with Some m0 => if c <? m0 then c else m0 | None => c end))
       else Ok m)
    0 (Z.to_nat 256) None) as (m & Hm & HP).
  - by rewrite decide_True by lia.
  - intros k m Hk HP.
    rewrite (lget_total hist) by (unfold len; lia).
    rewrite (lget_total cdf) by (unfold len; lia). mstep.
    rewrite (histogram_total _ _ (Z.of_nat k) Hh) by lia.
    rewrite (cdf_total _ _ (Z.of_nat k) Hc) by lia.
    pose proof (cnt_le_mono samples mn (Z.of_nat k)) as Hmono.
    destruct (Z.ltb_spec 0 (occ (Z.of_nat k) samples)) as [Hpos|Hnopos].
    + apply occ_pos_iff in Hpos. specialize (Hlow _ Hpos).
      eexists. split; [reflexivity|]. rewrite decide_False by lia.
      destruct (decide (Z.of_nat k <= mn)) as [Hle|Hgt]; subst m.
      * by replace (Z.of_nat k) with mn by lia.
      * destruct (Z.ltb_spec (cnt_le (Z.of_nat k) samples) (cnt_le mn samples)); [lia|done].
    + eexists. split; [reflexivity|].
      destruct (decide (Z.of_nat k <= mn)) as [Hle|Hgt]; subst m.
      * rewrite decide_True; [done|].
        assert (Z.of_nat k <> mn); [|lia]. intros He.
        apply occ_pos_iff in Hin. rewrite <- He in Hin. lia.
      * by rewrite decide_False by lia.
  - rewrite Hm. mstep. rewrite decide_False in HP by lia. by rewrite HP.
Qed.

(** ** One pass of equalization *)

(** The lookup-table entry for a cumulative count [c]. *)
Definition lut_value (c cdf_min : Z) (scale : float) : result Z :=
  s ← Py.float_of_int (c - cdf_min); Py.int_of_float (s * scale)%float.

(** The buffer in which every sample of channel [ch] went through [g]. *)
Definition remap (ch : Z) (g : Z -> Z) (d : list Z) : list Z :=
  imap (fun j old => if decide (Z.of_nat j mod 3 = ch) then g old else old) d.

Lemma remap_length ch g d : length (remap ch g d) = length d.
Proof. unfold remap. apply length_imap. Qed.

Lemma remap_lookup ch g d j :
  remap ch g d !! j
  = (fun old => if decide (Z.of_nat j mod 3 = ch) then g old else old) <$> d !! j.
Proof. unfold remap. by rewrite list_lookup_imap. Qed.

Lemma lut_loop_total samples cdf (cdf_min : Z) (scale : float) (lutv : Z -> Z) :
  is_cdf_of samples cdf ->
  (forall v, 0 <= v < 256 -> lut_value (cnt_le v samples) cdf_min scale = Ok (lutv v)) ->
  exists lut,
    forM (range 256)
      (fun i lut =>
         c ← lget cdf i; s ← Py.float_of_int (c - cdf_min);
         v ← Py.int_of_float (s * scale)%float; lset lut i v)
      (replicate 256 0) = Ok lut
    /\ length lut = 256%nat
    /\ forall v, 0 <= v < 256 -> lut !!! Z.to_nat v = lutv v.
Proof.
  intros Hc Hv. pose proof Hc as [Hcl _]. unfold range.
  destruct (forM_seq_total
    (fun k lut => length lut = 256%nat
       /\ forall v, 0 <= v < Z.of_nat k -> lut !!! Z.to_nat v = lutv v)
    (fun k => Z.of_nat k)
    (fun i lut =>
       c ← lget cdf i; s ← Py.float_of_int (c - cdf_min);
       v ← Py.int_of_float (s * scale)%float; lset lut i v)
    0 (Z.to_nat 256) (replicate 256 0)) as (lut & Hlut & Hll & Hlv).
  - split; [apply length_replicate|]. intros v Hv0. lia.
  - intros k lut Hk [Hll Hlv].
    rewrite lget_total by (unfold len; lia). mstep.
    rewrite (cdf_total _ _ (Z.of_nat k) Hc) by lia.
    specialize (Hv (Z.of_nat k) ltac:(lia)). unfold lut_value in Hv.
    destruct (Py.float_of_int _) as [s|e]; [|done]. mstep. mstep in Hv.
    rewrite Hv. mstep. unfold lset. rewrite norm_index_nonneg by lia. mstep.
    eexists. split; [reflexivity|]. split; [by rewrite length_insert|].
    intros v Hvk. apply list_lookup_total_correct.
    destruct (decide (v = Z.of_nat k)) as [->|Hne].
    + by rewrite list_lookup_insert_eq by lia.
    + rewrite list_lookup_insert_ne by lia.
      rewrite <- (Hlv v) by lia. apply list_lookup_lookup_total_lt. lia.
  - exists lut. split; [done|]. split; [done|]. intros v Hv'. apply Hlv. lia.
Qed.

Lemma lut_loop_inv samples cdf (cdf_min : Z) (scale : float) (lut : list Z) :
  is_cdf_of samples cdf ->
  forM (range 256)
    (fun i lut =>
       c ← lget cdf i; s ← Py.float_of_int (c - cdf_min);
       v ← Py.int_of_float (s * scale)%float; lset lut i v)
    (replicate 256 0) = Ok lut ->
  forall v, 0 <= v < 256 ->
    lut_value (cnt_le v samples) cdf_min scale = Ok (lut !!! Z.to_nat v).
Proof.
  intros Hc Hlut. pose proof Hc as [Hcl _]. unfold range in Hlut.
  eapply (forM_seq_partial
    (fun k lut => length lut = 256%nat
       /\ forall v, 0 <= v < Z.of_nat k ->
            lut_value (cnt_le v samples) cdf_min scale = Ok (lut !!! Z.to_nat v))
    (fun k => Z.of_nat k)) in Hlut.
  - destruct Hlut as [_ Hinv]. intros v Hv. apply Hinv. lia.
  - split; [apply length_replicate|]. intros v Hv0. lia.
  - intros k t t' Hk [Hll Hlv] Hstep.
    rewrite lget_total in Hstep by (unfold len; lia). mstep in Hstep.
    rewrite (cdf_total _ _ (Z.of_nat k) Hc) in Hstep by lia.
    bind_inv Hstep. bind_inv Hstep. unfold lset in Hstep.
    rewrite norm_index_nonneg in Hstep by lia. mstep in Hstep. injection Hstep as <-.
    split; [by rewrite length_insert|]. intros u Hu.
    destruct (decide (u = Z.of_nat k)) as [->|Hne].
    + unfold lut_value. rewrite E. mstep. rewrite E0. f_equal. symmetry.
      apply list_lookup_total_correct. by rewrite list_lookup_insert_eq by lia.
    + rewrite (Hlv u) by lia. f_equal. symmetry.
      apply list_lookup_total_correct. rewrite list_lookup_insert_ne by lia.
      apply list_lookup_lookup_total_lt. lia.
Qed.

Lemma forM_write_channel_bytes (body : Z -> list Z -> result (list Z))
  (val : nat -> result Z) (ch : Z) (n : nat) (nd r : list Z) :
  (forall k d, (k < n)%nat -> length d = length nd ->
     body (ch + 3 * Z.of_nat k) d = (v ← val k; bset d (ch + 3 * Z.of_nat k) v)) ->
  forM ((fun k => ch + 3 * Z.of_nat k) <$> seq 0 n) body nd = Ok r ->
  forall k, (k < n)%nat -> exists v, val k = Ok v /\ is_byte v.
Proof.
  intros Hbody Hr.
  eapply (forM_seq_partial
    (fun k d => length d = length nd
       /\ forall k', (k' < k)%nat -> exists v, val k' = Ok v /\ is_byte v)
    (fun k => ch + 3 * Z.of_nat k)) in Hr.
  - destruct Hr as [_ Hr]. intros k Hk. apply Hr. lia.
  - split; [done|]. intros k' Hk'. lia.
  - intros k t t' Hk [Hl Hpre] Hstep. rewrite Hbody in Hstep by (done || lia).
    bind_inv Hstep. split; [by rewrite (bset_length _ _ _ _ Hstep)|].
    intros k' Hk'. destruct (decide (k' = k)) as [->|Hne]; [|apply Hpre; lia].
    exists v. split; [done|]. unfold is_byte. by eapply bset_byte.
Qed.

Definition clamp_to (maxv x : Z) : Z := Z.max 0 (Z.min maxv x).

(** The result of an equalization pass that uses the lookup table [lutv]. *)
Definition equalized (img : ImageBuffer) (ch : Z) (lutv : Z -> Z) : ImageBuffer :=
  mkImage (width img) (height img) (max_value img)
    (remap ch (fun u => clamp_to (max_value img) (lutv u)) (data img)).

(** The last two loops of [_equalize_single_channel], for a table [lut]. *)
Definition apply_lut (image : ImageBuffer) (channel : Z) (lut : list Z)
  : result ImageBuffer :=
  nd ← forM (range_step channel (len (data image)) 3)
    (fun i nd =>
       old_val ← lget (data image) i;
       l ← lget lut old_val;
       c ← clamp image (Py.Int l); bset nd i c)
    (zeros (length (data image)));
  nd ← copy_other_channels image channel nd;
  Ok (mkImage (width image) (height image) (max_value image) nd).

Lemma apply_lut_body img ch lut (k : nat) (d : list Z) :
  well_formed img -> 0 <= ch < 3 -> length lut = 256%nat ->
  (k < Z.to_nat (width img * height img))%nat ->
  (old_val ← lget (data img) (ch + 3 * Z.of_nat k);
   l ← lget lut old_val; c ← clamp img (Py.Int l);
   bset d (ch + 3 * Z.of_nat k) c)
  = (v ← Ok (clamp_to (max_value img)
               (lut !!! Z.to_nat (data img !!! Z.to_nat (ch + 3 * Z.of_nat k))));
     bset d (ch + 3 * Z.of_nat k) v).
Proof.
  intros Hwf Hch Hll Hk. destruct (well_formed_pixels img Hwf) as [Hn HL].
  destruct Hwf as [_ Hbytes].
  destruct (sample_lookup (data img) ch k Hch Hbytes ltac:(lia))
    as (old & Hold & Bold & _). unfold is_byte in Bold.
  rewrite lget_total by (unfold len; lia). mstep.
  rewrite (list_lookup_total_correct _ _ _ Hold).
  rewrite lget_total by (unfold len; lia). mstep. done.
Qed.

Lemma apply_lut_total img ch lut :
  well_formed img -> 0 <= ch < 3 -> length lut = 256%nat ->
  (forall u, u ∈ channel_samples (data img) ch ->
             is_byte (clamp_to (max_value img) (lut !!! Z.to_nat u))) ->
  apply_lut img ch lut = Ok (equalized img ch (fun u => lut !!! Z.to_nat u)).
Proof.
  intros Hwf Hch Hll Hby. destruct (well_formed_pixels img Hwf) as [Hn HL].
  pose proof Hwf as [Hlen Hbytes]. unfold apply_lut.
  rewrite Hlen, range_step3_channel by done.
  set (n := Z.to_nat (width img * height img)) in *.
  destruct (forM_write_channel
    (fun i nd =>
       old_val ← lget (data img) i; l ← lget lut old_val;
       c ← clamp img (Py.Int l); bset nd i c)
    (fun k => clamp_to (max_value img)
                (lut !!! Z.to_nat (data img !!! Z.to_nat (ch + 3 * Z.of_nat k))))
    ch n (zeros (length (data img))) Hch) as (nd1 & Hnd1 & L1 & V1).
  - rewrite zeros_length. lia.
  - intros k d Hk Hd. by rewrite apply_lut_body.
  - intros k Hk. apply Hby.
    destruct (sample_lookup (data img) ch k Hch Hbytes ltac:(lia))
      as (old & Hold & _ & Hs).
    rewrite (list_lookup_total_correct _ _ _ Hold). by eapply list_elem_of_lookup_2.
  - rewrite Hnd1. mstep. rewrite zeros_length in L1.
    destruct (copy_other_channels_spec img ch nd1 Hwf Hch L1) as (nd2 & -> & L2 & V2).
    mstep. unfold equalized. do 2 f_equal. apply list_eq. intros j.
    rewrite remap_lookup. destruct (decide (j < length (data img))%nat) as [Hj|Hj].
    + rewrite V2 by lia. destruct (lookup_lt_is_Some_2 (data img) j Hj) as [old Hold].
      rewrite Hold. cbn [fmap option_fmap option_map].
      destruct (decide (Z.of_nat j mod 3 = ch)) as [Hm|Hm]; [|done].
      rewrite V1 by (rewrite zeros_length; lia). rewrite decide_True by done.
      replace (Z.to_nat (ch + 3 * Z.of_nat (j / 3))) with j by lia.
      by rewrite (list_lookup_total_correct _ _ _ Hold).
    + rewrite !lookup_ge_None_2 by lia. done.
Qed.

Lemma apply_lut_inv img ch lut r :
  well_formed img -> 0 <= ch < 3 -> length lut = 256%nat ->
  apply_lut img ch lut = Ok r ->
  (forall u, u ∈ channel_samples (data img) ch ->
             is_byte (clamp_to (max_value img) (lut !!! Z.to_nat u)))
  /\ r = equalized img ch (fun u => lut !!! Z.to_nat u).
Proof.
  intros Hwf Hch Hll Hr. destruct (well_formed_pixels img Hwf) as [Hn HL].
  pose proof Hwf as [Hlen Hbytes].
  assert (forall u, u ∈ channel_samples (data img) ch ->
            is_byte (clamp_to (max_value img) (lut !!! Z.to_nat u))) as Hby.
  { unfold apply_lut in Hr. bind_inv Hr. clear Hr.
    rewrite Hlen, range_step3_channel in E by done.
    pose proof (forM_write_channel_bytes _
      (fun k => Ok (clamp_to (max_value img)
                      (lut !!! Z.to_nat (data img !!! Z.to_nat (ch + 3 * Z.of_nat k)))))
      ch _ _ _ (fun k d Hk _ => apply_lut_body img ch lut k d Hwf Hch Hll Hk) E) as Hall.
    intros u Hu. apply list_elem_of_lookup_1 in Hu as [k Hk].
    pose proof (lookup_lt_Some _ _ _ Hk) as Hlt.
    rewrite channel_samples_length in Hlt.
    assert (k < Z.to_nat (width img * height img))%nat as Hkn by lia.
    destruct (Hall k Hkn) as (v' & [= <-] & Bv).
    destruct (sample_lookup (data img) ch k Hch Hbytes ltac:(lia))
      as (old & Hold & _ & Hs).
    rewrite (list_lookup_total_correct _ _ _ Hold) in Bv. congruence. }
  split; [done|]. rewrite (apply_lut_total img ch lut) in Hr by done. congruence.
Qed.

Lemma copy_id (img : ImageBuffer) : copy img = img.
Proof. by destruct img. Qed.

Lemma channel_samples_count img ch :
  well_formed img -> len (channel_samples (data img) ch) = width img * height img.
Proof.
  intros Hwf. pose proof (well_formed_div3 img Hwf) as Hdiv.
  destruct (well_formed_pixels img Hwf) as [Hnn _].
  unfold len. rewrite channel_samples_length. lia.
Qed.

(** [_equalize_single_channel] on a buffer with at least one pixel, once
    the histogram, its cumulative sums and their minimum are known. *)
Lemma equalize_unfold img ch mn :
  well_formed img -> 0 <= ch < 3 -> width img * height img <> 0 ->
  mn ∈ channel_samples (data img) ch ->
  (forall x, x ∈ channel_samples (data img) ch -> mn <= x) ->
  exists cdf,
    is_cdf_of (channel_samples (data img) ch) cdf
    /\ _equalize_single_channel img ch
       = let total_pixels := width img * height img in
         let cdf_min := cnt_le mn (channel_samples (data img) ch) in
         if total_pixels <=? cdf_min then Ok img
         else
           scale ← Py.int_truediv 255 (total_pixels - cdf_min);
           lut ← forM (range 256)
             (fun i lut =>
                c ← lget cdf i; s ← Py.float_of_int (c - cdf_min);
                v ← Py.int_of_float (s * scale)%float; lset lut i v)
             (replicate 256 0);
           apply_lut img ch lut.
Proof.
  intros Hwf Hch Hn Hin Hlow. pose proof Hwf as [Hlen Hbytes].
  destruct (well_formed_pixels img Hwf) as [Hnn HL].
  destruct (compute_histogram_spec img ch Hwf Hch) as (hist & Hhist & Hh).
  assert (Forall is_byte (channel_samples (data img) ch)) as Hsb.
  { apply channel_samples_bytes; [done|done|lia]. }
  destruct (cumulative_spec _ _ Hh Hsb) as (cdf & Hcdf & Hc).
  exists cdf. split; [done|]. unfold _equalize_single_channel.
  rewrite Hhist. mstep. destruct (Z.eqb_spec (width img * height img) 0) as [|_]; [done|].
  rewrite Hcdf. mstep.
  rewrite (cdf_min_of_spec _ _ _ mn Hh Hc Hsb Hin Hlow). mstep. cbv zeta.
  rewrite copy_id. done.
Qed.

Lemma equalize_empty img ch :
  well_formed img -> 0 <= ch < 3 -> width img * height img = 0 ->
  _equalize_single_channel img ch = Ok img.
Proof.
  intros Hwf Hch Hn.
  destruct (compute_histogram_spec img ch Hwf Hch) as (hist & Hhist & _).
  unfold _equalize_single_channel. rewrite Hhist. mstep. rewrite Hn.
  change (0 =? 0) with true. cbv iota. by rewrite copy_id.
Qed.

Lemma lut_loop_length (cdf : list Z) (cdf_min : Z) (scale : float) (lut : list Z) :
  forM (range 256)
    (fun i lut =>
       c ← lget cdf i; s ← Py.float_of_int (c - cdf_min);
       v ← Py.int_of_float (s * scale)%float; lset lut i v)
    (replicate 256 0) = Ok lut ->
  length lut = 256%nat.
Proof.
  intros Hlut.
  eapply (forM_inv (fun l : list Z => length l = 256%nat)) in Hlut; [done| |].
  - intros i t t' _ Ht Hstep. do 3 bind_inv Hstep.
    by rewrite (lset_length _ _ _ _ Hstep).
  - apply length_replicate.
Qed.

(** ** The samples of an equalized channel *)

Lemma channel_samples_remap (ch : Z) (g : Z -> Z) (d : list Z) :
  0 <= ch < 3 ->
  channel_samples (remap ch g d) ch = g <$> channel_samples d ch.
Proof.
  intros Hch. unfold channel_samples. rewrite remap_length, <- list_fmap_compose.
  apply list_eq. intros k. rewrite !list_lookup_fmap.
  destruct (seq 0 (length d / 3) !! k) as [k'|] eqn:Ek; [|done].
  apply lookup_seq in Ek as [-> Hk]. cbn. f_equal.
  assert (Z.to_nat (ch + 3 * Z.of_nat k) < length d)%nat as Hlt.
  { pose proof (Nat.div_mod_eq (length d) 3). lia. }
  apply list_lookup_total_correct. rewrite remap_lookup.
  rewrite (list_lookup_lookup_total_lt d _ Hlt). cbn.
  rewrite decide_True by lia. done.
Qed.

Lemma remap_ext (ch : Z) (f g : Z -> Z) (d : list Z) :
  0 <= ch < 3 -> (length d mod 3 = 0)%nat ->
  (forall u, u ∈ channel_samples d ch -> f u = g u) ->
  remap ch f d = remap ch g d.
Proof.
  intros Hch Hm Hfg. apply list_eq. intros j. rewrite !remap_lookup.
  destruct (d !! j) as [old|] eqn:Ej; [|done]. cbn. f_equal.
  destruct (decide (Z.of_nat j mod 3 = ch)) as [Hj|]; [|done].
  apply Hfg. by eapply channel_sample_elem.
Qed.

Lemma remap_bytes (ch : Z) (g : Z -> Z) (d : list Z) :
  0 <= ch < 3 -> (length d mod 3 = 0)%nat -> Forall is_byte d ->
  (forall u, u ∈ channel_samples d ch -> is_byte (g u)) ->
  Forall is_byte (remap ch g d).
Proof.
  intros Hch Hm Hd Hg. apply Forall_lookup. intros j v Hv.
  rewrite remap_lookup in Hv. destruct (d !! j) as [old|] eqn:Ej; [|done].
  cbn in Hv. injection Hv as <-.
  destruct (decide (Z.of_nat j mod 3 = ch)) as [Hj|].
  - apply Hg. by eapply channel_sample_elem.
  - rewrite Forall_lookup in Hd. by eapply Hd.
Qed.

Lemma equalized_well_formed img ch (lutv : Z -> Z) :
  well_formed img -> 0 <= ch < 3 ->
  (forall u, u ∈ channel_samples (data img) ch ->
             is_byte (clamp_to (max_value img) (lutv u))) ->
  well_formed (equalized img ch lutv).
Proof.
  intros Hwf Hch Hg. destruct (well_formed_pixels img Hwf) as [Hn HL].
  destruct Hwf as [Hlen Hbytes]. split; cbn.
  - unfold len in *. by rewrite remap_length.
  - apply remap_bytes; [done|lia|done|done].
Qed.

Lemma equalized_ext img ch (f g : Z -> Z) :
  well_formed img -> 0 <= ch < 3 ->
  (forall u, u ∈ channel_samples (data img) ch -> f u = g u) ->
  equalized img ch f = equalized img ch g.
Proof.
  intros Hwf Hch Hfg. destruct (well_formed_pixels img Hwf) as [Hn HL].
  unfold equalized. f_equal. apply remap_ext; [done|lia|].
  intros u Hu. by rewrite Hfg.
Qed.

(** Remapping twice is remapping with the composition. *)
Lemma remap_remap (ch : Z) (f g : Z -> Z) (d : list Z) :
  remap ch f (remap ch g d) = remap ch (fun u => f (g u)) d.
Proof.
  apply list_eq. intros j. rewrite !remap_lookup.
  destruct (d !! j) as [old|]; [|done]. cbn. f_equal.
  by destruct (decide (Z.of_nat j mod 3 = ch)).
Qed.

Lemma remap_id (ch : Z) (g : Z -> Z) (d : list Z) :
  0 <= ch < 3 -> (length d mod 3 = 0)%nat ->
  (forall u, u ∈ channel_samples d ch -> g u = u) ->
  remap ch g d = d.
Proof.
  intros Hch Hm Hg. apply list_eq. intros j. rewrite remap_lookup.
  destruct (d !! j) as [old|] eqn:Ej; [|done]. cbn. f_equal.
  destruct (decide (Z.of_nat j mod 3 = ch)) as [Hj|]; [|done].
  apply Hg. by eapply channel_sample_elem.
Qed.

(** ** Counting through a map *)

Lemma filter_ext_elem {A} (P Q : A -> Prop) `{!forall x, Decision (P x)}
  `{!forall x, Decision (Q x)} (l : list A) :
  (forall x, x ∈ l -> P x <-> Q x) -> filter P l = filter Q l.
Proof.
  induction l as [|x l IH]; intros Hpq.
  - by rewrite !filter_nil.
  - rewrite !filter_cons.
    rewrite IH by (intros y Hy; apply Hpq; by right).
    pose proof (Hpq x ltac:(left)) as Hx.
    destruct (decide (P x)), (decide (Q x)); tauto.
Qed.

Lemma cnt_le_fmap (g : Z -> Z) (v : Z) (l : list Z) :
  cnt_le v (g <$> l) = len (filter (fun u => g u <= v) l).
Proof.
  unfold cnt_le, len. induction l as [|x l IH].
  - by rewrite fmap_nil, !filter_nil.
  - rewrite fmap_cons, !filter_cons.
    destruct (decide (g x <= v)); cbn [length]; lia.
Qed.

(** The largest element of [l], or [b] when none is larger. *)
Definition max_from (b : Z) (l : list Z) : Z := foldr Z.max b l.

Lemma max_from_ge (b : Z) (l : list Z) :
  b <= max_from b l /\ forall x, x ∈ l -> x <= max_from b l.
Proof.
  unfold max_from. induction l as [|y l [IHb IHl]]; cbn.
  - split; [lia|]. intros x Hx. by apply elem_of_nil in Hx.
  - split; [lia|]. intros x Hx. apply elem_of_cons in Hx as [->|Hx]; [lia|].
    specialize (IHl x Hx). lia.
Qed.

Lemma max_from_elem (b : Z) (l : list Z) :
  max_from b l = b \/ max_from b l ∈ l.
Proof.
  unfold max_from. induction l as [|y l IH]; cbn; [by left|].
  destruct (Z.max_spec y (foldr Z.max b l)) as [[_ ->]|[_ ->]].
  - destruct IH as [->|IH]; [by left|]. right. by right.
  - right. by left.
Qed.

(** Truncating [0 * scale] gives 0 whenever it gives anything. *)
Lemma int_of_float_zero_mul (scale : float) (v : Z) :
  Py.int_of_float (0 * scale)%float = Ok v -> v = 0.
Proof.
  unfold Py.int_of_float. rewrite FloatAxioms.mul_spec.
  change (Prim2SF 0) with (S754_zero false).
  destruct (Prim2SF scale) as [s|s| |s m e]; cbn; congruence.
Qed.

Lemma lut_value_bottom (c : Z) (scale : float) (v : Z) :
  lut_value c c scale = Ok v -> v = 0.
Proof.
  unfold lut_value. rewrite Z.sub_diag.
  change (Py.float_of_int 0) with (Ok 0%float). mstep.
  apply int_of_float_zero_mul.
Qed.

Lemma list_least (l : list Z) :
  l <> [] -> exists mn, mn ∈ l /\ forall x, x ∈ l -> mn <= x.
Proof.
  induction l as [|a l IH]; [done|]. intros _. destruct l as [|b t].
  - exists a. split; [left|]. intros x Hx. apply list_elem_of_singleton in Hx. lia.
  - destruct IH as (m & Hm & Hl); [done|]. destruct (Z.le_gt_cases a m).
    + exists a. split; [left|]. intros x Hx.
      apply elem_of_cons in Hx as [->|Hx]; [lia|]. specialize (Hl x Hx). lia.
    + exists m. split; [by right|]. intros x Hx.
      apply elem_of_cons in Hx as [->|Hx]; [lia|]. auto.
Qed.

(** What a pass that reaches the table computes, and that it computes it. *)
Lemma equalize_pass_inv img ch mn r :
  well_formed img -> 0 <= ch < 3 -> width img * height img <> 0 ->
  mn ∈ channel_samples (data img) ch ->
  (forall x, x ∈ channel_samples (data img) ch -> mn <= x) ->
  cnt_le mn (channel_samples (data img) ch) < width img * height img ->
  _equalize_single_channel img ch = Ok r ->
  exists scale lutv,
    Py.int_truediv 255
      (width img * height img - cnt_le mn (channel_samples (data img) ch)) = Ok scale
    /\ (forall v, 0 <= v < 256 ->
          lut_value (cnt_le v (channel_samples (data img) ch))
            (cnt_le mn (channel_samples (data img) ch)) scale = Ok (lutv v))
    /\ (forall u, u ∈ channel_samples (data img) ch ->
          is_byte (clamp_to (max_value img) (lutv u)))
    /\ r = equalized img ch lutv.
Proof.
  intros Hwf Hch Hn Hin Hlow Hlt Hr.
  destruct (equalize_unfold img ch mn Hwf Hch Hn Hin Hlow) as (cdf & Hc & Heq).
  rewrite Heq in Hr. cbv zeta in Hr.
  destruct (Z.leb_spec (width img * height img)
              (cnt_le mn (channel_samples (data img) ch))) as [|_]; [lia|].
  bind_inv Hr. rename v into scale, E into Hscale. bind_inv Hr. rename v into lut.
  pose proof (lut_loop_length _ _ _ _ E) as Hll.
  pose proof (lut_loop_inv _ _ _ _ _ Hc E) as Hlv.
  destruct (apply_lut_inv img ch lut r Hwf Hch Hll Hr) as [Hby ->].
  by exists scale, (fun u => lut !!! Z.to_nat u).
Qed.

Lemma equalize_pass_total img ch mn scale (lutv : Z -> Z) :
  well_formed img -> 0 <= ch < 3 -> width img * height img <> 0 ->
  mn ∈ channel_samples (data img) ch ->
  (forall x, x ∈ channel_samples (data img) ch -> mn <= x) ->
  cnt_le mn (channel_samples (data img) ch) < width img * height img ->
  Py.int_truediv 255
    (width img * height img - cnt_le mn (channel_samples (data img) ch)) = Ok scale ->
  (forall v, 0 <= v < 256 ->
     lut_value (cnt_le v (channel_samples (data img) ch))
       (cnt_le mn (channel_samples (data img) ch)) scale = Ok (lutv v)) ->
  (forall u, u ∈ channel_samples (data img) ch ->
     is_byte (clamp_to (max_value img) (lutv u))) ->
  _equalize_single_channel img ch = Ok (equalized img ch lutv).
Proof.
  intros Hwf Hch Hn Hin Hlow Hlt Hscale Hv Hby.
  destruct (well_formed_pixels img Hwf) as [Hnn HL]. pose proof Hwf as [Hlen Hbytes].
  assert (Forall is_byte (channel_samples (data img) ch)) as Hsb.
  { apply channel_samples_bytes; [done|done|lia]. }
  rewrite Forall_forall in Hsb.
  destruct (equalize_unfold img ch mn Hwf Hch Hn Hin Hlow) as (cdf & Hc & Heq).
  rewrite Heq. cbv zeta.
  destruct (Z.leb_spec (width img * height img)
              (cnt_le mn (channel_samples (data img) ch))) as [|_]; [lia|].
  rewrite Hscale. mstep.
  destruct (lut_loop_total _ _ _ _ lutv Hc Hv) as (lut & Hlut & Hll & Hlv).
  rewrite Hlut. mstep. rewrite apply_lut_total; [|done|done|done|].
  - f_equal. apply equalized_ext; [done|done|]. intros u Hu. apply Hlv, Hsb, Hu.
  - intros u Hu. rewrite Hlv by apply Hsb, Hu. by apply Hby.
Qed.

(** * Binary64 arithmetic on small integers *)

Lemma iter_pos_nat {A} (f : A -> A) (p : positive) (x : A) :
  SpecFloat.iter_pos f p x = Nat.iter (Pos.to_nat p) f x.
Proof.
  revert x. induction p as [p IH|p IH|]; intros x; cbn [SpecFloat.iter_pos].
  - rewrite !IH, Pos2Nat.inj_xI, Nat.iter_succ_r.
    replace (2 * Pos.to_nat p)%nat with (Pos.to_nat p + Pos.to_nat p)%nat by lia.
    by rewrite Nat.iter_add.
  - rewrite !IH, Pos2Nat.inj_xO.
    replace (2 * Pos.to_nat p)%nat with (Pos.to_nat p + Pos.to_nat p)%nat by lia.
    by rewrite Nat.iter_add.
  - done.
Qed.

Lemma shr_1_nonneg (m : Z) (r s : bool) :
  0 <= m ->
  shr_1 (Build_shr_record m r s) = Build_shr_record (m / 2) (Z.odd m) (r || s).
Proof.
  intros Hm. destruct m as [|p|p]; [done| |lia].
  destruct p as [p|p|]; cbn [shr_1]; f_equal; lia.
Qed.

Lemma odd_or_rest (m n : Z) :
  0 <= m -> 0 <= n ->
  Z.odd (m / 2 ^ n) || negb (m mod 2 ^ n =? 0) = negb (m mod 2 ^ (n + 1) =? 0).
Proof.
  intros Hm Hn. assert (0 < 2 ^ n) as Hp by (apply Z.pow_pos_nonneg; lia).
  rewrite Z.pow_add_r, Z.pow_1_r by lia.
  rewrite Z.rem_mul_r by lia.
  pose proof (Zmod_odd (m / 2 ^ n)) as Ho.
  pose proof (Z.mod_pos_bound m (2 ^ n) Hp) as Hb.
  destruct (Z.odd (m / 2 ^ n)); rewrite Ho.
  - cbn [orb]. symmetry. apply negb_true_iff, Z.eqb_neq. nia.
  - cbn [orb]. by rewrite Z.mul_0_r, Z.add_0_r.
Qed.

(** [n + 1] right shifts: the quotient, the last bit shifted out, and
    whether any bit before it was set. *)
Lemma shr_iter (m : Z) (n : nat) :
  0 <= m ->
  Nat.iter (S n) shr_1 (Build_shr_record m false false)
  = Build_shr_record (m / 2 ^ (Z.of_nat n + 1)) (Z.odd (m / 2 ^ Z.of_nat n))
      (negb (m mod 2 ^ Z.of_nat n =? 0)).
Proof.
  intros Hm. induction n as [|n IH].
  - cbn [Nat.iter]. rewrite shr_1_nonneg by done. cbn [Z.of_nat Z.add].
    by rewrite Z.pow_0_r, Z.div_1_r, Z.mod_1_r, Z.pow_1_r.
  - rewrite Nat.iter_succ, IH.
    assert (0 < 2 ^ (Z.of_nat n + 1)) as Hp by (apply Z.pow_pos_nonneg; lia).
    rewrite shr_1_nonneg by (apply Z.div_pos; lia).
    rewrite odd_or_rest by lia. f_equal.
    + rewrite Z.div_div by lia. f_equal.
      replace (Z.of_nat (S n) + 1) with (Z.of_nat n + 1 + 1) by lia.
      by rewrite (Z.pow_add_r 2 (Z.of_nat n + 1) 1), Z.pow_1_r by lia.
    + do 3 f_equal. lia.
    + do 4 f_equal. lia.
Qed.

Lemma shr_exact (k : Z) (p : positive) :
  0 <= k ->
  SpecFloat.iter_pos shr_1 p (Build_shr_record (k * 2 ^ Z.pos p) false false)
  = Build_shr_record k false false.
Proof.
  intros Hk. rewrite iter_pos_nat.
  destruct (Pos.to_nat p) as [|n] eqn:En; [lia|].
  assert (Z.pos p = Z.of_nat n + 1) as -> by lia.
  assert (0 < 2 ^ Z.of_nat n) as Hp by (apply Z.pow_pos_nonneg; lia).
  rewrite shr_iter by nia.
  assert (k * 2 ^ (Z.of_nat n + 1) = k * 2 * 2 ^ Z.of_nat n) as Hk2.
  { rewrite Z.pow_add_r, Z.pow_1_r by lia. lia. }
  f_equal.
  - apply Z.div_mul. lia.
  - rewrite Hk2, Z.div_mul, Z.odd_mul by lia. apply andb_false_r.
  - by rewrite Hk2, Z.mod_mul by lia.
Qed.

Lemma digits2_pos_lower (m : positive) : 2 ^ (Z.pos (digits2_pos m) - 1) <= Z.pos m.
Proof.
  induction m as [m IH|m IH|]; cbn [digits2_pos].
  - rewrite Pos2Z.inj_succ. replace (Z.succ (Z.pos (digits2_pos m)) - 1)
      with (Z.succ (Z.pos (digits2_pos m) - 1)) by lia.
    rewrite Z.pow_succ_r by lia. lia.
  - rewrite Pos2Z.inj_succ. replace (Z.succ (Z.pos (digits2_pos m)) - 1)
      with (Z.succ (Z.pos (digits2_pos m) - 1)) by lia.
    rewrite Z.pow_succ_r by lia. lia.
  - done.
Qed.

Lemma Zdigits2_log2 (m : Z) : 0 < m -> Zdigits2 m = Z.log2 m + 1.
Proof.
  intros Hm. destruct m as [|p|p]; try lia. cbn [Zdigits2].
  pose proof (digits2_pos_bound p) as Hu. pose proof (digits2_pos_lower p) as Hl.
  rewrite (Z.log2_unique (Z.pos p) (Z.pos (digits2_pos p) - 1)); [lia|lia|].
  split; [done|].
  by replace (Z.succ (Z.pos (digits2_pos p) - 1)) with (Z.pos (digits2_pos p)) by lia.
Qed.

Lemma fexp_small (d : Z) : -1021 <= d -> fexp prec emax d = d - 53.
Proof. unfold fexp, SpecFloat.emin, prec, emax. lia. Qed.

Lemma log2_pos_of (k : Z) : Z.log2 k = 52 -> 0 < k.
Proof. intros Hk. destruct k; [discriminate|lia|discriminate]. Qed.

(** A right shift by [n] bits that are all zero, down to a 53-bit mantissa. *)
Lemma shr_fexp_exact (k E n : Z) :
  Z.log2 k = 52 -> 0 <= n -> -1074 <= E + n ->
  shr_fexp prec emax (k * 2 ^ n) E loc_Exact = (Build_shr_record k false false, E + n).
Proof.
  intros Hk Hn HE. pose proof (log2_pos_of k Hk) as Hpos.
  assert (0 < 2 ^ n) as Hp by (apply Z.pow_pos_nonneg; lia).
  unfold shr_fexp. rewrite Zdigits2_log2 by nia.
  rewrite Z.log2_mul_pow2, Hk, fexp_small by lia.
  replace (n + 52 + 1 + E - 53 - E) with n by lia.
  cbn [shr_record_of_loc]. destruct n as [|p|p]; [|clear Hp|lia].
  - cbn [shr]. by rewrite Z.pow_0_r, Z.mul_1_r, Z.add_0_r.
  - cbn [shr]. rewrite shr_exact by lia. done.
Qed.

(** Rounding a value that is already a 53-bit mantissa times a power of 2. *)
Lemma round_aux_exact (k E n : Z) :
  Z.log2 k = 52 -> 0 <= n -> -1074 <= E + n <= 971 ->
  binary_round_aux prec emax false (k * 2 ^ n) E loc_Exact
  = S754_finite false (Z.to_pos k) (E + n).
Proof.
  intros Hk Hn HE. pose proof (log2_pos_of k Hk) as Hpos.
  unfold binary_round_aux. rewrite shr_fexp_exact by (done || lia).
  cbn [shr_m loc_of_shr_record round_nearest_even].
  replace k with (k * 2 ^ 0) at 1 by (rewrite Z.pow_0_r; lia).
  rewrite shr_fexp_exact by (done || lia). cbn [shr_m].
  destruct k as [|p|p]; try lia. rewrite Z.add_0_r.
  unfold prec, emax. destruct (Z.leb_spec (E + n) (1024 - 53)); [done|lia].
Qed.

(** The normalized mantissa and the exponent of a positive integer. *)
Definition mant (z : Z) : Z := z * 2 ^ (52 - Z.log2 z).
Definition expo (z : Z) : Z := Z.log2 z - 52.

Lemma log2_small (z : Z) : 0 < z < 2 ^ 53 -> 0 <= Z.log2 z <= 52.
Proof.
  intros Hz. split; [apply Z.log2_nonneg|].
  assert (Z.log2 z < 53); [|lia]. apply Z.log2_lt_pow2; lia.
Qed.

Lemma mant_log2 (z : Z) : 0 < z < 2 ^ 53 -> Z.log2 (mant z) = 52.
Proof.
  intros Hz. pose proof (log2_small z Hz). unfold mant.
  rewrite Z.log2_mul_pow2 by lia. lia.
Qed.

Lemma pos_iter_xO (m d : positive) : Z.pos (Pos.iter xO m d) = Z.pos m * 2 ^ Z.pos d.
Proof.
  pose proof (shift_pos_correct d m) as H. unfold shift_pos in H.
  rewrite H. change (Zpower_pos 2 d) with (2 ^ Z.pos d). lia.
Qed.

(** Rounding [M * 2^E] when it is an integer below 2^53. *)
Lemma binary_round_exact (M : positive) (E z : Z) :
  0 < z < 2 ^ 53 -> E <= 0 -> Z.pos M = z * 2 ^ (- E) ->
  binary_round prec emax false M E
  = S754_finite false (Z.to_pos (mant z)) (expo z).
Proof.
  intros Hz HE HM. pose proof (log2_small z Hz) as Hl.
  pose proof (mant_log2 z Hz) as Hk. unfold binary_round.
  change (Z.pos (digits2_pos M)) with (Zdigits2 (Z.pos M)).
  rewrite Zdigits2_log2, HM, Z.log2_mul_pow2, fexp_small by lia.
  replace (- E + Z.log2 z + 1 + E - 53) with (expo z) by (unfold expo; lia).
  unfold shl_align. destruct (expo z - E) as [|d|d] eqn:Ed.
  - replace (Z.pos M) with (mant z * 2 ^ 0).
    + rewrite round_aux_exact by (done || unfold expo in *; lia). f_equal. lia.
    + rewrite HM. unfold mant, expo in *. rewrite Z.pow_0_r, Z.mul_1_r. do 2 f_equal. lia.
  - replace (Z.pos M) with (mant z * 2 ^ Z.pos d).
    + rewrite round_aux_exact by (done || unfold expo in *; lia). f_equal. lia.
    + rewrite HM. unfold mant. rewrite <- Z.mul_assoc, <- Z.pow_add_r by lia.
      do 2 f_equal. unfold expo in *. lia.
  - rewrite pos_iter_xO. replace (Z.pos M * 2 ^ Z.pos d) with (mant z * 2 ^ 0).
    + rewrite round_aux_exact by (done || unfold expo in *; lia). f_equal. lia.
    + rewrite HM. unfold mant. rewrite <- !Z.mul_assoc, <- !Z.pow_add_r by lia.
      do 2 f_equal. unfold expo in *. lia.
Qed.

(** The binary64 number that holds the integer [z], for [0 <= z < 2^53]. *)
Definition canon (z : Z) : spec_float :=
  if z =? 0 then S754_zero false else S754_finite false (Z.to_pos (mant z)) (expo z).

Lemma mant_pos (z : Z) : 0 < z < 2 ^ 53 -> 0 < mant z.
Proof. intros Hz. apply log2_pos_of, mant_log2, Hz. Qed.

Lemma mant_id (z : Z) : 0 < z < 2 ^ 53 -> Z.pos (Z.to_pos (mant z)) = mant z.
Proof. intros Hz. apply Z2Pos.id, mant_pos, Hz. Qed.

Lemma Prim2SF_Z2F (z : Z) : 0 <= z < 2 ^ 53 -> Prim2SF (Py.Z2F z) = canon z.
Proof.
  intros Hz. unfold Py.Z2F.
  assert (2 ^ 53 < 2 ^ 62) as H62 by (apply Z.pow_lt_mono_r; lia).
  destruct (Z.ltb_spec (Z.abs z) (2 ^ 62)) as [_|]; [|lia].
  destruct (Z.ltb_spec z 0) as [|_]; [lia|].
  rewrite of_uint63_spec, of_Z_spec.
  assert (2 ^ 62 < wB) as HwB by (vm_compute; reflexivity).
  rewrite Z.mod_small by lia. unfold canon.
  destruct z as [|p|p]; [done| |lia]. cbn [binary_normalize Z.eqb].
  apply binary_round_exact; [lia|lia|]. cbn. lia.
Qed.

Lemma shl_align_fst (m : positive) (e e' : Z) :
  e' <= e -> Z.pos (fst (shl_align m e e')) = Z.pos m * 2 ^ (e - e').
Proof.
  intros He. unfold shl_align. destruct (e' - e) as [|d|d] eqn:Ed; cbn [fst].
  - replace (e - e') with 0 by lia. cbn. lia.
  - lia.
  - rewrite pos_iter_xO. do 2 f_equal. lia.
Qed.

Lemma mant_scale (z e : Z) :
  0 < z < 2 ^ 53 -> e <= expo z -> mant z * 2 ^ (expo z - e) = z * 2 ^ (- e).
Proof.
  intros Hz He. pose proof (log2_small z Hz). unfold mant, expo in *.
  rewrite <- Z.mul_assoc, <- Z.pow_add_r by lia. do 2 f_equal. lia.
Qed.

Lemma expo_nonpos (z : Z) : 0 < z < 2 ^ 53 -> -52 <= expo z <= 0.
Proof. intros Hz. pose proof (log2_small z Hz). unfold expo. lia. Qed.

Lemma SFadd_canon (a b : Z) :
  0 <= a -> 0 <= b -> a + b < 2 ^ 53 ->
  SF64add (canon a) (canon b) = canon (a + b).
Proof.
  intros Ha Hb Hab. unfold canon at 1 2.
  destruct (Z.eqb_spec a 0) as [->|Ha0], (Z.eqb_spec b 0) as [->|Hb0]; cbn [SF64add SFadd].
  - done.
  - unfold canon. by destruct (Z.eqb_spec (0 + b) 0) as [|_]; [lia|].
  - rewrite Z.add_0_r. unfold canon. by destruct (Z.eqb_spec a 0).
  - pose proof (expo_nonpos a ltac:(lia)) as Hea.
    pose proof (expo_nonpos b ltac:(lia)) as Heb.
    cbn [cond_Zopp]. set (ez := Z.min (expo a) (expo b)).
    rewrite <- Pos2Z.inj_add. cbn [binary_normalize].
    unfold canon. destruct (Z.eqb_spec (a + b) 0) as [|_]; [lia|].
    apply binary_round_exact; [lia|lia|].
    rewrite Pos2Z.inj_add, !shl_align_fst, !mant_id by lia.
    rewrite !mant_scale by lia. lia.
Qed.

Lemma SFmul_one_canon (c : Z) :
  0 <= c < 2 ^ 53 -> SF64mul (Prim2SF 1) (canon c) = canon c.
Proof.
  intros Hc. change (Prim2SF 1) with (S754_finite false 4503599627370496 (-52)).
  unfold canon. destruct (Z.eqb_spec c 0) as [->|Hc0]; [done|].
  cbn [SF64mul SFmul xorb]. pose proof (expo_nonpos c ltac:(lia)) as He.
  rewrite Pos2Z.inj_mul, mant_id by lia.
  change (Z.pos 4503599627370496) with (2 ^ 52).
  rewrite (Z.mul_comm (2 ^ 52)), round_aux_exact; [f_equal; lia| |lia|lia].
  apply mant_log2. lia.
Qed.

Lemma SFadd_canon_zero (c : Z) :
  0 <= c < 2 ^ 53 -> SF64add (canon c) (Prim2SF 0) = canon c.
Proof.
  intros Hc. change (Prim2SF 0) with (S754_zero false).
  unfold canon. by destruct (Z.eqb_spec c 0).
Qed.

Lemma sf_round_canon (c : Z) : 0 <= c < 2 ^ 53 -> Py.sf_round (canon c) = Ok c.
Proof.
  intros Hc. unfold canon. destruct (Z.eqb_spec c 0) as [->|Hc0]; [done|].
  cbn [Py.sf_round]. rewrite mant_id by lia. f_equal.
  pose proof (expo_nonpos c ltac:(lia)) as He.
  pose proof (log2_small c ltac:(lia)) as Hl.
  destruct (Z.leb_spec 0 (expo c)) as [H0|H0].
  - assert (expo c = 0) as Hz by lia. rewrite Hz. unfold mant, expo in *.
    replace (52 - Z.log2 c) with 0 by lia. cbn. lia.
  - assert (mant c = c * 2 ^ (- expo c)) as Hm.
    { unfold mant, expo. do 2 f_equal. lia. }
    assert (0 < 2 ^ (- expo c)) as Hp by (apply Z.pow_pos_nonneg; lia).
    rewrite Hm, Z.mod_mul, Z.div_mul by lia.
    by rewrite (proj2 (Z.compare_lt_iff (2 * 0) (2 ^ (- expo c)))) by lia.
Qed.

Lemma new_location_zero (m : Z) : new_location m 0 = loc_Exact.
Proof. unfold new_location. by destruct (Z.even m). Qed.

Lemma SFdiv_canon (n c : Z) :
  0 < n < 2 ^ 53 -> 0 <= c -> n * c < 2 ^ 53 ->
  SF64div (canon (n * c)) (canon n) = canon c.
Proof.
  intros Hn Hc Hnc. unfold canon at 1 2.
  destruct (Z.eqb_spec n 0) as [|_]; [lia|].
  destruct (Z.eqb_spec (n * c) 0) as [H0|H0].
  { assert (c = 0) as -> by nia. done. }
  assert (0 < c) as Hc0 by nia. assert (c < 2 ^ 53) as Hc53 by nia.
  assert (0 < n * c < 2 ^ 53) as Hnc' by nia.
  pose proof (log2_small n Hn) as Hln.
  pose proof (log2_small c ltac:(lia)) as Hlc.
  pose proof (log2_small (n * c) Hnc') as Hlnc.
  pose proof (Z.log2_mul_above n c ltac:(lia) ltac:(lia)) as Habove.
  cbn [SF64div SFdiv xorb]. unfold SFdiv_core_binary.
  rewrite !mant_id by lia.
  rewrite !Zdigits2_log2, !mant_log2 by (done || by apply mant_pos).
  replace (52 + 1 + expo (n * c) - (52 + 1 + expo n)) with (expo (n * c) - expo n) by lia.
  rewrite fexp_small by (unfold expo; lia).
  rewrite Z.min_l by lia.
  replace (expo (n * c) - expo n - (expo (n * c) - expo n - 53)) with 53 by lia.
  cbv iota. rewrite Z.shiftl_mul_pow2 by lia.
  set (q := mant c * 2 ^ (1 + Z.log2 n + Z.log2 c - Z.log2 (n * c))).
  assert (mant (n * c) * 2 ^ 53 = q * mant n) as Hq.
  { unfold q, mant. 
    replace (n * c * 2 ^ (52 - Z.log2 (n * c)) * 2 ^ 53)
      with (n * c * (2 ^ (52 - Z.log2 (n * c)) * 2 ^ 53)) by lia.
    replace (c * 2 ^ (52 - Z.log2 c) * 2 ^ (1 + Z.log2 n + Z.log2 c - Z.log2 (n * c))
             * (n * 2 ^ (52 - Z.log2 n)))
      with (n * c * (2 ^ (52 - Z.log2 c)
                     * 2 ^ (1 + Z.log2 n + Z.log2 c - Z.log2 (n * c))
                     * 2 ^ (52 - Z.log2 n))) by lia.
    rewrite <- !Z.pow_add_r by lia. do 2 f_equal. lia. }
  pose proof (mant_pos n Hn) as Hmn.
  pose proof (Z_div_mod (mant (n * c) * 2 ^ 53) (mant n) ltac:(lia)) as Hdm.
  destruct (Z.div_eucl (mant (n * c) * 2 ^ 53) (mant n)) as [q' r'].
  destruct Hdm as [Hdm Hr']. rewrite Hq in Hdm.
  assert (q' = q) as ->.
  { destruct (Z.lt_trichotomy q' q) as [Hlt|[Heq|Hgt]]; [exfalso; nia|done|exfalso; nia]. }
  assert (r' = 0) as -> by lia.
  rewrite new_location_zero. unfold q.
  rewrite round_aux_exact; [| by apply mant_log2 | lia | unfold expo; lia ].
  unfold canon. destruct (Z.eqb_spec c 0) as [|_]; [lia|].
  f_equal. unfold expo. lia.
Qed.

(** ** The same facts on primitive floats *)

Lemma Z2F_add (a b : Z) :
  0 <= a -> 0 <= b -> a + b < 2 ^ 53 ->
  (Py.Z2F a + Py.Z2F b)%float = Py.Z2F (a + b).
Proof.
  intros Ha Hb Hab. apply Prim2SF_inj.
  rewrite FloatAxioms.add_spec, !Prim2SF_Z2F by lia. by apply SFadd_canon.
Qed.

Lemma Z2F_mul_one (c : Z) : 0 <= c < 2 ^ 53 -> (1 * Py.Z2F c)%float = Py.Z2F c.
Proof.
  intros Hc. apply Prim2SF_inj.
  rewrite FloatAxioms.mul_spec, !Prim2SF_Z2F by lia. by apply SFmul_one_canon.
Qed.

Lemma Z2F_add_zero (c : Z) : 0 <= c < 2 ^ 53 -> (Py.Z2F c + 0)%float = Py.Z2F c.
Proof.
  intros Hc. apply Prim2SF_inj.
  rewrite FloatAxioms.add_spec, !Prim2SF_Z2F by lia. by apply SFadd_canon_zero.
Qed.

Lemma Z2F_div (n c : Z) :
  0 < n < 2 ^ 53 -> 0 <= c -> n * c < 2 ^ 53 ->
  (Py.Z2F (n * c) / Py.Z2F n)%float = Py.Z2F c.
Proof.
  intros Hn Hc Hnc. apply Prim2SF_inj.
  rewrite FloatAxioms.div_spec, !Prim2SF_Z2F by nia. by apply SFdiv_canon.
Qed.

Lemma round_float_Z2F (c : Z) : 0 <= c < 2 ^ 53 -> Py.round_float (Py.Z2F c) = Ok c.
Proof.
  intros Hc. unfold Py.round_float. rewrite Prim2SF_Z2F by lia.
  by apply sf_round_canon.
Qed.

Lemma float_of_int_small (n : Z) :
  0 <= n < 2 ^ 53 -> Py.float_of_int n = Ok (Py.Z2F n).
Proof.
  intros Hn. unfold Py.float_of_int, is_infinity.
  rewrite FloatAxioms.eqb_spec, abs_spec, Prim2SF_Z2F by lia.
  change (Prim2SF infinity) with (S754_infinity false).
  unfold canon. by destruct (n =? 0).
Qed.

Lemma Z2F_nonzero (n : Z) : 0 < n < 2 ^ 53 -> (Py.Z2F n =? 0)%float = false.
Proof.
  intros Hn. rewrite FloatAxioms.eqb_spec, Prim2SF_Z2F by lia.
  change (Prim2SF 0) with (S754_zero false).
  unfold canon. by destruct (Z.eqb_spec n 0) as [|_]; [lia|].
Qed.

(** * Rounding is monotone *)

(** The record left by [n >= 1] right shifts of [m]. *)
Lemma shr_shift (m e n : Z) :
  0 <= m -> 0 < n ->
  shr (Build_shr_record m false false) e n
  = (Build_shr_record (m / 2 ^ n) (Z.odd (m / 2 ^ (n - 1)))
       (negb (m mod 2 ^ (n - 1) =? 0)), e + n).
Proof.
  intros Hm Hn. destruct n as [|p|p]; try lia. cbn [shr]. f_equal.
  rewrite iter_pos_nat. destruct (Pos.to_nat p) as [|k] eqn:Ek; [lia|].
  rewrite shr_iter by done. assert (Z.pos p = Z.of_nat k + 1) as -> by lia.
  by replace (Z.of_nat k + 1 - 1) with (Z.of_nat k) by lia.
Qed.

(** [m / 2^n] rounded to nearest, ties to even, from the quotient and the
    remainder. *)
Definition rnd (m n : Z) : Z :=
  let q := m / 2 ^ n in
  let r := m mod 2 ^ n in
  match 2 * r ?= 2 ^ n with
  | Lt => q
  | Eq => if Z.even q then q else q + 1
  | Gt => q + 1
  end.

Lemma rnd_zero (m : Z) : rnd m 0 = m.
Proof.
  unfold rnd. rewrite Z.pow_0_r, Z.div_1_r, Z.mod_1_r. done.
Qed.

(** The two bits of the record say where the remainder lies. *)
Lemma round_record (m n : Z) :
  0 <= m -> 0 < n ->
  round_nearest_even (m / 2 ^ n)
    (loc_of_shr_record
       (Build_shr_record (m / 2 ^ n) (Z.odd (m / 2 ^ (n - 1)))
          (negb (m mod 2 ^ (n - 1) =? 0))))
  = rnd m n.
Proof.
  intros Hm Hn. unfold rnd. cbv zeta.
  assert (0 < 2 ^ (n - 1)) as Hp by (apply Z.pow_pos_nonneg; lia).
  assert (2 ^ n = 2 ^ (n - 1) * 2) as Hn2.
  { replace n with (n - 1 + 1) at 1 by lia. by rewrite Z.pow_add_r, Z.pow_1_r by lia. }
  assert (m mod 2 ^ n = m mod 2 ^ (n - 1) + 2 ^ (n - 1) * ((m / 2 ^ (n - 1)) mod 2)) as Hr.
  { rewrite Hn2. apply Z.rem_mul_r; lia. }
  pose proof (Zmod_odd (m / 2 ^ (n - 1))) as Ho.
  pose proof (Z.mod_pos_bound m (2 ^ (n - 1)) Hp) as Hb.
  cbn [loc_of_shr_record].
  destruct (Z.odd (m / 2 ^ (n - 1))); rewrite Ho in Hr;
    destruct (Z.eqb_spec (m mod 2 ^ (n - 1)) 0) as [H0|H0]; cbn [negb round_nearest_even].
  - rewrite (proj2 (Z.compare_eq_iff (2 * (m mod 2 ^ n)) (2 ^ n))) by lia. done.
  - rewrite (proj2 (Z.compare_gt_iff (2 * (m mod 2 ^ n)) (2 ^ n))) by lia. done.
  - rewrite (proj2 (Z.compare_lt_iff (2 * (m mod 2 ^ n)) (2 ^ n))) by lia. done.
  - rewrite (proj2 (Z.compare_lt_iff (2 * (m mod 2 ^ n)) (2 ^ n))) by lia. done.
Qed.

Lemma rnd_bounds (m n : Z) : 0 <= n -> m / 2 ^ n <= rnd m n <= m / 2 ^ n + 1.
Proof.
  intros Hn. unfold rnd. cbv zeta.
  destruct (2 * (m mod 2 ^ n) ?= 2 ^ n); [destruct (Z.even _)| |]; lia.
Qed.

Lemma rnd_mono (m1 m2 n : Z) : 0 <= n -> m1 <= m2 -> rnd m1 n <= rnd m2 n.
Proof.
  intros Hn Hm. assert (0 < 2 ^ n) as Hp by (apply Z.pow_pos_nonneg; lia).
  pose proof (Z.div_le_mono m1 m2 (2 ^ n) Hp Hm) as Hq.
  destruct (Z.eq_dec (m1 / 2 ^ n) (m2 / 2 ^ n)) as [He|Hne].
  - assert (m1 mod 2 ^ n <= m2 mod 2 ^ n) as Hr.
    { pose proof (Z.div_mod m1 (2 ^ n) ltac:(lia)).
      pose proof (Z.div_mod m2 (2 ^ n) ltac:(lia)). nia. }
    unfold rnd. cbv zeta. rewrite He.
    destruct (2 * (m1 mod 2 ^ n) ?= 2 ^ n) eqn:E1;
      destruct (2 * (m2 mod 2 ^ n) ?= 2 ^ n) eqn:E2;
      try apply Z.compare_eq in E1; try apply Z.compare_eq in E2;
      try rewrite Z.compare_lt_iff in E1; try rewrite Z.compare_lt_iff in E2;
      try rewrite Z.compare_gt_iff in E1; try rewrite Z.compare_gt_iff in E2;
      destruct (Z.even (m2 / 2 ^ n)); lia.
  - pose proof (rnd_bounds m1 n Hn). pose proof (rnd_bounds m2 n Hn). lia.
Qed.

Lemma rnd_scale (m n j : Z) :
  0 <= n -> 0 <= j -> rnd (m * 2 ^ j) (n + j) = rnd m n.
Proof.
  intros Hn Hj. unfold rnd. cbv zeta.
  assert (0 < 2 ^ n) as Hpn by (apply Z.pow_pos_nonneg; lia).
  assert (0 < 2 ^ j) as Hpj by (apply Z.pow_pos_nonneg; lia).
  rewrite Z.pow_add_r by lia.
  rewrite Z.div_mul_cancel_r by lia.
  rewrite Z.mul_mod_distr_r by lia.
  replace (2 * (m mod 2 ^ n * 2 ^ j) ?= 2 ^ n * 2 ^ j)
    with (2 * (m mod 2 ^ n) ?= 2 ^ n); [done|].
  rewrite Z.mul_assoc. apply Zmult_compare_compat_r. lia.
Qed.

(** ** Truncation *)

(** [int(m * 2^e)] for [m >= 0]. *)
Definition tr (m e : Z) : Z := if 0 <=? e then m * 2 ^ e else m / 2 ^ (- e).

Lemma tr_mono_m (m1 m2 e : Z) : m1 <= m2 -> tr m1 e <= tr m2 e.
Proof.
  intros Hm. unfold tr. destruct (Z.leb_spec 0 e).
  - assert (0 < 2 ^ e) by (apply Z.pow_pos_nonneg; lia). nia.
  - apply Z.div_le_mono; [apply Z.pow_pos_nonneg; lia|done].
Qed.

Lemma tr_double (m e : Z) : 0 <= m -> tr (2 * m) e = tr m (e + 1).
Proof.
  intros Hm. unfold tr.
  destruct (Z.leb_spec 0 e), (Z.leb_spec 0 (e + 1)); try lia.
  - rewrite Z.pow_add_r, Z.pow_1_r by lia. lia.
  - assert (e = -1) as -> by lia. cbn. rewrite Z.mul_comm, Z.div_mul by lia. lia.
  - assert (2 ^ (- e) = 2 * 2 ^ (- (e + 1))) as ->.
    { replace (- e) with (- (e + 1) + 1) by lia.
      rewrite Z.pow_add_r, Z.pow_1_r by lia. lia. }
    assert (0 < 2 ^ (- (e + 1))) by (apply Z.pow_pos_nonneg; lia).
    apply Z.div_mul_cancel_l; lia.
Qed.

Lemma tr_mono_e (m e1 e2 : Z) : 0 <= m -> e1 <= e2 -> tr m e1 <= tr m e2.
Proof.
  intros Hm He. unfold tr.
  destruct (Z.leb_spec 0 e1), (Z.leb_spec 0 e2); try lia.
  - assert (2 ^ e1 <= 2 ^ e2) by (apply Z.pow_le_mono_r; lia). nia.
  - assert (0 < 2 ^ (- e1)) by (apply Z.pow_pos_nonneg; lia).
    assert (0 < 2 ^ e2) by (apply Z.pow_pos_nonneg; lia).
    assert (m / 2 ^ (- e1) <= m) by (apply Z.div_le_upper_bound; nia). nia.
  - apply Z.div_le_compat_l; [done|]. split; [apply Z.pow_pos_nonneg; lia|].
    apply Z.pow_le_mono_r; lia.
Qed.

Lemma tr_nonneg (m e : Z) : 0 <= m -> 0 <= tr m e.
Proof.
  intros Hm. unfold tr. destruct (Z.leb_spec 0 e).
  - assert (0 < 2 ^ e) by (apply Z.pow_pos_nonneg; lia). nia.
  - apply Z.div_pos; [done|apply Z.pow_pos_nonneg; lia].
Qed.

(** ** What rounding and truncating gives *)

Lemma fexp_spec (x : Z) : fexp prec emax x = Z.max (x - 53) (-1074).
Proof. reflexivity. Qed.

Lemma Zdigits2_bounds (m : Z) :
  0 < m -> 2 ^ (Zdigits2 m - 1) <= m < 2 ^ Zdigits2 m /\ 0 < Zdigits2 m.
Proof.
  intros Hm. destruct m as [|p|p]; try lia. cbn [Zdigits2].
  pose proof (digits2_pos_bound p). pose proof (digits2_pos_lower p). lia.
Qed.

Lemma Zdigits2_le (m k : Z) : 0 < m -> 0 <= k -> m < 2 ^ k -> Zdigits2 m <= k.
Proof.
  intros Hm Hk Hlt. destruct (Zdigits2_bounds m Hm) as [[Hl _] Hd].
  destruct (Z.le_gt_cases (Zdigits2 m) k) as [|Hgt]; [done|].
  assert (2 ^ k <= 2 ^ (Zdigits2 m - 1)) by (apply Z.pow_le_mono_r; lia). lia.
Qed.

(** The first shift and the rounding of [binary_round_aux]. *)
Lemma round_first_stage (M E : Z) :
  0 < M -> E <= fexp prec emax (Zdigits2 M + E) ->
  exists mrs,
    shr_fexp prec emax M E loc_Exact = (mrs, fexp prec emax (Zdigits2 M + E))
    /\ round_nearest_even (shr_m mrs) (loc_of_shr_record mrs)
       = rnd M (fexp prec emax (Zdigits2 M + E) - E).
Proof.
  intros HM Ht. unfold shr_fexp. set (t := fexp prec emax (Zdigits2 M + E)) in *.
  cbn [shr_record_of_loc].
  destruct (Z.eq_dec (t - E) 0) as [H0|H0].
  - rewrite H0. cbn [shr]. eexists. split; [f_equal; lia|].
    cbn [shr_m loc_of_shr_record round_nearest_even]. by rewrite rnd_zero.
  - rewrite shr_shift by lia. eexists. split; [f_equal; lia|].
    cbn [shr_m]. apply round_record; lia.
Qed.

Lemma rnd_below (M E : Z) :
  0 < M -> E <= fexp prec emax (Zdigits2 M + E) ->
  0 <= rnd M (fexp prec emax (Zdigits2 M + E) - E) <= 2 ^ 53.
Proof.
  intros HM Ht. rewrite fexp_spec in *.
  set (n := Z.max (Zdigits2 M + E - 53) (-1074) - E) in *.
  destruct (Zdigits2_bounds M HM) as [[_ Hu] Hd].
  assert (0 < 2 ^ n) as Hp by (apply Z.pow_pos_nonneg; lia).
  pose proof (rnd_bounds M n ltac:(lia)) as Hb.
  assert (0 <= M / 2 ^ n) by (apply Z.div_pos; lia).
  assert (M / 2 ^ n < 2 ^ 53); [|lia].
  apply Z.div_lt_upper_bound; [lia|]. rewrite <- Z.pow_add_r by lia.
  eapply Z.lt_le_trans; [exact Hu|]. apply Z.pow_le_mono_r; lia.
Qed.

(** [int] of a rounded value, when it is finite. *)
Lemma trunc_round (M E a : Z) :
  0 < M -> E <= fexp prec emax (Zdigits2 M + E) ->
  Py.sf_trunc (binary_round_aux prec emax false M E loc_Exact) = Ok a ->
  a = tr (rnd M (fexp prec emax (Zdigits2 M + E) - E))
         (fexp prec emax (Zdigits2 M + E)).
Proof.
  intros HM Ht Ha. unfold binary_round_aux in Ha.
  destruct (round_first_stage M E HM Ht) as (mrs & Hs & Hr).
  rewrite Hs, Hr in Ha.
  pose proof (rnd_below M E HM Ht) as Hb.
  set (t := fexp prec emax (Zdigits2 M + E)) in *.
  set (m' := rnd M (t - E)) in *.
  assert (-1074 <= t) as Htmin by (unfold t; rewrite fexp_spec; lia).
  unfold shr_fexp in Ha. cbn [shr_record_of_loc] in Ha.
  destruct (Z.eq_dec m' 0) as [H0|H0].
  { rewrite H0 in *. cbn [Zdigits2] in Ha. rewrite fexp_spec in Ha.
    replace (Z.max (0 + t - 53) (-1074) - t) with (- Z.min 53 (t + 1074)) in Ha by lia.
    destruct (Z.min 53 (t + 1074)) as [|p|p] eqn:Emin; try lia;
      cbn [Z.opp shr shr_m] in Ha; cbn in Ha; injection Ha as <-;
      unfold tr; destruct (0 <=? t); done. }
  destruct (Z.eq_dec m' (2 ^ 53)) as [H53|H53].
  { rewrite H53 in *. change (Zdigits2 (2 ^ 53)) with 54 in Ha.
    rewrite fexp_spec in Ha.
    replace (Z.max (54 + t - 53) (-1074) - t) with 1 in Ha by lia.
    rewrite shr_shift in Ha by lia. cbn [shr_m] in Ha.
    change (2 ^ 53 / 2 ^ 1) with (Z.pos 4503599627370496) in Ha. cbv iota in Ha.
    destruct (t + 1 <=? emax - prec); [|done]. cbn [Py.sf_trunc] in Ha.
    injection Ha as <-. change (2 ^ 53) with (2 * 2 ^ 52). rewrite tr_double by lia.
    unfold tr. reflexivity. }
  assert (Zdigits2 m' <= 53) as Hd by (apply Zdigits2_le; lia).
  destruct (Zdigits2_bounds m' ltac:(lia)) as [_ Hdpos].
  rewrite fexp_spec in Ha.
  replace (Z.max (Zdigits2 m' + t - 53) (-1074) - t)
    with (- Z.min (53 - Zdigits2 m') (t + 1074)) in Ha by lia.
  assert (shr {| shr_m := m'; shr_r := false; shr_s := false |} t
            (- Z.min (53 - Zdigits2 m') (t + 1074))
          = ({| shr_m := m'; shr_r := false; shr_s := false |}, t)) as Hshr.
  { destruct (Z.min (53 - Zdigits2 m') (t + 1074)) as [|p|p] eqn:Emin; try lia; done. }
  rewrite Hshr in Ha. cbn [shr_m] in Ha.
  destruct m' as [|p|p]; try lia.
  destruct (t <=? emax - prec); [|done]. cbn [Py.sf_trunc] in Ha.
  injection Ha as <-. reflexivity.
Qed.

(** The rounded mantissa and its exponent, for the value [M * 2^E]. *)
Definition rexp (M E : Z) : Z := fexp prec emax (Zdigits2 M + E).
Definition rmant (M E : Z) : Z := rnd M (rexp M E - E).

Lemma Zdigits2_mono (m1 m2 : Z) : 0 < m1 <= m2 -> Zdigits2 m1 <= Zdigits2 m2.
Proof.
  intros Hm. destruct (Zdigits2_bounds m2 ltac:(lia)) as [[_ Hu] Hd].
  apply Zdigits2_le; lia.
Qed.

Lemma rounded_mono_same (M1 M2 E : Z) :
  0 < M1 <= M2 -> E <= rexp M1 E -> E <= rexp M2 E ->
  tr (rmant M1 E) (rexp M1 E) <= tr (rmant M2 E) (rexp M2 E).
Proof.
  intros HM H1 H2. unfold rmant.
  pose proof (Zdigits2_mono M1 M2 HM) as Hd.
  pose proof (rnd_below M1 E ltac:(lia) H1) as Hb1.
  pose proof (rnd_below M2 E ltac:(lia) H2) as Hb2.
  fold (rexp M1 E) in Hb1. fold (rexp M2 E) in Hb2.
  assert (rexp M1 E <= rexp M2 E) as Ht by (unfold rexp; rewrite !fexp_spec; lia).
  destruct (Z.eq_dec (rexp M1 E) (rexp M2 E)) as [He|Hne].
  - rewrite He. apply tr_mono_m, rnd_mono; lia.
  - assert (rexp M2 E = Zdigits2 M2 + E - 53) as Ht2.
    { unfold rexp in *. rewrite !fexp_spec in *. lia. }
    assert (2 ^ 52 <= rnd M2 (rexp M2 E - E)) as Hlow.
    { destruct (Zdigits2_bounds M2 ltac:(lia)) as [[Hl _] _].
      pose proof (rnd_bounds M2 (rexp M2 E - E) ltac:(lia)) as Hb.
      assert (2 ^ 52 <= M2 / 2 ^ (rexp M2 E - E)); [|lia].
      apply Z.div_le_lower_bound; [apply Z.pow_pos_nonneg; lia|].
      rewrite <- Z.pow_add_r by lia.
      eapply Z.le_trans; [|exact Hl]. apply Z.pow_le_mono_r; lia. }
    eapply Z.le_trans; [apply (tr_mono_m _ (2 ^ 53)); lia|].
    change (2 ^ 53) with (2 * 2 ^ 52). rewrite tr_double by lia.
    eapply Z.le_trans; [apply (tr_mono_e _ _ (rexp M2 E)); lia|].
    by apply tr_mono_m.
Qed.

Lemma rounded_scale (M E j : Z) :
  0 < M -> 0 <= j -> E <= rexp M E ->
  rexp (M * 2 ^ j) (E - j) = rexp M E /\ rmant (M * 2 ^ j) (E - j) = rmant M E.
Proof.
  intros HM Hj Ht. assert (0 < 2 ^ j) as Hp by (apply Z.pow_pos_nonneg; lia).
  assert (rexp (M * 2 ^ j) (E - j) = rexp M E) as He.
  { unfold rexp. rewrite !Zdigits2_log2 by nia.
    rewrite Z.log2_mul_pow2 by lia. f_equal. lia. }
  split; [done|]. unfold rmant. rewrite He.
  replace (rexp M E - (E - j)) with (rexp M E - E + j) by lia.
  apply rnd_scale; lia.
Qed.

(** Rounding then truncating is monotone in the value rounded. *)
Lemma trunc_round_mono (M1 E1 M2 E2 a1 a2 : Z) :
  0 < M1 -> 0 < M2 -> E1 <= E2 -> M1 <= M2 * 2 ^ (E2 - E1) ->
  E1 <= rexp M1 E1 -> E2 <= rexp M2 E2 ->
  Py.sf_trunc (binary_round_aux prec emax false M1 E1 loc_Exact) = Ok a1 ->
  Py.sf_trunc (binary_round_aux prec emax false M2 E2 loc_Exact) = Ok a2 ->
  a1 <= a2.
Proof.
  intros HM1 HM2 HE HM Ht1 Ht2 Ha1 Ha2.
  apply trunc_round in Ha1; [|done|done]. apply trunc_round in Ha2; [|done|done].
  fold (rexp M1 E1) in Ha1. fold (rmant M1 E1) in Ha1.
  fold (rexp M2 E2) in Ha2. fold (rmant M2 E2) in Ha2. subst a1 a2.
  destruct (rounded_scale M2 E2 (E2 - E1) HM2 ltac:(lia) Ht2) as [He Hm].
  replace (E2 - (E2 - E1)) with E1 in He, Hm by lia.
  rewrite <- He, <- Hm. apply rounded_mono_same; [lia|done|].
  rewrite He. lia.
Qed.

(** ** The lookup table of a pass is monotone *)

(** Not negative: the sign bit is clear. *)
Definition sf_pos (x : spec_float) : Prop :=
  match x with
  | S754_zero s | S754_infinity s | S754_finite s _ _ => s = false
  | S754_nan => True
  end.

Lemma round_aux_sign (m e : Z) (l : location) :
  sf_pos (binary_round_aux prec emax false m e l).
Proof.
  unfold binary_round_aux. destruct (shr_fexp prec emax m e l) as [mrs e'].
  destruct (shr_fexp prec emax _ e' loc_Exact) as [mrs' e''].
  destruct (shr_m mrs'); [done| |done]. by destruct (e'' <=? emax - prec).
Qed.

Lemma int_truediv_sign (d : Z) (scale : float) :
  0 < d < 2 ^ 53 -> Py.int_truediv 255 d = Ok scale -> sf_pos (Prim2SF scale).
Proof.
  intros Hd H. unfold Py.int_truediv in H.
  destruct (Z.eqb_spec d 0) as [|_]; [lia|].
  destruct (Z.ltb_spec (Z.abs 255) (2 ^ 53)) as [_|]; [|done].
  destruct (Z.ltb_spec (Z.abs d) (2 ^ 53)) as [_|]; [|lia].
  cbn [andb] in H. injection H as <-.
  rewrite FloatAxioms.div_spec, !Prim2SF_Z2F by lia. unfold canon.
  destruct (Z.eqb_spec d 0) as [|_]; [lia|]. cbn [Z.eqb SF64div SFdiv xorb].
  destruct (SFdiv_core_binary _ _ _ _ _ _) as [[mz ez] lz]. apply round_aux_sign.
Qed.

Lemma mant_lower (k : Z) : 0 < k < 2 ^ 53 -> 2 ^ 52 <= mant k.
Proof.
  intros Hk. pose proof (mant_log2 k Hk) as Hl. pose proof (mant_pos k Hk) as Hp.
  rewrite <- Hl. by apply Z.log2_spec.
Qed.

Lemma expo_mono (k1 k2 : Z) : 0 < k1 <= k2 -> expo k1 <= expo k2.
Proof. intros Hk. unfold expo. pose proof (Z.log2_le_mono k1 k2). lia. Qed.

Lemma product_regime (M E : Z) : 2 ^ 52 <= M -> E <= rexp M E.
Proof.
  intros HM. unfold rexp. rewrite fexp_spec.
  destruct (Zdigits2_bounds M ltac:(lia)) as [[_ Hu] Hd].
  assert (53 <= Zdigits2 M); [|lia].
  destruct (Z.le_gt_cases 53 (Zdigits2 M)) as [|Hlt]; [done|].
  assert (2 ^ Zdigits2 M <= 2 ^ 52) by (apply Z.pow_le_mono_r; lia). lia.
Qed.

Lemma trunc_mul_nonneg (k : Z) (ms : positive) (es a : Z) :
  0 <= k < 2 ^ 53 ->
  Py.sf_trunc (SF64mul (canon k) (S754_finite false ms es)) = Ok a -> 0 <= a.
Proof.
  intros Hk Ha. unfold canon in Ha. destruct (Z.eqb_spec k 0) as [->|Hk0].
  { cbn in Ha. injection Ha as <-. lia. }
  cbn [SF64mul SFmul xorb] in Ha.
  pose proof (mant_lower k ltac:(lia)) as Hm.
  rewrite Pos2Z.inj_mul, mant_id in Ha by lia.
  apply trunc_round in Ha; [|nia|apply product_regime; nia]. subst a.
  apply tr_nonneg. apply rnd_below; [nia|apply product_regime; nia].
Qed.

Lemma trunc_mul_mono (k1 k2 : Z) (ms : positive) (es a1 a2 : Z) :
  0 <= k1 <= k2 -> k2 < 2 ^ 53 ->
  Py.sf_trunc (SF64mul (canon k1) (S754_finite false ms es)) = Ok a1 ->
  Py.sf_trunc (SF64mul (canon k2) (S754_finite false ms es)) = Ok a2 ->
  a1 <= a2.
Proof.
  intros Hk Hk2 Ha1 Ha2.
  destruct (Z.eq_dec k1 0) as [->|Hk0].
  { cbn in Ha1. injection Ha1 as <-. eapply trunc_mul_nonneg; [|exact Ha2]. lia. }
  unfold canon in Ha1, Ha2.
  destruct (Z.eqb_spec k1 0) as [|_]; [lia|].
  destruct (Z.eqb_spec k2 0) as [|_]; [lia|].
  cbn [SF64mul SFmul xorb] in Ha1, Ha2.
  pose proof (mant_lower k1 ltac:(lia)) as Hm1.
  pose proof (mant_lower k2 ltac:(lia)) as Hm2.
  rewrite Pos2Z.inj_mul, mant_id in Ha1, Ha2 by lia.
  pose proof (expo_mono k1 k2 ltac:(lia)) as He.
  apply (trunc_round_mono (mant k1 * Z.pos ms) (expo k1 + es)
           (mant k2 * Z.pos ms) (expo k2 + es) a1 a2);
    [nia|nia|lia| | | |exact Ha1|exact Ha2].
  - replace (expo k2 + es - (expo k1 + es)) with (expo k2 - expo k1) by lia.
    assert (mant k1 <= mant k2 * 2 ^ (expo k2 - expo k1)); [|nia].
    rewrite (mant_scale k2 (expo k1)) by lia.
    pose proof (mant_scale k1 (expo k1) ltac:(lia) ltac:(lia)) as H1.
    rewrite Z.sub_diag, Z.pow_0_r, Z.mul_1_r in H1. rewrite H1.
    pose proof (expo_nonpos k1 ltac:(lia)).
    assert (0 < 2 ^ (- expo k1)) by (apply Z.pow_pos_nonneg; lia). nia.
  - apply product_regime. nia.
  - apply product_regime. nia.
Qed.

Lemma lut_value_mono (c1 c2 cdf_min : Z) (scale : float) (a1 a2 : Z) :
  cdf_min <= c1 <= c2 -> c2 - cdf_min < 2 ^ 53 -> sf_pos (Prim2SF scale) ->
  lut_value c1 cdf_min scale = Ok a1 -> lut_value c2 cdf_min scale = Ok a2 ->
  a1 <= a2.
Proof.
  intros Hc Hb Hs H1 H2. unfold lut_value in H1, H2.
  rewrite float_of_int_small in H1, H2 by lia. mstep in H1. mstep in H2.
  unfold Py.int_of_float in H1, H2.
  rewrite FloatAxioms.mul_spec, Prim2SF_Z2F in H1, H2 by lia.
  destruct (Prim2SF scale) as [s|s| |s ms es]; cbn [sf_pos] in Hs; subst.
  - unfold canon in H1, H2.
    destruct (c1 - cdf_min =? 0), (c2 - cdf_min =? 0); cbn in H1, H2;
      injection H1 as <-; injection H2 as <-; lia.
  - unfold canon in H1. destruct (c1 - cdf_min =? 0); cbn in H1; discriminate.
  - unfold canon in H1. destruct (c1 - cdf_min =? 0); cbn in H1; discriminate.
  - eapply (trunc_mul_mono (c1 - cdf_min) (c2 - cdf_min)); [lia|lia|exact H1|exact H2].
Qed.

Lemma cnt_le_len (v : Z) (l : list Z) : cnt_le v l <= len l.
Proof.
  unfold cnt_le, len. pose proof (length_filter (fun x => x <= v) l). lia.
Qed.

Lemma clamp_to_mono (maxv x y : Z) : x <= y -> clamp_to maxv x <= clamp_to maxv y.
Proof. unfold clamp_to. lia. Qed.

(** ** Equalizing twice *)

(** Only samples of the lowest occupied intensity were sent to 0:
    [s] holds the samples before the pass and [s1] after it. *)
Definition lowest_only_to_zero (s s1 : list Z) : bool :=
  forallb (fun p => implb (snd p =? 0) (forallb (fun x => fst p <=? x) s)) (zip s s1).

Lemma zip_fmap_In (g : Z -> Z) (s : list Z) (u : Z) :
  u ∈ s -> In (u, g u) (zip s (g <$> s)).
Proof.
  induction s as [|a s IH]; intros Hu.
  - by apply elem_of_nil in Hu.
  - apply elem_of_cons in Hu as [->|Hu]; [by left|]. right. by apply IH.
Qed.

Lemma lowest_only_to_zero_fmap (g : Z -> Z) (s : list Z) :
  lowest_only_to_zero s (g <$> s) = true ->
  forall u, u ∈ s -> g u = 0 -> forall x, x ∈ s -> u <= x.
Proof.
  unfold lowest_only_to_zero. intros Hb u Hu Hg x Hx.
  rewrite forallb_forall in Hb. specialize (Hb _ (zip_fmap_In g s u Hu)).
  cbn [fst snd] in Hb. rewrite Hg in Hb. cbn in Hb.
  rewrite forallb_forall in Hb. apply list_elem_of_In in Hx.
  specialize (Hb x Hx). lia.
Qed.

(** For a monotone [g] that is 0 at the least sample [mn], the samples whose
    image is at most [v] are those up to the largest such sample. *)
Lemma preimage_top (g : Z -> Z) (s : list Z) (mn v : Z) :
  mn ∈ s -> g mn = 0 -> 0 <= v ->
  (forall a b, a ∈ s -> b ∈ s -> a <= b -> g a <= g b) ->
  let us := max_from mn (filter (fun u => g u <= v) s) in
  us ∈ s /\ g us <= v /\ forall u, u ∈ s -> g u <= v <-> u <= us.
Proof.
  intros Hmn Hg0 Hv Hmono us.
  assert (us ∈ s /\ g us <= v) as [Hus Hgus].
  { destruct (max_from_elem mn (filter (fun u => g u <= v) s)) as [He|He];
      fold us in He.
    - rewrite He. split; [done|lia].
    - apply list_elem_of_filter in He. tauto. }
  split; [done|]. split; [done|]. intros u Hu. split.
  - intros Hgu. apply (max_from_ge mn (filter (fun u => g u <= v) s)).
    apply list_elem_of_filter. done.
  - intros Hle. specialize (Hmono u us Hu Hus Hle). lia.
Qed.

Lemma clamp_to_nonneg (maxv x : Z) : 0 <= clamp_to maxv x.
Proof. unfold clamp_to. lia. Qed.

(** C4, amended: a second equalization pass over a channel returns the
    output of the first pass unchanged, provided the first pass sent to 0
    only samples of the lowest occupied intensity. (When the cumulative count
    of the lowest occupied intensity equals the pixel count, or the buffer
    has no pixel, both passes return the buffer as it is.) The bound on the
    pixel count says that the counts are integers a binary64 float holds
    exactly; every buffer that fits in memory satisfies it. *)
Theorem equalize_twice_same (img img1 : ImageBuffer) (ch : Z) :
  well_formed img -> 0 <= ch < 3 -> width img * height img < 2 ^ 53 ->
  _equalize_single_channel img ch = Ok img1 ->
  lowest_only_to_zero
    (channel_samples (data img) ch) (channel_samples (data img1) ch) = true ->
  _equalize_single_channel img1 ch = Ok img1.
Proof.
  intros Hwf Hch Hsize H1 Hbot.
  destruct (well_formed_pixels img Hwf) as [Hnn HL]. pose proof Hwf as [Hlen Hbytes].
  destruct (decide (width img * height img = 0)) as [H0|Hn].
  { rewrite equalize_empty in H1 by done. injection H1 as <-.
    by apply equalize_empty. }
  set (s := channel_samples (data img) ch) in *.
  assert (s <> []) as Hne.
  { intros He. pose proof (channel_samples_count img ch Hwf) as Hc.
    fold s in Hc. rewrite He in Hc. unfold len in Hc. cbn [length] in Hc. lia. }
  destruct (list_least s Hne) as (mn & Hmn & Hlow).
  destruct (Z.le_gt_cases (width img * height img) (cnt_le mn s)) as [Hall|Hlt].
  { destruct (equalize_unfold img ch mn Hwf Hch Hn Hmn Hlow) as (cdf & _ & Heq).
    cbv zeta in Heq. fold s in Heq.
    destruct (Z.leb_spec (width img * height img) (cnt_le mn s)) as [_|]; [|lia].
    rewrite Heq in H1. injection H1 as <-. exact Heq. }
  assert (cnt_le mn s < width img * height img) as Hlt' by lia.
  destruct (equalize_pass_inv img ch mn img1 Hwf Hch Hn Hmn Hlow Hlt' H1)
    as (scale & lutv & Hscale & Hv & Hby & ->).
  fold s in Hscale, Hv, Hby.
  set (g := fun u => clamp_to (max_value img) (lutv u)) in *.
  assert (Forall is_byte s) as Hsb.
  { apply channel_samples_bytes; [done|done|lia]. }
  rewrite Forall_forall in Hsb.
  assert (channel_samples (data (equalized img ch lutv)) ch = g <$> s) as Hs1.
  { cbn [equalized data]. by apply channel_samples_remap. }
  rewrite Hs1 in Hbot.
  pose proof (lowest_only_to_zero_fmap g s Hbot) as Hbot'.
  assert (forall u v, u ∈ s -> v ∈ s -> u <= v -> g u <= g v) as Hmono.
  { intros u v Hu Hv' Huv. apply clamp_to_mono.
    pose proof (cnt_le_lowest s mn Hmn Hlow) as [_ Hpos].
    pose proof (cnt_le_len v s) as Hcv.
    pose proof (channel_samples_count img ch Hwf) as Hcount. fold s in Hcount.
    apply (lut_value_mono (cnt_le u s) (cnt_le v s) (cnt_le mn s) scale).
    - split; apply cnt_le_mono; [by apply Hlow|done].
    - lia.
    - eapply int_truediv_sign; [|exact Hscale]. lia.
    - apply Hv, Hsb, Hu.
    - apply Hv, Hsb, Hv'. }
  assert (g mn = 0) as Hg0.
  { unfold g. specialize (Hv mn (Hsb mn Hmn)).
    apply lut_value_bottom in Hv. rewrite Hv. unfold clamp_to.
    specialize (Hby mn Hmn). unfold g, clamp_to, is_byte in Hby. lia. }
  assert (cnt_le 0 (g <$> s) = cnt_le mn s) as Hcmin.
  { rewrite cnt_le_fmap. unfold cnt_le. f_equal. apply filter_ext_elem.
    intros u Hu. pose proof (clamp_to_nonneg (max_value img) (lutv u)) as Hge.
    fold (g u) in Hge. split.
    - intros Hle. apply (Hbot' u Hu); [lia|done].
    - intros Hle. specialize (Hlow u Hu). assert (u = mn) as -> by lia. lia. }
  set (top := fun v => max_from mn (filter (fun u => g u <= v) s)).
  assert (forall v, 0 <= v -> cnt_le v (g <$> s) = cnt_le (top v) s) as Hcnt.
  { intros v Hv0. rewrite cnt_le_fmap. unfold cnt_le. f_equal.
    apply filter_ext_elem. intros u Hu.
    by apply (preimage_top g s mn v Hmn Hg0 Hv0 Hmono). }
  assert (forall v, 0 <= v -> top v ∈ s) as Htop.
  { intros v Hv0. by apply (preimage_top g s mn v Hmn Hg0 Hv0 Hmono). }
  assert (forall u, u ∈ s -> g (top (g u)) = g u) as Hfix.
  { intros u Hu. pose proof (clamp_to_nonneg (max_value img) (lutv u)) as Hge.
    fold (g u) in Hge.
    destruct (preimage_top g s mn (g u) Hmn Hg0 Hge Hmono) as (Ht & Hgt & Hiff).
    fold (top (g u)) in Ht, Hgt, Hiff.
    assert (u <= top (g u)) as Hle by (apply Hiff; [done|lia]).
    specialize (Hmono u (top (g u)) Hu Ht Hle). lia. }
  assert (well_formed (equalized img ch lutv)) as Hwf1.
  { by apply equalized_well_formed. }
  rewrite (equalize_pass_total (equalized img ch lutv) ch 0 scale
             (fun v => lutv (top v)) Hwf1 Hch).
  - f_equal. unfold equalized at 1. cbn [equalized width height max_value data].
    unfold equalized. f_equal. rewrite remap_remap. apply remap_ext; [done|lia|].
    intros u Hu. fold s in Hu. apply (Hfix u Hu).
  - done.
  - rewrite Hs1. apply list_elem_of_fmap. by exists mn.
  - rewrite Hs1. intros x Hx. apply list_elem_of_fmap in Hx as (u & -> & Hu).
    apply clamp_to_nonneg.
  - rewrite Hs1, Hcmin. cbn [equalized width height]. lia.
  - rewrite Hs1, Hcmin. exact Hscale.
  - intros v Hv0. rewrite Hs1, Hcmin, Hcnt by lia. apply Hv, Hsb, Htop. lia.
  - rewrite Hs1. intros x Hx. apply list_elem_of_fmap in Hx as (u & -> & Hu).
    cbn [equalized max_value]. fold (g (top (g u))). rewrite Hfix by done.
    by apply Hby.
Qed.

(** The witness: red samples 10 and 200 become 0 and 255, and stay so. *)
Lemma equalize_twice_same_witness :
  _equalize_single_channel (mkImage 2 1 255 [0; 10; 10; 255; 200; 200]) 0
  = Ok (mkImage 2 1 255 [0; 10; 10; 255; 200; 200]).
Proof.
  apply (equalize_twice_same two_pixels _ 0);
    [ exact two_pixels_well_formed | lia | reflexivity
    | vm_compute; reflexivity | vm_compute; reflexivity ].
Defined.

(** A 258-by-1 image whose red samples are 0, 1, 2 and then 255 times 3. *)
Definition red_ramp : ImageBuffer :=
  mkImage 258 1 255 (flat_map (fun r => [r; 0; 0]) ([0; 1; 2] ++ replicate 255 3)).

Definition red_ramp_once : ImageBuffer :=
  mkImage 258 1 255 (flat_map (fun r => [r; 0; 0]) ([0; 0; 1] ++ replicate 255 255)).

Definition red_ramp_twice : ImageBuffer :=
  mkImage 258 1 255 (flat_map (fun r => [r; 0; 0]) ([0; 0; 0] ++ replicate 255 255)).

(** C4 as stated fails: in [red_ramp] one pixel has the lowest red intensity,
    so cdfMin = 1 < 258, and the first pass sends the red samples 0, 1, 2, 3
    to 0, 0, 1, 255. On that output cdfMin is 2, and the second pass sends
    the sample 1 to 0: the two outputs differ. *)
Lemma equalize_twice_differs :
  cnt_le 0 (channel_samples (data red_ramp) 0) = 1
  /\ width red_ramp * height red_ramp = 258
  /\ _equalize_single_channel red_ramp 0 = Ok red_ramp_once
  /\ _equalize_single_channel red_ramp_once 0 = Ok red_ramp_twice
  /\ red_ramp_once <> red_ramp_twice.
Proof.
  split; [vm_compute; reflexivity|]. split; [reflexivity|].
  split; [vm_compute; reflexivity|]. split; [vm_compute; reflexivity|].
  intros H. apply (f_equal (fun i => data i !! 6%nat)) in H.
  vm_compute in H. discriminate H.
Qed.

(** * The mean filter on a uniform image *)

(** [n] pixels of the colour [c]. *)
Definition uniform_data (n : nat) (c : Pixel) : list Z :=
  let '(r, g, b) := c in concat (replicate n [r; g; b]).

Definition uniform_image (w h maxv : Z) (c : Pixel) : ImageBuffer :=
  mkImage w h maxv (uniform_data (Z.to_nat (w * h)) c).

Lemma uniform_data_length n c : length (uniform_data n c) = (3 * n)%nat.
Proof.
  destruct c as [[r g] b]. unfold uniform_data.
  induction n as [|n IH]; [done|]. cbn [replicate concat]. rewrite length_app, IH.
  cbn [length]. lia.
Qed.

Lemma uniform_data_lookup n r g b k :
  (k < n)%nat ->
  uniform_data n (r, g, b) !! (3 * k)%nat = Some r
  /\ uniform_data n (r, g, b) !! (3 * k + 1)%nat = Some g
  /\ uniform_data n (r, g, b) !! (3 * k + 2)%nat = Some b.
Proof.
  unfold uniform_data. revert k. induction n as [|n IH]; intros k Hk; [lia|].
  cbn [replicate concat]. destruct k as [|k]; [done|].
  replace (3 * S k)%nat with (3 + 3 * k)%nat by lia.
  specialize (IH k ltac:(lia)) as (Hr & Hg & Hb). cbn [app Nat.add lookup list_lookup].
  done.
Qed.

(** The accumulators after [j] taps. *)
Definition acc_of (j r g b : Z) : Py.num * Py.num * Py.num :=
  (Py.Flt (Py.Z2F (j * r)), Py.Flt (Py.Z2F (j * g)), Py.Flt (Py.Z2F (j * b))).

Lemma tap_weight (c : Z) :
  is_byte c -> Py.mul (Py.Flt 1) (Py.Int c) = Ok (Py.Flt (Py.Z2F c)).
Proof.
  intros Hc. unfold is_byte in Hc. cbn [Py.mul Py.to_float]. mstep.
  rewrite float_of_int_small by lia. mstep. by rewrite Z2F_mul_one by lia.
Qed.

Lemma tap_add (j c : Z) :
  0 <= j -> is_byte c -> (j + 1) * 255 < 2 ^ 53 ->
  Py.add (Py.Flt (Py.Z2F (j * c))) (Py.Flt (Py.Z2F c))
  = Ok (Py.Flt (Py.Z2F ((j + 1) * c))).
Proof.
  intros Hj Hc Hb. unfold is_byte in Hc.
  cbn [Py.add Py.to_float]. mstep. rewrite Z2F_add by nia.
  do 3 f_equal. lia.
Qed.

Lemma tap_uniform (w h r g b x y kx ky radius j : Z) :
  0 <= x < w -> 0 <= y < h ->
  is_byte r -> is_byte g -> is_byte b ->
  0 <= j -> (j + 1) * 255 < 2 ^ 53 ->
  accumulate (uniform_data (Z.to_nat (w * h)) (r, g, b)) (Py.Flt 1)
    ((_clamp (y + ky - radius) 0 (h - 1) * w + _clamp (x + kx - radius) 0 (w - 1)) * 3)
    (acc_of j r g b)
  = Ok (acc_of (j + 1) r g b).
Proof.
  intros Hx Hy Hr Hg Hb Hj Hbound.
  set (ny := _clamp (y + ky - radius) 0 (h - 1)).
  set (nx := _clamp (x + kx - radius) 0 (w - 1)).
  assert (0 <= ny < h) as Hny by (unfold ny, _clamp; lia).
  assert (0 <= nx < w) as Hnx by (unfold nx, _clamp; lia).
  clearbody ny nx. assert (0 <= ny * w + nx < w * h) as Hp by nia.
  destruct (uniform_data_lookup (Z.to_nat (w * h)) r g b (Z.to_nat (ny * w + nx)))
    as (Lr & Lg & Lb); [lia|].
  unfold accumulate, acc_of.
  rewrite (lget_at _ _ ((ny * w + nx) * 3) _ Lr) by lia. mstep.
  rewrite (tap_weight r) by done. mstep. rewrite (tap_add j r) by done. mstep.
  rewrite (lget_at _ _ ((ny * w + nx) * 3 + 1) _ Lg) by lia. mstep.
  rewrite (tap_weight g) by done. mstep. rewrite (tap_add j g) by done. mstep.
  rewrite (lget_at _ _ ((ny * w + nx) * 3 + 2) _ Lb) by lia. mstep.
  rewrite (tap_weight b) by done. mstep. rewrite (tap_add j b) by done. mstep. done.
Qed.

Definition mean_kernel (size : Z) : list (list Py.num) :=
  (fun _ => (fun _ => Py.Flt 1) <$> range size) <$> range size.

Lemma range_length n : length (range n) = Z.to_nat n.
Proof. unfold range. by rewrite length_fmap, length_seq. Qed.

Lemma range_lookup n k : (k < Z.to_nat n)%nat -> range n !! k = Some (Z.of_nat k).
Proof.
  intros Hk. unfold range. rewrite list_lookup_fmap, lookup_seq_lt by done. done.
Qed.

Lemma mean_kernel_len size : 0 <= size -> len (mean_kernel size) = size.
Proof.
  intros Hs. unfold len, mean_kernel. rewrite length_fmap, range_length. lia.
Qed.

Lemma mean_kernel_row size k :
  (k < Z.to_nat size)%nat ->
  mean_kernel size !! k = Some ((fun _ => Py.Flt 1) <$> range size).
Proof.
  intros Hk. unfold mean_kernel. by rewrite list_lookup_fmap, range_lookup.
Qed.

Lemma mean_row_weight size k :
  (k < Z.to_nat size)%nat ->
  ((fun _ : Z => Py.Flt 1) <$> range size) !! k = Some (Py.Flt 1).
Proof. intros Hk. by rewrite list_lookup_fmap, range_lookup. Qed.

Lemma mean_kernel_square size :
  0 <= size ->
  existsb (fun row => negb (len row =? size)) (mean_kernel size) = false.
Proof.
  intros Hs. apply not_true_is_false. intros He.
  apply existsb_exists in He as (row & Hin & Hrow).
  apply list_elem_of_In in Hin. unfold mean_kernel in Hin.
  apply list_elem_of_fmap in Hin as (k & -> & _).
  unfold len in Hrow. rewrite length_fmap, range_length in Hrow.
  apply negb_true_iff, Z.eqb_neq in Hrow. lia.
Qed.

(** The two inner loops of [_convolve] and the three writes that follow
    them, for the pixel [(x, y)]. *)
Definition taps (src : list Z) (kernel : list (list Py.num)) (size w h x y : Z)
  : result (Py.num * Py.num * Py.num) :=
  forM (range size)
    (fun ky acc =>
       forM (range size)
         (fun kx acc =>
            let nx := _clamp (x + kx - size / 2) 0 (w - 1) in
            let ny := _clamp (y + ky - size / 2) 0 (h - 1) in
            row ← lget kernel ky; weight ← lget row kx;
            accumulate src weight ((ny * w + nx) * 3) acc)
         acc)
    acc0.

Definition write_pixel (image : ImageBuffer) (divisor offset : Py.num)
  (acc : Py.num * Py.num * Py.num) (idx : Z) (nd : list Z) : result (list Z) :=
  let '(a0, a1, a2) := acc in
  q0 ← Py.truediv a0 divisor; v0 ← Py.add q0 offset;
  c0 ← clamp image v0; nd ← bset nd idx c0;
  q1 ← Py.truediv a1 divisor; v1 ← Py.add q1 offset;
  c1 ← clamp image v1; nd ← bset nd (idx + 1) c1;
  q2 ← Py.truediv a2 divisor; v2 ← Py.add q2 offset;
  c2 ← clamp image v2; bset nd (idx + 2) c2.

Lemma taps_uniform (w h r g b x y size : Z) :
  0 <= x < w -> 0 <= y < h ->
  is_byte r -> is_byte g -> is_byte b ->
  0 < size -> size * size * 255 < 2 ^ 53 ->
  taps (uniform_data (Z.to_nat (w * h)) (r, g, b)) (mean_kernel size) size w h x y
  = Ok (acc_of (size * size) r g b).
Proof.
  intros Hx Hy Hr Hg Hb Hs Hbound. unfold taps.
  destruct (forM_seq_total
    (fun k acc => acc = acc_of (Z.of_nat k * size) r g b) (fun k => Z.of_nat k)
    (fun ky acc =>
       forM (range size)
         (fun kx acc =>
            let nx := _clamp (x + kx - size / 2) 0 (w - 1) in
            let ny := _clamp (y + ky - size / 2) 0 (h - 1) in
            row ← lget (mean_kernel size) ky; weight ← lget row kx;
            accumulate (uniform_data (Z.to_nat (w * h)) (r, g, b)) weight
              ((ny * w + nx) * 3) acc)
         acc)
    0 (Z.to_nat size) acc0) as (acc & Hacc & ->).
  - done.
  - intros k acc Hk ->. unfold range.
    destruct (forM_seq_total
      (fun k' acc => acc = acc_of (Z.of_nat k * size + Z.of_nat k') r g b)
      (fun k' => Z.of_nat k')
      (fun kx acc =>
         let nx := _clamp (x + kx - size / 2) 0 (w - 1) in
         let ny := _clamp (y + Z.of_nat k - size / 2) 0 (h - 1) in
         row ← lget (mean_kernel size) (Z.of_nat k); weight ← lget row kx;
         accumulate (uniform_data (Z.to_nat (w * h)) (r, g, b)) weight
           ((ny * w + nx) * 3) acc)
      0 (Z.to_nat size) (acc_of (Z.of_nat k * size) r g b)) as (acc & Hacc & Hp).
    + by rewrite Z.add_0_r.
    + intros k' acc Hk' ->. cbv zeta.
      rewrite (lget_lookup _ _ _ (mean_kernel_row size k ltac:(lia))). mstep.
      rewrite (lget_lookup _ _ _ (mean_row_weight size k' ltac:(lia))). mstep.
      rewrite tap_uniform by (done || nia). eexists. split; [reflexivity|].
      f_equal; lia.
    + exists acc. split; [exact Hacc|]. rewrite Hp. f_equal; lia.
  - unfold range in Hacc |- *. rewrite Hacc. f_equal. f_equal; lia.
Qed.

Lemma mean_quotient (n c : Z) :
  0 <= c < 256 -> 0 < n -> n * 255 < 2 ^ 53 ->
  Py.truediv (Py.Flt (Py.Z2F (n * c))) (Py.Int n) = Ok (Py.Flt (Py.Z2F c)).
Proof.
  intros Hc Hn Hb. cbn [Py.truediv Py.to_float]. mstep.
  rewrite float_of_int_small by lia. mstep. rewrite Z2F_nonzero by lia.
  by rewrite Z2F_div by nia.
Qed.

Lemma add_offset_zero (c : Z) :
  0 <= c < 256 -> Py.add (Py.Flt (Py.Z2F c)) (Py.Flt 0) = Ok (Py.Flt (Py.Z2F c)).
Proof.
  intros Hc. cbn [Py.add Py.to_float]. mstep. by rewrite Z2F_add_zero by lia.
Qed.

Lemma clamp_Z2F (img : ImageBuffer) (c : Z) :
  0 <= c <= max_value img -> c < 256 -> clamp img (Py.Flt (Py.Z2F c)) = Ok c.
Proof.
  intros Hc Hc'. unfold clamp. cbn [Py.round].
  rewrite round_float_Z2F by lia. mstep. f_equal. lia.
Qed.

Lemma write_pixel_uniform (img : ImageBuffer) (n r g b idx : Z) (p : nat)
  (nd : list Z) :
  0 <= r <= max_value img -> 0 <= g <= max_value img -> 0 <= b <= max_value img ->
  r < 256 -> g < 256 -> b < 256 ->
  0 < n -> n * 255 < 2 ^ 53 ->
  (3 * p + 2 < length nd)%nat -> idx = 3 * Z.of_nat p ->
  write_pixel img (Py.Int n) (Py.Flt 0) (acc_of n r g b) idx nd
  = Ok (<[(3 * p + 2)%nat := b]> (<[(3 * p + 1)%nat := g]> (<[(3 * p)%nat := r]> nd))).
Proof.
  intros Hr Hg Hb Hr' Hg' Hb' Hn Hbound Hp ->. unfold write_pixel, acc_of.
  rewrite (mean_quotient n r) by lia. mstep.
  rewrite (add_offset_zero r) by lia. mstep.
  rewrite (clamp_Z2F img r) by lia. mstep.
  rewrite (bset_at nd (3 * p)) by (unfold is_byte; lia). mstep.
  rewrite (mean_quotient n g) by lia. mstep.
  rewrite (add_offset_zero g) by lia. mstep.
  rewrite (clamp_Z2F img g) by lia. mstep.
  rewrite (bset_at _ (3 * p + 1)) by (rewrite ?length_insert; unfold is_byte; lia).
  mstep.
  rewrite (mean_quotient n b) by lia. mstep.
  rewrite (add_offset_zero b) by lia. mstep.
  rewrite (clamp_Z2F img b) by lia. mstep.
  by rewrite (bset_at _ (3 * p + 2)) by (rewrite ?length_insert; unfold is_byte; lia).
Qed.

(** Writing a pixel's own colour into a buffer that agrees with the source
    on the pixels before it. *)
Definition agrees_upto (src : list Z) (p : nat) (nd : list Z) : Prop :=
  length nd = length src /\ forall i, (i < 3 * p)%nat -> nd !! i = src !! i.

Lemma agrees_step (src nd : list Z) (p : nat) (r g b : Z) :
  agrees_upto src p nd ->
  src !! (3 * p)%nat = Some r -> src !! (3 * p + 1)%nat = Some g ->
  src !! (3 * p + 2)%nat = Some b ->
  agrees_upto src (S p)
    (<[(3 * p + 2)%nat := b]> (<[(3 * p + 1)%nat := g]> (<[(3 * p)%nat := r]> nd))).
Proof.
  intros [Hl Hag] Lr Lg Lb. pose proof (lookup_lt_Some _ _ _ Lb) as Hlt.
  split; [by rewrite !length_insert|]. intros i Hi.
  destruct (decide (i = 3 * p + 2)%nat) as [->|N2].
  { rewrite list_lookup_insert_eq by (rewrite !length_insert; lia). done. }
  rewrite list_lookup_insert_ne by lia.
  destruct (decide (i = 3 * p + 1)%nat) as [->|N1].
  { rewrite list_lookup_insert_eq by (rewrite !length_insert; lia). done. }
  rewrite list_lookup_insert_ne by lia.
  destruct (decide (i = 3 * p)%nat) as [->|N0].
  { rewrite list_lookup_insert_eq by lia. done. }
  rewrite list_lookup_insert_ne by lia. apply Hag. lia.
Qed.

(** C8: the mean filter leaves a uniform image unchanged. For every image
    of [w] by [h] pixels that all have the colour [(r, g, b)], with channels
    in [[0, max_value]] (and in a byte), and every odd size [size > 0],
    [mean_filter] returns the image itself. The bound on [size] says that the
    sum of the [size * size] taps of a channel is an integer a binary64 float
    holds exactly; every kernel that fits in memory satisfies it. *)
Theorem mean_filter_uniform (w h maxv r g b size : Z) :
  0 <= w -> 0 <= h ->
  0 <= r <= maxv -> 0 <= g <= maxv -> 0 <= b <= maxv ->
  r < 256 -> g < 256 -> b < 256 ->
  0 < size -> size mod 2 = 1 -> size * size * 255 < 2 ^ 53 ->
  mean_filter (uniform_image w h maxv (r, g, b)) size
  = Ok (uniform_image w h maxv (r, g, b)).
Proof.
  intros Hw Hh Hr Hg Hb Hr' Hg' Hb' Hs Hodd Hbound.
  unfold mean_filter. fold (mean_kernel size). unfold _convolve.
  rewrite mean_kernel_len by lia.
  destruct (Z.eqb_spec (size mod 2) 0) as [|_]; [lia|].
  rewrite mean_kernel_square by lia. cbn [orb].
  unfold Py.truthy. cbn [Py.is_zero].
  destruct (Z.eqb_spec (size * size) 0) as [|_]; [nia|].
  cbn [negb]. mstep. cbn [Py.is_zero].
  destruct (Z.eqb_spec (size * size) 0) as [|_]; [nia|].
  cbv zeta. cbn [width height max_value data uniform_image].
  set (img := uniform_image w h maxv (r, g, b)).
  set (src := uniform_data (Z.to_nat (w * h)) (r, g, b)).
  change (forM (range h) _ (zeros (length src)))
    with (forM (range h)
            (fun y nd =>
               forM (range w)
                 (fun x nd =>
                    acc ← taps src (mean_kernel size) size w h x y;
                    write_pixel img (Py.Int (size * size)) (Py.Flt 0) acc
                      ((y * w + x) * 3) nd)
                 nd)
            (zeros (length src))).
  assert (Z.to_nat (w * h) = (Z.to_nat h * Z.to_nat w)%nat) as Hwh.
  { rewrite Z.mul_comm. apply Z2Nat.inj_mul; lia. }
  assert (length src = (3 * Z.to_nat (w * h))%nat) as Hlen
    by apply uniform_data_length.
  destruct (forM_seq_total
    (fun k nd => agrees_upto src (k * Z.to_nat w) nd) (fun k => Z.of_nat k)
    (fun y nd =>
       forM (range w)
         (fun x nd =>
            acc ← taps src (mean_kernel size) size w h x y;
            write_pixel img (Py.Int (size * size)) (Py.Flt 0) acc
              ((y * w + x) * 3) nd)
         nd)
    0 (Z.to_nat h) (zeros (length src))) as (nd & Hnd & Hag).
  - split; [apply zeros_length|]. intros i Hi. lia.
  - intros k nd Hk Hag. unfold range.
    destruct (forM_seq_total
      (fun k' nd => agrees_upto src (k * Z.to_nat w + k') nd) (fun k' => Z.of_nat k')
      (fun x nd =>
         acc ← taps src (mean_kernel size) size w h x (Z.of_nat k);
         write_pixel img (Py.Int (size * size)) (Py.Flt 0) acc
           ((Z.of_nat k * w + x) * 3) nd)
      0 (Z.to_nat w) nd) as (nd' & Hnd' & Hag').
    + by rewrite Nat.add_0_r.
    + intros k' t Hk' Ht. unfold src at 1.
      rewrite taps_uniform by (unfold is_byte; lia). mstep.
      assert (k * Z.to_nat w + k' < Z.to_nat (w * h))%nat as Hp by (rewrite Hwh; nia).
      destruct (uniform_data_lookup (Z.to_nat (w * h)) r g b _ Hp) as (Lr & Lg & Lb).
      fold src in Lr, Lg, Lb.
      assert (3 * (k * Z.to_nat w + k') + 2 < length t)%nat as Hlt.
      { destruct Ht as [Hl _]. lia. }
      assert ((Z.of_nat k * w + Z.of_nat k') * 3
              = 3 * Z.of_nat (k * Z.to_nat w + k')) as Hidx.
      { rewrite Nat2Z.inj_add, Nat2Z.inj_mul, Z2Nat.id by lia. lia. }
      assert (0 < size * size) as Hss by nia.
      rewrite (write_pixel_uniform img _ r g b _ (k * Z.to_nat w + k') t
                 Hr Hg Hb Hr' Hg' Hb' Hss Hbound Hlt Hidx).
      eexists. split; [reflexivity|].
      replace (k * Z.to_nat w + S k')%nat with (S (k * Z.to_nat w + k')) by lia.
      by apply agrees_step.
    + exists nd'. split; [exact Hnd'|].
      by replace (S k * Z.to_nat w)%nat with (k * Z.to_nat w + Z.to_nat w)%nat by lia.
  - unfold range in Hnd |- *. rewrite Hnd. mstep. unfold img, uniform_image.
    do 2 f_equal. fold src. destruct Hag as [Hl Hag]. apply list_eq. intros i.
    destruct (decide (i < length src)%nat) as [Hi|Hi].
    + apply Hag. lia.
    + by rewrite !lookup_ge_None_2 by lia.
Qed.

Lemma mean_filter_uniform_witness :
  mean_filter (uniform_image 2 2 255 (10, 20, 30)) 3
  = Ok (uniform_image 2 2 255 (10, 20, 30)).
Proof.
  apply mean_filter_uniform; try lia; try reflexivity.
Defined.

(** * The buffer invariant *)

Definition in_range (M v : Z) : Prop := 0 <= v <= M.

(** The invariant of the data model: three values per pixel, each within
    [[0, max_value]]. *)
Definition valid (img : ImageBuffer) : Prop :=
  len (data img) = width img * height img * 3
  /\ Forall (in_range (max_value img)) (data img).

(** [r] has the geometry of [img], and data within the range of [img]. *)
Definition kept (img r : ImageBuffer) : Prop :=
  width r = width img /\ height r = height img /\ max_value r = max_value img
  /\ length (data r) = length (data img)
  /\ Forall (in_range (max_value img)) (data r).

Lemma kept_valid img r : valid img -> kept img r -> valid r.
Proof.
  intros [Hl _] (Hw & Hh & Hm & Hlen & Hr). split.
  - unfold len in *. rewrite Hw, Hh, Hlen. done.
  - by rewrite Hm.
Qed.

Lemma kept_refl img : valid img -> kept img img.
Proof. intros [_ Hr]. by repeat split. Qed.

Lemma kept_trans a b c : kept a b -> kept b c -> kept a c.
Proof.
  intros (Hw & Hh & Hm & Hl & Hr) (Hw' & Hh' & Hm' & Hl' & Hr').
  repeat split; congruence.
Qed.

(** A buffer under construction: [n] values within [[0, M]]. *)
Definition buf_ok (n : nat) (M : Z) (nd : list Z) : Prop :=
  length nd = n /\ Forall (in_range M) nd.

(** Either nothing can be written, or 0 is within the range. *)
Definition writable (n : nat) (M : Z) : Prop := n = 0%nat \/ 0 <= M.

Lemma valid_writable img : valid img -> writable (length (data img)) (max_value img).
Proof.
  intros [_ Hr]. destruct (data img) as [|v t]; [by left|].
  right. inversion Hr as [|? ? Hv _]. unfold in_range in Hv. lia.
Qed.

Lemma buf_ok_zeros n M : writable n M -> buf_ok n M (zeros n).
Proof.
  intros Hw. split; [apply zeros_length|].
  destruct Hw as [->|HM]; [constructor|].
  apply zeros_Forall. unfold in_range. lia.
Qed.

Lemma bset_empty i v d' : bset [] i v = Ok d' -> False.
Proof.
  unfold bset. intros H. bind_inv H. apply norm_index_Ok in E. cbn in E. lia.
Qed.

Lemma buf_ok_bset n M nd i v nd' :
  buf_ok n M nd -> in_range M v -> bset nd i v = Ok nd' -> buf_ok n M nd'.
Proof.
  intros [Hl Hr] Hv Hb. split.
  - by rewrite (bset_length _ _ _ _ Hb).
  - by eapply bset_Forall.
Qed.

Lemma buf_ok_clamp img n nd i v c nd' :
  writable n (max_value img) -> buf_ok n (max_value img) nd ->
  clamp img v = Ok c -> bset nd i c = Ok nd' -> buf_ok n (max_value img) nd'.
Proof.
  intros [->|HM] Hok Hc Hb.
  - destruct Hok as [Hl _]. apply length_zero_iff_nil in Hl. subst nd.
    by apply bset_empty in Hb.
  - eapply buf_ok_bset; [done| |done].
    unfold clamp in Hc. bind_inv Hc. injection Hc as <-. unfold in_range. lia.
Qed.

Lemma buf_ok_copy n M (src nd : list Z) i j v nd' :
  Forall (in_range M) src -> buf_ok n M nd ->
  lget src i = Ok v -> bset nd j v = Ok nd' -> buf_ok n M nd'.
Proof.
  intros Hs Hok Hv Hb. eapply buf_ok_bset; [done| |done].
  rewrite Forall_forall in Hs. by apply Hs, (lget_Ok _ _ _ Hv).
Qed.

Lemma buf_ok_kept img nd :
  buf_ok (length (data img)) (max_value img) nd ->
  kept img (mkImage (width img) (height img) (max_value img) nd).
Proof. intros [Hl Hr]. by repeat split. Qed.

(** Three clamped writes in a row. *)
Ltac clamp_writes :=
  repeat match goal with
  | Hw : writable ?n (max_value ?img), Hok : buf_ok ?n (max_value ?img) ?nd,
    Hc : clamp ?img _ = Ok ?c, Hb : bset ?nd _ ?c = Ok ?nd' |- _ =>
      pose proof (buf_ok_clamp img n nd _ _ c nd' Hw Hok Hc Hb); clear Hb Hok
  end.

(** ** Point operations *)

Lemma scalar_point_op_kept img func r :
  valid img -> _scalar_point_op img func = Ok r -> kept img r.
Proof.
  intros Hv H. pose proof (valid_writable img Hv) as Hw.
  unfold _scalar_point_op in H. bind_inv H. injection H as <-.
  apply buf_ok_kept.
  eapply (forM_inv (buf_ok (length (data img)) (max_value img))); [| |exact E].
  - intros [i value] nd nd' _ Hok Hstep. binds_inv Hstep. by clamp_writes.
  - by apply buf_ok_zeros.
Qed.

Lemma apply_point_operation_kept img func r :
  valid img -> apply_point_operation img func = Ok r -> kept img r.
Proof.
  intros Hv H. pose proof (valid_writable img Hv) as Hw.
  unfold apply_point_operation in H. bind_inv H. injection H as <-.
  apply buf_ok_kept.
  eapply (forM_inv (buf_ok (length (data img)) (max_value img))); [| |exact E].
  - intros i nd nd' _ Hok Hstep. do 4 bind_inv Hstep.
    destruct v3 as [[r g] b]. binds_inv Hstep. by clamp_writes.
  - by apply buf_ok_zeros.
Qed.

Lemma linear_color_scale_kept img sr sg sb r :
  valid img -> linear_color_scale img sr sg sb = Ok r -> kept img r.
Proof.
  intros Hv H. pose proof (valid_writable img Hv) as Hw.
  unfold linear_color_scale in H. bind_inv H. injection H as <-.
  apply buf_ok_kept.
  eapply (forM_inv (buf_ok (length (data img)) (max_value img))); [| |exact E].
  - intros i nd nd' _ Hok Hstep. binds_inv Hstep. by clamp_writes.
  - by apply buf_ok_zeros.
Qed.

(** ** Histogram operations *)

Lemma copy_other_channels_kept img ch nd nd' :
  valid img -> buf_ok (length (data img)) (max_value img) nd ->
  copy_other_channels img ch nd = Ok nd' ->
  buf_ok (length (data img)) (max_value img) nd'.
Proof.
  intros [_ Hr] Hok H. unfold copy_other_channels in H.
  eapply (forM_inv (buf_ok (length (data img)) (max_value img))); [|exact Hok|exact H].
  intros c t t' _ Ht Hstep. cbv beta in Hstep.
  destruct (c =? ch); [by injection Hstep as <-|].
  eapply (forM_inv (buf_ok (length (data img)) (max_value img))); [|exact Ht|exact Hstep].
  intros i u u' _ Hu Hi. bind_inv Hi. by eapply buf_ok_copy.
Qed.

Lemma stretch_single_channel_kept img ch r :
  valid img -> _stretch_single_channel img ch = Ok r -> kept img r.
Proof.
  intros Hv H. pose proof (valid_writable img Hv) as Hw.
  unfold _stretch_single_channel in H. do 3 bind_inv H.
  destruct (v1 <=? v0).
  { injection H as <-. rewrite copy_id. by apply kept_refl. }
  do 3 bind_inv H. injection H as <-. apply buf_ok_kept.
  eapply copy_other_channels_kept; [done| |exact E4].
  eapply (forM_inv (buf_ok (length (data img)) (max_value img))); [| |exact E3].
  - intros i nd nd' _ Hok Hstep. binds_inv Hstep. by clamp_writes.
  - by apply buf_ok_zeros.
Qed.

Lemma equalize_single_channel_kept img ch r :
  valid img -> _equalize_single_channel img ch = Ok r -> kept img r.
Proof.
  intros Hv H. pose proof (valid_writable img Hv) as Hw.
  unfold _equalize_single_channel in H. bind_inv H. cbv zeta in H.
  destruct (width img * height img =? 0).
  { injection H as <-. rewrite copy_id. by apply kept_refl. }
  do 2 bind_inv H. destruct (width img * height img <=? v1).
  { injection H as <-. rewrite copy_id. by apply kept_refl. }
  do 4 bind_inv H. injection H as <-. apply buf_ok_kept.
  eapply copy_other_channels_kept; [done| |exact E5].
  eapply (forM_inv (buf_ok (length (data img)) (max_value img))); [| |exact E4].
  - intros i nd nd' _ Hok Hstep. binds_inv Hstep. by clamp_writes.
  - by apply buf_ok_zeros.
Qed.

(** A pass per channel, each on the result of the one before. *)
Lemma all_channels_kept (pass : ImageBuffer -> Z -> result ImageBuffer) img r :
  (forall i ch r, valid i -> pass i ch = Ok r -> kept i r) ->
  valid img ->
  forM (range 3) (fun ch r => pass r ch) (copy img) = Ok r -> kept img r.
Proof.
  intros Hpass Hv H. rewrite copy_id in H.
  eapply (forM_inv (fun i => valid i /\ kept img i)) in H as [_ Hk]; [done| |].
  - intros ch i i' _ [Hvi Hki] Hstep. pose proof (Hpass i ch i' Hvi Hstep) as Hk.
    split; [by eapply kept_valid|by eapply kept_trans].
  - split; [done|by apply kept_refl].
Qed.

Lemma histogram_stretch_kept img ch r :
  valid img -> histogram_stretch img ch = Ok r -> kept img r.
Proof.
  intros Hv H. unfold histogram_stretch in H. destruct (is_rgb_channel ch) as [c|].
  - by eapply stretch_single_channel_kept.
  - eapply all_channels_kept; [|done|exact H].
    intros i c r'. apply stretch_single_channel_kept.
Qed.

Lemma histogram_equalization_kept img ch r :
  valid img -> histogram_equalization img ch = Ok r -> kept img r.
Proof.
  intros Hv H. unfold histogram_equalization in H.
  destruct (is_rgb_channel ch) as [c|].
  - by eapply equalize_single_channel_kept.
  - eapply all_channels_kept; [|done|exact H].
    intros i c r'. apply equalize_single_channel_kept.
Qed.

(** ** Spatial filters *)

Lemma convolve_kept img kernel divisor offset r :
  valid img -> _convolve img kernel divisor offset = Ok r -> kept img r.
Proof.
  intros Hv H. pose proof (valid_writable img Hv) as Hw.
  unfold _convolve in H. case_match; [done|]. bind_inv H. cbv zeta in H.
  bind_inv H. injection H as <-. apply buf_ok_kept.
  eapply (forM_inv (buf_ok (length (data img)) (max_value img))); [| |exact E0].
  - intros y nd nd' _ Hok Hrow.
    eapply (forM_inv (buf_ok (length (data img)) (max_value img)));
      [|exact Hok|exact Hrow].
    intros x t t' _ Ht Hstep. bind_inv Hstep. destruct v1 as [[a0 a1] a2].
    binds_inv Hstep. by clamp_writes.
  - by apply buf_ok_zeros.
Qed.

Lemma apply_separable_kept img kernel axis r :
  valid img -> _apply_separable img kernel axis = Ok r -> kept img r.
Proof.
  intros Hv H. pose proof (valid_writable img Hv) as Hw.
  unfold _apply_separable in H. cbv zeta in H.
  bind_inv H. injection H as <-. apply buf_ok_kept.
  eapply (forM_inv (buf_ok (length (data img)) (max_value img))); [| |exact E].
  - intros y nd nd' _ Hok Hrow.
    eapply (forM_inv (buf_ok (length (data img)) (max_value img)));
      [|exact Hok|exact Hrow].
    intros x t t' _ Ht Hstep. bind_inv Hstep. destruct v0 as [[a0 a1] a2].
    binds_inv Hstep. by clamp_writes.
  - by apply buf_ok_zeros.
Qed.

Lemma sobel_edge_kept float_pow img r :
  valid img -> sobel_edge float_pow img = Ok r -> kept img r.
Proof.
  intros Hv H. pose proof (valid_writable img Hv) as Hw.
  unfold sobel_edge in H. cbv zeta in H.
  bind_inv H. injection H as <-. apply buf_ok_kept.
  eapply (forM_inv (buf_ok (length (data img)) (max_value img))); [| |exact E].
  - intros y nd nd' _ Hok Hrow.
    eapply (forM_inv (buf_ok (length (data img)) (max_value img)));
      [|exact Hok|exact Hrow].
    intros x t t' _ Ht Hstep. bind_inv Hstep. destruct v0 as [ax ay].
    destruct ax as [[xr xg] xb], ay as [[yr yg] yb].
    binds_inv Hstep. by clamp_writes.
  - by apply buf_ok_zeros.
Qed.

Lemma gaussian_blur_kept float_pow math_exp img sigma r :
  valid img -> gaussian_blur float_pow math_exp img sigma = Ok r -> kept img r.
Proof.
  intros Hv H. unfold gaussian_blur in H. case_match; [done|].
  do 4 bind_inv H. cbv zeta in *.
  pose proof (apply_separable_kept _ _ _ _ Hv E2) as Hk.
  eapply kept_trans; [exact Hk|].
  eapply apply_separable_kept; [|exact H]. by eapply kept_valid.
Qed.

Lemma median_filter_kept img size r :
  valid img -> median_filter img size = Ok r -> kept img r.
Proof.
  intros Hv H. pose proof Hv as [_ Hr].
  unfold median_filter in H. cbv zeta in H.
  bind_inv H. injection H as <-. apply buf_ok_kept.
  eapply (forM_inv (buf_ok (length (data img)) (max_value img))); [| |exact E].
  - intros y nd nd' _ Hok Hrow.
    eapply (forM_inv (buf_ok (length (data img)) (max_value img)));
      [|exact Hok|exact Hrow].
    intros x t t' _ Ht Hstep. bind_inv Hstep. destruct v0 as [[nr ng] nb].
    assert (Forall (in_range (max_value img)) nr
            /\ Forall (in_range (max_value img)) ng
            /\ Forall (in_range (max_value img)) nb) as (Hnr & Hng & Hnb).
    { eapply (forM_inv (fun ns : list Z * list Z * list Z =>
                Forall (in_range (max_value img)) ns.1.1
                /\ Forall (in_range (max_value img)) ns.1.2
                /\ Forall (in_range (max_value img)) ns.2)) in E0; [exact E0| |].
      - intros ky ns ns' _ Hns Hky.
        eapply (forM_inv (fun ns : list Z * list Z * list Z =>
                  Forall (in_range (max_value img)) ns.1.1
                  /\ Forall (in_range (max_value img)) ns.1.2
                  /\ Forall (in_range (max_value img)) ns.2)); [|exact Hns|exact Hky].
        intros kx [[ar ag] ab] ms _ (Har & Hag & Hab) Hkx. binds_inv Hkx.
        injection Hkx as <-. cbn [fst snd]. rewrite Forall_forall in Hr.
        repeat split; apply Forall_app; (split; [done|]);
          apply Forall_singleton, Hr; by eapply lget_Ok.
      - cbn. by repeat split. }
    binds_inv Hstep.
    assert (forall l, Forall (in_range (max_value img)) l ->
                      Forall (in_range (max_value img)) (py_sort l)) as Hsort.
    { intros l Hl. eapply Permutation_Forall; [|exact Hl].
      symmetry. apply merge_sort_Permutation. }
    pose proof (buf_ok_copy _ _ _ _ _ _ _ _ (Hsort _ Hnr) Ht E1 E2) as H1.
    pose proof (buf_ok_copy _ _ _ _ _ _ _ _ (Hsort _ Hng) H1 E3 E4) as H2.
    exact (buf_ok_copy _ _ _ _ _ _ _ _ (Hsort _ Hnb) H2 E5 Hstep).
  - apply buf_ok_zeros. by apply valid_writable.
Qed.

(** ** Binarization *)

(** [r] has the geometry of [img], and data that is 0 or 255 only. *)
Definition binarized (img r : ImageBuffer) : Prop :=
  width r = width img /\ height r = height img /\ max_value r = max_value img
  /\ length (data r) = length (data img)
  /\ Forall (fun v => v = 0 \/ v = 255) (data r).

Definition binary_buf (n : nat) (nd : list Z) : Prop :=
  length nd = n /\ Forall (fun v => v = 0 \/ v = 255) nd.

Lemma binary_buf_bset n nd i (b : bool) nd' :
  binary_buf n nd -> bset nd i (if b then 255 else 0) = Ok nd' -> binary_buf n nd'.
Proof.
  intros [Hl Hf] Hb. split.
  - by rewrite (bset_length _ _ _ _ Hb).
  - eapply bset_Forall; [exact Hb|exact Hf|]. destruct b; auto.
Qed.

Lemma threshold_manual_binarized img t r :
  threshold_manual img t = Ok r -> binarized img r.
Proof.
  intros H. unfold threshold_manual in H. case_match; [done|].
  bind_inv H. injection H as <-.
  eapply (forM_inv (binary_buf (length (data img)))) in E.
  - destruct E as [Hl Hf]. by repeat split.
  - intros i nd nd' _ Hok Hstep. do 4 bind_inv Hstep. cbv zeta in Hstep.
    do 2 bind_inv Hstep.
    eapply binary_buf_bset; [|exact Hstep].
    eapply binary_buf_bset; [|exact E5].
    eapply binary_buf_bset; [exact Hok|exact E4].
  - split; [apply zeros_length|]. apply zeros_Forall. by left.
Qed.

Lemma threshold_percent_black_binarized img p r :
  threshold_percent_black img p = Ok r -> binarized img r.
Proof.
  intros H. unfold threshold_percent_black in H. case_match; [done|].
  cbv zeta in H. binds_inv H. by eapply threshold_manual_binarized.
Qed.

Lemma threshold_mean_iterative_binarized img n r :
  threshold_mean_iterative img n = Ok r -> binarized img r.
Proof.
  intros H. unfold threshold_mean_iterative in H. do 2 bind_inv H.
  cbv zeta in H. case_match; [by eapply threshold_manual_binarized|].
  binds_inv H. by eapply threshold_manual_binarized.
Qed.

Lemma threshold_entropy_binarized math_log2 img r :
  threshold_entropy math_log2 img = Ok r -> binarized img r.
Proof.
  intros H. unfold threshold_entropy in H. bind_inv H.
  cbv zeta in H. case_match; [by eapply threshold_manual_binarized|].
  binds_inv H. by eapply threshold_manual_binarized.
Qed.

Lemma threshold_minimum_error_binarized float_pow math_log img r :
  threshold_minimum_error float_pow math_log img = Ok r -> binarized img r.
Proof.
  intros H. unfold threshold_minimum_error in H. bind_inv H.
  cbv zeta in H. case_match; [by eapply threshold_manual_binarized|].
  binds_inv H. by eapply threshold_manual_binarized.
Qed.

Lemma threshold_fuzzy_minimum_error_binarized float_pow img r :
  threshold_fuzzy_minimum_error float_pow img = Ok r -> binarized img r.
Proof.
  intros H. unfold threshold_fuzzy_minimum_error in H. bind_inv H.
  cbv zeta in H. case_match; [by eapply threshold_manual_binarized|].
  binds_inv H. by eapply threshold_manual_binarized.
Qed.

Lemma binarized_valid img r :
  valid img -> binarized img r -> 255 <= max_value img -> valid r.
Proof.
  intros [Hl _] (Hw & Hh & Hm & Hlen & Hr) HM. split.
  - unfold len in *. rewrite Hw, Hh, Hlen. done.
  - rewrite Hm. eapply Forall_impl; [exact Hr|].
    intros v [->| ->]; unfold in_range; lia.
Qed.

(** ** The PPM reader *)

Lemma read_tokens_rest (P : Z -> Prop) stream token comment required ts rest :
  Forall P stream ->
  _read_tokens stream token comment required = Ok (ts, rest) -> Forall P rest.
Proof.
  revert token comment required ts.
  induction stream as [|ch stream IH]; intros token comment required ts Hs H.
  - cbn [_read_tokens] in H. destruct (required =? 0); [by injection H as _ <-|].
    case_match; [|by injection H as _ <-]. bind_inv H. by injection H as _ <-.
  - cbn [_read_tokens] in H. destruct (required =? 0); [by injection H as _ <-|].
    inversion Hs as [|? ? _ Hs']. subst.
    destruct comment; [by eapply IH|].
    destruct (ch =? 35); [by eapply IH|].
    destruct (is_header_space ch); [|by eapply IH].
    case_match; [by eapply IH|].
    do 2 bind_inv H. destruct v0 as [ts' remaining]. injection H as _ <-.
    by eapply IH.
Qed.

Lemma read_header_stream (P : Z -> Prop) file magic w h m stream :
  Forall P file -> _read_header file = Ok (magic, w, h, m, stream) ->
  Forall P stream.
Proof.
  intros Hf H. unfold _read_header in H. bind_inv H. cbv zeta in H.
  case_match; [done|]. bind_inv H. destruct v0 as [tokens rest].
  destruct tokens as [|t1 [|t2 [|t3 [|]]]]; try done.
  binds_inv H. injection H as _ _ _ _ <-.
  eapply read_tokens_rest; [|exact E0]. by apply Forall_drop.
Qed.

(** The state of the ASCII reader: the buffer and the next index. *)
Definition byte_buf (n : nat) (st : list Z * Z) : Prop :=
  length st.1 = n /\ Forall is_byte st.1.

Lemma store_value_bytes n token total maxv st c :
  byte_buf n st -> store_value token total maxv st = Ok c ->
  byte_buf n (match c with Next s => s | Break s => s end).
Proof.
  intros Hst H. unfold store_value in H. destruct st as [d idx].
  destruct (total <=? idx); [by injection H as <-|].
  do 3 bind_inv H. injection H as <-. destruct Hst as [Hl Hb]. split; cbn [fst] in *.
  - by rewrite (bset_length _ _ _ _ E1).
  - eapply bset_Forall; [exact E1|exact Hb|]. unfold is_byte. by eapply bset_byte.
Qed.

Lemma ascii_values_bytes n stream token comment total maxv st st' :
  byte_buf n st -> ascii_values stream token comment total maxv st = Ok st' ->
  byte_buf n st'.
Proof.
  revert token comment st.
  induction stream as [|ch stream IH]; intros token comment st Hst H.
  - cbn [ascii_values] in H. case_match; [by injection H as <-|].
    do 2 bind_inv H. injection H as <-. by eapply store_value_bytes.
  - cbn [ascii_values] in H. destruct comment; [by eapply IH|].
    destruct (ch =? 35); [by eapply IH|].
    destruct (isspace ch); [|by eapply IH].
    case_match; [by eapply IH|].
    do 2 bind_inv H. pose proof (store_value_bytes _ _ _ _ _ _ Hst E0) as Hc.
    destruct v0 as [s|s]; [by eapply IH|by injection H as <-].
Qed.

Lemma read_ascii_pixels_bytes stream total maxv d :
  _read_ascii_pixels stream total maxv = Ok d ->
  len d = total /\ Forall is_byte d.
Proof.
  intros H. unfold _read_ascii_pixels, bytearray_of_size in H.
  bind_inv H. bind_inv E. apply as_ssize_t_Ok in E0 as [-> _].
  destruct (Z.ltb_spec total 0) as [|Hn]; [done|]. injection E as <-.
  bind_inv H. destruct v as [d' idx]. destruct (idx =? total); [|done].
  injection H as <-.
  eapply (ascii_values_bytes (Z.to_nat total)) in E as [Hl Hb]; cbn [fst] in *.
  - split; [unfold len; lia|done].
  - split; cbn [fst]; [apply zeros_length|]. apply zeros_Forall. unfold is_byte. lia.
Qed.

Lemma mapM_Ok_inv {A B} (f : A -> result B) (l : list A) (r : list B) :
  mapM f l = Ok r -> Forall2 (fun x y => f x = Ok y) l r.
Proof.
  revert r. induction l as [|x l IH]; intros r H; cbn in H.
  - injection H as <-. constructor.
  - do 2 bind_inv H. injection H as <-. constructor; [done|by apply IH].
Qed.

Lemma read_binary_pixels_bytes stream total maxv d :
  Forall is_byte stream ->
  _read_binary_pixels stream total maxv = Ok d ->
  len d = total /\ Forall is_byte d.
Proof.
  intros Hs H. unfold _read_binary_pixels in H. bind_inv H.
  destruct (Z.eqb_spec (len v) total) as [Hl|]; [|done]. cbn [negb] in H.
  assert (Forall is_byte v) as Hv.
  { unfold stream_read in E. bind_inv E. apply as_ssize_t_Ok in E0 as [-> _].
    destruct (total =? -1); [by injection E as <-|].
    destruct (total <? 0); [done|]. injection E as <-. by apply Forall_take. }
  destruct (maxv =? 255); [by injection H as <-|].
  bind_inv H. apply mapM_Ok_inv in H. split.
  - unfold len in *. by rewrite <- (Forall2_length _ _ _ H).
  - apply Forall_forall. intros y Hy.
    apply list_elem_of_lookup in Hy as [k Hk].
    destruct (Forall2_lookup_r _ _ _ _ _ H Hk) as (x & _ & Hx).
    bind_inv Hx. destruct (Z.leb_spec 0 v1), (Z.ltb_spec v1 256); try done.
    injection Hx as <-. done.
Qed.

Lemma read_ppm_bytes file r :
  Forall is_byte file -> read_ppm file = Ok r ->
  len (data r) = width r * height r * 3 /\ Forall is_byte (data r).
Proof.
  intros Hf H. unfold read_ppm in H. bind_inv H.
  destruct v as [[[[magic w] h] maxv] stream]. cbv zeta in H.
  bind_inv H. injection H as <-. cbn [width height data].
  pose proof (read_header_stream _ _ _ _ _ _ _ Hf E) as Hs.
  case_match.
  - by eapply read_ascii_pixels_bytes.
  - by eapply read_binary_pixels_bytes.
Qed.

(** ** Every operation *)

(** The operations that take a buffer and return one through [clamp]. *)
Inductive BufferOp : Type :=
  | AddConstant (value : Py.num)
  | SubtractConstant (value : Py.num)
  | Multiply (factor : Py.num)
  | Divide (divisor : Py.num)
  | ChangeBrightness (delta : Py.num)
  | LinearColorScale (scale_r scale_g scale_b : Py.num)
  | GrayscaleAverage
  | GrayscaleLuminance
  | HistogramStretch (channel : option Z)
  | HistogramEqualization (channel : option Z)
  | MeanFilter (size : Z)
  | MedianFilter (size : Z)
  | SobelEdge
  | HighPassSharpen
  | GaussianBlur (sigma : Py.num)
  | CustomConvolution (kernel : list (list Py.num)) (divisor : option Py.num)
      (offset : Py.num).

Definition run_op (float_pow : float -> float -> result float)
  (math_exp : float -> result float) (op : BufferOp) (img : ImageBuffer)
  : result ImageBuffer :=
  match op with
  | AddConstant v => add_constant img v
  | SubtractConstant v => subtract_constant img v
  | Multiply f => multiply img f
  | Divide d => divide img d
  | ChangeBrightness d => change_brightness img d
  | LinearColorScale sr sg sb => linear_color_scale img sr sg sb
  | GrayscaleAverage => grayscale_average img
  | GrayscaleLuminance => grayscale_luminance img
  | HistogramStretch ch => histogram_stretch img ch
  | HistogramEqualization ch => histogram_equalization img ch
  | MeanFilter size => mean_filter img size
  | MedianFilter size => median_filter img size
  | SobelEdge => sobel_edge float_pow img
  | HighPassSharpen => high_pass_sharpen img
  | GaussianBlur sigma => gaussian_blur float_pow math_exp img sigma
  | CustomConvolution kernel divisor offset =>
      custom_convolution img kernel divisor offset
  end.

(** The binarizations of [binarization.py]: [threshold_manual] and the five
    methods that choose a threshold and end in it. *)
Inductive Binarization : Type :=
  | ThresholdManual (threshold : Z)
  | ThresholdPercentBlack (percent : Py.num)
  | ThresholdMeanIterative (max_iterations : Z)
  | ThresholdEntropy
  | ThresholdMinimumError
  | ThresholdFuzzyMinimumError.

Definition run_binarization (float_pow : float -> float -> result float)
  (math_log2 math_log : float -> result float) (b : Binarization)
  (img : ImageBuffer) : result ImageBuffer :=
  match b with
  | ThresholdManual t => threshold_manual img t
  | ThresholdPercentBlack p => threshold_percent_black img p
  | ThresholdMeanIterative n => threshold_mean_iterative img n
  | ThresholdEntropy => threshold_entropy math_log2 img
  | ThresholdMinimumError => threshold_minimum_error float_pow math_log img
  | ThresholdFuzzyMinimumError => threshold_fuzzy_minimum_error float_pow img
  end.

Lemma run_op_kept float_pow math_exp op img r :
  valid img -> run_op float_pow math_exp op img = Ok r -> kept img r.
Proof.
  intros Hv H. destruct op; cbn [run_op] in H.
  - by eapply scalar_point_op_kept.
  - by eapply scalar_point_op_kept.
  - by eapply scalar_point_op_kept.
  - unfold divide in H. destruct (Py.is_zero divisor); [done|].
    by eapply scalar_point_op_kept.
  - by eapply scalar_point_op_kept.
  - by eapply linear_color_scale_kept.
  - by eapply apply_point_operation_kept.
  - by eapply apply_point_operation_kept.
  - by eapply histogram_stretch_kept.
  - by eapply histogram_equalization_kept.
  - by eapply convolve_kept.
  - by eapply median_filter_kept.
  - by eapply sobel_edge_kept.
  - by eapply convolve_kept.
  - by eapply gaussian_blur_kept.
  - by eapply convolve_kept.
Qed.

Lemma run_binarization_binarized float_pow math_log2 math_log b img r :
  run_binarization float_pow math_log2 math_log b img = Ok r -> binarized img r.
Proof.
  intros H. destruct b; cbn [run_binarization] in H.
  - by eapply threshold_manual_binarized.
  - by eapply threshold_percent_black_binarized.
  - by eapply threshold_mean_iterative_binarized.
  - by eapply threshold_entropy_binarized.
  - by eapply threshold_minimum_error_binarized.
  - by eapply threshold_fuzzy_minimum_error_binarized.
Qed.

(** C1, amended. From a buffer whose data has length [width * height * 3]
    and values within [[0, max_value]]:
    - every point operation, histogram stretch or equalization and spatial
      filter that returns a buffer returns one with the same invariant;
    - every binarization ([threshold_manual] and the five methods that end
      in it) that returns a buffer returns one of the right length whose
      values are 0 or 255, so the invariant holds when [max_value] is at
      least 255;
    - the buffer that [read_ppm] builds from a file has three bytes per
      pixel, and the invariant holds when its [max_value] is 255, that is
      when the maximum in the header is at least 255. *)
Theorem operations_keep_buffer_invariant
  (float_pow : float -> float -> result float)
  (math_exp math_log2 math_log : float -> result float) :
  (forall op img r,
     valid img -> run_op float_pow math_exp op img = Ok r -> valid r)
  /\ (forall b img r,
        valid img -> run_binarization float_pow math_log2 math_log b img = Ok r ->
        len (data r) = width r * height r * 3
        /\ Forall (fun v => v = 0 \/ v = 255) (data r)
        /\ (255 <= max_value img -> valid r))
  /\ (forall file r,
        Forall is_byte file -> read_ppm file = Ok r ->
        len (data r) = width r * height r * 3
        /\ Forall is_byte (data r)
        /\ (max_value r = 255 -> valid r)).
Proof.
  split; [|split].
  - intros op img r Hv H. eapply kept_valid; [exact Hv|]. by eapply run_op_kept.
  - intros b img r Hv H.
    pose proof (run_binarization_binarized _ _ _ b img r H) as Hb.
    pose proof Hv as [Hl _]. pose proof Hb as (Hw & Hh & Hm & Hlen & Hr).
    split; [|split; [done|]].
    + unfold len in *. rewrite Hw, Hh, Hlen. done.
    + intros HM. by eapply binarized_valid.
  - intros file r Hf H. destruct (read_ppm_bytes file r Hf H) as [Hl Hb].
    split; [done|]. split; [done|]. intros HM. split; [done|]. rewrite HM.
    eapply Forall_impl; [exact Hb|]. unfold is_byte, in_range. intros v. lia.
Qed.

Lemma operations_keep_buffer_invariant_witness :
  valid two_pixels
  /\ add_constant two_pixels (Py.Int 10) = Ok (mkImage 2 1 255 [20; 20; 20; 210; 210; 210])
  /\ valid (mkImage 2 1 255 [20; 20; 20; 210; 210; 210]).
Proof.
  assert (valid two_pixels) as Hv.
  { split; [reflexivity|]. unfold two_pixels; cbn [data max_value].
    repeat constructor; unfold in_range; lia. }
  assert (add_constant two_pixels (Py.Int 10)
          = Ok (mkImage 2 1 255 [20; 20; 20; 210; 210; 210])) as Hr
    by (vm_compute; reflexivity).
  split; [exact Hv|]. split; [exact Hr|].
  exact (proj1 (operations_keep_buffer_invariant
                  (fun _ _ => Err ValueError) (fun _ => Err ValueError)
                  (fun _ => Err ValueError) (fun _ => Err ValueError))
           (AddConstant (Py.Int 10)) two_pixels _ Hv Hr).
Defined.

(** C1 as stated fails for the binarizations and for the reader: white is
    255 whatever [max_value] is, and the reader rescales the samples to
    0..255 but keeps [min(max_value, 255)]. *)
Lemma threshold_manual_exceeds_max_value :
  valid (mkImage 1 1 100 [0; 0; 0])
  /\ threshold_manual (mkImage 1 1 100 [0; 0; 0]) 0
     = Ok (mkImage 1 1 100 [255; 255; 255])
  /\ read_ppm [80; 54; 10; 49; 32; 49; 10; 49; 48; 48; 10; 100; 100; 100]
     = Ok (mkImage 1 1 100 [255; 255; 255])
  /\ ~ valid (mkImage 1 1 100 [255; 255; 255]).
Proof.
  split.
  { split; [reflexivity|]. cbn [data max_value]. repeat constructor; unfold in_range; lia. }
  split; [vm_compute; reflexivity|]. split; [vm_compute; reflexivity|].
  intros [_ Hr]. cbn [data max_value] in Hr. inversion Hr as [|? ? Hv _].
  unfold in_range in Hv. lia.
Qed.

(** * Further properties of the binarizations *)

(** No luminance of three bytes reaches 255: white itself gives 254. *)
Definition lum_below_255 (fr fg fb : float) : bool :=
  let x := (w_r * fr + w_g * fg + w_b * fb)%float in
  (0 <=? x)%float && (x <? 255)%float.

Lemma lum_below_255_table : forallb3 lum_below_255 byte_floats = true.
Proof. vm_compute. reflexivity. Qed.

Lemma compare_cont_lt (m c : positive) :
  Pos.compare_cont Eq m c = Lt -> Z.pos m < Z.pos c.
Proof. intros Hm. apply Pos2Z.pos_lt_pos. exact Hm. Qed.

Lemma int_of_float_below_255 (x : float) :
  (0 <=? x)%float = true -> (x <? 255)%float = true ->
  exists z, Py.int_of_float x = Ok z /\ 0 <= z <= 254.
Proof.
  intros H0 H255. rewrite FloatAxioms.leb_spec in H0.
  rewrite FloatAxioms.ltb_spec in H255.
  pose proof (Prim2SF_valid x) as Hv. unfold Py.int_of_float.
  change (Prim2SF 0) with (S754_zero false) in H0.
  change (Prim2SF 255) with (S754_finite false 8972014882652160 (-45)) in H255.
  unfold SFleb, SFltb, SFcompare in H0, H255.
  destruct (Prim2SF x) as [s|s| |s m e]; cbn [Py.sf_trunc]; try discriminate.
  - exists 0. split; [done|lia].
  - destruct s; discriminate.
  - destruct s; [discriminate|].
    pose proof (valid_mantissa_bound m e Hv) as Hm.
    assert (e <= -46 \/ (e = -45 /\ Z.pos m < 255 * 2 ^ 45)) as He.
    { destruct (e ?= -45) eqn:Ec.
      - apply Z.compare_eq in Ec. right. split; [done|].
        destruct (Pos.compare_cont Eq m 8972014882652160) eqn:Em; try discriminate.
        apply compare_cont_lt in Em.
        change (255 * 2 ^ 45) with (Z.pos 8972014882652160). exact Em.
      - rewrite Z.compare_lt_iff in Ec. left. lia.
      - discriminate. }
    destruct (0 <=? e) eqn:E0; [lia|].
    eexists. split; [reflexivity|]. split.
    + apply Z.div_pos; [lia|]. apply Z.pow_pos_nonneg; lia.
    + apply Z.lt_succ_r. apply Z.div_lt_upper_bound.
      { apply Z.pow_pos_nonneg; lia. }
      destruct He as [He|[-> Hm45]].
      * assert (2 ^ 46 <= 2 ^ (- e)) by (apply Z.pow_le_mono_r; lia).
        assert (2 ^ 53 = 2 ^ 46 * 128) by reflexivity. nia.
      * change (- -45) with 45. lia.
Qed.

Lemma luminance_below_255 (r g b : Z) :
  is_byte r -> is_byte g -> is_byte b ->
  exists z, luminance r g b = Ok z /\ 0 <= z <= 254.
Proof.
  intros Hr Hg Hb.
  pose proof (forallb3_spec _ _ lum_below_255_table _ _ _
                (byte_float_In r Hr) (byte_float_In g Hg) (byte_float_In b Hb)) as Ht.
  unfold lum_below_255 in Ht. apply andb_prop in Ht as [H0 H1].
  unfold luminance, luminance_float. by apply int_of_float_below_255.
Qed.

Lemma luminance_black : luminance 0 0 0 = Ok 0.
Proof. vm_compute. reflexivity. Qed.

Lemma luminance_white : luminance 255 255 255 = Ok 254.
Proof. vm_compute. reflexivity. Qed.

Lemma pixel_of_index (j : nat) :
  (3 * (j / 3) <= j < 3 * (j / 3) + 3)%nat.
Proof. pose proof (Nat.div_mod_eq j 3). pose proof (Nat.mod_upper_bound j 3). lia. Qed.

(** X1: threshold 255 turns every pixel black, a white one too, because the
    luminance of three bytes is at most 254. *)
Theorem threshold_manual_255_all_black (img : ImageBuffer) :
  well_formed img ->
  threshold_manual img 255
  = Ok (mkImage (width img) (height img) (max_value img)
          (replicate (length (data img)) 0)).
Proof.
  intros Hwf. destruct (well_formed_pixels img Hwf) as [_ HL].
  destruct (threshold_manual_spec img 255 Hwf ltac:(lia)) as (d & -> & Hlen & Hd).
  do 2 f_equal. symmetry. apply replicate_as_Forall. split; [done|].
  apply Forall_lookup. intros j v Hv.
  pose proof (lookup_lt_Some _ _ _ Hv) as Hj.
  rewrite Hd in Hv by done. destruct Hwf as [_ Hbytes].
  assert (j / 3 < Z.to_nat (width img * height img))%nat as Hq.
  { apply Nat.Div0.div_lt_upper_bound. lia. }
  destruct (pixel_lookup (data img) (j / 3) Hbytes ltac:(lia))
    as (r & g & b & Hr & Hg & Hb & Br & Bg & Bb).
  destruct (luminance_below_255 r g b Br Bg Bb) as (gray & Hgray & Hrange).
  unfold binarized_pixel in Hv. rewrite Hr, Hg, Hb, Hgray in Hv.
  destruct (Z.leb_spec 255 gray); [lia|congruence].
Qed.

Lemma threshold_manual_255_all_black_witness :
  threshold_manual (mkImage 1 1 255 [255; 255; 255]) 255
  = Ok (mkImage 1 1 255 [0; 0; 0]).
Proof.
  apply (threshold_manual_255_all_black (mkImage 1 1 255 [255; 255; 255])).
  split; [reflexivity|]. cbn [data]. repeat constructor; unfold is_byte; lia.
Defined.

(** The pixels of a binarized buffer. *)
Lemma binarized_lookup img t d (k : nat) :
  well_formed img ->
  length d = length (data img) ->
  (forall j, (j < length d)%nat -> d !! j = binarized_pixel t img j) ->
  (k < Z.to_nat (width img * height img))%nat ->
  exists v, (v = 0 \/ v = 255)
            /\ d !! (3 * k)%nat = Some v /\ d !! (3 * k + 1)%nat = Some v
            /\ d !! (3 * k + 2)%nat = Some v.
Proof.
  intros Hwf Hlen Hd Hk. destruct (well_formed_pixels img Hwf) as [_ HL].
  destruct Hwf as [_ Hbytes].
  destruct (pixel_lookup (data img) k Hbytes ltac:(lia))
    as (r & g & b & Hr & Hg & Hb & Br & Bg & Bb).
  destruct (luminance_byte r g b Br Bg Bb) as (gray & Hgray & Hrange).
  exists (if t <=? gray then 255 else 0). split; [destruct (t <=? gray); auto|].
  rewrite !Hd by lia. unfold binarized_pixel.
  replace ((3 * k) / 3)%nat with k by (apply Nat.div_unique with 0%nat; lia).
  replace ((3 * k + 1) / 3)%nat with k by (apply Nat.div_unique with 1%nat; lia).
  replace ((3 * k + 2) / 3)%nat with k by (apply Nat.div_unique with 2%nat; lia).
  by rewrite Hr, Hg, Hb, Hgray.
Qed.

(** X2: for a threshold from 1 to 254, binarizing a binarized image changes
    nothing: black has luminance 0 and white has luminance 254. *)
Theorem threshold_manual_idempotent (img : ImageBuffer) (t : Z) :
  well_formed img -> 1 <= t <= 254 ->
  exists r, threshold_manual img t = Ok r /\ threshold_manual r t = Ok r.
Proof.
  intros Hwf Ht. destruct (well_formed_pixels img Hwf) as [Hn HL].
  destruct (threshold_manual_spec img t Hwf ltac:(lia)) as (d & Hr & Hlen & Hd).
  eexists. split; [exact Hr|].
  set (r := mkImage (width img) (height img) (max_value img) d).
  assert (well_formed r) as Hwfr.
  { unfold r. split; cbn [data width height].
    - destruct Hwf as [Hl _]. unfold len in *. lia.
    - apply Forall_lookup. intros j v Hv.
      pose proof (lookup_lt_Some _ _ _ Hv) as Hj. pose proof (pixel_of_index j) as Hp.
      assert (j / 3 < Z.to_nat (width img * height img))%nat as Hq.
      { apply Nat.Div0.div_lt_upper_bound. lia. }
      destruct (binarized_lookup img t d (j / 3) Hwf Hlen Hd Hq)
        as (u & Hu & L0 & L1 & L2).
      assert (v = u) as ->.
      { assert (j = 3 * (j / 3) \/ j = 3 * (j / 3) + 1 \/ j = 3 * (j / 3) + 2)%nat
          as Hcases by lia.
        destruct Hcases as [E|[E|E]]; rewrite E in Hv; congruence. }
      unfold is_byte. lia. }
  destruct (threshold_manual_spec r t Hwfr ltac:(lia)) as (d' & Hr' & Hlen' & Hd').
  rewrite Hr'. subst r. cbn [width height max_value data] in *. do 2 f_equal.
  apply list_eq. intros j. destruct (decide (j < length d)%nat) as [Hj|Hj].
  - rewrite Hd' by lia. pose proof (pixel_of_index j) as Hp.
    assert (j / 3 < Z.to_nat (width img * height img))%nat as Hq.
    { apply Nat.Div0.div_lt_upper_bound. lia. }
    destruct (binarized_lookup img t d (j / 3) Hwf Hlen Hd Hq)
      as (u & Hu & L0 & L1 & L2).
    assert (d !! j = Some u) as ->.
    { assert (j = 3 * (j / 3) \/ j = 3 * (j / 3) + 1 \/ j = 3 * (j / 3) + 2)%nat
        as Hcases by lia.
      destruct Hcases as [E|[E|E]]; rewrite E; done. }
    unfold binarized_pixel. cbn [data]. rewrite L0, L1, L2.
    destruct Hu as [-> | ->].
    + rewrite luminance_black. destruct (Z.leb_spec t 0); [lia|done].
    + rewrite luminance_white. destruct (Z.leb_spec t 254); [done|lia].
  - by rewrite !lookup_ge_None_2 by lia.
Qed.

Lemma threshold_manual_idempotent_witness :
  exists r, threshold_manual two_pixels 100 = Ok r /\ threshold_manual r 100 = Ok r.
Proof.
  apply (threshold_manual_idempotent two_pixels 100 two_pixels_well_formed). lia.
Defined.

(** ** The threshold of [threshold_percent_black] *)

Lemma cnt_le_below_bytes (l : list Z) (v : Z) :
  Forall is_byte l -> v < 0 -> cnt_le v l = 0.
Proof.
  intros Hb Hv. apply cnt_le_none. rewrite Forall_forall in Hb.
  intros x Hx. specialize (Hb x Hx). unfold is_byte in Hb. lia.
Qed.

Lemma cnt_le_top_bytes (l : list Z) (v : Z) :
  Forall is_byte l -> 255 <= v -> cnt_le v l = len l.
Proof.
  intros Hb Hv. apply cnt_le_all. rewrite Forall_forall in Hb.
  intros x Hx. specialize (Hb x Hx). unfold is_byte in Hb. lia.
Qed.

(** The scan stops at the first intensity whose cumulative count reaches the
    target, and answers 0 when none does. *)
Lemma percent_black_scan (hist lums : list Z) (target : Z) (n a : nat) (th0 : Z) :
  is_histogram_of lums hist -> Forall is_byte lums -> (a + n <= 256)%nat ->
  (forall i, 0 <= i < Z.of_nat a -> cnt_le i lums < target) ->
  exists c th,
    for_break ((fun k => Z.of_nat k) <$> seq a n)
      (fun i '(cumulative, threshold) =>
         h ← lget hist i;
         let cumulative := cumulative + h in
         if target <=? cumulative then Ok (Break (cumulative, i))
         else Ok (Next (cumulative, threshold)))
      (cnt_le (Z.of_nat a - 1) lums, th0) = Ok (c, th)
    /\ ((th = th0 /\ forall i, 0 <= i < Z.of_nat (a + n) -> cnt_le i lums < target)
        \/ (0 <= th < 256 /\ target <= cnt_le th lums
            /\ forall i, 0 <= i < th -> cnt_le i lums < target)).
Proof.
  intros Hh Hb. pose proof Hh as [Hl _].
  revert a. induction n as [|n IH]; intros a Hn Hpre.
  - cbn. eexists _, _. split; [reflexivity|]. left. split; [done|].
    intros i Hi. apply Hpre. lia.
  - cbn [seq fmap list_fmap for_break].
    rewrite lget_total by (unfold len; lia). mstep.
    rewrite (histogram_total _ _ _ Hh) by lia. cbv zeta.
    assert (cnt_le (Z.of_nat a - 1) lums + occ (Z.of_nat a) lums
            = cnt_le (Z.of_nat a) lums) as ->.
    { replace (Z.of_nat a) with (Z.of_nat a - 1 + 1) at 2 3 by lia.
      by rewrite cnt_le_step. }
    destruct (Z.leb_spec target (cnt_le (Z.of_nat a) lums)) as [Hge|Hlt].
    + mstep. eexists _, _. split; [reflexivity|]. right. split; [lia|]. done.
    + mstep. destruct (IH (S a) ltac:(lia)) as (c & th & Hr & Hcase).
      { intros i Hi. destruct (decide (i = Z.of_nat a)) as [->|]; [done|].
        apply Hpre. lia. }
      replace (Z.of_nat (S a) - 1) with (Z.of_nat a) in Hr by lia.
      exists c, th. split; [exact Hr|].
      by replace (a + S n)%nat with (S a + n)%nat by lia.
Qed.

Lemma percent_black_threshold_spec (hist lums : list Z) (target : Z) :
  is_histogram_of lums hist -> Forall is_byte lums ->
  exists th,
    percent_black_threshold hist target = Ok th
    /\ ((th = 0 /\ forall i, 0 <= i < 256 -> cnt_le i lums < target)
        \/ (0 <= th < 256 /\ target <= cnt_le th lums
            /\ forall i, 0 <= i < th -> cnt_le i lums < target)).
Proof.
  intros Hh Hb. unfold percent_black_threshold, range.
  destruct (percent_black_scan hist lums target 256 0 0 Hh Hb ltac:(lia))
    as (c & th & Hr & Hcase); [lia|].
  rewrite (cnt_le_below_bytes lums (Z.of_nat 0 - 1) Hb) in Hr by lia.
  change (Z.to_nat 256) with 256%nat. cbv zeta in Hr |- *. rewrite Hr. mstep. cbn [snd].
  exists th. split; [done|]. exact Hcase.
Qed.

Lemma threshold_manual_zero_white img :
  well_formed img ->
  threshold_manual img 0
  = Ok (mkImage (width img) (height img) (max_value img)
          (replicate (length (data img)) 255)).
Proof.
  intros Hwf.
  destruct (threshold_manual_spec img 0 Hwf ltac:(lia)) as (d & -> & Hlen & Hd).
  do 2 f_equal. symmetry. apply replicate_as_Forall. split; [done|].
  apply Forall_lookup. intros j v Hv.
  pose proof (lookup_lt_Some _ _ _ Hv) as Hj.
  rewrite Hd in Hv by done.
  rewrite binarized_pixel_zero in Hv by (done || lia). congruence.
Qed.

Lemma luminances_bytes img :
  well_formed img -> Forall is_byte (pixel_luminances (data img)).
Proof.
  intros Hwf. destruct (well_formed_pixels img Hwf) as [_ HL].
  destruct Hwf as [_ Hb]. apply pixel_luminances_bytes; [done|lia].
Qed.

Lemma percent_black_zero_target img hist :
  well_formed img ->
  is_histogram_of (pixel_luminances (data img)) hist ->
  percent_black_threshold hist 0 = Ok 0.
Proof.
  intros Hwf Hh. pose proof (luminances_bytes img Hwf) as Hb.
  destruct (percent_black_threshold_spec hist _ 0 Hh Hb) as (th & -> & Hcase).
  f_equal. destruct Hcase as [[-> _]|(Hth & _ & Hpre)]; [done|].
  destruct (decide (th = 0)) as [|Hne]; [done|].
  specialize (Hpre 0 ltac:(lia)). unfold cnt_le, len in Hpre. lia.
Qed.

Lemma Z2F_mul_zero (n : Z) : 0 <= n < 2 ^ 53 -> (Py.Z2F n * 0)%float = 0%float.
Proof.
  intros Hn. apply Prim2SF_inj. rewrite FloatAxioms.mul_spec, Prim2SF_Z2F by lia.
  change (Prim2SF 0) with (S754_zero false). unfold canon. by destruct (n =? 0).
Qed.

(** X3: asking for 0 percent of black pixels gives the all-white image, for
    the percentage given as the [int] 0 or as the [float] 0.0. *)
Theorem percent_black_zero_all_white (img : ImageBuffer) :
  well_formed img -> width img * height img < 2 ^ 53 ->
  threshold_percent_black img (Py.Int 0)
  = Ok (mkImage (width img) (height img) (max_value img)
          (replicate (length (data img)) 255))
  /\ threshold_percent_black img (Py.Flt 0)
     = Ok (mkImage (width img) (height img) (max_value img)
             (replicate (length (data img)) 255)).
Proof.
  intros Hwf Hsize. destruct (well_formed_pixels img Hwf) as [Hn _].
  destruct (compute_histogram_grayscale_spec img Hwf) as (hist & Hhist & Hh).
  pose proof (percent_black_zero_target img hist Hwf Hh) as Hth.
  unfold threshold_percent_black. split.
  - change (Py.leb (Py.Flt 0) (Py.Int 0) && Py.leb (Py.Int 0) (Py.Flt 100)) with true.
    cbn [negb]. rewrite Hhist. mstep. cbv zeta. cbn [Py.mul]. mstep.
    rewrite Z.mul_0_r.
    change (Py.truediv (Py.Int 0) (Py.Flt 100)) with (Ok (Py.Flt 0) : result Py.num).
    mstep. change (Py.to_int (Py.Flt 0)) with (Ok 0 : result Z). mstep.
    rewrite Hth. mstep. by apply threshold_manual_zero_white.
  - change (Py.leb (Py.Flt 0) (Py.Flt 0) && Py.leb (Py.Flt 0) (Py.Flt 100)) with true.
    cbn [negb]. rewrite Hhist. mstep. cbv zeta. cbn [Py.mul Py.to_float].
    rewrite float_of_int_small by lia. mstep. rewrite Z2F_mul_zero by lia.
    change (Py.truediv (Py.Flt 0) (Py.Flt 100)) with (Ok (Py.Flt 0) : result Py.num).
    mstep. change (Py.to_int (Py.Flt 0)) with (Ok 0 : result Z). mstep.
    rewrite Hth. mstep. by apply threshold_manual_zero_white.
Qed.

Lemma percent_black_zero_all_white_witness :
  threshold_percent_black two_pixels (Py.Int 0)
  = Ok (mkImage 2 1 255 [255; 255; 255; 255; 255; 255])
  /\ threshold_percent_black two_pixels (Py.Flt 0)
     = Ok (mkImage 2 1 255 [255; 255; 255; 255; 255; 255]).
Proof.
  apply (percent_black_zero_all_white two_pixels two_pixels_well_formed).
  reflexivity.
Defined.

Lemma sf_trunc_canon (c : Z) : 0 <= c < 2 ^ 53 -> Py.sf_trunc (canon c) = Ok c.
Proof.
  intros Hc. unfold canon. destruct (Z.eqb_spec c 0) as [->|Hc0]; [done|].
  cbn [Py.sf_trunc]. rewrite mant_id by lia. f_equal.
  pose proof (expo_nonpos c ltac:(lia)) as He.
  pose proof (log2_small c ltac:(lia)) as Hl.
  destruct (Z.leb_spec 0 (expo c)) as [H0|H0].
  - assert (expo c = 0) as Hz by lia. rewrite Hz. unfold mant, expo in *.
    replace (52 - Z.log2 c) with 0 by lia. cbn. lia.
  - assert (mant c = c * 2 ^ (- expo c)) as Hm.
    { unfold mant, expo. do 2 f_equal. lia. }
    assert (0 < 2 ^ (- expo c)) as Hp by (apply Z.pow_pos_nonneg; lia).
    by rewrite Hm, Z.div_mul by lia.
Qed.

Lemma int_of_float_Z2F (c : Z) : 0 <= c < 2 ^ 53 -> Py.int_of_float (Py.Z2F c) = Ok c.
Proof.
  intros Hc. unfold Py.int_of_float. rewrite Prim2SF_Z2F by lia.
  by apply sf_trunc_canon.
Qed.

(** The product of two small integers is exact. *)
Lemma SFmul_canon (a b : Z) :
  0 <= a -> 0 <= b -> a * b < 2 ^ 53 ->
  SF64mul (canon a) (canon b) = canon (a * b).
Proof.
  intros Ha Hb Hab. unfold canon at 1 2.
  destruct (Z.eqb_spec a 0) as [->|Ha0].
  { destruct (Z.eqb_spec b 0); reflexivity. }
  destruct (Z.eqb_spec b 0) as [->|Hb0].
  { rewrite Z.mul_0_r. reflexivity. }
  assert (0 < a < 2 ^ 53) as Ha' by nia. assert (0 < b < 2 ^ 53) as Hb' by nia.
  assert (0 < a * b < 2 ^ 53) as Hab' by nia.
  cbn [SF64mul SFmul xorb]. rewrite Pos2Z.inj_mul, !mant_id by lia.
  pose proof (log2_small a Ha') as La. pose proof (log2_small b Hb') as Lb.
  pose proof (log2_small (a * b) Hab') as Lab.
  assert (Z.log2 a + Z.log2 b <= Z.log2 (a * b)) as Hl.
  { apply Z.log2_le_pow2; [lia|]. rewrite Z.pow_add_r by lia.
    pose proof (Z.log2_spec a ltac:(lia)). pose proof (Z.log2_spec b ltac:(lia)). nia. }
  set (n := 52 - Z.log2 a - Z.log2 b + Z.log2 (a * b)).
  assert (mant a * mant b = mant (a * b) * 2 ^ n) as ->.
  { unfold mant, n.
    replace (a * 2 ^ (52 - Z.log2 a) * (b * 2 ^ (52 - Z.log2 b)))
      with (a * b * (2 ^ (52 - Z.log2 a) * 2 ^ (52 - Z.log2 b))) by ring.
    rewrite <- Z.pow_add_r by lia.
    replace (a * b * 2 ^ (52 - Z.log2 (a * b))
             * 2 ^ (52 - Z.log2 a - Z.log2 b + Z.log2 (a * b)))
      with (a * b * (2 ^ (52 - Z.log2 (a * b))
                     * 2 ^ (52 - Z.log2 a - Z.log2 b + Z.log2 (a * b)))) by ring.
    rewrite <- Z.pow_add_r by lia. do 2 f_equal. lia. }
  rewrite round_aux_exact; [ | by apply mant_log2 | lia | unfold expo, n; lia ].
  unfold canon. destruct (Z.eqb_spec (a * b) 0) as [|_]; [lia|].
  f_equal. unfold expo, n. lia.
Qed.

Lemma Z2F_mul (a b : Z) :
  0 <= a < 2 ^ 53 -> 0 <= b < 2 ^ 53 -> a * b < 2 ^ 53 ->
  (Py.Z2F a * Py.Z2F b)%float = Py.Z2F (a * b).
Proof.
  intros Ha Hb Hab. apply Prim2SF_inj.
  rewrite FloatAxioms.mul_spec, !Prim2SF_Z2F by nia. apply SFmul_canon; lia.
Qed.

Lemma cnt_le_full (l : list Z) (v : Z) :
  cnt_le v l = len l -> forall x, x ∈ l -> x <= v.
Proof.
  induction l as [|y l IH]; intros Hc x Hx; [by apply elem_of_nil in Hx|].
  pose proof (cnt_le_len v l) as Hle. unfold cnt_le, len in *.
  rewrite filter_cons in Hc. destruct (decide (y <= v)) as [Hy|Hy].
  - cbn [length] in Hc. apply elem_of_cons in Hx as [->|Hx]; [done|].
    apply IH; [lia|done].
  - cbn [length] in Hc. lia.
Qed.

(** X4: asking for 100 percent of black pixels, as the [int] 100 or as the
    [float] 100.0, binarizes at the highest luminance present in the image:
    the pixels of that luminance come out white, so the image is never all
    black. *)
Theorem percent_black_hundred_keeps_white (img : ImageBuffer) :
  well_formed img -> 0 < width img * height img ->
  width img * height img * 100 < 2 ^ 53 ->
  exists th r,
    th ∈ pixel_luminances (data img)
    /\ (forall v, v ∈ pixel_luminances (data img) -> v <= th)
    /\ threshold_manual img th = Ok r
    /\ threshold_percent_black img (Py.Int 100) = Ok r
    /\ threshold_percent_black img (Py.Flt 100) = Ok r
    /\ 255 ∈ data r.
Proof.
  intros Hwf Hpos Hsize. destruct (well_formed_pixels img Hwf) as [Hn HL].
  pose proof (well_formed_div3 img Hwf) as Hdiv.
  destruct (compute_histogram_grayscale_spec img Hwf) as (hist & Hhist & Hh).
  pose proof (luminances_bytes img Hwf) as Hlb.
  set (lums := pixel_luminances (data img)) in *.
  assert (len lums = width img * height img) as Hlen.
  { unfold len, lums. rewrite pixel_luminances_length. lia. }
  destruct (percent_black_threshold_spec hist lums (width img * height img) Hh Hlb)
    as (th & Hth & Hcase).
  assert (0 <= th < 256 /\ th ∈ lums /\ forall v, v ∈ lums -> v <= th)
    as (Hthb & Hin & Htop).
  { destruct Hcase as [[_ Hnone]|(Hb & Hge & Hpre)].
    - specialize (Hnone 255 ltac:(lia)).
      rewrite (cnt_le_top_bytes lums 255 Hlb) in Hnone by lia. lia.
    - split; [done|]. split.
      + apply occ_pos_iff.
        assert (cnt_le (th - 1) lums < width img * height img) as Hlt.
        { destruct (decide (th = 0)) as [->|].
          - rewrite (cnt_le_below_bytes lums (0 - 1) Hlb) by lia. lia.
          - apply Hpre. lia. }
        pose proof (cnt_le_step lums (th - 1)) as Hs.
        replace (th - 1 + 1) with th in Hs by lia. lia.
      + apply cnt_le_full. pose proof (cnt_le_len th lums). lia. }
  pose proof Hin as Hin'. apply list_elem_of_lookup in Hin' as [k Hk].
  pose proof (lookup_lt_Some _ _ _ Hk) as Hklt.
  unfold lums in Hklt. rewrite pixel_luminances_length in Hklt.
  destruct (threshold_manual_spec img th Hwf ltac:(lia)) as (d & Hd & Hdl & Hdv).
  exists th, (mkImage (width img) (height img) (max_value img) d).
  split; [done|]. split; [done|]. split; [done|].
  assert (2 ^ 53 = 9007199254740992) as E53 by reflexivity.
  split; [|split].
  - unfold threshold_percent_black.
    change (Py.leb (Py.Flt 0) (Py.Int 100) && Py.leb (Py.Int 100) (Py.Flt 100))
      with true.
    cbn [negb]. rewrite Hhist. mstep. cbv zeta. cbn [Py.mul]. mstep.
    cbn [Py.truediv Py.to_float]. rewrite float_of_int_small by lia. mstep.
    change (100 =? 0)%float with false. cbv iota. mstep.
    change 100%float with (Py.Z2F 100).
    rewrite (Z.mul_comm (width img * height img) 100), Z2F_div by lia.
    cbn [Py.to_int]. rewrite int_of_float_Z2F by lia. mstep.
    rewrite Hth. mstep. exact Hd.
  - unfold threshold_percent_black.
    change (Py.leb (Py.Flt 0) (Py.Flt 100) && Py.leb (Py.Flt 100) (Py.Flt 100))
      with true.
    cbn [negb]. rewrite Hhist. mstep. cbv zeta. cbn [Py.mul Py.to_float].
    rewrite float_of_int_small by lia. mstep.
    change 100%float with (Py.Z2F 100). rewrite Z2F_mul by lia.
    cbn [Py.truediv Py.to_float]. mstep.
    change (Py.Z2F 100 =? 0)%float with false. cbv iota. mstep.
    rewrite (Z.mul_comm (width img * height img) 100), Z2F_div by lia.
    cbn [Py.to_int]. rewrite int_of_float_Z2F by lia. mstep.
    rewrite Hth. mstep. exact Hd.
  - cbn [data]. destruct Hwf as [_ Hbytes].
    destruct (pixel_luminance_lookup (data img) k Hbytes ltac:(lia))
      as (r & g & b & gray & Lr & Lg & Lb & Hlum & _ & Hgray).
    fold lums in Hgray. assert (gray = th) as -> by congruence.
    apply (list_elem_of_lookup_2 d (3 * k)). rewrite Hdv by lia.
    unfold binarized_pixel.
    replace ((3 * k) / 3)%nat with k by (apply Nat.div_unique with 0%nat; lia).
    rewrite Lr, Lg, Lb, Hlum. by rewrite Z.leb_refl.
Qed.

Lemma percent_black_hundred_keeps_white_witness :
  exists th r,
    th ∈ pixel_luminances (data two_pixels)
    /\ (forall v, v ∈ pixel_luminances (data two_pixels) -> v <= th)
    /\ threshold_manual two_pixels th = Ok r
    /\ threshold_percent_black two_pixels (Py.Int 100) = Ok r
    /\ threshold_percent_black two_pixels (Py.Flt 100) = Ok r
    /\ 255 ∈ data r.
Proof.
  apply (percent_black_hundred_keeps_white two_pixels two_pixels_well_formed);
    reflexivity.
Defined.

(** * Further properties of the buffer *)

(** A loop that writes the three values of each pixel of [tgt] in turn ends
    with [tgt]. *)
Lemma pixel_loop_total (tgt : list Z) (n : nat)
  (body : Z -> list Z -> result (list Z)) (nd0 : list Z) :
  length tgt = (3 * n)%nat -> length nd0 = (3 * n)%nat ->
  (forall k nd, (k < n)%nat -> length nd = (3 * n)%nat ->
     body (0 + 3 * Z.of_nat k) nd
     = Ok (<[(3 * k + 2)%nat := tgt !!! (3 * k + 2)%nat]>
             (<[(3 * k + 1)%nat := tgt !!! (3 * k + 1)%nat]>
                (<[(3 * k)%nat := tgt !!! (3 * k)%nat]> nd)))) ->
  forM ((fun k => 0 + 3 * Z.of_nat k) <$> seq 0 n) body nd0 = Ok tgt.
Proof.
  intros Ht H0 Hbody.
  destruct (forM_seq_total (fun k nd => agrees_upto tgt k nd)
              (fun k => 0 + 3 * Z.of_nat k) body 0 n nd0) as (r & Hr & Hl & Hag).
  - split; [lia|]. intros i Hi. lia.
  - intros k nd Hk Hnd. rewrite Hbody by (destruct Hnd; lia).
    eexists. split; [reflexivity|].
    apply agrees_step; [done| | |]; apply list_lookup_lookup_total_lt; lia.
  - rewrite Hr. f_equal. apply list_eq. intros i.
    destruct (decide (i < length tgt)%nat) as [Hi|Hi].
    + apply Hag. lia.
    + by rewrite !lookup_ge_None_2 by lia.
Qed.

(** ** [from_dimensions] *)





(** ** [set_pixel] and [get_pixel] *)

(** [set_pixel] mutates the buffer; the result is the buffer after the three
    writes.  An exception loses the state (the writes already done). *)
Definition set_pixel (self : ImageBuffer) (x y : Z) (color : Pixel)
  : result ImageBuffer :=
  _ ← validate_coordinates self x y;
  let idx := offset self x y in
  let '(r, g, b) := color in
  cr ← clamp self (Py.Int r); d ← bset (data self) idx cr;
  cg ← clamp self (Py.Int g); d ← bset d (idx + 1) cg;
  cb ← clamp self (Py.Int b); d ← bset d (idx + 2) cb;
  Ok (mkImage (width self) (height self) (max_value self) d).

Lemma validate_in_range img x y :
  0 <= x < width img -> 0 <= y < height img -> validate_coordinates img x y = Ok tt.
Proof.
  intros Hx Hy. unfold validate_coordinates.
  destruct (Z.leb_spec 0 x), (Z.ltb_spec x (width img)),
    (Z.leb_spec 0 y), (Z.ltb_spec y (height img)); try lia. done.
Qed.

Lemma validate_out_of_range img x y :
  ~ (0 <= x < width img /\ 0 <= y < height img) ->
  validate_coordinates img x y = Err IndexError.
Proof.
  intros Hxy. unfold validate_coordinates.
  destruct (Z.leb_spec 0 x), (Z.ltb_spec x (width img)),
    (Z.leb_spec 0 y), (Z.ltb_spec y (height img)); try done. lia.
Qed.

Lemma clamp_to_byte (M v : Z) : M <= 255 -> is_byte (clamp_to M v).
Proof. unfold clamp_to, is_byte. lia. Qed.

(** Reading the pixel number [p] of a buffer. *)
Lemma get_pixel_at img x y (p : nat) (r g b : Z) :
  0 <= x < width img -> 0 <= y < height img ->
  Z.of_nat p = y * width img + x ->
  data img !! (3 * p)%nat = Some r -> data img !! (3 * p + 1)%nat = Some g ->
  data img !! (3 * p + 2)%nat = Some b ->
  get_pixel img x y = Ok (r, g, b).
Proof.
  intros Hx Hy Hp Lr Lg Lb. unfold get_pixel, offset.
  rewrite validate_in_range by done. mstep. cbv zeta.
  rewrite (lget_at _ (3 * p) ((y * width img + x) * 3) _ Lr) by lia. mstep.
  rewrite (lget_at _ (3 * p + 1) ((y * width img + x) * 3 + 1) _ Lg) by lia. mstep.
  rewrite (lget_at _ (3 * p + 2) ((y * width img + x) * 3 + 2) _ Lb) by lia. mstep.
  done.
Qed.

(** X6: on a well-formed buffer with [max_value <= 255], [set_pixel] inside
    the image succeeds, [get_pixel] then reads the clamped colour back, and
    every other pixel reads as before; outside the image both raise
    [IndexError]. *)
Theorem set_pixel_get_pixel (img : ImageBuffer) (x y r g b : Z) :
  well_formed img -> max_value img <= 255 ->
  (0 <= x < width img -> 0 <= y < height img ->
   exists img',
     set_pixel img x y (r, g, b) = Ok img'
     /\ well_formed img'
     /\ get_pixel img' x y
        = Ok (clamp_to (max_value img) r, clamp_to (max_value img) g,
              clamp_to (max_value img) b)
     /\ forall x' y', (x', y') <> (x, y) ->
          get_pixel img' x' y' = get_pixel img x' y')
  /\ (~ (0 <= x < width img /\ 0 <= y < height img) ->
      set_pixel img x y (r, g, b) = Err IndexError
      /\ get_pixel img x y = Err IndexError).
Proof.
  intros Hwf HM. split.
  - intros Hx Hy. destruct (well_formed_pixels img Hwf) as [Hn HL].
    pose proof Hwf as [Hlen Hbytes].
    set (p := Z.to_nat (y * width img + x)).
    assert (Z.of_nat p = y * width img + x) as Hp by (unfold p; nia).
    assert (p < Z.to_nat (width img * height img))%nat as Hplt by nia.
    set (d' := <[(3 * p + 2)%nat := clamp_to (max_value img) b]>
                 (<[(3 * p + 1)%nat := clamp_to (max_value img) g]>
                    (<[(3 * p)%nat := clamp_to (max_value img) r]> (data img)))).
    assert (set_pixel img x y (r, g, b)
            = Ok (mkImage (width img) (height img) (max_value img) d')) as Hset.
    { unfold set_pixel, offset. rewrite validate_in_range by done. mstep.
      cbv zeta. unfold clamp. cbn [Py.round]. mstep.
      fold (clamp_to (max_value img) r). fold (clamp_to (max_value img) g).
      fold (clamp_to (max_value img) b).
      rewrite (bset_at _ (3 * p)) by (try apply clamp_to_byte; lia). mstep.
      rewrite (bset_at _ (3 * p + 1))
        by (rewrite ?length_insert; try apply clamp_to_byte; lia). mstep.
      rewrite (bset_at _ (3 * p + 2))
        by (rewrite ?length_insert; try apply clamp_to_byte; lia). mstep.
      done. }
    eexists. split; [exact Hset|].
    assert (length d' = length (data img)) as Hdl
      by (unfold d'; by rewrite !length_insert).
    split; [|split].
    + split; cbn [data width height]; [unfold len in *; lia|].
      unfold d'. repeat apply Forall_insert; try done; by apply clamp_to_byte.
    + apply (get_pixel_at _ x y p); try done; cbn [data]; unfold d'.
      * rewrite !list_lookup_insert_ne by lia.
        by rewrite list_lookup_insert_eq by lia.
      * rewrite list_lookup_insert_ne by lia.
        by rewrite list_lookup_insert_eq by (rewrite ?length_insert; lia).
      * by rewrite list_lookup_insert_eq by (rewrite ?length_insert; lia).
    + intros x' y' Hne.
      destruct (decide (0 <= x' < width img /\ 0 <= y' < height img)) as [[Hx' Hy']|Hout].
      * set (p' := Z.to_nat (y' * width img + x')).
        assert (Z.of_nat p' = y' * width img + x') as Hp' by (unfold p'; nia).
        assert (p' < Z.to_nat (width img * height img))%nat as Hplt' by nia.
        assert (p' <> p) as Hpp.
        { intros Heq. apply Hne. assert (y' = y) by nia. f_equal; nia. }
        destruct (pixel_lookup (data img) p' Hbytes ltac:(lia))
          as (r' & g' & b' & Lr & Lg & Lb & _).
        rewrite (get_pixel_at img x' y' p' r' g' b') by done.
        apply (get_pixel_at _ x' y' p'); try done; cbn [data]; unfold d';
          by rewrite !list_lookup_insert_ne by lia.
      * unfold get_pixel. by rewrite !validate_out_of_range by done.
  - intros Hout. unfold set_pixel, get_pixel.
    by rewrite !validate_out_of_range by done.
Qed.

Lemma set_pixel_get_pixel_witness :
  (exists img',
     set_pixel two_pixels 1 0 (300, -5, 7) = Ok img'
     /\ well_formed img'
     /\ get_pixel img' 1 0 = Ok (255, 0, 7)
     /\ forall x' y', (x', y') <> (1, 0) ->
          get_pixel img' x' y' = get_pixel two_pixels x' y')
  /\ set_pixel two_pixels 2 0 (300, -5, 7) = Err IndexError.
Proof.
  split.
  - apply (set_pixel_get_pixel two_pixels 1 0 300 (-5) 7 two_pixels_well_formed);
      cbn; lia.
  - apply (set_pixel_get_pixel two_pixels 2 0 300 (-5) 7 two_pixels_well_formed);
      cbn; lia.
Defined.

(** ** [from_pixels] and [iter_pixels] *)

(** [bytearray.extend(values)]: every value has to be a byte. *)
Definition bextend (d : list Z) (values : list Z) : result (list Z) :=
  if forallb (fun v => (0 <=? v) && (v <? 256)) values then Ok (d ++ values)
  else Err ValueError.

Definition from_pixels (w h : Z) (pixels : list Pixel) (maxv : Z)
  : result ImageBuffer :=
  d ← forM pixels (fun '(r, g, b) d => bextend d [r; g; b]) [];
  if negb (len d =? w * h * 3) then Err ValueError
  else Ok (mkImage w h maxv d).

(** [iter_pixels], as the list of the pixels it yields. *)
Definition iter_pixels (self : ImageBuffer) : result (list Pixel) :=
  forM (range_step 0 (len (data self)) 3)
    (fun i acc =>
       r ← lget (data self) i; g ← lget (data self) (i + 1);
       b ← lget (data self) (i + 2);
       Ok (acc ++ [(r, g, b)]))
    [].

Definition byte_pixel (p : Pixel) : Prop :=
  is_byte p.1.1 /\ is_byte p.1.2 /\ is_byte p.2.

(** The bytes of a list of pixels, in order. *)
Definition flatten_pixels (pixels : list Pixel) : list Z :=
  concat ((fun p : Pixel => [p.1.1; p.1.2; p.2]) <$> pixels).

Lemma flatten_pixels_length pixels :
  length (flatten_pixels pixels) = (3 * length pixels)%nat.
Proof.
  unfold flatten_pixels. induction pixels as [|p t IH]; [done|].
  cbn [fmap list_fmap concat]. rewrite length_app, IH. cbn [length]. lia.
Qed.

Lemma flatten_pixels_app a b :
  flatten_pixels (a ++ b) = flatten_pixels a ++ flatten_pixels b.
Proof. unfold flatten_pixels. by rewrite fmap_app, concat_app. Qed.

Lemma flatten_pixels_lookup pixels (k : nat) (p : Pixel) :
  pixels !! k = Some p ->
  flatten_pixels pixels !! (3 * k)%nat = Some p.1.1
  /\ flatten_pixels pixels !! (3 * k + 1)%nat = Some p.1.2
  /\ flatten_pixels pixels !! (3 * k + 2)%nat = Some p.2.
Proof.
  unfold flatten_pixels. revert k.
  induction pixels as [|q t IH]; intros k Hk; [done|].
  cbn [fmap list_fmap concat]. destruct k as [|k].
  - injection Hk as ->. done.
  - replace (3 * S k)%nat with (3 + 3 * k)%nat by lia. cbn in Hk.
    specialize (IH k Hk) as (H0 & H1 & H2). cbn [app Nat.add lookup list_lookup].
    done.
Qed.

Lemma from_pixels_loop (pixels : list Pixel) (d : list Z) :
  Forall byte_pixel pixels ->
  forM pixels (fun '(r, g, b) d => bextend d [r; g; b]) d
  = Ok (d ++ flatten_pixels pixels).
Proof.
  intros Hb. revert d. induction Hb as [|[[r g] b] t (Br & Bg & Bb) _ IH]; intros d.
  - cbn. by rewrite app_nil_r.
  - assert (bextend d [r; g; b] = Ok (d ++ [r; g; b])) as He.
    { unfold bextend. cbn [fst snd] in *. unfold is_byte in *. cbn [forallb].
      destruct (Z.leb_spec 0 r), (Z.ltb_spec r 256), (Z.leb_spec 0 g),
        (Z.ltb_spec g 256), (Z.leb_spec 0 b), (Z.ltb_spec b 256); try lia. done. }
    change (forM ((r, g, b) :: t) (fun '(r, g, b) d => bextend d [r; g; b]) d)
      with (s' ← bextend d [r; g; b];
            forM t (fun '(r, g, b) d => bextend d [r; g; b]) s').
    rewrite He. mstep. rewrite IH. f_equal. rewrite <- app_assoc. done.
Qed.

Lemma iter_pixels_flatten (pixels : list Pixel) (w h maxv : Z) :
  iter_pixels (mkImage w h maxv (flatten_pixels pixels)) = Ok pixels.
Proof.
  unfold iter_pixels. cbn [data]. unfold len. rewrite flatten_pixels_length.
  replace (Z.of_nat (3 * length pixels)) with (Z.of_nat (length pixels) * 3) by lia.
  rewrite range_step3_pixels, Nat2Z.id.
  destruct (forM_seq_total (fun k acc => acc = take k pixels)
    (fun k => 0 + 3 * Z.of_nat k)
    (fun i acc =>
       r ← lget (flatten_pixels pixels) i; g ← lget (flatten_pixels pixels) (i + 1);
       b ← lget (flatten_pixels pixels) (i + 2);
       Ok (acc ++ [(r, g, b)]))
    0 (length pixels) []) as (r & Hr & ->).
  - done.
  - intros k acc Hk ->.
    destruct (lookup_lt_is_Some_2 pixels k ltac:(lia)) as [[[pr pg] pb] Hp].
    destruct (flatten_pixels_lookup pixels k _ Hp) as (L0 & L1 & L2).
    cbn [fst snd] in *.
    rewrite (lget_at _ (3 * k) (0 + 3 * Z.of_nat k) _ L0) by lia. mstep.
    rewrite (lget_at _ (3 * k + 1) (0 + 3 * Z.of_nat k + 1) _ L1) by lia. mstep.
    rewrite (lget_at _ (3 * k + 2) (0 + 3 * Z.of_nat k + 2) _ L2) by lia. mstep.
    eexists. split; [reflexivity|]. by rewrite (take_S_r _ _ _ Hp).
  - etransitivity; [exact Hr|]. f_equal. by rewrite Nat.add_0_l, firstn_all.
Qed.

(** X7: [from_pixels] on [width * height] pixels whose channels are bytes
    builds a well-formed buffer from which [iter_pixels] yields the same
    pixels; a count that differs from [width * height] is a [ValueError]. *)
Theorem from_pixels_iter_pixels (w h maxv : Z) (pixels : list Pixel) :
  Forall byte_pixel pixels ->
  (len pixels = w * h ->
   exists img, from_pixels w h pixels maxv = Ok img
               /\ well_formed img /\ iter_pixels img = Ok pixels)
  /\ (len pixels <> w * h -> from_pixels w h pixels maxv = Err ValueError).
Proof.
  intros Hb. unfold from_pixels. rewrite from_pixels_loop by done. mstep.
  rewrite app_nil_l. unfold len. rewrite flatten_pixels_length. split.
  - intros Hn. destruct (Z.eqb_spec (Z.of_nat (3 * length pixels)) (w * h * 3));
      [|unfold len in *; lia].
    cbn [negb]. eexists. split; [reflexivity|]. split.
    + split; cbn [data width height]; [by unfold len; rewrite flatten_pixels_length|].
      unfold flatten_pixels. apply Forall_concat, Forall_fmap.
      eapply Forall_impl; [exact Hb|]. intros [[r g] b] (Br & Bg & Bb).
      cbn [fst snd] in *. repeat (constructor; [assumption|]). constructor.
    + apply iter_pixels_flatten.
  - intros Hn. destruct (Z.eqb_spec (Z.of_nat (3 * length pixels)) (w * h * 3));
      [unfold len in *; lia|done].
Qed.

Lemma from_pixels_iter_pixels_witness :
  (exists img, from_pixels 2 1 [(10, 20, 30); (40, 50, 60)] 255 = Ok img
               /\ well_formed img
               /\ iter_pixels img = Ok [(10, 20, 30); (40, 50, 60)])
  /\ from_pixels 3 1 [(10, 20, 30); (40, 50, 60)] 255 = Err ValueError.
Proof.
  assert (Forall byte_pixel [(10, 20, 30); (40, 50, 60)]) as Hb.
  { repeat constructor; cbn; unfold is_byte; lia. }
  split.
  - by apply (from_pixels_iter_pixels 2 1 255 _ Hb).
  - by apply (from_pixels_iter_pixels 3 1 255 _ Hb).
Defined.

(** * Further properties of the point operations *)

(** ** The loop of [_scalar_point_op] *)

(** When [func] and the clamp succeed on every sample, with a byte [g v] as
    the outcome for the sample [v], the loop writes [g] of each sample. *)
Lemma scalar_loop_map (image : ImageBuffer) (func : Z -> result Py.num)
  (g : Z -> Z) (l pre : list Z) :
  (forall v, v ∈ l ->
     exists fv, func v = Ok fv /\ clamp image fv = Ok (g v) /\ is_byte (g v)) ->
  forM (imap (fun i v => (Z.of_nat (length pre + i), v)) l)
    (fun '(i, value) nd => fv ← func value; c ← clamp image fv; bset nd i c)
    (pre ++ zeros (length l))
  = Ok (pre ++ (g <$> l)).
Proof.
  revert pre. induction l as [|v l IH]; intros pre Hf.
  - done.
  - destruct (Hf v ltac:(by left)) as (fv & Hfv & Hc & Hb).
    cbn [imap forM length zeros replicate]. rewrite Hfv. mstep. rewrite Hc. mstep.
    rewrite (bset_at _ (length pre + 0)); [| |done|done].
    2:{ rewrite length_app. cbn [length]. lia. }
    mstep. rewrite Nat.add_0_r, insert_app_r_alt, Nat.sub_diag by lia.
    cbn [insert list_insert].
    specialize (IH (pre ++ [g v])).
    rewrite <- !app_assoc in IH. cbn [app] in IH.
    cbn [fmap list_fmap]. rewrite <- IH.
    + apply (f_equal (fun xs => forM xs _ _)). apply imap_ext.
      intros i x _. cbn. rewrite length_app. cbn [length]. do 2 f_equal. lia.
    + intros x Hx. apply Hf. by right.
Qed.

Lemma scalar_point_op_map (image : ImageBuffer) (func : Z -> result Py.num)
  (g : Z -> Z) :
  (forall v, v ∈ data image ->
     exists fv, func v = Ok fv /\ clamp image fv = Ok (g v) /\ is_byte (g v)) ->
  _scalar_point_op image func
  = Ok (mkImage (width image) (height image) (max_value image) (g <$> data image)).
Proof.
  intros Hf. unfold _scalar_point_op.
  pose proof (scalar_loop_map image func g (data image) [] Hf) as H.
  cbn [length app Nat.add] in H. rewrite H. done.
Qed.

Lemma clamp_int (image : ImageBuffer) (x : Z) :
  clamp image (Py.Int x) = Ok (clamp_to (max_value image) x).
Proof. done. Qed.

Lemma int_ops_map (img : ImageBuffer) (k : Z) :
  max_value img <= 255 ->
  add_constant img (Py.Int k)
  = Ok (mkImage (width img) (height img) (max_value img)
          ((fun v => clamp_to (max_value img) (v + k)) <$> data img))
  /\ subtract_constant img (Py.Int k)
     = Ok (mkImage (width img) (height img) (max_value img)
             ((fun v => clamp_to (max_value img) (v - k)) <$> data img))
  /\ multiply img (Py.Int k)
     = Ok (mkImage (width img) (height img) (max_value img)
             ((fun v => clamp_to (max_value img) (v * k)) <$> data img)).
Proof.
  intros HM. repeat split;
    (apply scalar_point_op_map; intros v _; eexists; split; [reflexivity|];
     split; [apply clamp_int | by apply clamp_to_byte]).
Qed.

(** X8: with an integer constant, the point operations work sample by sample
    in exact integer arithmetic and saturate at 0 and [max_value]. *)
Theorem integer_point_operations_saturate (img : ImageBuffer) (k : Z) :
  max_value img <= 255 ->
  add_constant img (Py.Int k)
  = Ok (mkImage (width img) (height img) (max_value img)
          ((fun v => clamp_to (max_value img) (v + k)) <$> data img))
  /\ subtract_constant img (Py.Int k)
     = Ok (mkImage (width img) (height img) (max_value img)
             ((fun v => clamp_to (max_value img) (v - k)) <$> data img))
  /\ multiply img (Py.Int k)
     = Ok (mkImage (width img) (height img) (max_value img)
             ((fun v => clamp_to (max_value img) (v * k)) <$> data img)).
Proof. apply int_ops_map. Qed.

Lemma integer_point_operations_saturate_witness :
  add_constant (mkImage 1 1 255 [250; 0; 10]) (Py.Int 10)
  = Ok (mkImage 1 1 255 [255; 10; 20])
  /\ subtract_constant (mkImage 1 1 255 [250; 0; 10]) (Py.Int 10)
     = Ok (mkImage 1 1 255 [240; 0; 0])
  /\ multiply (mkImage 1 1 255 [250; 0; 10]) (Py.Int 10)
     = Ok (mkImage 1 1 255 [255; 0; 100]).
Proof.
  apply (integer_point_operations_saturate (mkImage 1 1 255 [250; 0; 10]) 10).
  cbn. lia.
Defined.

(** X9: adding an integer and subtracting it again gives the buffer back
    when no sample leaves [[0, max_value]] on the way. *)
Theorem add_then_subtract_restores (img : ImageBuffer) (k : Z) :
  max_value img <= 255 ->
  Forall (fun v => 0 <= v <= max_value img /\ 0 <= v + k <= max_value img)
    (data img) ->
  exists r, add_constant img (Py.Int k) = Ok r
            /\ subtract_constant r (Py.Int k) = Ok img.
Proof.
  intros HM Hd.
  destruct (int_ops_map img k HM) as (Ha & _ & _).
  eexists. split; [exact Ha|].
  match goal with |- subtract_constant ?r _ = _ =>
    destruct (int_ops_map r k HM) as (_ & Hs & _)
  end.
  rewrite Hs. cbn [width height max_value data]. destruct img as [w h m d].
  cbn [width height max_value data] in *. do 2 f_equal.
  rewrite <- list_fmap_compose. rewrite <- (list_fmap_id d) at 2.
  apply Forall_fmap_ext. eapply Forall_impl; [exact Hd|].
  intros v Hv. cbn in Hv |- *. unfold clamp_to. lia.
Qed.

Lemma add_then_subtract_restores_witness :
  exists r, add_constant (mkImage 1 1 255 [250; 0; 10]) (Py.Int 5) = Ok r
            /\ subtract_constant r (Py.Int 5) = Ok (mkImage 1 1 255 [250; 0; 10]).
Proof.
  apply (add_then_subtract_restores (mkImage 1 1 255 [250; 0; 10]) 5).
  - cbn. lia.
  - cbn. repeat (constructor; [lia|]). constructor.
Defined.

(** X10: two additions of integers of the same sign amount to one addition
    of their sum; the saturation of the first one does not show. *)
Theorem add_constant_twice (img : ImageBuffer) (k1 k2 : Z) :
  max_value img <= 255 ->
  Forall (fun v => 0 <= v <= max_value img) (data img) ->
  0 <= k1 * k2 ->
  exists r, add_constant img (Py.Int k1) = Ok r
            /\ add_constant r (Py.Int k2) = add_constant img (Py.Int (k1 + k2)).
Proof.
  intros HM Hd Hk.
  destruct (int_ops_map img k1 HM) as (Ha & _ & _).
  destruct (int_ops_map img (k1 + k2) HM) as (Hb & _ & _).
  eexists. split; [exact Ha|].
  match goal with |- add_constant ?r _ = _ =>
    destruct (int_ops_map r k2 HM) as (Hs & _ & _)
  end.
  rewrite Hs, Hb. cbn [width height max_value data]. do 2 f_equal.
  rewrite <- list_fmap_compose.
  apply Forall_fmap_ext. eapply Forall_impl; [exact Hd|].
  intros v Hv. cbn in Hv |- *. unfold clamp_to. nia.
Qed.

Lemma add_constant_twice_witness :
  exists r, add_constant (mkImage 1 1 255 [250; 0; 10]) (Py.Int 10) = Ok r
            /\ add_constant r (Py.Int 20)
               = add_constant (mkImage 1 1 255 [250; 0; 10]) (Py.Int (10 + 20)).
Proof.
  apply (add_constant_twice (mkImage 1 1 255 [250; 0; 10]) 10 20).
  - cbn. lia.
  - cbn. repeat (constructor; [lia|]). constructor.
  - lia.
Defined.

(** ** Neutral constants *)

Lemma SFmul_comm (x y : spec_float) : SF64mul x y = SF64mul y x.
Proof.
  destruct x as [sx|sx| |sx mx ex], y as [sy|sy| |sy my ey]; cbn [SF64mul SFmul];
    rewrite ?(Pos.mul_comm mx my), ?(Z.add_comm ex ey);
    try reflexivity; by destruct sx, sy.
Qed.

Lemma Z2F_mul_one_r (c : Z) : 0 <= c < 2 ^ 53 -> (Py.Z2F c * 1)%float = Py.Z2F c.
Proof.
  intros Hc. apply Prim2SF_inj.
  rewrite FloatAxioms.mul_spec, SFmul_comm, !Prim2SF_Z2F by lia.
  by apply SFmul_one_canon.
Qed.

Lemma Z2F_div_one (c : Z) : 0 <= c < 2 ^ 53 -> (Py.Z2F c / 1)%float = Py.Z2F c.
Proof.
  intros Hc. change 1%float with (Py.Z2F 1).
  rewrite <- (Z.mul_1_l c) at 1. apply Z2F_div; lia.
Qed.

Lemma scalar_point_op_id (img : ImageBuffer) (func : Z -> result Py.num) :
  max_value img <= 255 ->
  Forall (fun v => 0 <= v <= max_value img) (data img) ->
  (forall v, 0 <= v < 256 -> func v = Ok (Py.Int v) \/ func v = Ok (Py.Flt (Py.Z2F v))) ->
  _scalar_point_op img func = Ok img.
Proof.
  intros HM Hd Hf. rewrite (scalar_point_op_map img func id).
  - destruct img as [w h m d]. cbn [width height max_value data].
    by rewrite list_fmap_id.
  - intros v Hv. rewrite Forall_forall in Hd. specialize (Hd v Hv).
    unfold id, is_byte.
    destruct (Hf v ltac:(lia)) as [-> | ->]; eexists; (split; [reflexivity|]);
      (split; [|lia]).
    + rewrite clamp_int. unfold clamp_to. f_equal. lia.
    + apply clamp_Z2F; lia.
Qed.

(** X11: on a buffer whose samples lie in [[0, max_value]], adding 0 or 0.0,
    multiplying by 1 or 1.0 and dividing by 1 or 1.0 return the buffer
    unchanged; dividing by 0, 0.0 or -0.0 raises [ZeroDivisionError]. *)
Theorem neutral_constants_keep_buffer (img : ImageBuffer) :
  max_value img <= 255 ->
  Forall (fun v => 0 <= v <= max_value img) (data img) ->
  (add_constant img (Py.Int 0) = Ok img /\ add_constant img (Py.Flt 0) = Ok img)
  /\ (multiply img (Py.Int 1) = Ok img /\ multiply img (Py.Flt 1) = Ok img)
  /\ (divide img (Py.Int 1) = Ok img /\ divide img (Py.Flt 1) = Ok img)
  /\ (divide img (Py.Int 0) = Err ZeroDivisionError
      /\ divide img (Py.Flt 0) = Err ZeroDivisionError
      /\ divide img (Py.Flt (-0)) = Err ZeroDivisionError).
Proof.
  intros HM Hd.
  assert (2 ^ 8 < 2 ^ 53) as H53 by (apply Z.pow_lt_mono_r; lia).
  change (2 ^ 8) with 256 in H53.
  repeat split; try reflexivity.
  - apply scalar_point_op_id; [done..|]. intros v Hv. left. cbn. by rewrite Z.add_0_r.
  - apply scalar_point_op_id; [done..|]. intros v Hv. right.
    cbn [Py.add Py.to_float]. rewrite float_of_int_small by lia. mstep.
    by rewrite Z2F_add_zero by lia.
  - apply scalar_point_op_id; [done..|]. intros v Hv. left. cbn. by rewrite Z.mul_1_r.
  - apply scalar_point_op_id; [done..|]. intros v Hv. right.
    cbn [Py.mul Py.to_float]. rewrite float_of_int_small by lia. mstep.
    by rewrite Z2F_mul_one_r by lia.
  - unfold divide. cbn [Py.is_zero Z.eqb].
    apply scalar_point_op_id; [done..|]. intros v Hv. right.
    cbn [Py.truediv]. unfold Py.int_truediv. cbn [Z.eqb].
    destruct (Z.ltb_spec (Z.abs v) (2 ^ 53)) as [_|]; [|lia].
    destruct (Z.ltb_spec (Z.abs 1) (2 ^ 53)) as [_|]; [|lia].
    cbn [andb]. mstep. change (Py.Z2F 1) with 1%float.
    by rewrite Z2F_div_one by lia.
  - unfold divide. change (Py.is_zero (Py.Flt 1)) with false. cbv iota.
    apply scalar_point_op_id; [done..|]. intros v Hv. right.
    cbn [Py.truediv Py.to_float]. rewrite float_of_int_small by lia. mstep.
    change (1 =? 0)%float with false. cbv iota.
    by rewrite Z2F_div_one by lia.
Qed.

Lemma neutral_constants_keep_buffer_witness :
  (add_constant two_pixels (Py.Int 0) = Ok two_pixels
   /\ add_constant two_pixels (Py.Flt 0) = Ok two_pixels)
  /\ (multiply two_pixels (Py.Int 1) = Ok two_pixels
      /\ multiply two_pixels (Py.Flt 1) = Ok two_pixels)
  /\ (divide two_pixels (Py.Int 1) = Ok two_pixels
      /\ divide two_pixels (Py.Flt 1) = Ok two_pixels)
  /\ (divide two_pixels (Py.Int 0) = Err ZeroDivisionError
      /\ divide two_pixels (Py.Flt 0) = Err ZeroDivisionError
      /\ divide two_pixels (Py.Flt (-0)) = Err ZeroDivisionError).
Proof.
  apply (neutral_constants_keep_buffer two_pixels).
  - cbn. lia.
  - cbn. repeat (constructor; [lia|]). constructor.
Defined.

(** ** Operations on whole pixels *)

(** The pixels of a buffer, three values at a time. *)
Fixpoint pixels_of (d : list Z) : list Pixel :=
  match d with
  | r :: g :: b :: t => (r, g, b) :: pixels_of t
  | _ => []
  end.

Lemma pixels_of_flatten (ps : list Pixel) : pixels_of (flatten_pixels ps) = ps.
Proof.
  induction ps as [|[[r g] b] t IH]; [done|].
  change (flatten_pixels ((r, g, b) :: t)) with (r :: g :: b :: flatten_pixels t).
  cbn [pixels_of]. by rewrite IH.
Qed.

Lemma flatten_pixels_of (n : nat) (d : list Z) :
  length d = (3 * n)%nat -> flatten_pixels (pixels_of d) = d.
Proof.
  revert d. induction n as [|n IH]; intros d Hd.
  - destruct d; [done|cbn in Hd; lia].
  - destruct d as [|r [|g [|b t]]]; cbn [length] in Hd; try lia.
    cbn [pixels_of].
    change (flatten_pixels ((r, g, b) :: pixels_of t))
      with (r :: g :: b :: flatten_pixels (pixels_of t)).
    rewrite IH by lia. done.
Qed.

Lemma flatten_pixels_bytes (ps : list Pixel) :
  Forall byte_pixel ps -> Forall is_byte (flatten_pixels ps).
Proof.
  intros Hb. unfold flatten_pixels. apply Forall_concat, Forall_fmap.
  eapply Forall_impl; [exact Hb|]. intros [[r g] b] (Br & Bg & Bb).
  cbn [fst snd] in *. repeat (constructor; [assumption|]). constructor.
Qed.

Lemma pixels_of_bytes (n : nat) (d : list Z) :
  length d = (3 * n)%nat -> Forall is_byte d -> Forall byte_pixel (pixels_of d).
Proof.
  revert d. induction n as [|n IH]; intros d Hd Hb.
  - destruct d; [constructor|cbn in Hd; lia].
  - destruct d as [|r [|g [|b t]]]; cbn [length] in Hd; try lia.
    inversion Hb as [|? ? Br Hb1]; subst. inversion Hb1 as [|? ? Bg Hb2]; subst.
    inversion Hb2 as [|? ? Bb Hb3]; subst.
    cbn [pixels_of]. constructor; [done|]. apply IH; [lia|done].
Qed.

(** A well-formed buffer is the flattening of its pixels. *)
Lemma well_formed_pixels_of (img : ImageBuffer) :
  well_formed img ->
  data img = flatten_pixels (pixels_of (data img))
  /\ Forall byte_pixel (pixels_of (data img))
  /\ iter_pixels img = Ok (pixels_of (data img)).
Proof.
  intros Hwf. destruct (well_formed_pixels img Hwf) as [_ HL].
  destruct Hwf as [_ Hb].
  pose proof (flatten_pixels_of _ _ HL) as Hf.
  split; [done|]. split; [by eapply pixels_of_bytes|].
  destruct img as [w h m d]. cbn [data] in *.
  rewrite <- Hf at 1. apply iter_pixels_flatten.
Qed.

(** When [func] and the clamps succeed on every pixel, with the byte pixel
    [G p] as the outcome for the pixel [p], [apply_point_operation] writes
    [G] of each pixel. *)
Lemma apply_point_operation_map (img : ImageBuffer) (ps : list Pixel)
  (func : Z -> Z -> Z -> result (Py.num * Py.num * Py.num)) (G : Pixel -> Pixel) :
  data img = flatten_pixels ps ->
  (forall r g b, (r, g, b) ∈ ps ->
     exists x y z, func r g b = Ok (x, y, z)
       /\ clamp img x = Ok (G (r, g, b)).1.1
       /\ clamp img y = Ok (G (r, g, b)).1.2
       /\ clamp img z = Ok (G (r, g, b)).2
       /\ byte_pixel (G (r, g, b))) ->
  apply_point_operation img func
  = Ok (mkImage (width img) (height img) (max_value img)
          (flatten_pixels (G <$> ps))).
Proof.
  intros Hd Hf. unfold apply_point_operation. rewrite Hd.
  unfold len. rewrite flatten_pixels_length.
  replace (Z.of_nat (3 * length ps)) with (Z.of_nat (length ps) * 3) by lia.
  rewrite range_step3_pixels, Nat2Z.id.
  rewrite (pixel_loop_total (flatten_pixels (G <$> ps)) (length ps)); [done| | |].
  - by rewrite flatten_pixels_length, length_fmap.
  - by rewrite zeros_length.
  - intros k nd Hk Hnd.
    destruct (lookup_lt_is_Some_2 ps k Hk) as [[[r g] b] Hp].
    destruct (flatten_pixels_lookup ps k _ Hp) as (L0 & L1 & L2).
    cbn [fst snd] in L0, L1, L2.
    assert ((G <$> ps) !! k = Some (G (r, g, b))) as Hq
      by (by rewrite list_lookup_fmap, Hp).
    destruct (flatten_pixels_lookup (G <$> ps) k _ Hq) as (T0 & T1 & T2).
    rewrite (list_lookup_total_correct _ _ _ T0), (list_lookup_total_correct _ _ _ T1),
      (list_lookup_total_correct _ _ _ T2).
    destruct (Hf r g b) as (x & y & z & Hxyz & Cx & Cy & Cz & Bx & By & Bz).
    { by eapply list_elem_of_lookup_2. }
    rewrite (lget_at _ (3 * k) (0 + 3 * Z.of_nat k) _ L0) by lia. mstep.
    rewrite (lget_at _ (3 * k + 1) (0 + 3 * Z.of_nat k + 1) _ L1) by lia. mstep.
    rewrite (lget_at _ (3 * k + 2) (0 + 3 * Z.of_nat k + 2) _ L2) by lia. mstep.
    rewrite Hxyz. mstep. cbv beta iota. rewrite Cx. mstep.
    rewrite (bset_at nd (3 * k)) by (done || lia). mstep.
    rewrite Cy. mstep.
    rewrite (bset_at _ (3 * k + 1)) by (rewrite ?length_insert; done || lia). mstep.
    rewrite Cz. mstep.
    by rewrite (bset_at _ (3 * k + 2)) by (rewrite ?length_insert; done || lia).
Qed.

(** ** Grayscale conversions *)

Definition gray_pixel (m v : Z) : Pixel :=
  let c := clamp_to m v in (c, c, c).

(** [int((r + g + b) / 3)] is the integer quotient: the float division and
    the truncation lose nothing on the sums of three bytes. *)
Definition average_exact (s : Z) : bool :=
  match (q ← Py.int_truediv s 3; Py.int_of_float q) with
  | Ok v => v =? s / 3
  | Err _ => false
  end.

Lemma average_table : forallb average_exact (range 766) = true.
Proof. vm_compute. reflexivity. Qed.

Lemma average_of_bytes (r g b : Z) :
  is_byte r -> is_byte g -> is_byte b ->
  (q ← Py.int_truediv (r + g + b) 3; Py.int_of_float q) = Ok ((r + g + b) / 3).
Proof.
  unfold is_byte. intros Hr Hg Hb.
  pose proof average_table as Ht. rewrite forallb_forall in Ht.
  specialize (Ht (r + g + b)). unfold average_exact in Ht.
  destruct (q ← Py.int_truediv (r + g + b) 3; Py.int_of_float q) as [v|e].
  - f_equal. apply Z.eqb_eq, Ht, list_elem_of_In, elem_of_range. lia.
  - discriminate Ht. apply list_elem_of_In, elem_of_range. lia.
Qed.

Definition average_pixel (m : Z) (p : Pixel) : Pixel :=
  gray_pixel m ((p.1.1 + p.1.2 + p.2) / 3).

Lemma gray_pixel_byte (m v : Z) : 0 <= v < 256 -> byte_pixel (gray_pixel m v).
Proof. intros Hv. unfold byte_pixel, gray_pixel, is_byte, clamp_to. cbn. lia. Qed.

Lemma grayscale_average_map (img : ImageBuffer) (ps : list Pixel) :
  data img = flatten_pixels ps -> Forall byte_pixel ps ->
  grayscale_average img
  = Ok (mkImage (width img) (height img) (max_value img)
          (flatten_pixels (average_pixel (max_value img) <$> ps))).
Proof.
  intros Hd Hb. unfold grayscale_average.
  apply apply_point_operation_map; [done|].
  intros r g b Hp. rewrite Forall_forall in Hb.
  destruct (Hb _ Hp) as (Br & Bg & Bb). cbn [fst snd] in Br, Bg, Bb.
  pose proof (average_of_bytes r g b Br Bg Bb) as Ha.
  apply bind_Ok_inv in Ha as (q & Hq & Hv).
  rewrite Hq. mstep. rewrite Hv. mstep.
  eexists _, _, _. split; [reflexivity|].
  unfold average_pixel. cbn [fst snd]. rewrite !clamp_int.
  repeat split; try reflexivity;
    unfold is_byte, gray_pixel, clamp_to, is_byte in *; cbn [fst snd]; lia.
Qed.

(** X12: on a well-formed buffer [grayscale_average] succeeds, keeps the
    geometry, and turns each pixel [(r, g, b)] into a gray one whose three
    values are the integer quotient [(r + g + b) / 3], capped at
    [max_value]. *)
Theorem grayscale_average_pixels (img : ImageBuffer) :
  well_formed img ->
  exists r ps,
    grayscale_average img = Ok r
    /\ width r = width img /\ height r = height img
    /\ max_value r = max_value img /\ well_formed r
    /\ iter_pixels img = Ok ps
    /\ iter_pixels r = Ok (average_pixel (max_value img) <$> ps).
Proof.
  intros Hwf. destruct (well_formed_pixels_of img Hwf) as (Hd & Hb & Hit).
  eexists _, _. split; [by apply grayscale_average_map|].
  repeat split; cbn [width height max_value data]; try done.
  - unfold len. rewrite flatten_pixels_length, length_fmap.
    destruct Hwf as [Hl _]. rewrite Hd in Hl. unfold len in Hl.
    rewrite flatten_pixels_length in Hl. done.
  - apply flatten_pixels_bytes, Forall_fmap.
    eapply Forall_impl; [exact Hb|]. intros [[r g] b] (Br & Bg & Bb).
    cbn [fst snd] in *. unfold average_pixel. cbn [fst snd].
    apply gray_pixel_byte. cbn [fst snd]. unfold is_byte in *. lia.
  - apply iter_pixels_flatten.
Qed.

Lemma grayscale_average_pixels_witness :
  exists r ps,
    grayscale_average two_pixels = Ok r
    /\ width r = width two_pixels /\ height r = height two_pixels
    /\ max_value r = max_value two_pixels /\ well_formed r
    /\ iter_pixels two_pixels = Ok ps
    /\ iter_pixels r = Ok (average_pixel (max_value two_pixels) <$> ps).
Proof.
  apply (grayscale_average_pixels two_pixels). apply two_pixels_well_formed.
Defined.

(** X13: converting to gray by the average a second time changes nothing. *)
Theorem grayscale_average_idempotent (img r : ImageBuffer) :
  well_formed img ->
  grayscale_average img = Ok r -> grayscale_average r = Ok r.
Proof.
  intros Hwf Hr. destruct (well_formed_pixels_of img Hwf) as (Hd & Hb & _).
  rewrite (grayscale_average_map img _ Hd Hb) in Hr. injection Hr as <-.
  rewrite (grayscale_average_map _ (average_pixel (max_value img) <$> pixels_of (data img)));
    [|done|].
  - cbn [width height max_value data]. do 3 f_equal.
    rewrite <- list_fmap_compose. apply Forall_fmap_ext.
    eapply Forall_impl; [exact Hb|]. intros [[x y] z] (Bx & By & Bz).
    cbn [fst snd] in *. unfold is_byte in *.
    unfold compose, average_pixel, gray_pixel. cbn [fst snd].
    set (c := clamp_to (max_value img) ((x + y + z) / 3)).
    replace ((c + c + c) / 3) with c by lia.
    assert (clamp_to (max_value img) c = c) as ->; [|done].
    unfold c, clamp_to. lia.
  - apply Forall_fmap. eapply Forall_impl; [exact Hb|].
    intros [[x y] z] (Bx & By & Bz). cbn [fst snd] in *.
    unfold average_pixel. apply gray_pixel_byte. cbn [fst snd].
    unfold is_byte in *. lia.
Qed.

Lemma grayscale_average_idempotent_witness :
  grayscale_average (mkImage 1 1 255 [10; 20; 31]) = Ok (mkImage 1 1 255 [20; 20; 20])
  /\ grayscale_average (mkImage 1 1 255 [20; 20; 20]) = Ok (mkImage 1 1 255 [20; 20; 20]).
Proof.
  assert (grayscale_average (mkImage 1 1 255 [10; 20; 31])
          = Ok (mkImage 1 1 255 [20; 20; 20])) as H by (vm_compute; reflexivity).
  split; [exact H|].
  apply (grayscale_average_idempotent (mkImage 1 1 255 [10; 20; 31])); [|exact H].
  split; [reflexivity|]. cbn [data]. repeat constructor; unfold is_byte; lia.
Defined.

(** The luminance conversion, as a map on pixels. *)
Definition luminance_pixel (m : Z) (p : Pixel) : Pixel :=
  gray_pixel m (luminance_or_0 p.1.1 p.1.2 p.2).

Lemma grayscale_luminance_map (img : ImageBuffer) (ps : list Pixel) :
  data img = flatten_pixels ps -> Forall byte_pixel ps ->
  grayscale_luminance img
  = Ok (mkImage (width img) (height img) (max_value img)
          (flatten_pixels (luminance_pixel (max_value img) <$> ps))).
Proof.
  intros Hd Hb. unfold grayscale_luminance.
  apply apply_point_operation_map; [done|].
  intros r g b Hp. rewrite Forall_forall in Hb.
  destruct (Hb _ Hp) as (Br & Bg & Bb). cbn [fst snd] in Br, Bg, Bb.
  destruct (luminance_below_255 r g b Br Bg Bb) as (l & Hl & Hrange).
  rewrite Hl. mstep.
  eexists _, _, _. split; [reflexivity|].
  unfold luminance_pixel, luminance_or_0. cbn [fst snd]. rewrite Hl, !clamp_int.
  repeat split; try reflexivity;
    unfold is_byte, gray_pixel, clamp_to; cbn [fst snd]; lia.
Qed.

(** X14: on a well-formed buffer [grayscale_luminance] succeeds and makes
    every pixel gray, with the truncated weighted sum capped at [max_value]
    as its value; no sample of the result exceeds 254, so that white does
    not stay white. *)
Theorem grayscale_luminance_below_white (img : ImageBuffer) :
  well_formed img ->
  exists r ps,
    grayscale_luminance img = Ok r
    /\ width r = width img /\ height r = height img
    /\ max_value r = max_value img
    /\ len (data r) = width r * height r * 3
    /\ Forall (fun v => 0 <= v <= 254) (data r)
    /\ iter_pixels img = Ok ps
    /\ iter_pixels r = Ok (luminance_pixel (max_value img) <$> ps).
Proof.
  intros Hwf. destruct (well_formed_pixels_of img Hwf) as (Hd & Hb & Hit).
  eexists _, _. split; [by apply grayscale_luminance_map|].
  repeat split; cbn [width height max_value data]; try done.
  - unfold len. rewrite flatten_pixels_length, length_fmap.
    destruct Hwf as [Hl _]. rewrite Hd in Hl. unfold len in Hl.
    rewrite flatten_pixels_length in Hl. done.
  - unfold flatten_pixels. rewrite <- list_fmap_compose.
    apply Forall_concat, Forall_fmap.
    eapply Forall_impl; [exact Hb|]. intros [[r g] b] (Br & Bg & Bb).
    cbn [fst snd] in *.
    destruct (luminance_below_255 r g b Br Bg Bb) as (l & Hl & Hrange).
    unfold compose, luminance_pixel, luminance_or_0, gray_pixel. cbn [fst snd].
    rewrite Hl. unfold clamp_to.
    repeat (constructor; [lia|]). constructor.
  - apply iter_pixels_flatten.
Qed.

Lemma grayscale_luminance_below_white_witness :
  exists r ps,
    grayscale_luminance (mkImage 1 1 255 [255; 255; 255]) = Ok r
    /\ width r = 1 /\ height r = 1 /\ max_value r = 255
    /\ len (data r) = width r * height r * 3
    /\ Forall (fun v => 0 <= v <= 254) (data r)
    /\ iter_pixels (mkImage 1 1 255 [255; 255; 255]) = Ok ps
    /\ iter_pixels r = Ok (luminance_pixel 255 <$> ps).
Proof.
  apply (grayscale_luminance_below_white (mkImage 1 1 255 [255; 255; 255])).
  split; [reflexivity|]. cbn [data]. repeat constructor; unfold is_byte; lia.
Defined.

(** ** Scaling the three channels by the same factor *)

(** The pixel loop of [linear_color_scale] with one factor and the sample
    loop of [multiply] do the same writes in the same order, and stop at the
    same error. *)
Lemma linear_color_scale_loop (img : ImageBuffer) (s : Py.num) (ps : list Pixel) :
  forall (k : nat) (nd : list Z),
  (forall j p, ps !! j = Some p ->
     data img !! (3 * (k + j))%nat = Some p.1.1
     /\ data img !! (3 * (k + j) + 1)%nat = Some p.1.2
     /\ data img !! (3 * (k + j) + 2)%nat = Some p.2) ->
  forM ((fun j => 0 + 3 * Z.of_nat j) <$> seq k (length ps))
    (fun i nd =>
       r ← lget (data img) i; vr ← Py.mul (Py.Int r) s;
       cr ← clamp img vr; nd ← bset nd i cr;
       g ← lget (data img) (i + 1); vg ← Py.mul (Py.Int g) s;
       cg ← clamp img vg; nd ← bset nd (i + 1) cg;
       b ← lget (data img) (i + 2); vb ← Py.mul (Py.Int b) s;
       cb ← clamp img vb; bset nd (i + 2) cb)
    nd
  = forM (imap (fun i v => (Z.of_nat (3 * k + i), v)) (flatten_pixels ps))
      (fun '(i, value) nd =>
         fv ← Py.mul (Py.Int value) s; c ← clamp img fv; bset nd i c)
      nd.
Proof.
  induction ps as [|[[r g] b] t IH]; intros k nd Hp; [done|].
  destruct (Hp 0%nat (r, g, b) eq_refl) as (L0 & L1 & L2).
  rewrite Nat.add_0_r in L0, L1, L2. cbn [fst snd] in L0, L1, L2.
  change (flatten_pixels ((r, g, b) :: t)) with (r :: g :: b :: flatten_pixels t).
  cbn [length seq fmap list_fmap imap forM]. unfold compose. cbv beta iota.
  rewrite (lget_at _ (3 * k) (0 + 3 * Z.of_nat k) _ L0) by lia.
  rewrite (lget_at _ (3 * k + 1) (0 + 3 * Z.of_nat k + 1) _ L1) by lia.
  rewrite (lget_at _ (3 * k + 2) (0 + 3 * Z.of_nat k + 2) _ L2) by lia.
  replace (Z.of_nat (3 * k + 0)) with (0 + 3 * Z.of_nat k) by lia.
  replace (Z.of_nat (3 * k + 1)) with (0 + 3 * Z.of_nat k + 1) by lia.
  replace (Z.of_nat (3 * k + 2)) with (0 + 3 * Z.of_nat k + 2) by lia.
  mstep.
  destruct (Py.mul (Py.Int r) s) as [vr|e]; mstep; [|done].
  destruct (clamp img vr) as [cr|e]; mstep; [|done].
  destruct (bset nd (0 + 3 * Z.of_nat k) cr) as [nd1|e]; mstep; [|done].
  destruct (Py.mul (Py.Int g) s) as [vg|e]; mstep; [|done].
  destruct (clamp img vg) as [cg|e]; mstep; [|done].
  destruct (bset nd1 (0 + 3 * Z.of_nat k + 1) cg) as [nd2|e]; mstep; [|done].
  destruct (Py.mul (Py.Int b) s) as [vb|e]; mstep; [|done].
  destruct (clamp img vb) as [cb|e]; mstep; [|done].
  destruct (bset nd2 (0 + 3 * Z.of_nat k + 2) cb) as [nd3|e]; mstep; [|done].
  rewrite (IH (S k) nd3).
  - apply (f_equal (fun xs => forM xs _ _)). apply imap_ext.
    intros i x _. do 2 f_equal. lia.
  - intros j p Hj. specialize (Hp (S j) p Hj).
    by replace (S k + j)%nat with (k + S j)%nat by lia.
Qed.

(** X15: with the same factor for the three channels, [linear_color_scale]
    is [multiply]: the same buffer, or the same exception, whatever the
    factor. *)
Theorem linear_color_scale_same_factor (img : ImageBuffer) (s : Py.num) :
  len (data img) = width img * height img * 3 ->
  linear_color_scale img s s s = multiply img s.
Proof.
  intros Hl.
  assert (length (data img) = (3 * Z.to_nat (width img * height img))%nat) as HL
    by (unfold len in Hl; lia).
  pose proof (flatten_pixels_of _ _ HL) as Hf.
  unfold linear_color_scale, multiply, _scalar_point_op.
  rewrite Hl, range_step3_pixels.
  assert (length (pixels_of (data img)) = Z.to_nat (width img * height img)) as Hn.
  { apply (f_equal length) in Hf. rewrite flatten_pixels_length in Hf. lia. }
  rewrite <- Hn, (linear_color_scale_loop img s (pixels_of (data img)) 0).
  - by rewrite Hf.
  - intros j p Hj. rewrite Nat.add_0_l, <- Hf.
    by apply flatten_pixels_lookup.
Qed.

Lemma linear_color_scale_same_factor_witness :
  linear_color_scale two_pixels (Py.Flt 1.5) (Py.Flt 1.5) (Py.Flt 1.5)
  = multiply two_pixels (Py.Flt 1.5).
Proof.
  apply (linear_color_scale_same_factor two_pixels (Py.Flt 1.5)). reflexivity.
Defined.

(** * Further properties of the histograms *)

(** ** The bins add up to the number of pixels *)

Lemma zsum_app (a b : list Z) : zsum (a ++ b) = zsum a + zsum b.
Proof. unfold zsum. induction a as [|x a IH]; cbn; [done|]. rewrite IH. lia. Qed.

Lemma histogram_prefix_sum (samples hist : list Z) (k : nat) :
  is_histogram_of samples hist -> (k <= 256)%nat ->
  zsum (take k hist) = len (filter (fun l => 0 <= l < Z.of_nat k) samples).
Proof.
  intros [Hl Hh] Hk. induction k as [|k IH].
  - rewrite take_0. by rewrite filter_slice_empty by lia.
  - rewrite (take_S_r hist k (occ (Z.of_nat k) samples)) by (apply Hh; lia).
    rewrite zsum_app, IH by lia.
    replace (Z.of_nat (S k)) with (Z.of_nat k + 1) by lia.
    rewrite len_slice_step by lia. unfold zsum. cbn. lia.
Qed.

Lemma histogram_sum (samples hist : list Z) :
  is_histogram_of samples hist -> Forall is_byte samples ->
  zsum hist = len samples.
Proof.
  intros Hh Hb. pose proof Hh as [Hl _].
  rewrite <- (firstn_all hist), Hl, (histogram_prefix_sum samples) by (done || lia).
  change (Z.of_nat 256) with 256. by rewrite filter_all_bytes.
Qed.

Lemma pixel_luminances_count img :
  well_formed img -> len (pixel_luminances (data img)) = width img * height img.
Proof.
  intros Hwf. pose proof (well_formed_div3 img Hwf) as Hdiv.
  destruct (well_formed_pixels img Hwf) as [Hnn _].
  unfold len. rewrite pixel_luminances_length. lia.
Qed.

(** X16: on a well-formed buffer the histogram of a channel has 256 bins,
    bin [v] holds the number of samples of the channel equal to [v], and the
    bins add up to [width * height]. *)
Theorem compute_histogram_counts (img : ImageBuffer) (ch : Z) :
  well_formed img -> 0 <= ch < 3 ->
  exists hist,
    compute_histogram img ch = Ok hist
    /\ length hist = 256%nat
    /\ (forall v, 0 <= v < 256 ->
          hist !!! Z.to_nat v = occ v (channel_samples (data img) ch))
    /\ zsum hist = width img * height img.
Proof.
  intros Hwf Hch. destruct (well_formed_pixels img Hwf) as [_ HL].
  destruct (compute_histogram_spec img ch Hwf Hch) as (hist & Hhist & Hh).
  exists hist. split; [done|]. split; [by destruct Hh|]. split.
  - intros v Hv. by apply histogram_total.
  - rewrite (histogram_sum _ _ Hh), channel_samples_count; [done..|].
    destruct Hwf as [_ Hb]. apply channel_samples_bytes; [done|done|lia].
Qed.

Lemma compute_histogram_counts_witness :
  exists hist,
    compute_histogram two_pixels 0 = Ok hist
    /\ length hist = 256%nat
    /\ (forall v, 0 <= v < 256 ->
          hist !!! Z.to_nat v = occ v (channel_samples (data two_pixels) 0))
    /\ zsum hist = width two_pixels * height two_pixels.
Proof.
  apply (compute_histogram_counts two_pixels 0 two_pixels_well_formed). lia.
Defined.

Lemma pixel_luminances_below_255 (d : list Z) :
  Forall is_byte d -> (length d mod 3 = 0)%nat ->
  Forall (fun l => 0 <= l <= 254) (pixel_luminances d).
Proof.
  intros Hd Hm. apply Forall_lookup. intros k v Hk.
  pose proof (lookup_lt_Some _ _ _ Hk) as Hlt. rewrite pixel_luminances_length in Hlt.
  destruct (pixel_luminance_lookup d k Hd ltac:(lia))
    as (r & g & b & gray & Hr & Hg & Hb & Hgray & _ & Hl).
  assert (v = gray) as -> by congruence.
  rewrite Forall_lookup in Hd.
  destruct (luminance_below_255 r g b) as (z & Hz & Hrange); [by eapply Hd..|].
  assert (gray = z) by congruence. lia.
Qed.

Lemma occ_absent (v : Z) (l : list Z) : v ∉ l -> occ v l = 0.
Proof.
  intros Hv. pose proof (occ_nonneg v l) as H0.
  destruct (Z.eq_dec (occ v l) 0) as [|Hne]; [done|]. exfalso. apply Hv.
  apply occ_pos_iff. lia.
Qed.

(** X17: on a well-formed buffer the luminance histogram has 256 bins that
    count the pixels by [int(0.2126 * r + 0.7152 * g + 0.0722 * b)] and add
    up to [width * height]; bin 255 stays empty, also for white pixels. *)
Theorem compute_histogram_grayscale_counts (img : ImageBuffer) :
  well_formed img ->
  exists hist,
    compute_histogram_grayscale img = Ok hist
    /\ length hist = 256%nat
    /\ (forall v, 0 <= v < 256 ->
          hist !!! Z.to_nat v = occ v (pixel_luminances (data img)))
    /\ zsum hist = width img * height img
    /\ hist !!! 255%nat = 0.
Proof.
  intros Hwf. destruct (well_formed_pixels img Hwf) as [_ HL].
  destruct (compute_histogram_grayscale_spec img Hwf) as (hist & Hhist & Hh).
  pose proof Hwf as [_ Hb].
  exists hist. split; [done|]. split; [by destruct Hh|]. split; [|split].
  - intros v Hv. by apply histogram_total.
  - rewrite (histogram_sum _ _ Hh), pixel_luminances_count; [done..|].
    apply pixel_luminances_bytes; [done|lia].
  - change 255%nat with (Z.to_nat 255).
    rewrite (histogram_total _ _ 255 Hh) by lia. apply occ_absent.
    intros Hin. pose proof (pixel_luminances_below_255 (data img) Hb ltac:(lia)) as Hl.
    rewrite Forall_forall in Hl. specialize (Hl _ Hin). lia.
Qed.

Lemma compute_histogram_grayscale_counts_witness :
  exists hist,
    compute_histogram_grayscale two_pixels = Ok hist
    /\ length hist = 256%nat
    /\ (forall v, 0 <= v < 256 ->
          hist !!! Z.to_nat v = occ v (pixel_luminances (data two_pixels)))
    /\ zsum hist = width two_pixels * height two_pixels
    /\ hist !!! 255%nat = 0.
Proof.
  apply (compute_histogram_grayscale_counts two_pixels two_pixels_well_formed).
Defined.

(** ** A channel with a single intensity *)

Lemma no_samples_no_data (img : ImageBuffer) (ch : Z) :
  well_formed img -> channel_samples (data img) ch = [] -> data img = [].
Proof.
  intros Hwf He. pose proof (channel_samples_count img ch Hwf) as Hc.
  rewrite He in Hc. destruct (well_formed_pixels img Hwf) as [_ HL].
  apply length_zero_iff_nil. unfold len in Hc. cbn [length] in Hc. lia.
Qed.

Lemma stretch_no_data (w h m ch : Z) :
  0 <= ch < 3 -> _stretch_single_channel (mkImage w h m []) ch = Ok (mkImage w h m []).
Proof.
  intros Hch.
  assert (ch = 0 \/ ch = 1 \/ ch = 2) as [-> | [-> | ->]] by lia;
    vm_compute; reflexivity.
Qed.

(** X18: when all the samples of a channel have the same intensity, the
    stretch and the equalization of that channel return the buffer
    unchanged. *)
Theorem flat_channel_unchanged (img : ImageBuffer) (ch : Z) :
  well_formed img -> 0 <= ch < 3 ->
  (forall u v, u ∈ channel_samples (data img) ch ->
               v ∈ channel_samples (data img) ch -> u = v) ->
  _stretch_single_channel img ch = Ok img
  /\ _equalize_single_channel img ch = Ok img.
Proof.
  intros Hwf Hch Hflat. destruct (well_formed_pixels img Hwf) as [Hnn HL].
  pose proof Hwf as [Hlen Hbytes].
  assert (Forall is_byte (channel_samples (data img) ch)) as Hsb.
  { apply channel_samples_bytes; [done|done|lia]. }
  destruct (channel_samples (data img) ch) as [|s0 t] eqn:Es.
  { pose proof (no_samples_no_data img ch Hwf Es) as Hd. split.
    - destruct img as [w h m d]. cbn [data] in Hd. subst d.
      by apply stretch_no_data.
    - apply equalize_empty; [done..|]. rewrite Hd in Hlen. unfold len in Hlen.
      cbn [length] in Hlen. lia. }
  rewrite <- Es in *. split.
  - destruct (compute_histogram_spec img ch Hwf Hch) as (hist & Hhist & Hh).
    destruct (lowest_occupied _ _ Hh Hsb) as (mn & Hmn & Hlow & Bmn).
    destruct (highest_occupied _ _ Hh Hsb) as (mx & Hmx & Hhigh & Bmx).
    destruct Hlow as [[He _]|[Hlow _]]; [by rewrite Es in He|].
    destruct Hhigh as [[He _]|[Hhigh _]]; [by rewrite Es in He|].
    pose proof (Hflat mn mx Hlow Hhigh) as Heq.
    unfold _stretch_single_channel. rewrite Hhist. mstep. rewrite Hmn. mstep.
    rewrite Hmx. mstep. destruct (Z.leb_spec mx mn); [|lia].
    by rewrite copy_id.
  - assert (s0 ∈ channel_samples (data img) ch) as H0 by (rewrite Es; left).
    assert (width img * height img <> 0) as Hn.
    { pose proof (channel_samples_count img ch Hwf) as Hc. rewrite Es in Hc.
      unfold len in Hc. cbn [length] in Hc. lia. }
    destruct (equalize_unfold img ch s0 Hwf Hch Hn H0) as (cdf & _ & Heq).
    { intros x Hx. rewrite (Hflat s0 x H0 Hx). lia. }
    rewrite Heq. cbv zeta.
    rewrite cnt_le_all by (intros x Hx; rewrite (Hflat s0 x H0 Hx); lia).
    rewrite channel_samples_count by done.
    by destruct (Z.leb_spec (width img * height img) (width img * height img)); [|lia].
Qed.

Lemma flat_channel_unchanged_witness :
  _stretch_single_channel (mkImage 2 1 255 [7; 1; 2; 7; 3; 4]) 0
  = Ok (mkImage 2 1 255 [7; 1; 2; 7; 3; 4])
  /\ _equalize_single_channel (mkImage 2 1 255 [7; 1; 2; 7; 3; 4]) 0
     = Ok (mkImage 2 1 255 [7; 1; 2; 7; 3; 4]).
Proof.
  apply (flat_channel_unchanged (mkImage 2 1 255 [7; 1; 2; 7; 3; 4]) 0).
  - split; [reflexivity|]. cbn [data]. repeat constructor; unfold is_byte; lia.
  - lia.
  - assert (channel_samples (data (mkImage 2 1 255 [7; 1; 2; 7; 3; 4])) 0 = [7; 7])
      as -> by (vm_compute; reflexivity).
    intros u v Hu Hv.
    repeat match goal with
           | H : _ ∈ _ :: _ |- _ => apply elem_of_cons in H as [->|H]
           | H : _ ∈ [] |- _ => by apply elem_of_nil in H
           end; reflexivity.
Defined.

(** ** Equalization keeps the order of the intensities *)

(** X19: an equalization pass that returns a buffer returns the input in
    which every sample of the channel went through one table [g]; [g] does
    not reverse the order of two intensities of the channel, and the samples
    of the other two channels are the ones of the input. *)
Theorem equalization_keeps_order (img r : ImageBuffer) (ch : Z) :
  well_formed img -> 0 <= ch < 3 -> width img * height img < 2 ^ 53 ->
  _equalize_single_channel img ch = Ok r ->
  exists g : Z -> Z,
    r = mkImage (width img) (height img) (max_value img) (remap ch g (data img))
    /\ well_formed r
    /\ (forall u v, u ∈ channel_samples (data img) ch ->
                    v ∈ channel_samples (data img) ch -> u <= v -> g u <= g v)
    /\ (forall j old, data img !! j = Some old -> Z.of_nat j mod 3 <> ch ->
                      data r !! j = Some old).
Proof.
  intros Hwf Hch Hsize H1.
  destruct (well_formed_pixels img Hwf) as [Hnn HL]. pose proof Hwf as [Hlen Hbytes].
  assert (forall g : Z -> Z, forall j old,
            data img !! j = Some old -> Z.of_nat j mod 3 <> ch ->
            remap ch g (data img) !! j = Some old) as Hother.
  { intros g j old Hj Hne. rewrite remap_lookup, Hj. cbn.
    by rewrite decide_False by done. }
  assert (r = img ->
          exists g : Z -> Z,
            r = mkImage (width img) (height img) (max_value img) (remap ch g (data img))
            /\ well_formed r
            /\ (forall u v, u ∈ channel_samples (data img) ch ->
                  v ∈ channel_samples (data img) ch -> u <= v -> g u <= g v)
            /\ (forall j old, data img !! j = Some old -> Z.of_nat j mod 3 <> ch ->
                  data r !! j = Some old)) as Hsame.
  { intros ->. exists (fun u => u). split; [|split; [done|split; [done|done]]].
    rewrite remap_id by (done || lia). by destruct img. }
  destruct (decide (width img * height img = 0)) as [H0|Hn].
  { rewrite equalize_empty in H1 by done. injection H1 as <-. by apply Hsame. }
  set (s := channel_samples (data img) ch) in *.
  assert (s <> []) as Hne.
  { intros He. pose proof (channel_samples_count img ch Hwf) as Hc.
    fold s in Hc. rewrite He in Hc. unfold len in Hc. cbn [length] in Hc. lia. }
  destruct (list_least s Hne) as (mn & Hmn & Hlow).
  destruct (Z.le_gt_cases (width img * height img) (cnt_le mn s)) as [Hall|Hlt].
  { destruct (equalize_unfold img ch mn Hwf Hch Hn Hmn Hlow) as (cdf & _ & Heq).
    cbv zeta in Heq. fold s in Heq.
    destruct (Z.leb_spec (width img * height img) (cnt_le mn s)) as [_|]; [|lia].
    rewrite Heq in H1. injection H1 as <-. by apply Hsame. }
  assert (cnt_le mn s < width img * height img) as Hlt' by lia.
  destruct (equalize_pass_inv img ch mn r Hwf Hch Hn Hmn Hlow Hlt' H1)
    as (scale & lutv & Hscale & Hv & Hby & ->).
  fold s in Hscale, Hv, Hby.
  assert (Forall is_byte s) as Hsb.
  { apply channel_samples_bytes; [done|done|lia]. }
  rewrite Forall_forall in Hsb.
  exists (fun u => clamp_to (max_value img) (lutv u)).
  split; [done|]. split; [by apply equalized_well_formed|]. split.
  - intros u v Hu Hv' Huv. apply clamp_to_mono.
    pose proof (cnt_le_len v s) as Hcv.
    pose proof (channel_samples_count img ch Hwf) as Hcount. fold s in Hcount.
    apply (lut_value_mono (cnt_le u s) (cnt_le v s) (cnt_le mn s) scale).
    + split; apply cnt_le_mono; [by apply Hlow|done].
    + pose proof (cnt_le_lowest s mn Hmn Hlow) as [_ Hpos]. lia.
    + eapply int_truediv_sign; [|exact Hscale].
      pose proof (cnt_le_lowest s mn Hmn Hlow) as [_ Hpos]. lia.
    + apply Hv, Hsb, Hu.
    + apply Hv, Hsb, Hv'.
  - intros j old Hj Hm. cbn [equalized data]. by apply Hother.
Qed.

Lemma equalization_keeps_order_witness :
  exists g : Z -> Z,
    mkImage 3 1 255 [0; 0; 0; 127; 0; 0; 255; 0; 0]
    = mkImage (width red_0_1_4) (height red_0_1_4) (max_value red_0_1_4)
        (remap 0 g (data red_0_1_4))
    /\ well_formed (mkImage 3 1 255 [0; 0; 0; 127; 0; 0; 255; 0; 0])
    /\ (forall u v, u ∈ channel_samples (data red_0_1_4) 0 ->
                    v ∈ channel_samples (data red_0_1_4) 0 -> u <= v -> g u <= g v)
    /\ (forall j old, data red_0_1_4 !! j = Some old -> Z.of_nat j mod 3 <> 0 ->
          data (mkImage 3 1 255 [0; 0; 0; 127; 0; 0; 255; 0; 0]) !! j = Some old).
Proof.
  apply (equalization_keeps_order red_0_1_4 _ 0 red_0_1_4_well_formed).
  - lia.
  - reflexivity.
  - vm_compute. reflexivity.
Defined.

(** ** Histogram stretch keeps the order and starts at 0 *)

(** The level a sample [k] above the minimum is sent to, for a channel whose
    intensities span [d] levels. *)
Definition stretch_level (k d : Z) : Z :=
  match Py.int_of_float (stretch_float k d) with Ok v => v | Err _ => 0 end.

Definition stretch_steps (d k : nat) : bool :=
  (stretch_level (Z.of_nat k) (Z.of_nat d) <=? stretch_level (Z.of_nat (S k)) (Z.of_nat d))
  && (stretch_level 0 (Z.of_nat d) =? 0)
  && (254 <=? stretch_level (Z.of_nat d) (Z.of_nat d)).

Lemma stretch_steps_table :
  forallb (fun d => forallb (stretch_steps d) (seq 0 d)) (seq 1 255) = true.
Proof. vm_compute. reflexivity. Qed.

Lemma stretch_steps_ok (d k : Z) :
  1 <= d <= 255 -> 0 <= k < d -> stretch_steps (Z.to_nat d) (Z.to_nat k) = true.
Proof.
  intros Hd Hk.
  apply (forallb_dep_spec (fun d k => stretch_steps d k) (seq 1 255)
           (fun d => seq 0 d) stretch_steps_table); apply in_seq; lia.
Qed.

Lemma stretch_level_mono (d a b : Z) :
  1 <= d <= 255 -> 0 <= a <= b -> b <= d -> stretch_level a d <= stretch_level b d.
Proof.
  intros Hd Ha Hb. replace b with (a + Z.of_nat (Z.to_nat (b - a))) in * by lia.
  induction (Z.to_nat (b - a)) as [|n IH].
  - rewrite Z.add_0_r. lia.
  - specialize (IH ltac:(lia) ltac:(lia)).
    pose proof (stretch_steps_ok d (a + Z.of_nat n) Hd ltac:(lia)) as Hs.
    unfold stretch_steps in Hs. rewrite !Z2Nat.id in Hs by lia.
    apply andb_prop in Hs as [Hs _]. apply andb_prop in Hs as [Hs _].
    replace (Z.of_nat (S (Z.to_nat (a + Z.of_nat n)))) with (a + Z.of_nat (S n)) in Hs
      by lia.
    lia.
Qed.

Lemma stretch_level_ends (d : Z) :
  1 <= d <= 255 -> stretch_level 0 d = 0 /\ 254 <= stretch_level d d <= 255.
Proof.
  intros Hd. pose proof (stretch_steps_ok d 0 Hd ltac:(lia)) as Hs.
  unfold stretch_steps in Hs. rewrite !Z2Nat.id in Hs by lia.
  apply andb_prop in Hs as [Hs H254]. apply andb_prop in Hs as [_ H0].
  split; [lia|]. split; [lia|].
  destruct (stretch_level_byte d d Hd ltac:(lia)) as (v & Hv & Bv).
  unfold stretch_level. rewrite Hv. lia.
Qed.

(** The stretch of a channel whose lowest intensity [mn] is below its highest
    one [mx], as a remap of the channel. *)
Lemma stretch_remap (img : ImageBuffer) (ch mn mx : Z) :
  well_formed img -> 0 <= ch < 3 ->
  mn ∈ channel_samples (data img) ch -> mx ∈ channel_samples (data img) ch ->
  (forall v, v ∈ channel_samples (data img) ch -> mn <= v <= mx) ->
  mn < mx ->
  _stretch_single_channel img ch
  = Ok (mkImage (width img) (height img) (max_value img)
          (remap ch (fun old => clamp_to (max_value img)
                                  (stretch_level (old - mn) (mx - mn)))
             (data img))).
Proof.
  intros Hwf Hch Hmn_in Hmx_in Hbounds Hlt.
  destruct (well_formed_pixels img Hwf) as [Hn HL].
  pose proof Hwf as [Hlen Hbytes].
  destruct (compute_histogram_spec img ch Hwf Hch) as (hist & Hhist & Hh).
  assert (Forall is_byte (channel_samples (data img) ch)) as Hsb.
  { apply channel_samples_bytes; [done|done|lia]. }
  destruct (lowest_occupied _ _ Hh Hsb) as (mn' & Hmn & Hlow & Bmn).
  destruct (highest_occupied _ _ Hh Hsb) as (mx' & Hmx & Hhigh & Bmx).
  assert (mn' = mn) as ->.
  { destruct Hlow as [[He _]|[Hin Hl]]; [rewrite He in Hmn_in; by apply elem_of_nil in Hmn_in|].
    specialize (Hl mn Hmn_in). specialize (Hbounds mn' Hin). lia. }
  assert (mx' = mx) as ->.
  { destruct Hhigh as [[He _]|[Hin Hl]]; [rewrite He in Hmx_in; by apply elem_of_nil in Hmx_in|].
    specialize (Hl mx Hmx_in). specialize (Hbounds mx' Hin). lia. }
  unfold _stretch_single_channel. rewrite Hhist. mstep. rewrite Hmn. mstep.
  rewrite Hmx. mstep. destruct (Z.leb_spec mx mn); [lia|].
  rewrite int_truediv_small by lia. mstep.
  rewrite Hlen, range_step3_channel by done.
  set (n := Z.to_nat (width img * height img)) in *.
  set (level := fun old => clamp_to (max_value img) (stretch_level (old - mn) (mx - mn))).
  assert (forall k, (k < n)%nat ->
            exists old v, data img !! Z.to_nat (ch + 3 * Z.of_nat k) = Some old
              /\ 0 <= old < 256
              /\ Py.int_of_float (stretch_float (old - mn) (mx - mn)) = Ok v
              /\ 0 <= v <= 255 /\ level old = clamp_to (max_value img) v) as Hsample.
  { intros k Hk.
    destruct (sample_lookup (data img) ch k Hch Hbytes ltac:(lia))
      as (old & Hold & Bold & Hs).
    assert (old ∈ channel_samples (data img) ch) as Hin
      by (by eapply list_elem_of_lookup_2).
    destruct (stretch_level_byte (old - mn) (mx - mn)) as (v & Hv & Bv);
      [lia | specialize (Hbounds old Hin); lia |].
    exists old, v. repeat split; try done; try (unfold is_byte in Bold; lia).
    unfold level, stretch_level. by rewrite Hv. }
  destruct (forM_write_channel
    (fun i nd =>
       old_val ← lget (data img) i;
       new_val ← Py.int_of_float (Py.Z2F (old_val - mn) * (Py.Z2F 255 / Py.Z2F (mx - mn)))%float;
       c ← clamp img (Py.Int new_val); bset nd i c)
    (fun k => level (data img !!! Z.to_nat (ch + 3 * Z.of_nat k)))
    ch n (zeros (length (data img))) Hch) as (nd1 & Hnd1 & L1 & V1).
  - rewrite zeros_length. lia.
  - intros k d Hk Hd.
    destruct (Hsample k Hk) as (old & v & Hold & Bold & Hv & Bv & Hlv).
    rewrite lget_total by (unfold len; lia).
    rewrite (list_lookup_total_correct _ _ _ Hold). mstep.
    unfold stretch_float in Hv. rewrite Hv. mstep. by rewrite Hlv.
  - intros k Hk.
    destruct (Hsample k Hk) as (old & v & Hold & Bold & Hv & Bv & Hlv).
    rewrite (list_lookup_total_correct _ _ _ Hold), Hlv.
    unfold is_byte, clamp_to. lia.
  - rewrite Hnd1. mstep. rewrite zeros_length in L1.
    destruct (copy_other_channels_spec img ch nd1 Hwf Hch L1) as (nd2 & -> & L2 & V2).
    mstep. do 2 f_equal. apply list_eq. intros j. rewrite remap_lookup.
    destruct (decide (j < length (data img))%nat) as [Hj|Hj].
    + rewrite V2 by lia.
      destruct (lookup_lt_is_Some_2 (data img) j Hj) as [old Hold]. rewrite Hold. cbn.
      destruct (decide (Z.of_nat j mod 3 = ch)) as [Hm|Hm]; [|done].
      rewrite V1 by (rewrite zeros_length; lia). rewrite decide_True by done.
      replace (Z.to_nat (ch + 3 * Z.of_nat (j / 3))) with j by lia.
      by rewrite (list_lookup_total_correct _ _ _ Hold).
    + rewrite !lookup_ge_None_2 by lia. done.
Qed.

(** X20: when the lowest intensity [mn] of a channel is below its highest
    one [mx], the stretch sends every sample of the channel through one
    table that keeps the order of the intensities, sends [mn] to 0 and, when
    [max_value] is at least 255, sends [mx] to 254 or 255; the other two
    channels are unchanged. *)
Theorem stretch_keeps_order (img : ImageBuffer) (ch mn mx : Z) :
  well_formed img -> 0 <= ch < 3 ->
  mn ∈ channel_samples (data img) ch -> mx ∈ channel_samples (data img) ch ->
  (forall v, v ∈ channel_samples (data img) ch -> mn <= v <= mx) ->
  mn < mx ->
  exists g : Z -> Z,
    _stretch_single_channel img ch
    = Ok (mkImage (width img) (height img) (max_value img) (remap ch g (data img)))
    /\ (forall u v, u ∈ channel_samples (data img) ch ->
                    v ∈ channel_samples (data img) ch -> u <= v -> g u <= g v)
    /\ g mn = 0
    /\ (255 <= max_value img -> 254 <= g mx <= 255)
    /\ (forall j old, data img !! j = Some old -> Z.of_nat j mod 3 <> ch ->
                      remap ch g (data img) !! j = Some old).
Proof.
  intros Hwf Hch Hmn Hmx Hbounds Hlt.
  destruct (well_formed_pixels img Hwf) as [Hn HL]. pose proof Hwf as [_ Hbytes].
  assert (Forall is_byte (channel_samples (data img) ch)) as Hsb.
  { apply channel_samples_bytes; [done|done|lia]. }
  rewrite Forall_forall in Hsb.
  pose proof (Hsb mn Hmn) as Bmn. pose proof (Hsb mx Hmx) as Bmx.
  unfold is_byte in Bmn, Bmx.
  eexists. split; [by apply (stretch_remap img ch mn mx)|].
  cbv beta. split; [|split; [|split]].
  - intros u v Hu Hv Huv. apply clamp_to_mono.
    pose proof (Hbounds u Hu). pose proof (Hbounds v Hv).
    apply stretch_level_mono; lia.
  - rewrite Z.sub_diag. destruct (stretch_level_ends (mx - mn)) as [-> _]; [lia|].
    unfold clamp_to. lia.
  - intros HM. destruct (stretch_level_ends (mx - mn)) as [_ Htop]; [lia|].
    unfold clamp_to. lia.
  - intros j old Hj Hne. rewrite remap_lookup, Hj. cbn.
    by rewrite decide_False by done.
Qed.

Lemma stretch_keeps_order_witness :
  exists g : Z -> Z,
    _stretch_single_channel red_0_1_4 0
    = Ok (mkImage (width red_0_1_4) (height red_0_1_4) (max_value red_0_1_4)
            (remap 0 g (data red_0_1_4)))
    /\ (forall u v, u ∈ channel_samples (data red_0_1_4) 0 ->
                    v ∈ channel_samples (data red_0_1_4) 0 -> u <= v -> g u <= g v)
    /\ g 0 = 0
    /\ (255 <= max_value red_0_1_4 -> 254 <= g 4 <= 255)
    /\ (forall j old, data red_0_1_4 !! j = Some old -> Z.of_nat j mod 3 <> 0 ->
                      remap 0 g (data red_0_1_4) !! j = Some old).
Proof.
  assert (channel_samples (data red_0_1_4) 0 = [0; 1; 4]) as Hs
    by (vm_compute; reflexivity).
  apply (stretch_keeps_order red_0_1_4 0 0 4 red_0_1_4_well_formed).
  - lia.
  - rewrite Hs. by left.
  - rewrite Hs. right. right. by left.
  - rewrite Hs. intros v Hv.
    repeat match goal with
           | H : _ ∈ _ :: _ |- _ => apply elem_of_cons in H as [->|H]
           | H : _ ∈ [] |- _ => by apply elem_of_nil in H
           end; lia.
  - lia.
Defined.

(** * Further properties of the spatial filters *)

(** Two nested loops over the rows and the columns that write the three
    values of each pixel of [tgt] in turn end with [tgt]. *)
Lemma grid_loop_total (tgt : list Z) (w h : Z)
  (body : Z -> Z -> list Z -> result (list Z)) (nd0 : list Z) :
  0 <= w -> 0 <= h ->
  length tgt = (3 * Z.to_nat (w * h))%nat -> length nd0 = length tgt ->
  (forall (x y : Z) (p : nat) (nd : list Z),
     0 <= x < w -> 0 <= y < h -> Z.of_nat p = y * w + x ->
     length nd = length tgt ->
     body x y nd
     = Ok (<[(3 * p + 2)%nat := tgt !!! (3 * p + 2)%nat]>
             (<[(3 * p + 1)%nat := tgt !!! (3 * p + 1)%nat]>
                (<[(3 * p)%nat := tgt !!! (3 * p)%nat]> nd)))) ->
  forM (range h) (fun y nd => forM (range w) (fun x nd => body x y nd) nd) nd0
  = Ok tgt.
Proof.
  intros Hw Hh Ht H0 Hbody.
  assert (Z.to_nat (w * h) = (Z.to_nat h * Z.to_nat w)%nat) as Hwh.
  { rewrite Z.mul_comm. apply Z2Nat.inj_mul; lia. }
  unfold range at 1.
  destruct (forM_seq_total
    (fun k nd => agrees_upto tgt (k * Z.to_nat w) nd) (fun k => Z.of_nat k)
    (fun y nd => forM (range w) (fun x nd => body x y nd) nd)
    0 (Z.to_nat h) nd0) as (nd & Hnd & Hl & Hag).
  - split; [done|]. intros i Hi. lia.
  - intros k nd Hk Hag. unfold range.
    destruct (forM_seq_total
      (fun k' nd => agrees_upto tgt (k * Z.to_nat w + k') nd) (fun k' => Z.of_nat k')
      (fun x nd => body x (Z.of_nat k) nd)
      0 (Z.to_nat w) nd) as (nd' & Hnd' & Hag').
    + by rewrite Nat.add_0_r.
    + intros k' t Hk' Hag'. pose proof Hag' as [Hlt _].
      assert (k * Z.to_nat w + k' < Z.to_nat (w * h))%nat as Hp by (rewrite Hwh; nia).
      rewrite (Hbody _ _ (k * Z.to_nat w + k')%nat) by (done || lia).
      eexists. split; [reflexivity|].
      replace (k * Z.to_nat w + S k')%nat with (S (k * Z.to_nat w + k')) by lia.
      apply agrees_step; [done| | |]; apply list_lookup_lookup_total_lt; lia.
    + exists nd'. split; [exact Hnd'|].
      by replace (S k * Z.to_nat w)%nat with (k * Z.to_nat w + Z.to_nat w)%nat by lia.
  - rewrite Hnd. f_equal. apply list_eq. intros i.
    destruct (decide (i < length tgt)%nat) as [Hi|Hi].
    + apply Hag. lia.
    + by rewrite !lookup_ge_None_2 by lia.
Qed.

(** ** The median filter *)

(** The pixels of the window around [(x, y)], row by row, with the
    coordinates clamped to the image. *)
Definition window (w h radius x y : Z) : list nat :=
  ky ← range_from (- radius) (radius + 1);
  kx ← range_from (- radius) (radius + 1);
  [Z.to_nat (_clamp (y + ky) 0 (h - 1) * w + _clamp (x + kx) 0 (w - 1))].

Definition chan (src : list Z) (c : nat) (p : nat) : Z := src !!! (3 * p + c)%nat.

Lemma window_in_image (w h radius x y : Z) (p : nat) :
  0 < w -> 0 < h -> p ∈ window w h radius x y -> (p < Z.to_nat (w * h))%nat.
Proof.
  intros Hw Hh Hp. unfold window in Hp.
  apply list_elem_of_bind in Hp as (ky & Hp & _).
  apply list_elem_of_bind in Hp as (kx & Hp & _).
  apply list_elem_of_singleton in Hp as ->.
  unfold _clamp. nia.
Qed.

Lemma window_length (w h radius x y : Z) :
  0 <= radius -> (0 < length (window w h radius x y))%nat.
Proof.
  intros Hr. unfold window, range_from.
  replace (Z.to_nat (radius + 1 - - radius)) with (S (Z.to_nat (2 * radius))) by lia.
  cbn [seq fmap list_fmap mbind list_bind]. rewrite <- app_assoc.
  cbn [app length]. lia.
Qed.

Lemma window_radius_zero (w h x y : Z) :
  0 <= x < w -> 0 <= y < h -> window w h 0 x y = [Z.to_nat (y * w + x)].
Proof.
  intros Hx Hy. unfold window. change (range_from (- 0) (0 + 1)) with [0].
  cbn [mbind list_bind app]. unfold _clamp.
  replace (Z.max 0 (Z.min (h - 1) (y + 0))) with y by lia.
  by replace (Z.max 0 (Z.min (w - 1) (x + 0))) with x by lia.
Qed.

Lemma chan_lget (src : list Z) (w h : Z) (c : nat) (p : Z) :
  length src = (3 * Z.to_nat (w * h))%nat -> 0 <= p < w * h -> (c < 3)%nat ->
  lget src (p * 3 + Z.of_nat c) = Ok (chan src c (Z.to_nat p)).
Proof.
  intros Hl Hp Hc. rewrite lget_total by (unfold len; lia). unfold chan.
  do 2 f_equal. lia.
Qed.

(** The inner loop over [kx] appends the samples of one row of the window. *)
Lemma neighbours_row (src : list Z) (w h x y ky : Z) (kxs : list Z) :
  0 < w -> 0 < h -> length src = (3 * Z.to_nat (w * h))%nat ->
  forall nr ng nb : list Z,
  forM kxs
    (fun kx '(nr, ng, nb) =>
       let nx := _clamp (x + kx) 0 (w - 1) in
       let ny := _clamp (y + ky) 0 (h - 1) in
       let idx := (ny * w + nx) * 3 in
       r ← lget src idx; g ← lget src (idx + 1); b ← lget src (idx + 2);
       Ok (nr ++ [r], ng ++ [g], nb ++ [b]))
    (nr, ng, nb)
  = let ps := kx ← kxs;
              [Z.to_nat (_clamp (y + ky) 0 (h - 1) * w + _clamp (x + kx) 0 (w - 1))] in
    Ok (nr ++ (chan src 0 <$> ps), ng ++ (chan src 1 <$> ps),
        nb ++ (chan src 2 <$> ps)).
Proof.
  intros Hw Hh Hl. induction kxs as [|kx kxs IH]; intros nr ng nb.
  - cbn. by rewrite !app_nil_r.
  - cbn [forM mbind list_bind app fmap list_fmap]. cbv zeta.
    set (p := _clamp (y + ky) 0 (h - 1) * w + _clamp (x + kx) 0 (w - 1)).
    assert (0 <= p < w * h) as Hp by (unfold p, _clamp; nia).
    pose proof (chan_lget src w h 0 p Hl Hp ltac:(lia)) as L0.
    pose proof (chan_lget src w h 1 p Hl Hp ltac:(lia)) as L1.
    pose proof (chan_lget src w h 2 p Hl Hp ltac:(lia)) as L2.
    change (Z.of_nat 0) with 0 in L0. rewrite Z.add_0_r in L0.
    change (Z.of_nat 1) with 1 in L1. change (Z.of_nat 2) with 2 in L2.
    rewrite L0. mstep. rewrite L1. mstep. rewrite L2. mstep.
    rewrite IH. cbv zeta. by rewrite <- !app_assoc.
Qed.

(** The two loops over [ky] and [kx] collect the samples of the window. *)
Lemma neighbours_window (src : list Z) (w h x y : Z) (kys kxs : list Z) :
  0 < w -> 0 < h -> length src = (3 * Z.to_nat (w * h))%nat ->
  forall nr ng nb : list Z,
  forM kys
    (fun ky ns =>
       forM kxs
         (fun kx '(nr, ng, nb) =>
            let nx := _clamp (x + kx) 0 (w - 1) in
            let ny := _clamp (y + ky) 0 (h - 1) in
            let idx := (ny * w + nx) * 3 in
            r ← lget src idx; g ← lget src (idx + 1); b ← lget src (idx + 2);
            Ok (nr ++ [r], ng ++ [g], nb ++ [b]))
         ns)
    (nr, ng, nb)
  = let ps := ky ← kys; kx ← kxs;
              [Z.to_nat (_clamp (y + ky) 0 (h - 1) * w + _clamp (x + kx) 0 (w - 1))] in
    Ok (nr ++ (chan src 0 <$> ps), ng ++ (chan src 1 <$> ps),
        nb ++ (chan src 2 <$> ps)).
Proof.
  intros Hw Hh Hl. induction kys as [|ky kys IH]; intros nr ng nb.
  - cbn. by rewrite !app_nil_r.
  - cbn [forM]. rewrite (neighbours_row src w h x y ky kxs Hw Hh Hl). cbv zeta. mstep.
    rewrite IH. cbv zeta. cbn [mbind list_bind]. by rewrite !fmap_app, <- !app_assoc.
Qed.

Lemma py_sort_length (l : list Z) : length (py_sort l) = length l.
Proof. unfold py_sort. apply Permutation_length, merge_sort_Permutation. Qed.

Lemma py_sort_elem (l : list Z) (v : Z) : v ∈ py_sort l <-> v ∈ l.
Proof. unfold py_sort. by rewrite merge_sort_Permutation. Qed.

(** The middle element of the sorted window. *)
Definition middle (l : list Z) : Z :=
  py_sort l !!! Z.to_nat (len (py_sort l) / 2).

Lemma middle_lget (l : list Z) :
  l <> [] -> lget (py_sort l) (len (py_sort l) / 2) = Ok (middle l) /\ middle l ∈ l.
Proof.
  intros Hne. pose proof (py_sort_length l) as Hl.
  assert (0 < length l)%nat as Hpos by (destruct l; [done|cbn; lia]).
  assert (0 <= len (py_sort l) / 2 < len (py_sort l)) as Hi by (unfold len; lia).
  split; [by apply lget_total|].
  apply py_sort_elem. unfold middle. apply list_elem_of_lookup_total_2.
  unfold len in *. lia.
Qed.

(** The pixel the median filter computes at the pixel number [p]. *)
Definition median_pixel (src : list Z) (w h radius : Z) (p : nat) : Pixel :=
  let win := window w h radius (Z.of_nat p mod w) (Z.of_nat p / w) in
  (middle (chan src 0 <$> win), middle (chan src 1 <$> win),
   middle (chan src 2 <$> win)).

Definition median_data (src : list Z) (w h radius : Z) : list Z :=
  flatten_pixels (median_pixel src w h radius <$> seq 0 (Z.to_nat (w * h))).

Lemma chan_window_elem (src : list Z) (w h radius x y : Z) (c : nat) (v : Z) :
  0 < w -> 0 < h -> length src = (3 * Z.to_nat (w * h))%nat -> (c < 3)%nat ->
  v ∈ chan src c <$> window w h radius x y ->
  exists p, (p < Z.to_nat (w * h))%nat /\ src !! (3 * p + c)%nat = Some v.
Proof.
  intros Hw Hh Hl Hc Hv. apply list_elem_of_fmap in Hv as (p & -> & Hp).
  apply window_in_image in Hp; [|done..]. exists p. split; [done|].
  unfold chan. apply list_lookup_lookup_total_lt. lia.
Qed.

Lemma middle_window (src : list Z) (w h radius x y : Z) (c : nat) :
  0 < w -> 0 < h -> length src = (3 * Z.to_nat (w * h))%nat -> (c < 3)%nat ->
  0 <= radius ->
  let l := chan src c <$> window w h radius x y in
  lget (py_sort l) (len (py_sort l) / 2) = Ok (middle l)
  /\ exists p, (p < Z.to_nat (w * h))%nat /\ src !! (3 * p + c)%nat = Some (middle l).
Proof.
  intros Hw Hh Hl Hc Hr l.
  destruct (middle_lget l) as [Hg Hin].
  { intros He. apply (f_equal length) in He. unfold l in He.
    rewrite length_fmap in He. pose proof (window_length w h radius x y Hr).
    cbn [length] in He. lia. }
  split; [done|]. by eapply chan_window_elem.
Qed.

Lemma median_filter_total (img : ImageBuffer) (size : Z) :
  well_formed img -> 0 <= width img -> 0 <= height img -> 0 <= size ->
  median_filter img size
  = Ok (mkImage (width img) (height img) (max_value img)
          (median_data (data img) (width img) (height img) (size / 2))).
Proof.
  intros Hwf Hw Hh Hs. destruct (well_formed_pixels img Hwf) as [_ HL].
  destruct Hwf as [_ Hbytes]. unfold median_filter. cbv zeta.
  set (w := width img) in *. set (h := height img) in *.
  set (src := data img) in *. set (radius := size / 2).
  assert (0 <= radius) as Hr by (unfold radius; lia).
  rewrite (grid_loop_total (median_data src w h radius) w h); [done|done|done| | |].
  - unfold median_data. by rewrite flatten_pixels_length, length_fmap, length_seq.
  - unfold median_data.
    by rewrite zeros_length, flatten_pixels_length, length_fmap, length_seq.
  - intros x y p nd Hx Hy Hp Hnd.
    assert (length nd = (3 * Z.to_nat (w * h))%nat) as Hnd'.
    { rewrite Hnd. unfold median_data.
      by rewrite flatten_pixels_length, length_fmap, length_seq. }
    assert (p < Z.to_nat (w * h))%nat as Hpl by nia.
    rewrite (neighbours_window src w h x y) by (done || lia). cbv zeta. mstep.
    cbn [app]. fold (window w h radius x y).
    assert (Z.of_nat p mod w = x /\ Z.of_nat p / w = y) as [Hxm Hyd].
    { rewrite Hp. split.
      - rewrite Z.add_comm, Z.mod_add by lia. apply Z.mod_small. lia.
      - rewrite Z.add_comm, Z.div_add by lia. rewrite Z.div_small by lia. lia. }
    assert ((median_pixel src w h radius <$> seq 0 (Z.to_nat (w * h))) !! p
            = Some (median_pixel src w h radius p)) as Hq.
    { by rewrite list_lookup_fmap, lookup_seq_lt by done. }
    destruct (flatten_pixels_lookup _ p _ Hq) as (T0 & T1 & T2).
    fold (median_data src w h radius) in T0, T1, T2.
    rewrite (list_lookup_total_correct _ _ _ T0), (list_lookup_total_correct _ _ _ T1),
      (list_lookup_total_correct _ _ _ T2).
    unfold median_pixel. cbv zeta. cbn [fst snd]. rewrite Hxm, Hyd.
    destruct (middle_window src w h radius x y 0) as (G0 & p0 & Hp0 & V0);
      [lia|lia|done|lia|done|].
    destruct (middle_window src w h radius x y 1) as (G1 & p1 & Hp1 & V1);
      [lia|lia|done|lia|done|].
    destruct (middle_window src w h radius x y 2) as (G2 & p2 & Hp2 & V2);
      [lia|lia|done|lia|done|].
    cbv zeta in G0, G1, G2, V0, V1, V2.
    assert (forall c : nat,
              len (py_sort (chan src c <$> window w h radius x y))
              = len (py_sort (chan src 0 <$> window w h radius x y))) as Hsame.
    { intros c. unfold len. by rewrite !py_sort_length, !length_fmap. }
    rewrite (Hsame 1%nat) in G1. rewrite (Hsame 2%nat) in G2.
    rewrite Forall_lookup in Hbytes.
    rewrite G0. mstep.
    rewrite (bset_at nd (3 * p)) by (done || lia || by eapply Hbytes). mstep.
    rewrite G1. mstep.
    rewrite (bset_at _ (3 * p + 1))
      by (rewrite ?length_insert; done || lia || by eapply Hbytes). mstep.
    rewrite G2. mstep.
    by rewrite (bset_at _ (3 * p + 2))
      by (rewrite ?length_insert; done || lia || by eapply Hbytes).
Qed.

Lemma flatten_pixels_eq (src : list Z) (n : nat) (f : nat -> Pixel) :
  length src = (3 * n)%nat ->
  (forall p, (p < n)%nat ->
     f p = (src !!! (3 * p)%nat, src !!! (3 * p + 1)%nat, src !!! (3 * p + 2)%nat)) ->
  flatten_pixels (f <$> seq 0 n) = src.
Proof.
  intros Hl Hf. apply list_eq. intros i.
  destruct (decide (i < 3 * n)%nat) as [Hi|Hi].
  - assert ((f <$> seq 0 n) !! (i / 3)%nat = Some (f (i / 3)%nat)) as Hq.
    { rewrite list_lookup_fmap, lookup_seq_lt; [done|]. lia. }
    destruct (flatten_pixels_lookup _ _ _ Hq) as (T0 & T1 & T2).
    rewrite Hf in T0, T1, T2 by lia. cbn [fst snd] in T0, T1, T2.
    assert (i = 3 * (i / 3) \/ i = 3 * (i / 3) + 1 \/ i = 3 * (i / 3) + 2)%nat
      as [Hc | [Hc | Hc]] by lia; rewrite Hc at 1 2.
    + rewrite T0. symmetry. apply list_lookup_lookup_total_lt. lia.
    + rewrite T1. symmetry. apply list_lookup_lookup_total_lt. lia.
    + rewrite T2. symmetry. apply list_lookup_lookup_total_lt. lia.
  - rewrite !lookup_ge_None_2; [done|lia|].
    rewrite flatten_pixels_length, length_fmap, length_seq. lia.
Qed.

Lemma pixel_coordinates (w h : Z) (p : nat) :
  0 <= w -> (p < Z.to_nat (w * h))%nat ->
  0 < w /\ 0 <= Z.of_nat p mod w < w /\ 0 <= Z.of_nat p / w < h
  /\ Z.of_nat p / w * w + Z.of_nat p mod w = Z.of_nat p.
Proof.
  intros Hw Hp. assert (0 < w * h) as Hwh by lia.
  assert (0 < w) as Hw'.
  { destruct (Z.eq_dec w 0) as [->|]; lia. }
  pose proof (Z.mod_pos_bound (Z.of_nat p) w Hw') as Hm.
  pose proof (Z.div_mod (Z.of_nat p) w ltac:(lia)) as Hdm.
  assert (0 <= Z.of_nat p / w) as Hq0 by (apply Z.div_pos; lia).
  assert (Z.of_nat p / w < h) as Hq1 by (apply Z.div_lt_upper_bound; lia).
  split; [done|]. split; [done|]. split; [done|].
  rewrite Hdm at 3. lia.
Qed.

(** X21: on a well-formed buffer the median filter of any size [>= 0]
    succeeds, keeps the geometry, and every sample it writes is a sample of
    the same channel of the input: it never makes up an intensity. *)
Theorem median_filter_picks_samples (img : ImageBuffer) (size : Z) :
  well_formed img -> 0 <= width img -> 0 <= height img -> 0 <= size ->
  exists r,
    median_filter img size = Ok r
    /\ width r = width img /\ height r = height img /\ max_value r = max_value img
    /\ well_formed r
    /\ forall j v, data r !! j = Some v ->
                   v ∈ channel_samples (data img) (Z.of_nat j mod 3).
Proof.
  intros Hwf Hw Hh Hs. destruct (well_formed_pixels img Hwf) as [_ HL].
  pose proof Hwf as [Hlen Hbytes].
  eexists. split; [by apply median_filter_total|].
  cbn [width height max_value data].
  assert (length (median_data (data img) (width img) (height img) (size / 2))
          = length (data img)) as Hlm.
  { unfold median_data. by rewrite flatten_pixels_length, length_fmap, length_seq. }
  assert (forall j v,
            median_data (data img) (width img) (height img) (size / 2) !! j = Some v ->
            v ∈ channel_samples (data img) (Z.of_nat j mod 3)) as Hpick.
  { intros j v Hj. pose proof (lookup_lt_Some _ _ _ Hj) as Hjl. rewrite Hlm in Hjl.
    assert (j / 3 < Z.to_nat (width img * height img))%nat as Hp by lia.
    destruct (pixel_coordinates _ _ _ Hw Hp) as (Hw' & Hx & Hy & _).
    assert (0 < height img) as Hh' by nia.
    assert ((median_pixel (data img) (width img) (height img) (size / 2)
               <$> seq 0 (Z.to_nat (width img * height img))) !! (j / 3)%nat
            = Some (median_pixel (data img) (width img) (height img) (size / 2)
                      (j / 3)%nat)) as Hq
      by (by rewrite list_lookup_fmap, lookup_seq_lt by done).
    destruct (flatten_pixels_lookup _ _ _ Hq) as (T0 & T1 & T2).
    fold (median_data (data img) (width img) (height img) (size / 2)) in T0, T1, T2.
    unfold median_pixel in T0, T1, T2. cbv zeta in T0, T1, T2.
    cbn [fst snd] in T0, T1, T2.
    assert (forall c : nat, (c < 3)%nat -> j = (3 * (j / 3) + c)%nat ->
              middle (chan (data img) c
                        <$> window (width img) (height img) (size / 2)
                              (Z.of_nat (j / 3) mod width img)
                              (Z.of_nat (j / 3) / width img))
              ∈ channel_samples (data img) (Z.of_nat j mod 3)) as Hc.
    { intros c Hc Hjc.
      destruct (middle_window (data img) (width img) (height img) (size / 2)
                  (Z.of_nat (j / 3) mod width img) (Z.of_nat (j / 3) / width img) c)
        as (_ & p' & Hp' & V); [done|done|done|done|lia|].
      cbv zeta in V. eapply channel_sample_elem; [lia|lia|exact V|lia]. }
    assert (j = 3 * (j / 3) \/ j = 3 * (j / 3) + 1 \/ j = 3 * (j / 3) + 2)%nat
      as [Hj0 | [Hj1 | Hj2]] by lia.
    - rewrite Hj0, T0 in Hj. injection Hj as <-. apply (Hc 0%nat); lia.
    - rewrite Hj1, T1 in Hj. injection Hj as <-. apply (Hc 1%nat); lia.
    - rewrite Hj2, T2 in Hj. injection Hj as <-. apply (Hc 2%nat); lia. }
  repeat split; cbn [width height max_value data]; try done.
  - unfold len in *. by rewrite Hlm.
  - apply Forall_lookup. intros j v Hj. specialize (Hpick j v Hj).
    assert (Forall is_byte (channel_samples (data img) (Z.of_nat j mod 3))) as Hsb.
    { apply channel_samples_bytes; [lia|done|lia]. }
    rewrite Forall_forall in Hsb. by apply Hsb.
Qed.

Lemma median_filter_picks_samples_witness :
  exists r,
    median_filter two_pixels 3 = Ok r
    /\ width r = width two_pixels /\ height r = height two_pixels
    /\ max_value r = max_value two_pixels
    /\ well_formed r
    /\ forall j v, data r !! j = Some v ->
                   v ∈ channel_samples (data two_pixels) (Z.of_nat j mod 3).
Proof.
  apply (median_filter_picks_samples two_pixels 3 two_pixels_well_formed);
    cbn; lia.
Defined.

Lemma middle_singleton (v : Z) : middle [v] = v.
Proof. reflexivity. Qed.

Lemma range_pos (n : Z) : 0 < n -> range n = 0 :: (Z.of_nat <$> seq 1 (Z.to_nat (n - 1))).
Proof.
  intros Hn. unfold range. replace (Z.to_nat n) with (S (Z.to_nat (n - 1))) by lia.
  done.
Qed.

(** X22: with size 0 or 1 the window of the median filter is the pixel
    itself and the filter returns the buffer unchanged; with a negative size
    the window is empty and the filter raises [IndexError] at the first
    pixel. *)
Theorem median_filter_small_sizes (img : ImageBuffer) (size : Z) :
  well_formed img -> 0 <= width img -> 0 <= height img ->
  ((size = 0 \/ size = 1) -> median_filter img size = Ok img)
  /\ (size < 0 -> 0 < width img -> 0 < height img ->
      median_filter img size = Err IndexError).
Proof.
  intros Hwf Hw Hh. destruct (well_formed_pixels img Hwf) as [_ HL]. split.
  - intros Hs. rewrite median_filter_total by (done || lia).
    assert (size / 2 = 0) as -> by (destruct Hs as [-> | ->]; done).
    unfold median_data. rewrite (flatten_pixels_eq (data img)); [by destruct img|done|].
    intros p Hp. destruct (pixel_coordinates _ _ _ Hw Hp) as (_ & Hx & Hy & Hxy).
    unfold median_pixel. cbv zeta. rewrite window_radius_zero by done.
    rewrite Hxy, Nat2Z.id. cbn [fmap list_fmap]. rewrite !middle_singleton.
    unfold chan. by rewrite Nat.add_0_r.
  - intros Hs Hw' Hh'. unfold median_filter. cbv zeta.
    assert (range_from (- (size / 2)) (size / 2 + 1) = []) as ->.
    { unfold range_from. by replace (Z.to_nat (size / 2 + 1 - - (size / 2))) with 0%nat
        by lia. }
    rewrite (range_pos (height img)), (range_pos (width img)) by done.
    reflexivity.
Qed.

Lemma median_filter_small_sizes_witness :
  median_filter two_pixels 1 = Ok two_pixels
  /\ median_filter two_pixels (-1) = Err IndexError.
Proof.
  split.
  - apply (median_filter_small_sizes two_pixels 1 two_pixels_well_formed);
      cbn; lia.
  - apply (median_filter_small_sizes two_pixels (-1) two_pixels_well_formed);
      cbn; lia.
Defined.

Lemma uniform_image_well_formed (w h maxv r g b : Z) :
  0 <= w -> 0 <= h -> is_byte r -> is_byte g -> is_byte b ->
  well_formed (uniform_image w h maxv (r, g, b)).
Proof.
  intros Hw Hh Hr Hg Hb. split; cbn [uniform_image data width height].
  - unfold len. rewrite uniform_data_length. nia.
  - unfold uniform_data. apply Forall_concat, Forall_replicate.
    repeat (constructor; [assumption|]). constructor.
Qed.

(** X23: the median filter of any size [>= 0] leaves a uniform image
    unchanged. *)
Theorem median_filter_uniform (w h maxv r g b size : Z) :
  0 <= w -> 0 <= h -> is_byte r -> is_byte g -> is_byte b -> 0 <= size ->
  median_filter (uniform_image w h maxv (r, g, b)) size
  = Ok (uniform_image w h maxv (r, g, b)).
Proof.
  intros Hw Hh Hr Hg Hb Hs.
  pose proof (uniform_image_well_formed w h maxv r g b Hw Hh Hr Hg Hb) as Hwf.
  rewrite median_filter_total by done.
  cbn [uniform_image data width height max_value]. unfold uniform_image. do 2 f_equal.
  set (src := uniform_data (Z.to_nat (w * h)) (r, g, b)).
  assert (length src = (3 * Z.to_nat (w * h))%nat) as Hl by apply uniform_data_length.
  unfold median_data. apply flatten_pixels_eq; [done|].
  intros p Hp. destruct (pixel_coordinates _ _ _ Hw Hp) as (Hw' & Hx & Hy & _).
  assert (0 < h) as Hh' by nia.
  destruct (uniform_data_lookup (Z.to_nat (w * h)) r g b p Hp) as (Lr & Lg & Lb).
  fold src in Lr, Lg, Lb.
  rewrite (list_lookup_total_correct _ _ _ Lr), (list_lookup_total_correct _ _ _ Lg),
    (list_lookup_total_correct _ _ _ Lb).
  assert (forall (c : nat) (v : Z), (c < 3)%nat ->
            (forall q, (q < Z.to_nat (w * h))%nat -> src !! (3 * q + c)%nat = Some v) ->
            middle (chan src c <$> window w h (size / 2) (Z.of_nat p mod w)
                                     (Z.of_nat p / w)) = v) as Hmid.
  { intros c v Hc Hall.
    destruct (middle_window src w h (size / 2) (Z.of_nat p mod w) (Z.of_nat p / w) c)
      as (_ & q & Hq & V); [done|done|done|done|lia|].
    cbv zeta in V. rewrite (Hall q Hq) in V. by injection V. }
  unfold median_pixel. cbv zeta. f_equal; [f_equal|].
  - apply Hmid; [lia|]. intros q Hq. rewrite Nat.add_0_r.
    by apply (uniform_data_lookup (Z.to_nat (w * h)) r g b q Hq).
  - apply Hmid; [lia|]. intros q Hq.
    by apply (uniform_data_lookup (Z.to_nat (w * h)) r g b q Hq).
  - apply Hmid; [lia|]. intros q Hq.
    by apply (uniform_data_lookup (Z.to_nat (w * h)) r g b q Hq).
Qed.

Lemma median_filter_uniform_witness :
  median_filter (uniform_image 2 2 255 (10, 20, 30)) 3
  = Ok (uniform_image 2 2 255 (10, 20, 30)).
Proof.
  apply median_filter_uniform; unfold is_byte; lia.
Defined.

(** ** The mean filter *)

(** X24: [mean_filter] raises [ValueError] for every size that is even or
    not positive, whatever the image. *)
Theorem mean_filter_rejects_size (img : ImageBuffer) (size : Z) :
  size <= 0 \/ size mod 2 = 0 -> mean_filter img size = Err ValueError.
Proof.
  intros Hs. unfold mean_filter. fold (mean_kernel size). unfold _convolve.
  destruct (Z.le_gt_cases size 0) as [Hle|Hgt].
  - assert (mean_kernel size = []) as ->; [|done].
    unfold mean_kernel, range. by replace (Z.to_nat size) with 0%nat by lia.
  - rewrite mean_kernel_len by lia.
    destruct (Z.eqb_spec (size mod 2) 0) as [_|]; [done|lia].
Qed.

Lemma mean_filter_rejects_size_witness :
  mean_filter two_pixels 4 = Err ValueError
  /\ mean_filter two_pixels 0 = Err ValueError.
Proof.
  split.
  - apply (mean_filter_rejects_size two_pixels 4). by right.
  - apply (mean_filter_rejects_size two_pixels 0). left. lia.
Defined.

Lemma mean_one_pixel (img : ImageBuffer) (x y r g b : Z) (p : nat) (nd : list Z) :
  0 <= x < width img -> 0 <= y < height img ->
  Z.of_nat p = y * width img + x ->
  data img !! (3 * p)%nat = Some r -> data img !! (3 * p + 1)%nat = Some g ->
  data img !! (3 * p + 2)%nat = Some b ->
  0 <= r <= max_value img -> 0 <= g <= max_value img -> 0 <= b <= max_value img ->
  r < 256 -> g < 256 -> b < 256 ->
  (3 * p + 2 < length nd)%nat ->
  (acc ← taps (data img) (mean_kernel 1) 1 (width img) (height img) x y;
   write_pixel img (Py.Int 1) (Py.Flt 0) acc ((y * width img + x) * 3) nd)
  = Ok (<[(3 * p + 2)%nat := b]> (<[(3 * p + 1)%nat := g]> (<[(3 * p)%nat := r]> nd))).
Proof.
  intros Hx Hy Hp Lr Lg Lb Hr Hg Hb Hr' Hg' Hb' Hnd.
  assert (taps (data img) (mean_kernel 1) 1 (width img) (height img) x y
          = Ok (acc_of 1 r g b)) as ->.
  { unfold taps. change (range 1) with [0]. cbn [forM]. cbv zeta.
    change (lget (mean_kernel 1) 0) with (Ok [Py.Flt 1]). mstep.
    change (lget [Py.Flt 1] 0) with (Ok (Py.Flt 1)). mstep.
    change (1 / 2) with 0. unfold _clamp.
    replace (Z.max 0 (Z.min (height img - 1) (y + 0 - 0))) with y by lia.
    replace (Z.max 0 (Z.min (width img - 1) (x + 0 - 0))) with x by lia.
    replace ((y * width img + x) * 3) with (3 * Z.of_nat p) by lia.
    change acc0 with (acc_of 0 r g b). unfold accumulate, acc_of at 1.
    rewrite (lget_at _ (3 * p) (3 * Z.of_nat p) _ Lr) by lia. mstep.
    rewrite (tap_weight r) by (unfold is_byte; lia). mstep.
    rewrite (tap_add 0 r) by (unfold is_byte; lia). mstep.
    rewrite (lget_at _ (3 * p + 1) (3 * Z.of_nat p + 1) _ Lg) by lia. mstep.
    rewrite (tap_weight g) by (unfold is_byte; lia). mstep.
    rewrite (tap_add 0 g) by (unfold is_byte; lia). mstep.
    rewrite (lget_at _ (3 * p + 2) (3 * Z.of_nat p + 2) _ Lb) by lia. mstep.
    rewrite (tap_weight b) by (unfold is_byte; lia). mstep.
    rewrite (tap_add 0 b) by (unfold is_byte; lia). mstep. done. }
  mstep. apply write_pixel_uniform; try done; lia.
Qed.

(** X25: the mean filter of size 1 returns the buffer unchanged, when the
    samples lie in [[0, max_value]]. *)
Theorem mean_filter_size_one (img : ImageBuffer) :
  well_formed img -> 0 <= width img -> 0 <= height img ->
  Forall (fun v => v <= max_value img) (data img) ->
  mean_filter img 1 = Ok img.
Proof.
  intros Hwf Hw Hh Hmax. destruct (well_formed_pixels img Hwf) as [_ HL].
  destruct Hwf as [_ Hbytes].
  unfold mean_filter. fold (mean_kernel 1). unfold _convolve.
  change (len (mean_kernel 1)) with 1.
  change (existsb (fun row => negb (len row =? 1)) (mean_kernel 1)) with false.
  change (1 mod 2 =? 0) with false. cbn [orb]. cbv iota.
  change (Py.truthy (Py.Int (1 * 1))) with true. cbv iota. mstep.
  change (Py.is_zero (Py.Int (1 * 1))) with false. cbv iota zeta.
  change (forM (range (height img)) _ (zeros (length (data img))))
    with (forM (range (height img))
            (fun y nd =>
               forM (range (width img))
                 (fun x nd =>
                    acc ← taps (data img) (mean_kernel 1) 1 (width img) (height img) x y;
                    write_pixel img (Py.Int 1) (Py.Flt 0) acc
                      ((y * width img + x) * 3) nd)
                 nd)
            (zeros (length (data img)))).
  rewrite (grid_loop_total (data img) (width img) (height img)
             (fun x y nd =>
                acc ← taps (data img) (mean_kernel 1) 1 (width img) (height img) x y;
                write_pixel img (Py.Int 1) (Py.Flt 0) acc
                  ((y * width img + x) * 3) nd));
    [by destruct img|done|done|done|apply zeros_length|].
  intros x y p nd Hx Hy Hp Hnd.
  assert (p < Z.to_nat (width img * height img))%nat as Hpl by nia.
  destruct (pixel_lookup (data img) p Hbytes ltac:(lia))
    as (r & g & b & Lr & Lg & Lb & Br & Bg & Bb).
  rewrite Forall_lookup in Hmax.
  pose proof (Hmax _ _ Lr). pose proof (Hmax _ _ Lg). pose proof (Hmax _ _ Lb).
  unfold is_byte in Br, Bg, Bb.
  rewrite (list_lookup_total_correct _ _ _ Lr), (list_lookup_total_correct _ _ _ Lg),
    (list_lookup_total_correct _ _ _ Lb).
  apply mean_one_pixel; try done; lia.
Qed.

Lemma mean_filter_size_one_witness : mean_filter two_pixels 1 = Ok two_pixels.
Proof.
  apply (mean_filter_size_one two_pixels two_pixels_well_formed).
  - cbn. lia.
  - cbn. lia.
  - cbn. repeat (constructor; [lia|]). constructor.
Defined.

(** * Further properties of the PPM codec *)

(** ** Files that are not PPM files *)

(** X26: a file whose first two bytes are neither [P3] nor [P6] (a shorter
    file included) is rejected with [PPMFormatError], or with
    [UnicodeDecodeError] when one of these bytes is not ASCII. *)
Theorem read_ppm_rejects_magic (file : Bytes) :
  take 2 file <> magic_P3 -> take 2 file <> magic_P6 ->
  read_ppm file
  = Err (if forallb (fun c => c <? 128) (take 2 file) then PPMFormatError
         else UnicodeDecodeError).
Proof.
  intros H3 H6. unfold read_ppm, _read_header, decode_ascii.
  destruct (forallb (fun c => c <? 128) (take 2 file)); [|done]. mstep.
  by rewrite !bool_decide_eq_false_2 by done.
Qed.

Lemma read_ppm_rejects_magic_witness :
  read_ppm [80; 53; 10; 49; 32; 49; 10; 50; 53; 53; 10; 1; 2; 3] = Err PPMFormatError
  /\ read_ppm [255; 216; 255; 224] = Err UnicodeDecodeError
  /\ read_ppm [80] = Err PPMFormatError.
Proof.
  split; [|split].
  - by apply (read_ppm_rejects_magic [80; 53; 10; 49; 32; 49; 10; 50; 53; 53; 10; 1; 2; 3]).
  - by apply (read_ppm_rejects_magic [255; 216; 255; 224]).
  - by apply (read_ppm_rejects_magic [80]).
Defined.

(** ** The length of the binary pixel data *)

(** X27: after a binary header for [w] by [h] pixels with [max_value] 255,
    where [w] and [h] have at most [max_str_digits] digits: when the
    [w * h * 3] bytes of the pixels fit a [Py_ssize_t], pixel data shorter
    than that is a [PPMFormatError], and when there are enough bytes the
    first [w * h * 3] of them are the buffer and whatever follows is
    ignored; a larger [w * h * 3] is an [OverflowError] of [read]. *)
Theorem read_ppm_binary_length (w h : Z) (body : Bytes) :
  0 <= w * h -> fits_str_digits w = true -> fits_str_digits h = true ->
  let file := magic_P6 ++ 10 :: int_text w ++ 32 :: int_text h ++ 10 :: int_text 255
                ++ 10 :: body in
  (w * h * 3 <= sys_maxsize -> len body < w * h * 3 ->
   read_ppm file = Err PPMFormatError)
  /\ (w * h * 3 <= sys_maxsize -> w * h * 3 <= len body ->
      read_ppm file = Ok (mkImage w h 255 (take (Z.to_nat (w * h * 3)) body)))
  /\ (sys_maxsize < w * h * 3 -> read_ppm file = Err OverflowError).
Proof.
  intros Hwh Hw Hh file. unfold file, read_ppm. clear file.
  rewrite read_header_written by done. mstep.
  rewrite (bool_decide_eq_false_2 (magic_P6 = magic_P3)) by done.
  unfold _read_binary_pixels, stream_read. split; [|split].
  - intros Hfit Hl. rewrite as_ssize_t_fits by (apply size_fits; lia). mstep.
    destruct (Z.eqb_spec (w * h * 3) (-1)) as [Hm|_]; [lia|].
    destruct (Z.ltb_spec (w * h * 3) 0) as [Hm|_]; [lia|]. mstep.
    unfold len in *. rewrite length_take, Nat.min_r by lia.
    destruct (Z.eqb_spec (Z.of_nat (length body)) (w * h * 3)) as [He|_];
      [exfalso; lia|done].
  - intros Hfit Hl. rewrite as_ssize_t_fits by (apply size_fits; lia). mstep.
    destruct (Z.eqb_spec (w * h * 3) (-1)) as [Hm|_]; [lia|].
    destruct (Z.ltb_spec (w * h * 3) 0) as [Hm|_]; [lia|]. mstep.
    unfold len in *. rewrite length_take, Nat.min_l by lia. rewrite Z2Nat.id by lia.
    by rewrite Z.eqb_refl.
  - intros Hbig. by rewrite as_ssize_t_large.
Qed.

Lemma read_ppm_binary_length_witness :
  read_ppm (magic_P6 ++ 10 :: int_text 1 ++ 32 :: int_text 1 ++ 10 :: int_text 255
              ++ 10 :: [7; 8]) = Err PPMFormatError
  /\ read_ppm (magic_P6 ++ 10 :: int_text 1 ++ 32 :: int_text 1 ++ 10 :: int_text 255
                 ++ 10 :: [7; 8; 9; 10; 11])
     = Ok (mkImage 1 1 255 [7; 8; 9])
  /\ read_ppm (magic_P6 ++ 10 :: int_text 4294967296 ++ 32 :: int_text 4294967296
                 ++ 10 :: int_text 255 ++ 10 :: [7; 8; 9])
     = Err OverflowError.
Proof.
  split; [|split].
  - apply (read_ppm_binary_length 1 1 [7; 8]); [lia|reflexivity|reflexivity| |].
    + unfold sys_maxsize. lia.
    + reflexivity.
  - apply (read_ppm_binary_length 1 1 [7; 8; 9; 10; 11]); [lia|reflexivity|reflexivity| |].
    + unfold sys_maxsize. lia.
    + unfold len. cbn [length]. lia.
  - apply (read_ppm_binary_length 4294967296 4294967296 [7; 8; 9]);
      [lia|reflexivity|reflexivity|].
    unfold sys_maxsize. lia.
Defined.

(** ** Normalizing a value *)

(** X28: whatever the positive [max_value] of the file, [_normalize_value]
    sends 0 to 0 and [max_value] to 255. *)
Theorem normalize_value_ends (m : Z) :
  0 < m < 2 ^ 53 ->
  _normalize_value 0 m = Ok 0 /\ _normalize_value m m = Ok 255.
Proof.
  intros Hm. unfold _normalize_value.
  destruct (Z.eqb_spec m 255) as [->|Hne]; [done|].
  rewrite !int_truediv_small by lia. mstep. split.
  - replace 0 with (m * 0) at 1 by lia. rewrite Z2F_div by lia.
    reflexivity.
  - replace m with (m * 1) at 1 by lia. rewrite Z2F_div by lia.
    reflexivity.
Qed.

Lemma normalize_value_ends_witness :
  _normalize_value 0 15 = Ok 0 /\ _normalize_value 15 15 = Ok 255.
Proof. apply (normalize_value_ends 15). lia. Defined.

(** ** The ASCII round trip *)

Lemma read_header_written_ascii (w h m : Z) (body : Bytes) :
  fits_str_digits w = true -> fits_str_digits h = true -> fits_str_digits m = true ->
  _read_header (magic_P3 ++ 10 :: int_text w ++ 32 :: int_text h ++ 10 :: int_text m
                  ++ 10 :: body)
  = Ok (magic_P3, w, h, m, body).
Proof.
  intros Hw Hh Hm. unfold _read_header, magic_P3. cbn [app take drop].
  change (decode_ascii [80; 51]) with (Ok [80; 51] : result Bytes). mstep.
  rewrite (bool_decide_eq_true_2 ([80; 51] = [80; 51])) by done.
  cbn [orb negb].
  rewrite read_tokens_written.
  mstep. rewrite !int_of_str_int_text by done. done.
Qed.

(** The text of a pixel and of a row of pixels, as [_write_ascii_pixels]
    writes them. *)
Definition pixel_text (p : Pixel) : Bytes :=
  int_text p.1.1 ++ 32 :: int_text p.1.2 ++ 32 :: int_text p.2.

Definition row_text (ps : list Pixel) : Bytes :=
  join_space (pixel_text <$> ps) ++ [10].

Definition pixel_at (d : list Z) (p : nat) : Pixel :=
  (d !!! (3 * p)%nat, d !!! (3 * p + 1)%nat, d !!! (3 * p + 2)%nat).

Definition row_pixels (d : list Z) (w : nat) (y : nat) : list Pixel :=
  (fun x => pixel_at d (y * w + x)) <$> seq 0 w.

Lemma write_ascii_pixels_rows (img : ImageBuffer) :
  well_formed img -> 0 <= width img -> 0 <= height img ->
  _write_ascii_pixels img
  = Ok (concat ((fun y => row_text (row_pixels (data img) (Z.to_nat (width img)) y))
                  <$> seq 0 (Z.to_nat (height img)))).
Proof.
  intros Hwf Hw Hh. destruct (well_formed_pixels img Hwf) as [_ HL].
  pose proof Hwf as [_ Hbytes].
  unfold _write_ascii_pixels. cbv zeta. rewrite range_step3_pixels. unfold range.
  set (w := Z.to_nat (width img)). set (d := data img) in *.
  assert (Z.to_nat (width img * height img) = (Z.to_nat (height img) * w)%nat) as Hwh.
  { rewrite Z.mul_comm. apply Z2Nat.inj_mul; lia. }
  destruct (forM_seq_total
    (fun k out => out = concat ((fun y => row_text (row_pixels d w y)) <$> seq 0 k))
    (fun k => Z.of_nat k)
    (fun y out =>
       row_values ← forM ((fun k => 0 + 3 * Z.of_nat k) <$> seq 0 w)
         (fun x row_values =>
            r ← lget d (y * (width img * 3) + x);
            g ← lget d (y * (width img * 3) + x + 1);
            b ← lget d (y * (width img * 3) + x + 2);
            tr ← str_int r; tg ← str_int g; tb ← str_int b;
            Ok (row_values ++ [tr ++ 32 :: tg ++ 32 :: tb]))
         [];
       Ok (out ++ join_space row_values ++ [10]))
    0 (Z.to_nat (height img)) []) as (out & Hout & ->).
  - done.
  - intros k out Hk ->.
    destruct (forM_seq_total
      (fun k' rv => rv = (fun x => pixel_text (pixel_at d (k * w + x))) <$> seq 0 k')
      (fun k' => 0 + 3 * Z.of_nat k')
      (fun x (row_values : list (list Z)) =>
         r ← lget d (Z.of_nat k * (width img * 3) + x);
         g ← lget d (Z.of_nat k * (width img * 3) + x + 1);
         b ← lget d (Z.of_nat k * (width img * 3) + x + 2);
         tr ← str_int r; tg ← str_int g; tb ← str_int b;
         Ok (row_values ++ [tr ++ 32 :: tg ++ 32 :: tb]))
      0 w ([] : list (list Z))) as (rv & Hrv & ->).
    + done.
    + intros k' rv Hk' ->.
      assert (k * w + k' < Z.to_nat (width img * height img))%nat as Hp
        by (rewrite Hwh; nia).
      assert (forall c : nat, (c < 3)%nat ->
                lget d (Z.of_nat k * (width img * 3) + (0 + 3 * Z.of_nat k') + Z.of_nat c)
                = Ok (d !!! (3 * (k * w + k') + c)%nat)) as Hget.
      { intros c Hc. rewrite lget_total by (unfold len, w in *; nia).
        do 2 f_equal. unfold w. nia. }
      pose proof (Hget 0%nat ltac:(lia)) as G0. pose proof (Hget 1%nat ltac:(lia)) as G1.
      pose proof (Hget 2%nat ltac:(lia)) as G2.
      change (Z.of_nat 0) with 0 in G0. rewrite Z.add_0_r, Nat.add_0_r in G0.
      change (Z.of_nat 1) with 1 in G1. change (Z.of_nat 2) with 2 in G2.
      rewrite G0. mstep. rewrite G1. mstep. rewrite G2. mstep.
      rewrite !str_int_fits
        by (apply byte_fits, (Forall_lookup_total_1 _ _ _ Hbytes); unfold w in *; nia).
      mstep.
      eexists. split; [reflexivity|]. rewrite seq_S, fmap_app. done.
    + cbv beta.
      match goal with
      | |- exists t', (?m ≫= _) = _ /\ _ =>
          assert (m = Ok ((fun x => pixel_text (pixel_at d (k * w + x))) <$> seq 0 (0 + w)))
            as -> by exact Hrv
      end.
      mstep. eexists. split; [reflexivity|].
      rewrite seq_S, fmap_app, concat_app. cbn [fmap list_fmap concat].
      rewrite app_nil_r. unfold row_text, row_pixels.
      by rewrite <- list_fmap_compose.
  - by rewrite Hout.
Qed.

(** A byte of a decimal text: a digit or the minus sign. *)
Definition text_byte (c : Z) : Prop := is_digit_byte c \/ c = 45.

Lemma int_text_text_bytes (n : Z) : Forall text_byte (int_text n).
Proof.
  unfold int_text, text_byte. destruct (Z.to_int n) as [d|d].
  - eapply Forall_impl; [apply bytes_of_uint_digits|]. intros c Hc. by left.
  - constructor; [by right|].
    eapply Forall_impl; [apply bytes_of_uint_digits|]. intros c Hc. by left.
Qed.

(** The bytes of a token are gathered one by one. *)
Lemma ascii_values_token (tok : Bytes) :
  forall (acc rest : Bytes) (total maxv : Z) (st : list Z * Z),
    Forall text_byte tok ->
    ascii_values (tok ++ rest) acc false total maxv st
    = ascii_values rest (acc ++ tok) false total maxv st.
Proof.
  induction tok as [|c tok IH]; intros acc rest total maxv st Htok.
  - by rewrite app_nil_r.
  - inversion Htok as [|? ? Hc Htok']; subst. cbn [app ascii_values].
    assert ((c =? 35) = false) as -> by (unfold text_byte, is_digit_byte in Hc; lia).
    rewrite (isspace_digit c Hc). rewrite IH by done. by rewrite <- app_assoc.
Qed.

(** A value followed by a separator is stored at the next index. *)
Lemma ascii_values_value (v sep total : Z) (rest : Bytes) (done : list Z) (n : nat) :
  0 <= v < 256 -> isspace sep = true -> sep <> 35 -> len done < total ->
  ascii_values (int_text v ++ sep :: rest) [] false total 255
    (done ++ zeros (S n), len done)
  = ascii_values rest [] false total 255 ((done ++ [v]) ++ zeros n, len (done ++ [v])).
Proof.
  intros Hv Hsep Hhash Hidx.
  rewrite ascii_values_token by apply int_text_text_bytes. cbn [app ascii_values].
  destruct (Z.eqb_spec sep 35) as [|_]; [done|]. rewrite Hsep.
  rewrite bool_decide_eq_false_2 by apply int_text_nonempty.
  rewrite decode_ascii_token by apply int_text_token_bytes. mstep.
  unfold store_value. destruct (Z.leb_spec total (len done)) as [|_]; [lia|].
  rewrite int_of_str_int_text by (by apply byte_fits). mstep. unfold _normalize_value.
  change (255 =? 255) with true. cbv iota. mstep.
  rewrite bset_nonneg by (unfold len; rewrite ?length_app, ?zeros_length; lia). mstep.
  unfold len. rewrite Nat2Z.id, insert_app_r_alt, Nat.sub_diag by lia.
  cbn [zeros replicate insert list_insert]. rewrite <- app_assoc. cbn [app].
  rewrite length_app. cbn [length]. do 3 f_equal. lia.
Qed.

(** The three values of a pixel. *)
Lemma ascii_values_pixel (p : Pixel) (sep total : Z) (rest : Bytes)
  (done : list Z) (n : nat) :
  byte_pixel p -> isspace sep = true -> sep <> 35 -> len done + 2 < total ->
  ascii_values (pixel_text p ++ sep :: rest) [] false total 255
    (done ++ zeros (3 + n), len done)
  = ascii_values rest [] false total 255
      ((done ++ flatten_pixels [p]) ++ zeros n, len (done ++ flatten_pixels [p])).
Proof.
  destruct p as [[r g] b]. intros (Br & Bg & Bb) Hsep Hhash Hidx.
  cbn [fst snd] in Br, Bg, Bb. unfold is_byte in Br, Bg, Bb.
  unfold pixel_text. cbn [fst snd]. repeat (rewrite <- app_assoc; cbn [app]).
  cbn [Nat.add].
  rewrite (ascii_values_value r 32) by (done || lia).
  rewrite (ascii_values_value g 32)
    by (done || (unfold len in *; rewrite length_app; cbn [length]; lia)).
  rewrite (ascii_values_value b sep)
    by (done || (unfold len in *; rewrite !length_app; cbn [length]; lia)).
  change (flatten_pixels [(r, g, b)]) with [r; g; b].
  by repeat (rewrite <- app_assoc; cbn [app]).
Qed.

(** A row of pixels and its newline. *)
Lemma ascii_values_row (ps : list Pixel) :
  forall (total : Z) (rest : Bytes) (done : list Z) (n : nat),
    Forall byte_pixel ps -> len done + 3 * len ps <= total ->
    ascii_values (row_text ps ++ rest) [] false total 255
      (done ++ zeros (3 * length ps + n), len done)
    = ascii_values rest [] false total 255
        ((done ++ flatten_pixels ps) ++ zeros n, len (done ++ flatten_pixels ps)).
Proof.
  induction ps as [|p ps IH]; intros total rest done n Hb Hidx.
  - unfold row_text. cbn [fmap list_fmap join_space app ascii_values length].
    change (10 =? 35) with false. change (isspace 10) with true. cbv iota.
    rewrite bool_decide_eq_true_2 by done.
    change (flatten_pixels []) with (@nil Z). by rewrite app_nil_r.
  - inversion Hb as [|? ? Hp Hb']; subst.
    assert (len done + 2 < total) as Hidx'.
    { unfold len in *. cbn [length] in Hidx. lia. }
    replace (3 * length (p :: ps) + n)%nat with (3 + (3 * length ps + n))%nat
      by (cbn [length]; lia).
    change (flatten_pixels (p :: ps)) with (flatten_pixels [p] ++ flatten_pixels ps)
      || (rewrite (flatten_pixels_app [p] ps)).
    destruct ps as [|q ps].
    + unfold row_text. cbn [fmap list_fmap join_space]. rewrite <- app_assoc. cbn [app].
      rewrite (ascii_values_pixel p 10) by done.
      cbn [length Nat.mul Nat.add]. change (flatten_pixels []) with (@nil Z).
      by rewrite !app_nil_r.
    + assert (row_text (p :: q :: ps) ++ rest
              = pixel_text p ++ 32 :: (row_text (q :: ps) ++ rest)) as ->.
      { unfold row_text. cbn [fmap list_fmap join_space].
        by rewrite <- !app_assoc. }
      rewrite (ascii_values_pixel p 32) by done.
      rewrite IH; [by rewrite <- !app_assoc|done|].
      unfold len in *. rewrite length_app.
      change (flatten_pixels [p]) with [p.1.1; p.1.2; p.2].
      cbn [length] in Hidx |- *. lia.
Qed.

(** All the rows. *)
Lemma ascii_values_rows (rows : list (list Pixel)) :
  forall (total : Z) (done : list Z) (n : nat),
    Forall (Forall byte_pixel) rows ->
    len done + 3 * len (concat rows) <= total ->
    ascii_values (concat (row_text <$> rows)) [] false total 255
      (done ++ zeros (3 * length (concat rows) + n), len done)
    = Ok ((done ++ flatten_pixels (concat rows)) ++ zeros n,
          len (done ++ flatten_pixels (concat rows))).
Proof.
  induction rows as [|ps rows IH]; intros total done n Hb Hidx.
  - cbn. change (flatten_pixels []) with (@nil Z). by rewrite app_nil_r.
  - inversion Hb as [|? ? Hp Hb']; subst.
    cbn [fmap list_fmap concat]. rewrite length_app.
    replace (3 * (length ps + length (concat rows)) + n)%nat
      with (3 * length ps + (3 * length (concat rows) + n))%nat by lia.
    unfold len in Hidx. cbn [concat] in Hidx. rewrite length_app in Hidx.
    rewrite ascii_values_row by (done || unfold len; lia).
    rewrite IH; [|done|].
    + by rewrite flatten_pixels_app, <- !app_assoc.
    + unfold len. rewrite length_app, flatten_pixels_length. lia.
Qed.

Lemma rows_concat (d : list Z) (w h : nat) :
  concat (row_pixels d w <$> seq 0 h) = pixel_at d <$> seq 0 (h * w).
Proof.
  induction h as [|h IH]; [done|].
  rewrite seq_S, fmap_app, concat_app, IH. cbn [fmap list_fmap concat Nat.add].
  rewrite app_nil_r.
  replace (S h * w)%nat with (h * w + w)%nat by lia.
  rewrite seq_app, fmap_app. f_equal. unfold row_pixels.
  replace (seq (0 + h * w) w) with ((fun x => h * w + x)%nat <$> seq 0 w)
    by (rewrite fmap_add_seq; f_equal; lia).
  by rewrite <- list_fmap_compose.
Qed.

Lemma pixel_at_bytes (d : list Z) (p : nat) :
  Forall is_byte d -> (3 * p + 2 < length d)%nat -> byte_pixel (pixel_at d p).
Proof.
  intros Hd Hp. destruct (pixel_lookup d p Hd Hp) as (r & g & b & Lr & Lg & Lb & Br & Bg & Bb).
  unfold byte_pixel, pixel_at. cbn [fst snd].
  by rewrite (list_lookup_total_correct _ _ _ Lr), (list_lookup_total_correct _ _ _ Lg),
    (list_lookup_total_correct _ _ _ Lb).
Qed.

(** X29: a well-formed buffer with [max_value = 255] whose width and height
    are not negative and have at most [max_str_digits] digits (and whose
    data, as that of every bytearray, has at most [sys_maxsize] bytes),
    written in ASCII mode and read back, comes back unchanged. *)
Theorem ppm_ascii_round_trip (img : ImageBuffer) :
  well_formed img -> 0 <= width img -> 0 <= height img -> max_value img = 255 ->
  fits_str_digits (width img) = true -> fits_str_digits (height img) = true ->
  len (data img) <= sys_maxsize ->
  exists file, write_ppm img false = Ok file /\ read_ppm file = Ok img.
Proof.
  intros Hwf Hw Hh Hmax Fw Fh Hsize. destruct (well_formed_pixels img Hwf) as [_ HL].
  pose proof Hwf as [Hlen Hbytes].
  rewrite write_ppm_header by (done || by rewrite Hmax). cbv zeta.
  rewrite write_ascii_pixels_rows by done. mstep.
  eexists. split; [reflexivity|].
  unfold read_ppm. do 4 (rewrite <- ?app_assoc; cbn [app]).
  rewrite read_header_written_ascii by (done || by rewrite Hmax). mstep.
  rewrite (bool_decide_eq_true_2 (magic_P3 = magic_P3)) by done.
  unfold _read_ascii_pixels, bytearray_of_size.
  rewrite as_ssize_t_fits by (apply size_fits; unfold len in *; lia). mstep.
  destruct (Z.ltb_spec (width img * height img * 3) 0) as [|_]; [exfalso; lia|].
  mstep.
  set (w := Z.to_nat (width img)). set (h := Z.to_nat (height img)).
  set (d := data img) in *.
  assert (Z.to_nat (width img * height img) = (h * w)%nat) as Hwh.
  { rewrite Z.mul_comm. apply Z2Nat.inj_mul; lia. }
  set (rows := row_pixels d w <$> seq 0 h).
  assert (concat ((fun y => row_text (row_pixels d w y)) <$> seq 0 h)
          = concat (row_text <$> rows)) as ->.
  { unfold rows. by rewrite <- list_fmap_compose. }
  assert (length (concat rows) = (h * w)%nat) as Hrows.
  { unfold rows. by rewrite rows_concat, length_fmap, length_seq. }
  assert (Forall (Forall byte_pixel) rows) as Hb.
  { unfold rows. apply Forall_fmap, Forall_forall. intros y Hy.
    apply elem_of_seq in Hy. unfold row_pixels. apply Forall_fmap, Forall_forall.
    intros x Hx. apply elem_of_seq in Hx. cbn. apply pixel_at_bytes; [done|].
    fold d in HL. rewrite HL, Hwh. nia. }
  pose proof (ascii_values_rows rows (width img * height img * 3) [] 0 Hb) as Hread.
  rewrite Hrows, Nat.add_0_r in Hread. cbn [app] in Hread.
  replace (Z.to_nat (width img * height img * 3)) with (3 * (h * w))%nat by lia.
  change (len (@nil Z)) with 0 in Hread.
  rewrite Hmax, Hread by (unfold len; rewrite Hrows; lia). mstep.
  assert (flatten_pixels (concat rows) = d) as Hd.
  { unfold rows. rewrite rows_concat. apply flatten_pixels_eq; [|done].
    fold d in HL. by rewrite HL, Hwh. }
  rewrite Hd. unfold len. fold d in HL. rewrite HL, Hwh.
  destruct (Z.eqb_spec (Z.of_nat (3 * (h * w))) (width img * height img * 3))
    as [_|Hne]; [|exfalso; lia].
  change (zeros 0) with (@nil Z). rewrite app_nil_r.
  change (Z.min 255 255) with 255. rewrite <- Hmax. unfold d. by destruct img.
Qed.

Lemma ppm_ascii_round_trip_witness :
  exists file, write_ppm two_pixels false = Ok file /\ read_ppm file = Ok two_pixels.
Proof.
  apply (ppm_ascii_round_trip two_pixels two_pixels_well_formed);
    [cbn; lia | cbn; lia | reflexivity | reflexivity | reflexivity
    | vm_compute; discriminate].
Defined.

(** * Further properties of the Bezier helpers *)

(** ** The binomial coefficient *)

(** Pascal's triangle. *)
Fixpoint pascal (n k : nat) : Z :=
  match n, k with
  | _, O => 1
  | O, S _ => 0
  | S n', S k' => pascal n' k' + pascal n' (S k')
  end.

Lemma pascal_zero (n : nat) : pascal n 0 = 1.
Proof. by destruct n. Qed.

Lemma pascal_above (n k : nat) : (n < k)%nat -> pascal n k = 0.
Proof.
  revert k. induction n as [|n IH]; intros k Hk; destruct k as [|k]; try lia; [done|].
  cbn [pascal]. rewrite !IH by lia. done.
Qed.

Lemma pascal_diag (n : nat) : pascal n n = 1.
Proof.
  induction n as [|n IH]; [done|]. cbn [pascal]. rewrite IH, pascal_above by lia. done.
Qed.

(** The absorption identity, the step of the loop. *)
Lemma pascal_step (n k : nat) :
  (Z.of_nat k + 1) * pascal n (S k) = (Z.of_nat n - Z.of_nat k) * pascal n k.
Proof.
  revert k. induction n as [|n IH]; intros k.
  - destruct k as [|k]; cbn [pascal]; lia.
  - destruct k as [|k].
    + cbn [pascal]. pose proof (IH 0%nat) as H0. rewrite pascal_zero in *. lia.
    + cbn [pascal]. pose proof (IH k) as H1. pose proof (IH (S k)) as H2. nia.
Qed.

Lemma pascal_factorial (n k : nat) :
  (k <= n)%nat ->
  pascal n k * (Z.of_nat (fact k) * Z.of_nat (fact (n - k))) = Z.of_nat (fact n).
Proof.
  induction k as [|k IH]; intros Hk.
  - rewrite pascal_zero, Nat.sub_0_r. cbn [fact]. lia.
  - specialize (IH ltac:(lia)). pose proof (pascal_step n k) as Hs.
    replace (n - k)%nat with (S (n - S k)) in IH by lia.
    cbn [fact] in IH |- *. rewrite <- IH.
    rewrite !Nat2Z.inj_mul, !Nat2Z.inj_succ, Nat2Z.inj_sub, Nat2Z.inj_succ by lia.
    unfold Z.succ.
    replace (pascal n (S k)
             * ((Z.of_nat k + 1) * Z.of_nat (fact k) * Z.of_nat (fact (n - S k))))
      with ((Z.of_nat k + 1) * pascal n (S k)
            * (Z.of_nat (fact k) * Z.of_nat (fact (n - S k)))) by ring.
    rewrite Hs. ring.
Qed.

Lemma pascal_symmetric (n k : nat) : (k <= n)%nat -> pascal n (n - k) = pascal n k.
Proof.
  intros Hk. pose proof (pascal_factorial n k Hk) as H1.
  pose proof (pascal_factorial n (n - k) ltac:(lia)) as H2.
  replace (n - (n - k))%nat with k in H2 by lia.
  pose proof (lt_O_fact k) as Pk. pose proof (lt_O_fact (n - k)) as Pnk.
  apply (Z.mul_reg_r _ _ (Z.of_nat (fact k) * Z.of_nat (fact (n - k)))); [nia|].
  rewrite H1, <- H2. ring.
Qed.

(** The loop of [binomial_coefficient] walks along a row of the triangle. *)
Lemma binomial_loop (n : Z) (m : nat) :
  Z.of_nat m <= n ->
  fold_left (fun result i => result * (n - i) / (i + 1)) (range (Z.of_nat m)) 1
  = pascal (Z.to_nat n) m.
Proof.
  intros Hm. unfold range. rewrite Nat2Z.id.
  induction m as [|m IH]; [by rewrite pascal_zero|].
  rewrite seq_S, fmap_app, fold_left_app, IH by lia. cbn [fmap list_fmap fold_left].
  pose proof (pascal_step (Z.to_nat n) m) as Hs. rewrite Z2Nat.id in Hs by lia.
  rewrite Nat.add_0_l, (Z.mul_comm (pascal _ _)), <- Hs, Z.mul_comm.
  apply Z.div_mul. lia.
Qed.

Lemma binomial_coefficient_pascal (n k : Z) :
  0 <= k <= n -> binomial_coefficient n k = pascal (Z.to_nat n) (Z.to_nat k).
Proof.
  intros Hk. unfold binomial_coefficient.
  destruct (Z.ltb_spec k 0) as [|_]; [lia|]. destruct (Z.ltb_spec n k) as [|_]; [lia|].
  cbn [orb]. destruct (Z.eqb_spec k 0) as [->|H0]; [by rewrite pascal_zero|].
  destruct (Z.eqb_spec k n) as [->|Hn]; [by rewrite pascal_diag|].
  cbn [orb]. cbv zeta.
  rewrite <- (Z2Nat.id (Z.min k (n - k))) by lia. rewrite binomial_loop by lia.
  destruct (Z.min_spec k (n - k)) as [[_ ->]|[_ ->]]; [done|].
  replace (Z.to_nat (n - k)) with (Z.to_nat n - Z.to_nat k)%nat by lia.
  apply pascal_symmetric. lia.
Qed.

(** X30: for [0 <= k <= n], [binomial_coefficient n k] is the binomial
    coefficient: it satisfies [C * k! * (n - k)! = n!], the integer division
    of each step of the loop being exact; it is symmetric in [k] and
    [n - k]; and it is 0 when [k] is negative or above [n]. *)
Theorem binomial_coefficient_correct (n k : Z) :
  (0 <= k <= n ->
   binomial_coefficient n k
     * (Z.of_nat (fact (Z.to_nat k)) * Z.of_nat (fact (Z.to_nat (n - k))))
   = Z.of_nat (fact (Z.to_nat n))
   /\ binomial_coefficient n (n - k) = binomial_coefficient n k)
  /\ (k < 0 \/ n < k -> binomial_coefficient n k = 0).
Proof.
  split.
  - intros Hk. rewrite (binomial_coefficient_pascal n k Hk),
      (binomial_coefficient_pascal n (n - k)) by lia.
    replace (Z.to_nat (n - k)) with (Z.to_nat n - Z.to_nat k)%nat by lia.
    split; [apply pascal_factorial; lia | apply pascal_symmetric; lia].
  - intros Hk. unfold binomial_coefficient.
    destruct (Z.ltb_spec k 0), (Z.ltb_spec n k); try done. lia.
Qed.

Lemma binomial_coefficient_correct_witness :
  (binomial_coefficient 6 2 * (Z.of_nat (fact 2) * Z.of_nat (fact 4)) = Z.of_nat (fact 6)
   /\ binomial_coefficient 6 (6 - 2) = binomial_coefficient 6 2)
  /\ binomial_coefficient 6 7 = 0.
Proof.
  split.
  - apply (binomial_coefficient_correct 6 2). lia.
  - apply (binomial_coefficient_correct 6 7). lia.
Defined.

(** * A rotation about a pivot, in doubles *)

(** ** Rounding a value that is already a double *)

Lemma bounded_spec (m : positive) (e : Z) :
  bounded prec emax m e = true ->
  fexp prec emax (Zdigits2 (Z.pos m) + e) = e /\ e <= 971 /\ -1074 <= e.
Proof.
  unfold bounded, canonical_mantissa. intros Hb.
  apply andb_prop in Hb as [Hc He]. apply Z.eqb_eq in Hc.
  change (Z.pos (digits2_pos m)) with (Zdigits2 (Z.pos m)) in Hc.
  split; [done|]. split; [unfold emax, prec in He; lia|].
  rewrite fexp_spec in Hc. lia.
Qed.

Lemma Zdigits2_shift (m k : Z) : 0 < m -> 0 <= k -> Zdigits2 (m * 2 ^ k) = Zdigits2 m + k.
Proof.
  intros Hm Hk. assert (0 < 2 ^ k) by (apply Z.pow_pos_nonneg; lia).
  rewrite !Zdigits2_log2 by nia. rewrite Z.log2_mul_pow2 by lia. lia.
Qed.

Lemma shr_fexp_canonical (m : positive) (e : Z) :
  bounded prec emax m e = true ->
  shr_fexp prec emax (Z.pos m) e loc_Exact
  = (Build_shr_record (Z.pos m) false false, e).
Proof.
  intros Hb. destruct (bounded_spec m e Hb) as (Hc & _ & _).
  unfold shr_fexp. rewrite Hc, Z.sub_diag. reflexivity.
Qed.

Lemma round_aux_shifted (s : bool) (m : positive) (e k : Z) :
  bounded prec emax m e = true -> 0 <= k ->
  binary_round_aux prec emax s (Z.pos m * 2 ^ k) (e - k) loc_Exact
  = S754_finite s m e.
Proof.
  intros Hb Hk. destruct (bounded_spec m e Hb) as (Hc & He & Hmin).
  assert (0 < 2 ^ k) as Hp by (apply Z.pow_pos_nonneg; lia).
  assert (Zdigits2 (Z.pos m * 2 ^ k) + (e - k) = Zdigits2 (Z.pos m) + e) as Hd.
  { rewrite Zdigits2_shift by lia. lia. }
  destruct (round_first_stage (Z.pos m * 2 ^ k) (e - k) ltac:(nia)) as (mrs & Hs & Hr).
  { rewrite Hd, Hc. lia. }
  rewrite Hd, Hc in Hs, Hr.
  replace (e - (e - k)) with (0 + k) in Hr by lia.
  rewrite rnd_scale, rnd_zero in Hr by lia.
  unfold binary_round_aux. rewrite Hs, Hr, shr_fexp_canonical by done.
  cbn [shr_m]. destruct (Z.leb_spec e (emax - prec)) as [|Hgt]; [done|].
  unfold emax, prec in Hgt. lia.
Qed.

Definition sf_one : spec_float := S754_finite false 4503599627370496 (-52).

Lemma SFmul_one_r (x : spec_float) :
  valid_binary x = true -> SF64mul x sf_one = x.
Proof.
  intros Hv. destruct x as [s|s| |s m e]; cbn [SF64mul SFmul sf_one xorb]; try done.
  - by destruct s.
  - by destruct s.
  - rewrite Pos2Z.inj_mul. change (Z.pos 4503599627370496) with (2 ^ 52).
    replace (e + -52) with (e - 52) by lia.
    replace (xorb s false) with s by (by destruct s).
    apply round_aux_shifted; [exact Hv|lia].
Qed.

Lemma SFmul_one_l (x : spec_float) :
  valid_binary x = true -> SF64mul sf_one x = x.
Proof.
  intros Hv. destruct x as [s|s| |s m e]; cbn [SF64mul SFmul sf_one xorb]; try done.
  rewrite Pos2Z.inj_mul. change (Z.pos 4503599627370496) with (2 ^ 52).
  replace (-52 + e) with (e - 52) by lia. rewrite Z.mul_comm.
  apply round_aux_shifted; [exact Hv|lia].
Qed.

Lemma SFdiv_one (x : spec_float) :
  valid_binary x = true -> SF64div x sf_one = x.
Proof.
  intros Hv. destruct x as [s|s| |s m e]; cbn [SF64div SFdiv sf_one xorb]; try done.
  - by destruct s.
  - by destruct s.
  - destruct (bounded_spec m e Hv) as (Hc & He & Hmin).
    unfold SFdiv_core_binary.
    change (Zdigits2 (Z.pos 4503599627370496)) with 53.
    set (e' := Z.min (fexp prec emax (Zdigits2 (Z.pos m) + e - (53 + -52))) (e - -52)).
    assert (-1074 <= e' <= e) as He'.
    { unfold e'. rewrite fexp_spec in *. lia. }
    destruct (e - -52 - e') as [|p|p] eqn:Es; try lia.
    rewrite Z.shiftl_mul_pow2 by lia. rewrite <- Es.
    change (Z.pos 4503599627370496) with (2 ^ 52).
    assert (0 < 2 ^ (e - e')) as Hp by (apply Z.pow_pos_nonneg; lia).
    assert (Z.pos m * 2 ^ (e - -52 - e') = Z.pos m * 2 ^ (e - e') * 2 ^ 52) as Hm.
    { rewrite <- Z.mul_assoc, <- Z.pow_add_r by lia. do 2 f_equal. lia. }
    pose proof (Z_div_mod (Z.pos m * 2 ^ (e - -52 - e')) (2 ^ 52) ltac:(lia)) as Hdm.
    destruct (Z.div_eucl (Z.pos m * 2 ^ (e - -52 - e')) (2 ^ 52)) as [q r].
    destruct Hdm as [Hdm Hr]. rewrite Hm in Hdm.
    assert (q = Z.pos m * 2 ^ (e - e')) as -> by nia.
    assert (r = 0) as -> by lia.
    rewrite new_location_zero.
    replace (xorb s false) with s by (by destruct s).
    replace e' with (e - (e - e')) at 2 by lia.
    apply round_aux_shifted; [exact Hv|lia].
Qed.

(** ** Doubles up to the sign of zero *)

Definition sf_zero (x : spec_float) : bool :=
  match x with S754_zero _ => true | _ => false end.

Definition sf_finite (x : spec_float) : bool :=
  match x with S754_zero _ | S754_finite _ _ _ => true | _ => false end.

Definition sf_eqv (x y : spec_float) : Prop :=
  x = y \/ (sf_zero x = true /\ sf_zero y = true).

Lemma SFadd_eqv (x x' y y' : spec_float) :
  sf_eqv x x' -> sf_eqv y y' -> sf_eqv (SF64add x y) (SF64add x' y').
Proof.
  intros [->|[Hx Hx']] [->|[Hy Hy']]; [by left| | |].
  - destruct y as [sy| | |]; try done. destruct y' as [sy'| | |]; try done.
    destruct x' as [s|s| |s m e]; cbn [SF64add SFadd]; [|by left..].
    right. by destruct s, sy, sy'.
  - destruct x as [sx| | |]; try done. destruct x' as [sx'| | |]; try done.
    destruct y' as [s|s| |s m e]; cbn [SF64add SFadd]; [|by left..].
    right. by destruct sx, sx', s.
  - destruct x as [sx| | |]; try done. destruct x' as [sx'| | |]; try done.
    destruct y as [sy| | |]; try done. destruct y' as [sy'| | |]; try done.
    cbn [SF64add SFadd]. right. by destruct sx, sx', sy, sy'.
Qed.

Lemma SFmul_eqv (x x' y y' : spec_float) :
  sf_eqv x x' -> sf_eqv y y' -> sf_eqv (SF64mul x y) (SF64mul x' y').
Proof.
  intros [->|[Hx Hx']] [->|[Hy Hy']]; [by left| | |].
  - destruct y as [sy| | |]; try done. destruct y' as [sy'| | |]; try done.
    destruct x' as [s|s| |s m e]; cbn [SF64mul SFmul]; (by left) || by right.
  - destruct x as [sx| | |]; try done. destruct x' as [sx'| | |]; try done.
    destruct y' as [s|s| |s m e]; cbn [SF64mul SFmul]; (by left) || by right.
  - destruct x as [sx| | |]; try done. destruct x' as [sx'| | |]; try done.
    destruct y as [sy| | |]; try done. destruct y' as [sy'| | |]; try done.
    cbn [SF64mul SFmul]. by right.
Qed.

Lemma SFopp_eqv (x x' : spec_float) : sf_eqv x x' -> sf_eqv (SFopp x) (SFopp x').
Proof.
  intros [->|[Hx Hx']]; [by left|].
  destruct x as [sx| | |]; try done. destruct x' as [sx'| | |]; try done. by right.
Qed.

(** The same on primitive floats. *)
Definition feq (x y : float) : Prop := sf_eqv (Prim2SF x) (Prim2SF y).
Definition ffinite (x : float) : bool := sf_finite (Prim2SF x).

#[global] Instance feq_equivalence : Equivalence feq.
Proof.
  split.
  - intros x. by left.
  - intros x y [H|[H1 H2]]; [by left|by right].
  - intros x y z [H|[H1 H2]] [H'|[H1' H2']].
    + left. congruence.
    + right. unfold feq in *. split; [by rewrite H|done].
    + right. split; [done|]. by rewrite <- H'.
    + by right.
Qed.

#[global] Instance fadd_proper : Proper (feq ==> feq ==> feq) PrimFloat.add.
Proof.
  intros x x' Hx y y' Hy. unfold feq. rewrite !FloatAxioms.add_spec.
  by apply SFadd_eqv.
Qed.

#[global] Instance fmul_proper : Proper (feq ==> feq ==> feq) PrimFloat.mul.
Proof.
  intros x x' Hx y y' Hy. unfold feq. rewrite !FloatAxioms.mul_spec.
  by apply SFmul_eqv.
Qed.

#[global] Instance fopp_proper : Proper (feq ==> feq) PrimFloat.opp.
Proof.
  intros x x' Hx. unfold feq. rewrite !FloatAxioms.opp_spec. by apply SFopp_eqv.
Qed.

Lemma feq_eq (x y : float) : feq x y -> ffinite y = true -> (x =? y)%float = true.
Proof.
  unfold feq, ffinite. intros [H|[H1 H2]] Hy; rewrite FloatAxioms.eqb_spec.
  - rewrite H. destruct (Prim2SF y) as [s|s| |s m e]; try done.
    + cbn. by rewrite Z.compare_refl, Pos.compare_cont_refl; destruct s.
  - destruct (Prim2SF x); try done. by destruct (Prim2SF y).
Qed.

Lemma fmul_one_r (x : float) : (x * 1)%float = x.
Proof.
  apply Prim2SF_inj. rewrite FloatAxioms.mul_spec.
  change (Prim2SF 1) with sf_one. apply SFmul_one_r, Prim2SF_valid.
Qed.

Lemma fmul_one_l (x : float) : (1 * x)%float = x.
Proof.
  apply Prim2SF_inj. rewrite FloatAxioms.mul_spec.
  change (Prim2SF 1) with sf_one. apply SFmul_one_l, Prim2SF_valid.
Qed.

Lemma fdiv_one (x : float) : (x / 1)%float = x.
Proof.
  apply Prim2SF_inj. rewrite FloatAxioms.div_spec.
  change (Prim2SF 1) with sf_one. apply SFdiv_one, Prim2SF_valid.
Qed.

Lemma fmul_zero_r (x : float) : ffinite x = true -> feq (x * 0) 0.
Proof.
  unfold ffinite, feq. rewrite FloatAxioms.mul_spec.
  change (Prim2SF 0) with (S754_zero false).
  destruct (Prim2SF x); try done; intros _; by right.
Qed.

Lemma fmul_zero_l (x : float) : ffinite x = true -> feq (0 * x) 0.
Proof.
  unfold ffinite, feq. rewrite FloatAxioms.mul_spec.
  change (Prim2SF 0) with (S754_zero false).
  destruct (Prim2SF x); try done; intros _; by right.
Qed.

Lemma fadd_zero_r (x : float) : feq (x + 0) x.
Proof.
  unfold feq. rewrite FloatAxioms.add_spec.
  change (Prim2SF 0) with (S754_zero false).
  destruct (Prim2SF x) as [s| | |]; cbn [SF64add SFadd]; try (by left).
  right. by destruct s.
Qed.

Lemma fadd_zero_l (x : float) : feq (0 + x) x.
Proof.
  unfold feq. rewrite FloatAxioms.add_spec.
  change (Prim2SF 0) with (S754_zero false).
  destruct (Prim2SF x) as [s| | |]; cbn [SF64add SFadd]; try (by left).
  right. by destruct s.
Qed.

Lemma ffinite_opp (x : float) : ffinite (- x) = ffinite x.
Proof. unfold ffinite. rewrite FloatAxioms.opp_spec. by destruct (Prim2SF x). Qed.

Lemma ffinite_add (x y : float) :
  ffinite (x + y) = true -> ffinite x = true /\ ffinite y = true.
Proof.
  unfold ffinite. rewrite FloatAxioms.add_spec.
  destruct (Prim2SF x) as [sx|sx| |sx mx ex], (Prim2SF y) as [sy|sy| |sy my ey];
    cbn [SF64add SFadd sf_finite]; try done; try (by intros _; split).
  all: by destruct sx, sy.
Qed.

Lemma ffinite_mul (x y : float) :
  ffinite (x * y) = true -> ffinite x = true /\ ffinite y = true.
Proof.
  unfold ffinite. rewrite FloatAxioms.mul_spec.
  destruct (Prim2SF x) as [sx|sx| |sx mx ex], (Prim2SF y) as [sy|sy| |sy my ey];
    cbn [SF64mul SFmul sf_finite]; try done; by intros _; split.
Qed.

Lemma feq_finite (x y : float) : feq x y -> ffinite x = ffinite y.
Proof.
  unfold feq, ffinite. intros [->|[H1 H2]]; [done|].
  destruct (Prim2SF x); try done. by destruct (Prim2SF y).
Qed.

Lemma feq_one (x : float) : feq x 1 -> x = 1%float.
Proof.
  unfold feq. intros [H|[_ H]]; [by apply Prim2SF_inj|done].
Qed.

(** ** The matrices of a rotation about a pivot, in doubles *)

Definition meq (a b : Mat3 (T := float)) : Prop :=
  let '((a00, a01, a02), (a10, a11, a12), (a20, a21, a22)) := a in
  let '((b00, b01, b02), (b10, b11, b12), (b20, b21, b22)) := b in
  feq a00 b00 /\ feq a01 b01 /\ feq a02 b02
  /\ feq a10 b10 /\ feq a11 b11 /\ feq a12 b12
  /\ feq a20 b20 /\ feq a21 b21 /\ feq a22 b22.

Ltac float_ops :=
  unfold mat3_mul, mat3_translate, mat3_rotate_cs, mat3_apply_to_point;
  unfold sadd, smul, sneg, sdiv, s0, s1, float_scalar.

Ltac finite_side :=
  rewrite ?ffinite_opp; first [assumption | reflexivity].

Ltac fnorm :=
  repeat first
    [ rewrite fmul_one_r | rewrite fmul_one_l
    | rewrite fmul_zero_r by finite_side | rewrite fmul_zero_l by finite_side
    | rewrite fadd_zero_r | rewrite fadd_zero_l ].

Lemma mat3_mul_meq (a b b' : Mat3 (T := float)) :
  meq b b' -> meq (mat3_mul a b) (mat3_mul a b').
Proof.
  destruct a as [[[[a00 a01] a02] [[a10 a11] a12]] [[a20 a21] a22]].
  destruct b as [[[[b00 b01] b02] [[b10 b11] b12]] [[b20 b21] b22]].
  destruct b' as [[[[c00 c01] c02] [[c10 c11] c12]] [[c20 c21] c22]].
  unfold meq. float_ops.
  intros (H00 & H01 & H02 & H10 & H11 & H12 & H20 & H21 & H22).
  repeat split;
    rewrite ?H00, ?H01, ?H02, ?H10, ?H11, ?H12, ?H20, ?H21, ?H22; reflexivity.
Qed.

Lemma rotate_translate (c s qx qy : float) :
  ffinite c = true -> ffinite s = true -> ffinite qx = true -> ffinite qy = true ->
  meq (mat3_mul (mat3_rotate_cs c s) (mat3_translate qx qy))
      ((c, - s, c * qx + (- s) * qy), (s, c, s * qx + c * qy), (0, 0, 1))%float.
Proof.
  intros Hc Hs Hx Hy. unfold meq. float_ops.
  repeat split; fnorm; reflexivity.
Qed.

Lemma translate_affine (a b c d tx ty px py : float) :
  ffinite a = true -> ffinite b = true -> ffinite c = true -> ffinite d = true ->
  ffinite tx = true -> ffinite ty = true -> ffinite px = true -> ffinite py = true ->
  meq (mat3_mul (mat3_translate px py) ((a, b, tx), (c, d, ty), (0, 0, 1))%float)
      ((a, b, tx + px), (c, d, ty + py), (0, 0, 1))%float.
Proof.
  intros Ha Hb Hc Hd Htx Hty Hpx Hpy. unfold meq. float_ops.
  repeat split; fnorm; reflexivity.
Qed.

Lemma meq_trans (a b c : Mat3 (T := float)) : meq a b -> meq b c -> meq a c.
Proof.
  destruct a as [[[[a00 a01] a02] [[a10 a11] a12]] [[a20 a21] a22]].
  destruct b as [[[[b00 b01] b02] [[b10 b11] b12]] [[b20 b21] b22]].
  destruct c as [[[[c00 c01] c02] [[c10 c11] c12]] [[c20 c21] c22]].
  unfold meq.
  intros (H00 & H01 & H02 & H10 & H11 & H12 & H20 & H21 & H22)
         (G00 & G01 & G02 & G10 & G11 & G12 & G20 & G21 & G22).
  repeat split; etransitivity; eassumption.
Qed.

(** The rotated pivot, the rotated negated pivot, and the coordinates that
    the code returns. *)
Definition rotated_x (px py c s : float) : float := (c * px + (- s) * py)%float.
Definition rotated_y (px py c s : float) : float := (s * px + c * py)%float.
Definition shift_x (px py c s : float) : float := (c * (- px) + (- s) * (- py))%float.
Definition shift_y (px py c s : float) : float := (s * (- px) + c * (- py))%float.
Definition pivot_x (px py c s : float) : float :=
  (rotated_x px py c s + (shift_x px py c s + px))%float.
Definition pivot_y (px py c s : float) : float :=
  (rotated_y px py c s + (shift_y px py c s + py))%float.

Lemma pivot_finite (px py c s : float) :
  ffinite (pivot_x px py c s) = true -> ffinite (pivot_y px py c s) = true ->
  ffinite px = true /\ ffinite py = true /\ ffinite c = true /\ ffinite s = true
  /\ ffinite (shift_x px py c s) = true /\ ffinite (shift_y px py c s) = true.
Proof.
  unfold pivot_x, pivot_y, rotated_x. intros Hx Hy.
  apply ffinite_add in Hx as [Hr Hx]. apply ffinite_add in Hx as [Htx Hpx].
  apply ffinite_add in Hy as [_ Hy]. apply ffinite_add in Hy as [Hty Hpy].
  apply ffinite_add in Hr as [Hc Hs]. apply ffinite_mul in Hc as [Hc _].
  apply ffinite_mul in Hs as [Hs _]. rewrite ffinite_opp in Hs. done.
Qed.

Lemma around_point_rotate_double (px py c s : float) :
  ffinite (pivot_x px py c s) = true -> ffinite (pivot_y px py c s) = true ->
  exists hx hy,
    mat3_apply_to_point (around_point (px, py) (mat3_rotate_cs c s)) (px, py)
    = (hx, hy)
    /\ feq hx (pivot_x px py c s) /\ feq hy (pivot_y px py c s).
Proof.
  intros Hx Hy.
  destruct (pivot_finite px py c s Hx Hy) as (Hpx & Hpy & Hc & Hs & Htx & Hty).
  assert (meq (around_point (px, py) (mat3_rotate_cs c s))
              ((c, - s, shift_x px py c s + px), (s, c, shift_y px py c s + py),
               (0, 0, 1))%float) as Hm.
  { unfold around_point. eapply meq_trans.
    - apply mat3_mul_meq. apply rotate_translate; finite_side.
    - apply translate_affine; finite_side. }
  destruct (around_point (px, py) (mat3_rotate_cs c s))
    as [[[[m00 m01] m02] [[m10 m11] m12]] [[m20 m21] m22]].
  destruct Hm as (H00 & H01 & H02 & H10 & H11 & H12 & H20 & H21 & H22).
  float_ops.
  assert (m20 * px + m21 * py + m22 * 1 = 1)%float as ->.
  { apply feq_one. rewrite H20, H21, H22. fnorm. reflexivity. }
  change (abs 1 <? 0x1.19799812dea11p-40)%float with false. cbv iota.
  rewrite !fdiv_one. eexists _, _. split; [reflexivity|].
  unfold pivot_x, pivot_y, rotated_x, rotated_y.
  split.
  - rewrite H00, H01, H02. fnorm. reflexivity.
  - rewrite H10, H11, H12. fnorm. reflexivity.
Qed.

(** ** Negation commutes with the operations *)

Lemma round_aux_opp (s : bool) (M E : Z) (l : location) :
  binary_round_aux prec emax (negb s) M E l
  = SFopp (binary_round_aux prec emax s M E l).
Proof.
  unfold binary_round_aux. destruct (shr_fexp prec emax M E l) as [mrs e'].
  destruct (shr_fexp prec emax _ e' loc_Exact) as [mrs' e''].
  destruct (shr_m mrs'); [done| |done]. by destruct (e'' <=? emax - prec).
Qed.

Lemma binary_round_opp (s : bool) (m : positive) (e : Z) :
  binary_round prec emax (negb s) m e = SFopp (binary_round prec emax s m e).
Proof.
  unfold binary_round. destruct (shl_align m e _) as [mz ez].
  apply round_aux_opp.
Qed.

Lemma xorb_negb_right (a b : bool) : xorb a (negb b) = negb (xorb a b).
Proof. by destruct a, b. Qed.

Lemma xorb_negb_left (a b : bool) : xorb (negb a) b = negb (xorb a b).
Proof. by destruct a, b. Qed.

Lemma SFmul_opp_r (x y : spec_float) :
  SF64mul x (SFopp y) = SFopp (SF64mul x y).
Proof.
  destruct x as [sx|sx| |sx mx ex], y as [sy|sy| |sy my ey];
    cbn [SF64mul SFmul SFopp]; try done;
    rewrite ?xorb_negb_right; try done.
  apply round_aux_opp.
Qed.

Lemma SFmul_opp_l (x y : spec_float) :
  SF64mul (SFopp x) y = SFopp (SF64mul x y).
Proof.
  destruct x as [sx|sx| |sx mx ex], y as [sy|sy| |sy my ey];
    cbn [SF64mul SFmul SFopp]; try done;
    rewrite ?xorb_negb_left; try done.
  apply round_aux_opp.
Qed.

Lemma cond_Zopp_negb (s : bool) (z : Z) : cond_Zopp (negb s) z = - cond_Zopp s z.
Proof. destruct s; cbn; lia. Qed.

Lemma binary_normalize_opp (m e : Z) :
  sf_eqv (binary_normalize prec emax (- m) e false)
         (SFopp (binary_normalize prec emax m e false)).
Proof.
  destruct m as [|p|p]; cbn [Z.opp binary_normalize].
  - by right.
  - left. apply (binary_round_opp false).
  - left. change (binary_round prec emax true p e)
      with (binary_round prec emax (negb false) p e).
    rewrite binary_round_opp. change (- Z.neg p) with (Z.pos p).
    cbn [binary_normalize].
    destruct (binary_round prec emax false p e) as [[]|[]| |[] m' e']; done.
Qed.

Lemma SFadd_opp (x y : spec_float) :
  sf_eqv (SF64add (SFopp x) (SFopp y)) (SFopp (SF64add x y)).
Proof.
  destruct x as [sx|sx| |sx mx ex], y as [sy|sy| |sy my ey];
    cbn [SF64add SFadd SFopp]; try (by left).
  - right. by destruct sx, sy.
  - left. by destruct sx, sy.
  - rewrite !cond_Zopp_negb, <- Z.opp_add_distr. apply binary_normalize_opp.
Qed.

(** ** The value of a double, and the error of an addition *)

(** A finite double as a multiple of the smallest positive double,
    [2^-1074]. *)
Definition sf_units (x : spec_float) : Z :=
  match x with
  | S754_finite s m e => cond_Zopp s (Z.pos m) * 2 ^ (e + 1074)
  | _ => 0
  end.

Definition funits (x : float) : Z := sf_units (Prim2SF x).

Lemma sf_units_opp (x : spec_float) : sf_units (SFopp x) = - sf_units x.
Proof.
  destruct x as [s|s| |s m e]; cbn [SFopp sf_units]; try done.
  rewrite cond_Zopp_negb. lia.
Qed.

Lemma sf_units_eqv (x y : spec_float) : sf_eqv x y -> sf_units x = sf_units y.
Proof.
  intros [->|[Hx Hy]]; [done|]. destruct x; try done. by destruct y.
Qed.

Lemma rnd_error (m n : Z) : 0 <= n -> 2 * Z.abs (rnd m n * 2 ^ n - m) <= 2 ^ n.
Proof.
  intros Hn. assert (0 < 2 ^ n) as Hp by (apply Z.pow_pos_nonneg; lia).
  unfold rnd. cbv zeta.
  pose proof (Z.div_mod m (2 ^ n) ltac:(lia)) as Hdm.
  pose proof (Z.mod_pos_bound m (2 ^ n) Hp) as Hr.
  destruct (Z.compare_spec (2 * (m mod 2 ^ n)) (2 ^ n)) as [He|Hl|Hg];
    [destruct (Z.even _)| |]; nia.
Qed.

(** The value of a rounded [M * 2^E], when it is finite. *)
Lemma round_aux_units (s : bool) (M E : Z) :
  0 < M -> E <= rexp M E ->
  sf_finite (binary_round_aux prec emax s M E loc_Exact) = true ->
  sf_units (binary_round_aux prec emax s M E loc_Exact)
  = cond_Zopp s (rmant M E) * 2 ^ (rexp M E + 1074).
Proof.
  intros HM Ht. unfold rmant, rexp in *. unfold binary_round_aux.
  destruct (round_first_stage M E HM Ht) as (mrs & Hs & Hr).
  rewrite Hs, Hr.
  pose proof (rnd_below M E HM Ht) as Hb.
  set (t := fexp prec emax (Zdigits2 M + E)) in *.
  set (m' := rnd M (t - E)) in *.
  assert (-1074 <= t) as Htmin by (unfold t; rewrite fexp_spec; lia).
  unfold shr_fexp. cbn [shr_record_of_loc].
  destruct (Z.eq_dec m' 0) as [H0|H0].
  { rewrite H0 in *. cbn [Zdigits2]. rewrite fexp_spec.
    replace (Z.max (0 + t - 53) (-1074) - t) with (- Z.min 53 (t + 1074)) by lia.
    intros _.
    destruct (Z.min 53 (t + 1074)) as [|p|p] eqn:Emin; try lia;
      cbn [Z.opp shr shr_m]; cbn [sf_units]; by destruct s. }
  destruct (Z.eq_dec m' (2 ^ 53)) as [H53|H53].
  { rewrite H53 in *. change (Zdigits2 (2 ^ 53)) with 54.
    rewrite fexp_spec.
    replace (Z.max (54 + t - 53) (-1074) - t) with 1 by lia.
    rewrite shr_shift by lia. cbn [shr_m].
    change (2 ^ 53 / 2 ^ 1) with (Z.pos 4503599627370496). cbv iota.
    destruct (t + 1 <=? emax - prec); [|done]. intros _. cbn [sf_units].
    replace (t + 1 + 1074) with (t + 1074 + 1) by lia.
    rewrite Z.pow_add_r by lia.
    change (Z.pos 4503599627370496) with (2 ^ 52).
    destruct s; cbn [cond_Zopp]; change (2 ^ 53) with (2 ^ 52 * 2 ^ 1); lia. }
  assert (Zdigits2 m' <= 53) as Hd by (apply Zdigits2_le; lia).
  destruct (Zdigits2_bounds m' ltac:(lia)) as [_ Hdpos].
  rewrite fexp_spec.
  replace (Z.max (Zdigits2 m' + t - 53) (-1074) - t)
    with (- Z.min (53 - Zdigits2 m') (t + 1074)) by lia.
  assert (shr {| shr_m := m'; shr_r := false; shr_s := false |} t
            (- Z.min (53 - Zdigits2 m') (t + 1074))
          = ({| shr_m := m'; shr_r := false; shr_s := false |}, t)) as Hshr.
  { destruct (Z.min (53 - Zdigits2 m') (t + 1074)) as [|p|p] eqn:Emin; try lia; done. }
  rewrite Hshr. cbn [shr_m].
  destruct m' as [|p|p]; try lia.
  destruct (t <=? emax - prec); [|done]. intros _. reflexivity.
Qed.

Lemma shl_align_snd (m : positive) (e e' : Z) :
  snd (shl_align m e e') = Z.min e e'.
Proof.
  unfold shl_align. destruct (e' - e) as [|d|d] eqn:Ed; cbn [snd]; lia.
Qed.

Lemma shl_align_above (m : positive) (e e' : Z) :
  e <= e' -> shl_align m e e' = (m, e).
Proof.
  intros He. unfold shl_align. destruct (e' - e) as [|d|d] eqn:Ed; try done. lia.
Qed.

(** Rounding [m * 2^E], for [E] not below the smallest exponent, is off by
    at most the fraction [2^-53] of the value. *)
Lemma binary_round_units (s : bool) (m : positive) (E : Z) :
  -1074 <= E ->
  sf_finite (binary_round prec emax s m E) = true ->
  2 ^ 53 * Z.abs (sf_units (binary_round prec emax s m E)
                  - cond_Zopp s (Z.pos m) * 2 ^ (E + 1074))
  <= Z.pos m * 2 ^ (E + 1074).
Proof.
  intros HE. unfold binary_round.
  change (Z.pos (digits2_pos m)) with (Zdigits2 (Z.pos m)).
  fold (rexp (Z.pos m) E). set (f := rexp (Z.pos m) E).
  assert (-1074 <= f) as Hf by (unfold f, rexp; rewrite fexp_spec; lia).
  assert (0 < 2 ^ (E + 1074)) as HpE by (apply Z.pow_pos_nonneg; lia).
  destruct (Z.le_gt_cases E f) as [Hle|Hgt].
  - rewrite shl_align_above by done. intros Hfin.
    rewrite round_aux_units by (done || lia). fold f.
    unfold rmant. fold f. set (n := f - E).
    pose proof (rnd_error (Z.pos m) n ltac:(lia)) as Herr.
    assert (0 < 2 ^ n) as Hpn by (apply Z.pow_pos_nonneg; lia).
    replace (f + 1074) with (n + (E + 1074)) by lia.
    rewrite Z.pow_add_r by lia.
    assert (cond_Zopp s (rnd (Z.pos m) n) * (2 ^ n * 2 ^ (E + 1074))
            - cond_Zopp s (Z.pos m) * 2 ^ (E + 1074)
            = cond_Zopp s (rnd (Z.pos m) n * 2 ^ n - Z.pos m) * 2 ^ (E + 1074)) as ->.
    { destruct s; cbn [cond_Zopp]; ring. }
    rewrite Z.abs_mul, (Z.abs_eq (2 ^ (E + 1074))) by lia.
    assert (Z.abs (cond_Zopp s (rnd (Z.pos m) n * 2 ^ n - Z.pos m))
            = Z.abs (rnd (Z.pos m) n * 2 ^ n - Z.pos m)) as ->.
    { destruct s; cbn [cond_Zopp]; lia. }
    assert (2 ^ 53 * Z.abs (rnd (Z.pos m) n * 2 ^ n - Z.pos m) <= Z.pos m) as Hgoal;
      [|rewrite Z.mul_assoc; apply Z.mul_le_mono_nonneg_r; [lia|exact Hgoal]].
    destruct (Z.eq_dec n 0) as [Hn0|Hn0].
    + rewrite Hn0, rnd_zero. change (2 ^ 0) with 1. lia.
    + assert (f = Zdigits2 (Z.pos m) + E - 53) as Hfe.
      { unfold n in Hn0. clearbody n. unfold f, rexp in *.
        rewrite fexp_spec in *. lia. }
      destruct (Zdigits2_bounds (Z.pos m) ltac:(lia)) as [[Hl _] _].
      assert (2 ^ (Zdigits2 (Z.pos m) - 1) = 2 ^ 52 * 2 ^ n) as Hpow.
      { rewrite <- Z.pow_add_r by lia. f_equal. unfold n. lia. }
      assert (2 ^ 53 = 2 * 2 ^ 52) as E53 by reflexivity.
      assert (0 < 2 ^ 52) by reflexivity. nia.
  - destruct (shl_align m E f) as [mz ez] eqn:Esh.
    pose proof (shl_align_fst m E f ltac:(lia)) as Hfst.
    pose proof (shl_align_snd m E f) as Hsnd. rewrite Esh in Hfst, Hsnd.
    cbn [fst snd] in Hfst, Hsnd. rewrite Z.min_r in Hsnd by lia. subst ez.
    assert (0 < 2 ^ (E - f)) as Hpn by (apply Z.pow_pos_nonneg; lia).
    assert (rexp (Z.pos mz) f = f) as Hrexp.
    { unfold rexp. rewrite Hfst, Zdigits2_shift by lia.
      replace (Zdigits2 (Z.pos m) + (E - f) + f) with (Zdigits2 (Z.pos m) + E) by lia.
      done. }
    intros Hfin. rewrite round_aux_units by (done || (rewrite ?Hrexp; lia)).
    unfold rmant. rewrite Hrexp, Z.sub_diag, rnd_zero, Hfst.
    assert (cond_Zopp s (Z.pos m * 2 ^ (E - f)) * 2 ^ (f + 1074)
            = cond_Zopp s (Z.pos m) * 2 ^ (E + 1074)) as ->.
    { replace (E + 1074) with ((E - f) + (f + 1074)) by lia.
      rewrite (Z.pow_add_r 2 (E - f) (f + 1074)) by lia.
      destruct s; cbn [cond_Zopp]; ring. }
    rewrite Z.sub_diag. change (Z.abs 0) with 0. rewrite Z.mul_0_r.
    apply Z.mul_nonneg_nonneg; lia.
Qed.

Lemma SFadd_units (a b : spec_float) :
  valid_binary a = true -> valid_binary b = true ->
  sf_finite (SF64add a b) = true ->
  2 ^ 53 * Z.abs (sf_units (SF64add a b) - (sf_units a + sf_units b))
  <= Z.abs (sf_units a + sf_units b).
Proof.
  intros Ha Hb.
  destruct a as [sa|sa| |sa ma ea], b as [sb|sb| |sb mb eb]; cbn [SF64add SFadd];
    try done.
  - intros _. by destruct sa, sb; vm_compute.
  - intros _. cbn [sf_units]. set (X := cond_Zopp _ _ * _).
    replace (X - (0 + X)) with 0 by lia. change (Z.abs 0) with 0. lia.
  - by destruct sa, sb.
  - intros _. cbn [sf_units]. set (X := cond_Zopp _ _ * _).
    replace (X - (X + 0)) with 0 by lia. change (Z.abs 0) with 0. lia.
  - destruct (bounded_spec ma ea Ha) as (_ & _ & Hea).
    destruct (bounded_spec mb eb Hb) as (_ & _ & Heb).
    set (ez := Z.min ea eb).
    pose proof (shl_align_fst ma ea ez ltac:(lia)) as Hfa.
    pose proof (shl_align_fst mb eb ez ltac:(lia)) as Hfb.
    rewrite Hfa, Hfb. cbn [sf_units].
    assert (0 < 2 ^ (ez + 1074)) as Hp by (apply Z.pow_pos_nonneg; lia).
    set (S := cond_Zopp sa (Z.pos ma * 2 ^ (ea - ez))
              + cond_Zopp sb (Z.pos mb * 2 ^ (eb - ez))).
    assert (cond_Zopp sa (Z.pos ma) * 2 ^ (ea + 1074)
            + cond_Zopp sb (Z.pos mb) * 2 ^ (eb + 1074)
            = S * 2 ^ (ez + 1074)) as ->.
    { unfold S. replace (ea + 1074) with ((ea - ez) + (ez + 1074)) by lia.
      replace (eb + 1074) with ((eb - ez) + (ez + 1074)) by lia.
      rewrite (Z.pow_add_r 2 (ea - ez)), (Z.pow_add_r 2 (eb - ez)) by lia.
      destruct sa, sb; cbn [cond_Zopp]; ring. }
    clearbody S. destruct S as [|p|p]; cbn [binary_normalize].
    + intros _. cbn [sf_units Z.mul]. lia.
    + intros Hfin. pose proof (binary_round_units false p ez ltac:(lia) Hfin) as Hr.
      cbn [cond_Zopp] in Hr. rewrite (Z.abs_eq (Z.pos p * _)) by lia. exact Hr.
    + intros Hfin. pose proof (binary_round_units true p ez ltac:(lia) Hfin) as Hr.
      cbn [cond_Zopp] in Hr. change (- Z.pos p) with (Z.neg p) in Hr.
      rewrite (Z.abs_neq (Z.neg p * _)) by lia.
      replace (- (Z.neg p * 2 ^ (ez + 1074))) with (Z.pos p * 2 ^ (ez + 1074)) by lia.
      exact Hr.
Qed.

Lemma fadd_units (x y : float) :
  ffinite (x + y) = true ->
  2 ^ 53 * Z.abs (funits (x + y) - (funits x + funits y))
  <= Z.abs (funits x + funits y).
Proof.
  unfold ffinite, funits. rewrite FloatAxioms.add_spec.
  apply SFadd_units; apply Prim2SF_valid.
Qed.

Lemma funits_opp (x : float) : funits (- x) = - funits x.
Proof. unfold funits. rewrite FloatAxioms.opp_spec. apply sf_units_opp. Qed.

Lemma funits_feq (x y : float) : feq x y -> funits x = funits y.
Proof. apply sf_units_eqv. Qed.

Lemma fmul_opp_r (x y : float) : (x * - y)%float = (- (x * y))%float.
Proof.
  apply Prim2SF_inj.
  rewrite FloatAxioms.opp_spec, !FloatAxioms.mul_spec, FloatAxioms.opp_spec.
  apply SFmul_opp_r.
Qed.

Lemma fmul_opp_l (x y : float) : (- x * y)%float = (- (x * y))%float.
Proof.
  apply Prim2SF_inj.
  rewrite FloatAxioms.opp_spec, !FloatAxioms.mul_spec, FloatAxioms.opp_spec.
  apply SFmul_opp_l.
Qed.

Lemma fadd_opp (x y : float) : feq (- x + - y) (- (x + y)).
Proof.
  unfold feq.
  rewrite FloatAxioms.opp_spec, !FloatAxioms.add_spec, !FloatAxioms.opp_spec.
  apply SFadd_opp.
Qed.

Lemma fopp_involutive (x : float) : (- - x)%float = x.
Proof.
  apply Prim2SF_inj. rewrite !FloatAxioms.opp_spec.
  by destruct (Prim2SF x) as [[]|[]| |[] m e].
Qed.

(** The rotated negated pivot is the opposite of the rotated pivot. *)
Lemma shift_rotated_x (px py c s : float) :
  feq (shift_x px py c s) (- rotated_x px py c s).
Proof.
  unfold shift_x, rotated_x.
  rewrite !fmul_opp_r, !fmul_opp_l. rewrite <- fadd_opp. reflexivity.
Qed.

Lemma shift_rotated_y (px py c s : float) :
  feq (shift_y px py c s) (- rotated_y px py c s).
Proof.
  unfold shift_y, rotated_y.
  rewrite !fmul_opp_r. rewrite <- fadd_opp. reflexivity.
Qed.

(** Adding back what was subtracted: [r + ((- r) + p)] is [p] up to the
    rounding of the two sums. *)
Lemma cancel_units (r t p : float) :
  feq t (- r) -> ffinite (r + (t + p)) = true ->
  2 ^ 51 * Z.abs (funits (r + (t + p)) - funits p)
  <= Z.abs (funits p) + Z.abs (funits r).
Proof.
  intros Ht Hfin. pose proof (ffinite_add _ _ Hfin) as [_ Hd].
  pose proof (fadd_units _ _ Hfin) as E2. pose proof (fadd_units _ _ Hd) as E1.
  rewrite (funits_feq _ _ Ht), funits_opp in E1.
  assert (2 ^ 53 = 4 * 2 ^ 51) as E53 by reflexivity.
  assert (0 < 2 ^ 51) as H51 by reflexivity.
  set (k := 2 ^ 51) in *. clearbody k. rewrite E53 in E1, E2. lia.
Qed.

Lemma around_point_pivot_bounds (px py c s : float) :
  ffinite (pivot_x px py c s) = true -> ffinite (pivot_y px py c s) = true ->
  exists hx hy,
    mat3_apply_to_point (around_point (px, py) (mat3_rotate_cs c s)) (px, py)
    = (hx, hy)
    /\ (hx =? pivot_x px py c s)%float = true
    /\ (hy =? pivot_y px py c s)%float = true
    /\ 2 ^ 51 * Z.abs (funits hx - funits px)
       <= Z.abs (funits px) + Z.abs (funits (rotated_x px py c s))
    /\ 2 ^ 51 * Z.abs (funits hy - funits py)
       <= Z.abs (funits py) + Z.abs (funits (rotated_y px py c s)).
Proof.
  intros Hx Hy.
  destruct (around_point_rotate_double px py c s Hx Hy) as (hx & hy & Hr & Ex & Ey).
  exists hx, hy. split; [done|].
  split; [by apply feq_eq|]. split; [by apply feq_eq|].
  rewrite (funits_feq _ _ Ex), (funits_feq _ _ Ey). split.
  - apply cancel_units; [apply shift_rotated_x|exact Hx].
  - apply cancel_units; [apply shift_rotated_y|exact Hy].
Qed.

(** C9, amended: for every pivot [p] and every angle, whatever [math.cos],
    [math.sin] and [math.radians] return for it, when no operation overflows
    the matrix [translate(p) * rotate(angle) * translate(-p)] applied to [p]
    returns in each coordinate [r + (t + p)], computed in binary64, where
    [r] is the coordinate of the rotated pivot and [t] that of the rotated
    negated pivot.  That is [p] up to rounding: the result differs from [p]
    by at most [2^-51 * (|p| + |r|)] in each coordinate. *)
Theorem around_point_rotate_pivot_rounding
  (math_cos math_sin math_radians : float -> float) (angle px py : float) :
  let c := math_cos (math_radians angle) in
  let s := math_sin (math_radians angle) in
  ffinite (pivot_x px py c s) = true -> ffinite (pivot_y px py c s) = true ->
  exists hx hy,
    mat3_apply_to_point
      (around_point (px, py)
         (mat3_rotate_degrees math_cos math_sin math_radians angle)) (px, py)
    = (hx, hy)
    /\ (hx =? pivot_x px py c s)%float = true
    /\ (hy =? pivot_y px py c s)%float = true
    /\ 2 ^ 51 * Z.abs (funits hx - funits px)
       <= Z.abs (funits px) + Z.abs (funits (rotated_x px py c s))
    /\ 2 ^ 51 * Z.abs (funits hy - funits py)
       <= Z.abs (funits py) + Z.abs (funits (rotated_y px py c s)).
Proof. intros c s. apply around_point_pivot_bounds. Qed.

Lemma around_point_rotate_pivot_rounding_witness :
  let c := cos_60 in
  let s := sin_60 in
  ffinite (pivot_x 1 1 c s) = true /\ ffinite (pivot_y 1 1 c s) = true
  /\ exists hx hy,
       mat3_apply_to_point
         (around_point (1, 1)%float
            (mat3_rotate_degrees (fun _ => cos_60) (fun _ => sin_60)
               (fun _ => radians_60) 60%float)) (1, 1)%float
       = (hx, hy)
       /\ (hx =? pivot_x 1 1 c s)%float = true
       /\ (hy =? pivot_y 1 1 c s)%float = true
       /\ 2 ^ 51 * Z.abs (funits hx - funits 1)
          <= Z.abs (funits 1) + Z.abs (funits (rotated_x 1 1 c s))
       /\ 2 ^ 51 * Z.abs (funits hy - funits 1)
          <= Z.abs (funits 1) + Z.abs (funits (rotated_y 1 1 c s)).
Proof.
  cbv zeta. split; [reflexivity|]. split; [reflexivity|].
  apply (around_point_rotate_pivot_rounding (fun _ => cos_60) (fun _ => sin_60)
           (fun _ => radians_60) 60%float 1%float 1%float); reflexivity.
Defined.
